(* ===== verification/_CoqProject ===== *)
-Q . S2P
Prelude.v
PtrTree.v
RbSpec.v
RbTree.v
RbTreeFacts.v
RbTreeInsert.v
RbTreeErase.v
RbTreeUnlink.v
RbTreeWalk.v
RbTreeProps.v
ExRbTree.v
RadixTree.v
RadixFacts.v
RadixOps.v
RadixProps.v
UtilRbTree.v
UtilRbFacts.v
UtilRbInsert.v
UtilRbDelete.v
UtilRbUnlink.v
UtilRbMap.v
UtilRbProps.v
Md5.v
ConHash.v
ConRing.v
ConHashFacts.v
ConHashProps.v
Context.v
Server.v
ServerFacts.v
ServerHandlers.v
ServerProps.v
ServerMain.v
TimeHeap.v
TimeHeapProps.v
Pthread.v
PthreadFacts.v
ThreadPool.v
ThreadPoolFacts.v
ThreadPoolSteps.v
ThreadPoolProps.v
WorkQueue.v
WorkQueueFacts.v
WorkQueueSteps.v
WorkQueueProps.v
RingPool.v
RingPoolProps.v
EchoServer.v
SemOpt.v
ReadLine.v
GetNum.v
TimeWheel.v
TimeWheelProps.v
CppTimer.v
HttpFunc.v
HttpReq.v
HttpFacts.v
HttpLine.v
HttpHead.v
HttpProps.v
HttpArgs.v
HttpCodec.v
HttpRsp.v
HttpUtil.v
HttpUtilFacts.v
HttpUtilHead.v
HttpUtilProps.v
HttpUtilParse.v
HttpUtilTrip.v
ProcessPool.v
ProcessPoolFacts.v
ProcessPoolProps.v
CgiConn.v
ProcessChild.v
ProcessNet.v
ProcessTask.v
InetSockets.v
CppPool.v
