(* ===== verification/Prelude.v ===== *)
(** * c-model: a verification library

    The repository is a collection of small systems in C (and some C++): search
    trees, consistent hashing, timers, thread pools, and a server of several
    processes.  This library models the systems that carry its own logic, as
    functions over an explicit memory or as step relations, and proves what
    makes them correct; where the code does not do what it means to, the theorem
    says what it does instead.

    ** How programs are modelled

    A C function is a computation of the monad [M] of this file: from a state it
    gives a result and a state ([Ok]), performs undefined behaviour ([UB]: a load
    or a store through a pointer that is not live, an index out of an array, a
    failed [assert]) or has used up the rounds that its loop was given
    ([NoFuel]).  The state is a typed memory, the live objects by address
    ([st N E], with [load], [store], [fget], [fset], [free]), with the other
    variables of the component.  [wp m s Q] is total correctness: [m] returns
    from [s], without undefined behaviour and within its rounds, and then [Q].
    So every theorem with [wp] also says that the code terminates; the number of
    rounds is the number of live objects, the height bound or the counter that
    bounds the loop, and is given at each [loop].  [loop], [when] and [assert]
    are the control structures of C.

    Threads are those of Pthread: a step runs one thread from a call of the pthread
    library to the next as a computation of [M], which is sound while it holds
    the mutex; what the code does without the mutex is split into steps of its
    own.  A step relation interleaves the threads, and the mutex and the condition
    variables have the semantics of POSIX, spurious wake-ups included unless a
    theorem excludes them.  A theorem about a pool holds for every schedule.

    ** The parts, their files and their theorems

    - src/tree/rbtree: RbTree translates rbtree.c and rbtree.h function by function
      (the parent and the colour packed in one word, as in the source), RbTreeFacts,
      RbTreeInsert, RbTreeErase, RbTreeUnlink and RbTreeWalk hold the lemmas,
      RbTreeProps the contract: insertion and removal keep a red-black tree with
      exactly the expected in-order sequence, the four walks follow it, the height
      is logarithmic.  ExRbTree is the dictionary of ex-rbtree.c on top, proved
      against the contract of RbTreeProps.  PtrTree (a tree in memory) and RbSpec
      (colours, black height, the zipper that insertion and removal climb) are
      shared with the next part.
    - src/libconhash/util_rbtree.c: UtilRbTree, the tree with a sentinel;
      UtilRbFacts, UtilRbInsert, UtilRbDelete, UtilRbUnlink and UtilRbMap the lemmas;
      UtilRbProps the contract.
    - src/libconhash: Md5 is md5.c with the definition of RFC 1321 it is proved equal
      to; ConRing is the ring of places as an abstract map; ConHash translates
      conhash.c, conhash_inter.c and conhash_util.c over UtilRbTree; ConHashFacts
      and ConHashProps prove that each operation refines the ring, that a node that
      joins takes objects only to itself, that joining and leaving is the
      identity, and that conhash_fini frees everything once.
    - src/tree/radix-tree: RadixTree translates radix-tree.c, RadixFacts and RadixOps
      hold the lemmas, RadixProps the contract of insertion, lookup and gang
      lookup as a finite map, and what deletion breaks.
    - src/mult_process_server: Context is the pool of contexts, Server the epoll loop
      and the handlers of conn_process.c, web_server.c and proxy_server.c over an
      abstract kernel of descriptors, ServerMain the workers, statistics and the
      command line of server.c.  ServerFacts, ServerHandlers and ServerProps prove
      the invariant of all handlers (every context is free or owned by one
      connection, every descriptor has one) and that a worker serves without
      undefined behaviour while its events are distinct.
    - src/timer: TimeHeap and TimeHeapProps for time_heap.h (a tick fires exactly the
      timers that are due, in the order of their expiry), TimeWheel and
      TimeWheelProps for time_wheel.h (the wheel is a set of countdowns; a timer
      with timeout n fires in the tick number [max n 1 + 1]).  CppTimer is Timer.cpp of
      the C++ wheel, which numbers its timers: a table of numbered countdowns,
      as long as no timer is deleted after it has fired.
    - src/threadpool: Pthread and PthreadFacts (threads, the weights that bound a
      schedule); ThreadPool, ThreadPoolFacts, ThreadPoolSteps and ThreadPoolProps
      for the bounded queue of "C Implement"; WorkQueue, WorkQueueFacts,
      WorkQueueSteps and WorkQueueProps for workqueue.c (the same file serves
      src/mult_thread_server); RingPool and RingPoolProps for the ring of "C
      Implement+plus".  For each: the invariant of the queue in every schedule, the
      order in which jobs leave it, that every schedule ends with every job run,
      and the schedules in which shutting down goes wrong.  CppPool is the pool of
      ThreadPool(C++), threadpool.h and locker.h, with a semaphore: the same
      theorems for it, and that its destructor never waits for its workers.
    - src/mult_thread_server/echoserver_threaded.c: EchoServer, its connections over a
      class of the calls of libevent: each gives back what it was given, and echoes
      what it reads.
    - src/http_codec: HttpFunc is http_func.cpp, HttpReq the request of http_req.cpp and
      http_head.cpp (a machine that takes in bytes), HttpCodec the codec of
      http_server_codec.cpp and the responses of http_respond.cpp.  A byte that is
      read or written outside of its array makes the result [None], and the
      [ULONG_MAX] of the machine is an argument, since the code compares it with
      an [unsigned].  HttpLine says what a client sends; HttpFacts, HttpHead and
      HttpProps prove that a request is taken in the same way in whatever pieces
      it arrives, which requests read or write out of bounds, and when the body
      of an upload is read from a buffer that has been freed; HttpArgs that
      encoded arguments arrive as they were; HttpCodec that the length of a
      message is found exactly when its last byte is there.  HttpRsp is http_rsp.cpp
      with the output of a header.
    - src/http_codec/http/http_util.cpp: HttpUtil, the makers and the parser of the
      client side.  HttpUtilFacts has the lemmas on searches and parameters,
      HttpUtilHead those on the head of a message, HttpUtilProps the length of a
      message, HttpUtilParse the parser; HttpUtilTrip proves that requests of the
      makers are read back, that the parser never returns for a first line without
      a version, and what UrlDecode can decode.  [parseFirstLine] takes the rounds
      of its loop as an argument: one is enough when a method is found.
    - src/ProcessPool: ProcessPool translates processpool.h and the cgi_conn of
      cgin_conn.cpp over [Kern], a class of the calls they make with their laws.
      ProcessPoolFacts and ProcessPoolProps prove that every round of the parent ends
      and keeps its descriptors in order, that connections go to the living
      children in turn, and what a SIGCHLD does; CgiConn that a connection runs the
      program named by its first line in whatever pieces that arrives; ProcessChild
      that every round of a child ends, with an object for every descriptor it
      watches, and accepts one connection at most.  ProcessNet is a kernel that
      satisfies the laws, for the witnesses, with an example of a parent and two
      children that leave clients waiting.  ProcessTask is Process.h, which is
      meant to start a failed child again and never does.
    - src/Semaphore-PV, src/socket_lib, src/errno/get_num.c: SemOpt over a class of
      kernels with the documented laws of semop, ReadLine (read_line.c) over the
      results of read, InetSockets (inet_sockets.c) over a class of the calls of the
      socket library, with which descriptors each function leaves open, GetNum over
      strtol.

    ** Assumptions

    Machine integers are Z, with [wrap], [uint] and [ulong] written where the C type
    is unsigned, and an [assert] or a bound in the hypotheses where a signed
    overflow would be undefined.  The hash callbacks, [malloc] and [calloc], the
    kernel calls and the backends are arguments of the definitions, or the methods
    of a class; what is relied on (a fresh address, the laws of a semaphore or of a
    socket, distinct events) is a hypothesis of the theorem, with a witness that
    instantiates it.

    ** Not modelled

    - src/http_codec/json, a copy of a third-party library, whose styled text is an
      argument of the encoders.
    - TimeWheel.h, TimeHeap.h and the Timer of the heap in the C++ directory of src/timer,
      which repeat what TimeWheel, TimeHeap and CppTimer model.
    - error_functions.c, the set-up of the echo server (runServer and killServer),
      main functions and samples: input and output around the parts above, without
      state of their own.
    - what callbacks and jobs do, but for the pool's own state: only that they
      are called, with what, when and how often. *)
From stdpp Require Export base tactics gmap list fin_maps strings.
From Stdlib Require Export ZArith Lia.
#[export] Set Warnings "-clear-no-such-hyp".

#[global] Open Scope Z_scope.

(** ** Outcomes of a C computation *)

(** A run of a C function ends normally, performs undefined behaviour (a load
    or a store through a pointer that is not live, an index out of an array,
    a failed [assert]), or has used up the iterations its model was given. *)
Inductive outcome (A : Type) : Type :=
  | Ok (a : A)
  | UB
  | NoFuel.
Arguments Ok {A} a.
Arguments UB {A}.
Arguments NoFuel {A}.

(** Computations over a state of type [S]. *)
Definition M (S A : Type) : Type := S → outcome (A * S).

#[export] Instance M_ret (S : Type) : MRet (M S) := λ A a s, Ok (a, s).
#[export] Instance M_bind (S : Type) : MBind (M S) := λ A B f m s,
  match m s with
  | Ok (a, s') => f a s'
  | UB => UB
  | NoFuel => NoFuel
  end.
#[export] Instance M_fmap (S : Type) : FMap (M S) := λ A B f m s,
  match m s with
  | Ok (a, s') => Ok (f a, s')
  | UB => UB
  | NoFuel => NoFuel
  end.

Definition ub {S A : Type} : M S A := λ _, UB.
Definition get {S : Type} : M S S := λ s, Ok (s, s).
Definition put {S : Type} (s : S) : M S unit := λ _, Ok ((), s).
Definition gets {S A : Type} (f : S → A) : M S A := λ s, Ok (f s, s).
Definition modify {S : Type} (f : S → S) : M S unit := λ s, Ok ((), f s).

(** [when b m] is [if (b) m;] and [assert b] is the C macro. *)
Definition when {S : Type} (b : bool) (m : M S unit) : M S unit :=
  if b then m else mret ().
Definition assert {S : Type} (b : bool) : M S unit :=
  if b then mret () else ub.

(** A loop with local variables [l]: the body goes round again with new locals
    ([inl]) or leaves the loop with a result ([inr]). *)
Fixpoint loop {S L R : Type} (fuel : nat) (body : L → M S (L + R)) (l : L) : M S R :=
  match fuel with
  | O => λ _, NoFuel
  | S n => r ← body l;
           match r with
           | inl l' => loop n body l'
           | inr x => mret x
           end
  end.

(** ** Total correctness *)

(** [wp m s Q]: from [s] the computation [m] returns, without undefined
    behaviour, a result and a state that satisfy [Q]. *)
Definition wp {S A : Type} (m : M S A) (s : S) (Q : A → S → Prop) : Prop :=
  match m s with
  | Ok (a, s') => Q a s'
  | UB | NoFuel => False
  end.

Section wp.
Context {S : Type}.

Lemma wp_mono {A} (m : M S A) s (P Q : A → S → Prop) :
  wp m s P → (∀ a s', P a s' → Q a s') → wp m s Q.
Proof. unfold wp. destruct (m s) as [[a s']| |]; auto. Qed.

Lemma wp_ok {A} (m : M S A) s Q :
  wp m s Q ↔ ∃ a s', m s = Ok (a, s') ∧ Q a s'.
Proof.
  unfold wp. destruct (m s) as [[a s']| |]; split; [eauto|..].
  - intros (a' & s'' & [= <- <-] & ?). done.
  - done.
  - by intros (? & ? & ? & _).
  - done.
  - by intros (? & ? & ? & _).
Qed.

Lemma wp_ret {A} (a : A) s (Q : A → S → Prop) : Q a s → wp (mret a) s Q.
Proof. done. Qed.

Lemma wp_bind {A B} (m : M S A) (f : A → M S B) s Q :
  wp m s (λ a s', wp (f a) s' Q) → wp (m ≫= f) s Q.
Proof.
  unfold wp, mbind, M_bind. destruct (m s) as [[a s']| |]; auto.
Qed.

Lemma wp_bind_inv {A B} (m : M S A) (f : A → M S B) s Q :
  wp (m ≫= f) s Q → wp m s (λ a s', wp (f a) s' Q).
Proof.
  unfold wp, mbind, M_bind. destruct (m s) as [[a s']| |]; auto.
Qed.

(** Two steps of a longer sequence at once. *)
Lemma wp_seq2 {A B C} (m1 : M S A) (m2 : M S B) (m3 : M S C) s Q :
  wp (m1;; m2) s (λ _ s', wp m3 s' Q) → wp (m1;; m2;; m3) s Q.
Proof.
  unfold wp, mbind, M_bind. destruct (m1 s) as [[a s1]| |]; [|done..].
  by destruct (m2 s1) as [[b s2]| |].
Qed.

Lemma wp_fmap {A B} (f : A → B) (m : M S A) s Q :
  wp m s (λ a s', Q (f a) s') → wp (f <$> m) s Q.
Proof.
  unfold wp, fmap, M_fmap. destruct (m s) as [[a s']| |]; auto.
Qed.

Lemma wp_get s (Q : S → S → Prop) : Q s s → wp get s Q.
Proof. done. Qed.
Lemma wp_put s s' (Q : unit → S → Prop) : Q () s' → wp (put s') s Q.
Proof. done. Qed.
Lemma wp_gets {A} (f : S → A) s (Q : A → S → Prop) : Q (f s) s → wp (gets f) s Q.
Proof. done. Qed.
Lemma wp_modify (f : S → S) s (Q : unit → S → Prop) : Q () (f s) → wp (modify f) s Q.
Proof. done. Qed.

Lemma wp_when b (m : M S unit) s Q :
  (b = true → wp m s Q) → (b = false → Q () s) → wp (when b m) s Q.
Proof. destruct b; intros H1 H2; simpl; [by apply H1|by apply H2]. Qed.

Lemma wp_assert b s (Q : unit → S → Prop) :
  b = true → Q () s → wp (assert b) s Q.
Proof. intros -> ?. done. Qed.

(** The loop rule: [I n l s] is the invariant, [n] bounds the number of
    rounds that are left. *)
Lemma wp_loop {L R} (I : nat → L → S → Prop) (body : L → M S (L + R)) Q :
  (∀ n l s, I n l s → wp (body l) s (λ r s',
     match r with
     | inl l' => ∃ n', (n' < n)%nat ∧ I n' l' s'
     | inr x => Q x s'
     end)) →
  ∀ fuel n l s, I n l s → (n < fuel)%nat → wp (loop fuel body l) s Q.
Proof.
  intros Hbody fuel. induction fuel as [|fuel IH]; intros n l s HI Hn; [lia|].
  simpl. apply wp_bind. eapply wp_mono; [by apply Hbody|].
  intros [l'|x] s' H; simpl in H.
  - destruct H as (n' & ? & ?). eapply IH; [done|lia].
  - done.
Qed.
End wp.

#[export] Instance wp_proper {S A : Type} (m : M S A) (s : S) :
  Proper (pointwise_relation A (pointwise_relation S impl) ==> impl) (wp m s).
Proof. intros P Q HPQ H. eapply wp_mono; [exact H|]. intros; by apply HPQ. Qed.

(** ** Typed memory *)

(** The memory of a component: the live objects of type [N] by address,
    and the component's other variables. *)
Record st (N E : Type) : Type := St { mem : gmap Z N; env : E }.
Arguments St {N E} mem env.
Arguments mem {N E} s.
Arguments env {N E} s.

Section memory.
Context {N E : Type}.
Implicit Types (s : st N E) (a : Z).

Definition load (a : Z) : M (st N E) N := λ s,
  match mem s !! a with
  | Some n => Ok (n, s)
  | None => UB
  end.

Definition store (a : Z) (n : N) : M (st N E) unit := λ s,
  match mem s !! a with
  | Some _ => Ok ((), St (<[a:=n]> (mem s)) (env s))
  | None => UB
  end.

(** [a->f] and [a->f = v]. *)
Definition fget {A} (f : N → A) (a : Z) : M (st N E) A := f <$> load a.
Definition fset (upd : N → N) (a : Z) : M (st N E) unit :=
  n ← load a; store a (upd n).

(** [free(a)]: the object dies; freeing the null pointer does nothing. *)
Definition free (a : Z) : M (st N E) unit := λ s,
  if decide (a = 0) then Ok ((), s)
  else match mem s !! a with
       | Some _ => Ok ((), St (delete a (mem s)) (env s))
       | None => UB
       end.

Definition get_env : M (st N E) E := λ s, Ok (env s, s).
Definition put_env (e : E) : M (st N E) unit := λ s, Ok ((), St (mem s) e).

Lemma wp_load a n s (Q : N → st N E → Prop) :
  mem s !! a = Some n → Q n s → wp (load a) s Q.
Proof. intros H ?. unfold wp, load. by rewrite H. Qed.

Lemma wp_store a n m s (Q : unit → st N E → Prop) :
  mem s !! a = Some m → Q () (St (<[a:=n]> (mem s)) (env s)) → wp (store a n) s Q.
Proof. intros H ?. unfold wp, store. by rewrite H. Qed.

Lemma wp_fget {A} (f : N → A) a n s (Q : A → st N E → Prop) :
  mem s !! a = Some n → Q (f n) s → wp (fget f a) s Q.
Proof. intros. apply wp_fmap. by eapply wp_load. Qed.

Lemma wp_fset upd a n s (Q : unit → st N E → Prop) :
  mem s !! a = Some n → Q () (St (<[a:=upd n]> (mem s)) (env s)) →
  wp (fset upd a) s Q.
Proof.
  intros H ?. apply wp_bind. eapply wp_load; [done|]. by eapply wp_store.
Qed.

Lemma wp_free a n s (Q : unit → st N E → Prop) :
  a ≠ 0 → mem s !! a = Some n → Q () (St (delete a (mem s)) (env s)) →
  wp (free a) s Q.
Proof.
  intros Ha H ?. unfold wp, free. rewrite decide_False by done. by rewrite H.
Qed.

Lemma wp_get_env s (Q : E → st N E → Prop) : Q (env s) s → wp get_env s Q.
Proof. done. Qed.
Lemma wp_put_env e s (Q : unit → st N E → Prop) :
  Q () (St (mem s) e) → wp (put_env e) s Q.
Proof. done. Qed.
End memory.

(** ** Machine integers *)

Definition wrap (w x : Z) : Z := x mod 2 ^ w.
Definition uint (x : Z) : Z := wrap 32 x.
Definition ulong (x : Z) : Z := wrap 64 x.

Definition INT_MAX : Z := 2 ^ 31 - 1.
Definition INT_MIN : Z := - 2 ^ 31.

(** The [int] that an integer of another type becomes. *)
Definition to_int (x : Z) : Z := if uint x <=? INT_MAX then uint x else uint x - 2 ^ 32.

Lemma wrap_small w x : 0 ≤ x < 2 ^ w → wrap w x = x.
Proof. apply Z.mod_small. Qed.

Lemma wrap_bounds w x : 0 ≤ w → 0 ≤ wrap w x < 2 ^ w.
Proof. intros. apply Z.mod_pos_bound. by apply Z.pow_pos_nonneg. Qed.

Lemma to_int_pos n : 0 < to_int (Z.of_nat n) → 0 < Z.of_nat n.
Proof. destruct n; [by vm_compute|lia]. Qed.
Lemma to_int_small x : 0 ≤ x ≤ INT_MAX → to_int x = x.
Proof.
  intros Hx. unfold to_int, uint. rewrite (wrap_small 32 x) by (unfold INT_MAX in Hx; lia).
  rewrite (proj2 (Z.leb_le x INT_MAX)) by lia. done.
Qed.

Lemma max_fold_le l x : x ∈ l → x ≤ foldr Z.max 0 l.
Proof.
  induction l as [|y l IH]; simpl; [by intros ?%not_elem_of_nil|].
  intros [->|?]%elem_of_cons; [lia|]. specialize (IH H). lia.
Qed.

(** ** Tactics *)

(** [wp_go] moves a goal [wp (m ≫= f) s Q] past the pure steps. *)
Ltac wp_go :=
  repeat match goal with
  | |- wp (_ ≫= _) _ _ => apply wp_bind
  | |- wp (mret _) _ _ => apply wp_ret
  | |- wp (_ <$> _) _ _ => apply wp_fmap
  | |- wp get _ _ => apply wp_get
  | |- wp (gets _) _ _ => apply wp_gets
  | |- wp (modify _) _ _ => apply wp_modify
  | |- wp get_env _ _ => apply wp_get_env
  | |- wp (put_env _) _ _ => apply wp_put_env
  | |- wp (put _) _ _ => apply wp_put
  end.

(** Equations between concatenations. *)
Ltac solve_app :=
  simpl; repeat (rewrite <-(assoc_L (++)); simpl); rewrite ?app_nil_r; done.
