(* ===== verification/PtrTree.v ===== *)
(** * Pointer-linked binary trees with parent pointers

    The vocabulary the two red-black tree components share: the links of one
    node ([cell]), the tree a set of linked nodes spells out ([tree]), one-hole
    contexts ([ctx]), the representation predicate ([rep], [is_tree]) and what
    the pointer updates of the C code do to it: recolouring a node, rotating an
    edge, putting another subtree in the hole of a context and putting another
    node in the place of a node. *)
From S2P Require Import Prelude.

(** ** Trees and contexts *)

Inductive color := Red | Black.
#[export] Instance color_eq_dec : EqDecision color.
Proof. solve_decision. Defined.

(** The numbers the C code stores: [RB_RED] is 0, [RB_BLACK] is 1. *)
Definition colZ (c : color) : Z := match c with Red => 0 | Black => 1 end.

Inductive dir := L | R.
#[export] Instance dir_eq_dec : EqDecision dir.
Proof. solve_decision. Defined.
Definition opp (d : dir) : dir := match d with L => R | R => L end.

(** A tree is written with the addresses of its nodes. *)
Inductive tree := Leaf | Node (c : color) (l : tree) (a : Z) (r : tree).
#[export] Instance tree_eq_dec : EqDecision tree.
Proof. solve_decision. Defined.

(** [mkn d c t a s]: the node [a] with [t] on side [d] and [s] on the other. *)
Definition mkn (d : dir) (c : color) (t : tree) (a : Z) (s : tree) : tree :=
  match d with L => Node c t a s | R => Node c s a t end.

Definition child (d : dir) (t : tree) : tree :=
  match t with
  | Leaf => Leaf
  | Node _ l _ r => match d with L => l | R => r end
  end.

(** A frame is a node with a hole on side [f_dir] and the sibling subtree. *)
Record frame := F { f_dir : dir; f_col : color; f_addr : Z; f_sib : tree }.
Definition ctx := list frame.

Definition fill (f : frame) (t : tree) : tree :=
  mkn (f_dir f) (f_col f) t (f_addr f) (f_sib f).

(** Contexts list their frames from the hole up to the root. *)
Fixpoint plug (k : ctx) (t : tree) : tree :=
  match k with
  | [] => t
  | f :: k' => plug k' (fill f t)
  end.

(** The addresses of a tree, in order. *)
Fixpoint addrs (t : tree) : list Z :=
  match t with
  | Leaf => []
  | Node _ l a r => addrs l ++ a :: addrs r
  end.

Fixpoint kbefore (k : ctx) : list Z :=
  match k with
  | [] => []
  | F L _ _ _ :: k' => kbefore k'
  | F R _ a s :: k' => kbefore k' ++ addrs s ++ [a]
  end.
Fixpoint kafter (k : ctx) : list Z :=
  match k with
  | [] => []
  | F L _ a s :: k' => a :: addrs s ++ kafter k'
  | F R _ _ _ :: k' => kafter k'
  end.

Definition kaddrs (k : ctx) : list Z := kbefore k ++ kafter k.

Definition blacken (t : tree) : tree :=
  match t with
  | Leaf => Leaf
  | Node _ l a r => Node Black l a r
  end.

Definition is_red (t : tree) : bool :=
  match t with Node Red _ _ _ => true | _ => false end.

(** Every tree with a root is a [mkn] on either side. *)
Lemma node_mkn d c l a r :
  Node c l a r = mkn d c (child d (Node c l a r)) a (child (opp d) (Node c l a r)).
Proof. by destruct d. Qed.

Lemma opp_opp d : opp (opp d) = d.
Proof. by destruct d. Qed.

Lemma mkn_opp d c t a s : mkn (opp d) c t a s = mkn d c s a t.
Proof. by destruct d. Qed.

Lemma blacken_mkn d c t a s : blacken (mkn d c t a s) = mkn d Black t a s.
Proof. by destruct d. Qed.

Lemma plug_app k1 k2 t : plug (k1 ++ k2) t = plug k2 (plug k1 t).
Proof. revert t. induction k1; intros; simpl; auto. Qed.

Lemma addrs_plug k t : addrs (plug k t) = kbefore k ++ addrs t ++ kafter k.
Proof.
  revert t. induction k as [|[[] c a s] k IH]; intros t; simpl.
  - by rewrite app_nil_r.
  - rewrite IH. unfold fill; simpl. by rewrite <-(assoc_L (++)).
  - rewrite IH. unfold fill; simpl. rewrite <-!(assoc_L (++)). done.
Qed.

Lemma addrs_plug_perm k t : addrs (plug k t) ≡ₚ kaddrs k ++ addrs t.
Proof.
  rewrite addrs_plug. unfold kaddrs.
  by rewrite <-(assoc_L (++)), (Permutation_app_comm (addrs t)).
Qed.

Lemma addrs_mkn_perm d c t a s : addrs (mkn d c t a s) ≡ₚ a :: addrs t ++ addrs s.
Proof.
  destruct d; simpl.
  - by rewrite <-Permutation_middle.
  - by rewrite <-Permutation_middle, (Permutation_app_comm (addrs t)).
Qed.

Lemma kaddrs_cons_perm f k :
  kaddrs (f :: k) ≡ₚ f_addr f :: addrs (f_sib f) ++ kaddrs k.
Proof.
  destruct f as [[] c a s]; unfold kaddrs; simpl.
  - rewrite <-Permutation_middle, !(assoc_L (++)).
    by rewrite (Permutation_app_comm (kbefore k)).
  - rewrite <-!(assoc_L (++)); simpl.
    rewrite Permutation_app_comm, <-!(assoc_L (++)); simpl.
    by rewrite <-Permutation_middle, (Permutation_app_comm (kbefore k)).
Qed.

Lemma kaddrs_app_perm k1 k2 : kaddrs (k1 ++ k2) ≡ₚ kaddrs k1 ++ kaddrs k2.
Proof.
  induction k1 as [|f k1 IH]; simpl; [done|]. rewrite !kaddrs_cons_perm, IH.
  by rewrite (assoc_L (++)).
Qed.

Lemma addrs_blacken t : addrs (blacken t) = addrs t.
Proof. by destruct t. Qed.

(** Two contexts and subtrees with the same in-order addresses. *)
Lemma addrs_plug_cong k t t' : addrs t = addrs t' → addrs (plug k t) = addrs (plug k t').
Proof. intros H. by rewrite !addrs_plug, H. Qed.

(** ** Cells and the representation predicate *)

(** What the tree code sees of a node. *)
Record cell := Cell { c_par : Z; c_col : Z; c_left : Z; c_right : Z }.

Definition mkcell (d : dir) (p c t s : Z) : cell :=
  match d with L => Cell p c t s | R => Cell p c s t end.

Definition set_c_par (p : Z) (c : cell) : cell := Cell p (c_col c) (c_left c) (c_right c).
Definition set_c_col (x : Z) (c : cell) : cell := Cell (c_par c) x (c_left c) (c_right c).
Definition set_c_child (d : dir) (q : Z) (c : cell) : cell :=
  match d with
  | L => Cell (c_par c) (c_col c) q (c_right c)
  | R => Cell (c_par c) (c_col c) (c_left c) q
  end.

Abbreviation shapes := (gmap Z cell).

Section rep.
(** The pointer that stands for "no node". *)
Context (null : Z).

Definition rootp (t : tree) : Z :=
  match t with Leaf => null | Node _ _ a _ => a end.

Fixpoint rep (h : shapes) (p : Z) (t : tree) : Prop :=
  match t with
  | Leaf => True
  | Node c l a r =>
      h !! a = Some (Cell p (colZ c) (rootp l) (rootp r)) ∧ rep h a l ∧ rep h a r
  end.

(** The parent pointer of the node in the hole of a context; [top] is the
    parent pointer of the root. *)
Definition cpar (top : Z) (k : ctx) : Z :=
  match k with [] => top | f :: _ => f_addr f end.

(** [crep h top q k]: the nodes of [k] are linked, with [q] in the hole. *)
Fixpoint crep (h : shapes) (top q : Z) (k : ctx) : Prop :=
  match k with
  | [] => True
  | F d c a s :: k' =>
      h !! a = Some (mkcell d (cpar top k') (colZ c) q (rootp s)) ∧
      rep h a s ∧ crep h top a k'
  end.

(** The root of a plugged context. *)
Fixpoint krootp (q : Z) (k : ctx) : Z :=
  match k with [] => q | f :: k' => krootp (f_addr f) k' end.

Lemma rootp_mkn d c t a s : rootp (mkn d c t a s) = a.
Proof. by destruct d. Qed.

Lemma rootp_fill f t : rootp (fill f t) = f_addr f.
Proof. apply rootp_mkn. Qed.

Lemma rootp_plug k t : rootp (plug k t) = krootp (rootp t) k.
Proof. revert t. induction k as [|f k IH]; intros; simpl; [done|]. by rewrite IH, rootp_fill. Qed.

Lemma plug_cons_node f k t : ∃ c l r, plug (f :: k) t = Node c l (krootp (f_addr f) k) r.
Proof.
  revert f t. induction k as [|g k IH]; intros [d c a s] t; [destruct d; simpl; eauto|].
  apply (IH g (fill (F d c a s) t)).
Qed.

Lemma rootp_blacken t : rootp (blacken t) = rootp t.
Proof. by destruct t. Qed.

Lemma rep_mkn h p d c t a s :
  rep h p (mkn d c t a s) ↔
  h !! a = Some (mkcell d p (colZ c) (rootp t) (rootp s)) ∧ rep h a t ∧ rep h a s.
Proof. destruct d; simpl; naive_solver. Qed.

Lemma rep_plug h top k t :
  rep h top (plug k t) ↔ crep h top (rootp t) k ∧ rep h (cpar top k) t.
Proof.
  revert t. induction k as [|[d c a s] k IH]; intros t; simpl; [naive_solver|].
  rewrite IH. unfold fill; simpl. rewrite rootp_mkn, rep_mkn. naive_solver.
Qed.

Lemma cpar_app top k1 k2 : cpar top (k1 ++ k2) = cpar (cpar top k2) k1.
Proof. by destruct k1. Qed.

Lemma crep_app h top q k1 k2 :
  crep h top q (k1 ++ k2) ↔ crep h (cpar top k2) q k1 ∧ crep h top (krootp q k1) k2.
Proof.
  revert q. induction k1 as [|[d c a s] k1 IH]; intros q; simpl; [naive_solver|].
  rewrite IH, cpar_app. naive_solver.
Qed.

(** Framing: a tree depends on the cells of its own nodes only. *)
Lemma rep_frame h h' p t :
  rep h p t → (∀ a, a ∈ addrs t → h' !! a = h !! a) → rep h' p t.
Proof.
  revert p. induction t as [|c l IHl a r IHr]; intros p; simpl; [done|].
  intros (Ha & Hl & Hr) Hf. split_and!.
  - rewrite Hf; [done|]. set_solver.
  - apply IHl; [done|]. intros b Hb. apply Hf. set_solver.
  - apply IHr; [done|]. intros b Hb. apply Hf. set_solver.
Qed.

Lemma crep_frame h h' top q k :
  crep h top q k → (∀ a, a ∈ kaddrs k → h' !! a = h !! a) → crep h' top q k.
Proof.
  revert q. induction k as [|[d c a s] k IH]; intros q; simpl; [done|].
  intros (Ha & Hs & Hk) Hf. setoid_rewrite kaddrs_cons_perm in Hf. simpl in Hf.
  split_and!.
  - rewrite Hf; [done|]. set_solver.
  - eapply rep_frame; [done|]. intros b Hb. apply Hf. set_solver.
  - apply IH; [done|]. intros b Hb. apply Hf. set_solver.
Qed.

Lemma rep_lookup h p t a : rep h p t → a ∈ addrs t → is_Some (h !! a).
Proof.
  revert p. induction t as [|c l IHl b r IHr]; intros p; simpl; [by intros _ ?%not_elem_of_nil|].
  intros (Hb & Hl & Hr). rewrite elem_of_app, elem_of_cons.
  intros [?|[->|?]]; eauto.
Qed.

(** The parent pointer of a subtree matters at its root only. *)
Definition reparent (t : tree) (p : Z) (h : shapes) : shapes :=
  match t with
  | Leaf => h
  | Node _ _ a _ => alter (set_c_par p) a h
  end.

Lemma rep_reparent h p p' t :
  rep h p t → NoDup (addrs t) → rep (reparent t p' h) p' t.
Proof.
  destruct t as [|c l a r]; simpl; [done|]. intros (Ha & Hl & Hr) Hnd.
  apply NoDup_app in Hnd as (? & Hla & Hnd). apply NoDup_cons in Hnd as (Har & ?).
  split_and!.
  - rewrite lookup_alter_eq, Ha. done.
  - eapply rep_frame; [done|]. intros b Hb. rewrite lookup_alter_ne; [done|].
    intros ->. specialize (Hla _ Hb). set_solver.
  - eapply rep_frame; [done|]. intros b Hb. rewrite lookup_alter_ne; [done|].
    by intros ->.
Qed.

Lemma lookup_reparent_ne h p t a :
  a ∉ addrs t → reparent t p h !! a = h !! a.
Proof.
  destruct t as [|c l b r]; simpl; [done|]. intros Hn.
  rewrite lookup_alter_ne; [done|]. intros ->. apply Hn. set_solver.
Qed.

(** Writing the child link into the innermost frame. *)
Definition relink (k : ctx) (q : Z) (h : shapes) : shapes :=
  match k with
  | [] => h
  | f :: _ => alter (set_c_child (f_dir f) q) (f_addr f) h
  end.

Lemma crep_relink h top q q' k :
  crep h top q k → NoDup (kaddrs k) → crep (relink k q' h) top q' k.
Proof.
  destruct k as [|[d c a s] k]; simpl; [done|].
  rewrite kaddrs_cons_perm; simpl. intros (Ha & Hs & Hk) Hnd.
  apply NoDup_cons in Hnd as (Hna & Hnd). split_and!.
  - rewrite lookup_alter_eq, Ha. by destruct d.
  - eapply rep_frame; [done|]. intros b Hb. rewrite lookup_alter_ne; [done|].
    intros ->. set_solver.
  - eapply crep_frame; [done|]. intros b Hb. rewrite lookup_alter_ne; [done|].
    intros ->. set_solver.
Qed.

Lemma lookup_relink_ne h k q a : a ∉ kaddrs k → relink k q h !! a = h !! a.
Proof.
  destruct k as [|f k]; simpl; [done|]. rewrite kaddrs_cons_perm. intros Hn.
  rewrite lookup_alter_ne; [done|]. intros <-. apply Hn. set_solver.
Qed.

Lemma alter_congr (g : cell → cell) (h1 h2 : shapes) a b :
  h1 !! b = h2 !! b → alter g a h1 !! b = alter g a h2 !! b.
Proof. intros H. rewrite !lookup_alter. case_decide; congruence. Qed.

Lemma relink_congr h1 h2 k q a :
  h1 !! a = h2 !! a → relink k q h1 !! a = relink k q h2 !! a.
Proof.
  intros H. destruct k as [|f k]; simpl; [done|]. rewrite !lookup_alter.
  case_decide; congruence.
Qed.

Lemma reparent_congr h1 h2 t p a :
  h1 !! a = h2 !! a → reparent t p h1 !! a = reparent t p h2 !! a.
Proof.
  intros H. destruct t as [|c l b r]; simpl; [done|]. rewrite !lookup_alter.
  case_decide; congruence.
Qed.

(** ** Whole trees *)

(** The addresses the component may use for nodes. *)
Context (okp : Z → Prop).

Record is_tree (h : shapes) (top rt : Z) (T : tree) : Prop := {
  it_root : rt = rootp T;
  it_rep : rep h top T;
  it_nodup : NoDup (addrs T);
  it_ok : Forall okp (addrs T);
}.

Lemma is_tree_frame h h' top rt T :
  is_tree h top rt T → (∀ a, a ∈ addrs T → h' !! a = h !! a) → is_tree h' top rt T.
Proof. intros [] ?. split; auto. by eapply rep_frame. Qed.

(** Building the tree predicate for a rearranged tree. *)
Lemma is_tree_perm h h' top rt rt' T T' :
  is_tree h top rt T → addrs T' ≡ₚ addrs T → rt' = rootp T' → rep h' top T' →
  is_tree h' top rt' T'.
Proof. intros [] Hp ??. split; auto; by rewrite Hp. Qed.

Lemma it_focus h top rt k t :
  is_tree h top rt (plug k t) →
  crep h top (rootp t) k ∧ rep h (cpar top k) t ∧
  NoDup (addrs t) ∧ NoDup (kaddrs k) ∧ (∀ a, a ∈ addrs t → a ∉ kaddrs k) ∧
  rt = krootp (rootp t) k.
Proof.
  intros [Hrt Hrep Hnd _]. rewrite rep_plug in Hrep. rewrite addrs_plug_perm in Hnd.
  apply NoDup_app in Hnd as (? & Hd & ?). rewrite rootp_plug in Hrt.
  destruct Hrep. split_and!; auto. intros a Ha Hk. by eapply Hd.
Qed.

Lemma it_lookup h top rt k d c t a s :
  is_tree h top rt (plug k (mkn d c t a s)) →
  h !! a = Some (mkcell d (cpar top k) (colZ c) (rootp t) (rootp s)).
Proof. intros (_ & Hr & _)%it_focus. by apply rep_mkn in Hr as [? _]. Qed.

Lemma it_okp h top rt k d c t a s :
  is_tree h top rt (plug k (mkn d c t a s)) → okp a.
Proof.
  intros [_ _ _ H]. rewrite addrs_plug_perm, addrs_mkn_perm in H.
  apply Forall_app in H as [_ H]. by apply Forall_cons in H as [? _].
Qed.

(** The parent of the hole is a node of the tree. *)
Lemma it_okp_cpar h top rt f k t :
  is_tree h top rt (plug (f :: k) t) → okp (f_addr f).
Proof. destruct f as [d c a s]. exact (it_okp h top rt k d c t a s). Qed.

Lemma it_okp_rootp h top rt k c l a r :
  is_tree h top rt (plug k (Node c l a r)) → okp a.
Proof. exact (it_okp h top rt k L c l a r). Qed.
Lemma it_recolor c' h top rt k d c t a s :
  is_tree h top rt (plug k (mkn d c t a s)) →
  is_tree (alter (set_c_col (colZ c')) a h) top rt (plug k (mkn d c' t a s)).
Proof.
  intros Hit. pose proof (it_focus _ _ _ _ _ Hit) as (Hk & Ht & Hnd & _ & Hd & Hrt).
  rewrite rep_mkn in Ht. destruct Ht as (Ha & Ht & Hs).
  rewrite addrs_mkn_perm in Hnd. apply NoDup_cons in Hnd as [Hna _].
  setoid_rewrite addrs_mkn_perm in Hd.
  eapply is_tree_perm; [done| | |].
  - rewrite !addrs_plug_perm, !addrs_mkn_perm. done.
  - by rewrite rootp_plug, rootp_mkn, Hrt, rootp_mkn.
  - rewrite rep_plug, rep_mkn, rootp_mkn, lookup_alter_eq, Ha. rewrite rootp_mkn in Hk.
    split_and!; [|by destruct d|..].
    + eapply crep_frame; [done|]. intros b Hb. rewrite lookup_alter_ne; set_solver.
    + eapply rep_frame; [done|]. intros b Hb. rewrite lookup_alter_ne; set_solver.
    + eapply rep_frame; [done|]. intros b Hb. rewrite lookup_alter_ne; set_solver.
Qed.

(** Putting the subtree [t'] (already linked, below any parent) in the hole. *)
Lemma it_refocus h top rt k t t' p' :
  is_tree h top rt (plug k t) →
  rep h p' t' → NoDup (addrs t') → (∀ a, a ∈ addrs t' → a ∉ kaddrs k) →
  Forall okp (addrs t') →
  is_tree (relink k (rootp t') (reparent t' (cpar top k) h)) top
    (krootp (rootp t') k) (plug k t').
Proof.
  intros Hit Ht' Hnd' Hd' Hok'.
  pose proof (it_focus _ _ _ _ _ Hit) as (Hk & _ & _ & Hndk & _ & _).
  assert (is_tree h top rt (plug k t)) as [_ _ _ Hok] by done.
  rewrite addrs_plug_perm, Forall_app in Hok. destruct Hok as [Hok _].
  split.
  - by rewrite rootp_plug.
  - rewrite rep_plug. split.
    + eapply crep_relink; [|done]. eapply crep_frame; [done|].
      intros b Hb. rewrite lookup_reparent_ne; set_solver.
    + eapply rep_frame; [by eapply rep_reparent|].
      intros b Hb. rewrite lookup_relink_ne; set_solver.
  - rewrite addrs_plug_perm. apply NoDup_app. set_solver.
  - rewrite addrs_plug_perm. by apply Forall_app.
Qed.

(** Rotating the edge from [x] to its child [y] on the side opposite to [d]. *)
Lemma it_rotate d h h' top rt k c1 A x c2 B y C :
  is_tree h top rt (plug k (mkn d c1 A x (mkn d c2 B y C))) →
  h' !! x = Some (mkcell d y (colZ c1) (rootp A) (rootp B)) →
  h' !! y = Some (mkcell d (cpar top k) (colZ c2) x (rootp C)) →
  (∀ a, a ≠ x → a ≠ y → h' !! a = relink k y (reparent B x h) !! a) →
  is_tree h' top (krootp y k) (plug k (mkn d c2 (mkn d c1 A x B) y C)).
Proof.
  intros Hit Hx Hy Hrest.
  pose proof (it_focus _ _ _ _ _ Hit) as (Hk & Ht & Hnd & Hndk & Hd & _).
  rewrite !rep_mkn in Ht. destruct Ht as (_ & HA & _ & HB & HC).
  rewrite !addrs_mkn_perm in Hnd. setoid_rewrite addrs_mkn_perm in Hd.
  setoid_rewrite addrs_mkn_perm in Hd.
  rewrite NoDup_cons, NoDup_app, NoDup_cons, NoDup_app in Hnd.
  destruct Hnd as (Hnx & HndA & HdA & Hny & HndB & HdB & HndC).
  eapply is_tree_perm; [done| | |].
  - rewrite !addrs_plug_perm, !addrs_mkn_perm. apply Permutation_app_head.
    rewrite <-(Permutation_middle (addrs A)), (perm_swap y x). apply perm_skip.
    simpl. by rewrite <-(assoc_L (++)), Permutation_middle.
  - by rewrite rootp_plug, rootp_mkn.
  - rewrite rep_plug, !rep_mkn, !rootp_mkn. rewrite rootp_mkn in Hk. split_and!; auto.
    + eapply crep_frame; [eapply crep_relink; [|done]|].
      * eapply crep_frame; [exact Hk|]. intros b Hb. rewrite (lookup_reparent_ne h x B); set_solver.
      * intros b Hb. apply Hrest; intros ->; set_solver.
    + eapply rep_frame; [exact HA|]. intros b Hb.
      rewrite Hrest, lookup_relink_ne, lookup_reparent_ne; set_solver.
    + eapply rep_frame; [eapply (rep_reparent _ _ x _ HB HndB)|]. intros b Hb.
      rewrite Hrest, lookup_relink_ne; set_solver.
    + eapply rep_frame; [exact HC|]. intros b Hb.
      rewrite Hrest, lookup_relink_ne, lookup_reparent_ne; set_solver.
Qed.

(** The node [b] takes the place of the node [a]. *)
Lemma it_replace h h' top rt k c l a r b :
  is_tree h top rt (plug k (Node c l a r)) →
  b ∉ addrs l → b ∉ addrs r → b ∉ kaddrs k → okp b →
  h' !! b = Some (Cell (cpar top k) (colZ c) (rootp l) (rootp r)) →
  (∀ x, x ∈ kaddrs k → h' !! x = relink k b h !! x) →
  (∀ x, x ∈ addrs l → h' !! x = reparent l b h !! x) →
  (∀ x, x ∈ addrs r → h' !! x = reparent r b h !! x) →
  is_tree h' top (krootp b k) (plug k (Node c l b r)).
Proof.
  intros Hit Hbl Hbr Hbk Hokb Hb HK HL HR.
  pose proof (it_focus _ _ _ _ _ Hit) as (Hk & Ht & Hnd & Hndk & Hd & _).
  simpl in Ht, Hd. destruct Ht as (_ & Hl & Hr). simpl in Hnd.
  rewrite NoDup_app, NoDup_cons in Hnd. destruct Hnd as (Hndl & Hdl & Har & Hndr).
  assert (is_tree h top rt (plug k (Node c l a r))) as [_ _ Hnd Hok] by done.
  split.
  - by rewrite rootp_plug.
  - rewrite rep_plug; simpl. split_and!; auto.
    + eapply crep_frame; [by eapply crep_relink|done].
    + eapply rep_frame; [eapply (rep_reparent _ _ b _ Hl Hndl)|done].
    + eapply rep_frame; [eapply (rep_reparent _ _ b _ Hr Hndr)|done].
  - rewrite addrs_plug_perm in *; simpl in *. rewrite !NoDup_app, NoDup_cons in *.
    set_solver.
  - rewrite addrs_plug_perm in *; simpl in *. rewrite !Forall_app, Forall_cons in *.
    set_solver.
Qed.

(** ** Exchanging a node with its successor *)

(** [child->parent = p] for a child that already has the parent [p]. *)
Lemma lookup_reparent_id h p t a : rep h p t → reparent t p h !! a = h !! a.
Proof.
  destruct t as [|c l b r]; simpl; [done|]. intros (Hb & _).
  rewrite lookup_alter. case_decide; [|done]. subst. by rewrite Hb.
Qed.

Lemma lookup_reparent_twice h p q t a :
  reparent t p (reparent t q h) !! a = reparent t p h !! a.
Proof.
  destruct t as [|c l b r]; simpl; [done|]. rewrite !lookup_alter.
  repeat case_decide; try done; subst; by destruct (h !! _).
Qed.

(** The successor [y] of [a], in the right subtree of [a]. *)
Section two.
Context (h : shapes) (top rt : Z) (k ky : ctx) (c cy : color) (l ry : tree) (a y : Z).
Context (Hin : is_tree h top rt (plug (ky ++ F R c a l :: k) (Node cy Leaf y ry))).

Lemma it_two_nodup : NoDup (kaddrs k ++ addrs l ++ kaddrs ky ++ a :: y :: addrs ry).
Proof.
  destruct Hin as [_ _ Hnd _]. rewrite plug_app in Hnd. simpl in Hnd. unfold fill in Hnd; simpl in Hnd.
  rewrite addrs_plug_perm in Hnd. simpl in Hnd. rewrite addrs_plug_perm in Hnd. simpl in Hnd.
  eapply NoDup_Permutation_proper; [|exact Hnd]. solve_Permutation.
Qed.

(** The tree without [y]. *)
Let h1 := relink (ky ++ F R c a l :: k) (rootp ry)
            (reparent ry (cpar top (ky ++ F R c a l :: k)) h).

Lemma it_two_refocus : is_tree h1 top (krootp a k) (plug k (Node c l a (plug ky ry))).
Proof.
  pose proof (it_focus _ _ _ _ _ Hin) as (_ & Hrep & Hnd & _ & Hd & Hrt).
  simpl in Hrep, Hnd, Hd. destruct Hrep as (_ & _ & Hrep).
  replace (plug k (Node c l a (plug ky ry))) with (plug (ky ++ F R c a l :: k) ry)
    by (by rewrite plug_app).
  assert (krootp a k = krootp (rootp ry) (ky ++ F R c a l :: k)) as ->.
  { clear. generalize (rootp ry). induction ky as [|f ky' IH]; intros q; simpl; [done|].
    apply IH. }
  eapply it_refocus; [exact Hin|exact Hrep|..].
  - by apply NoDup_cons in Hnd as [_ ?].
  - intros x Hx. apply Hd. set_solver.
  - destruct Hin as [_ _ _ Hok]. rewrite addrs_plug_perm in Hok. simpl in Hok.
    rewrite Forall_app, Forall_cons in Hok. by destruct Hok as (_ & _ & ?).
Qed.

(** What the code leaves in the cells, given the final heap [h']. *)
Lemma it_two_replace h' :
  h' !! y = Some (Cell (cpar top k) (colZ c) (rootp l) (rootp (plug ky ry))) →
  (∀ x, x ∈ kaddrs k → h' !! x = relink k y h !! x) →
  (∀ x, x ∈ addrs l → h' !! x = reparent l y h !! x) →
  (∀ x, x ∈ kaddrs ky ∨ x ∈ addrs ry →
     h' !! x = reparent (plug ky ry) y (relink ky (rootp ry) (reparent ry (cpar y ky) h)) !! x) →
  is_tree h' top (krootp y k) (plug (ky ++ F R c y l :: k) ry).
Proof.
  intros Hy HK HL HR. pose proof it_two_nodup as Hnd.
  rewrite !NoDup_app, !NoDup_cons in Hnd.
  destruct Hnd as (_ & HdK & _ & HdL & _ & Hdy & Haa & Hyr & _).
  pose proof (it_focus _ _ _ _ _ Hin) as (_ & Hrep & _). simpl in Hrep.
  destruct Hrep as (_ & _ & Hrep).
  assert (∀ x, x ∈ kaddrs k ++ addrs l → h1 !! x = h !! x) as Hout.
  { intros x Hx. unfold h1. destruct ky as [|f ky']; simpl.
    - rewrite lookup_alter_ne, lookup_reparent_ne by set_solver. done.
    - rewrite lookup_alter_ne, lookup_reparent_ne; [done|set_solver|].
      intros <-. setoid_rewrite kaddrs_cons_perm in HdK.
      setoid_rewrite kaddrs_cons_perm in HdL. set_solver. }
  rewrite plug_app. simpl.
  eapply (it_replace _ _ _ _ k c l a (plug ky ry) y); [exact it_two_refocus| | | | |done|..].
  - set_solver.
  - rewrite addrs_plug_perm. set_solver.
  - set_solver.
  - by eapply it_okp_rootp.
  - intros x Hx. rewrite HK by done. apply relink_congr. symmetry. apply Hout. set_solver.
  - intros x Hx. rewrite HL by done. apply reparent_congr. symmetry. apply Hout. set_solver.
  - intros x Hx. rewrite addrs_plug_perm in Hx. rewrite HR by set_solver.
    unfold h1. destruct ky as [|f ky'].
    + simpl. rewrite lookup_reparent_twice.
      transitivity (reparent ry y (reparent ry a h) !! x).
      * by rewrite lookup_reparent_twice.
      * apply reparent_congr. rewrite lookup_alter_ne; [done|set_solver].
    + done.
Qed.
End two.

End rep.

Arguments rootp null !t /.
Arguments rep null h p !t /.
