(* ===== verification/RbSpec.v ===== *)
(** * Red-black trees: the specification

    The red-black invariant on trees ([rb], [rbtree]) and what the two C
    implementations promise to do to a tree: [ins_fix] and [del_fix] rebalance
    a tree from a hole upwards, [erase_at] takes a node out.  The lemmas show
    that they keep the in-order sequence and restore the invariant; the C
    functions are proved to compute them on pointers. *)
From S2P Require Import Prelude PtrTree.

(** ** The invariant *)

(** [rb c n t]: [t] has a root of colour [c], no red node has a red child and
    every path from the root to a leaf passes [n] black nodes. *)
Inductive rb : color → nat → tree → Prop :=
  | rb_leaf : rb Black 0 Leaf
  | rb_red l a r n : rb Black n l → rb Black n r → rb Red n (Node Red l a r)
  | rb_black cl cr l a r n :
      rb cl n l → rb cr n r → rb Black (S n) (Node Black l a r).

(** A whole red-black tree also has a black root. *)
Definition rbtree (t : tree) : Prop := ∃ n, rb Black n t.

(** [kok c n k]: putting a tree of colour [c] and black height [n] in the hole
    of [k] gives a red-black tree. *)
Inductive kok : color → nat → ctx → Prop :=
  | kok_nil n : kok Black n []
  | kok_red d a s n k : rb Black n s → kok Red n k → kok Black n (F d Red a s :: k)
  | kok_black c cs d a s n k :
      rb cs n s → kok Black (S n) k → kok c n (F d Black a s :: k).

Create HintDb rb.
#[export] Hint Constructors rb kok : rb.

Lemma rb_mkn_red d t a s n : rb Black n t → rb Black n s → rb Red n (mkn d Red t a s).
Proof. destruct d; simpl; eauto with rb. Qed.
Lemma rb_mkn_black d ct cs t a s n :
  rb ct n t → rb cs n s → rb Black (S n) (mkn d Black t a s).
Proof. destruct d; simpl; eauto with rb. Qed.
#[export] Hint Resolve rb_mkn_red rb_mkn_black : rb.

Lemma rb_mkn_inv d c n ct t a s :
  rb ct n (mkn d c t a s) →
  match c with
  | Red => ct = Red ∧ rb Black n t ∧ rb Black n s
  | Black => ct = Black ∧ ∃ m c1 c2, n = S m ∧ rb c1 m t ∧ rb c2 m s
  end.
Proof. destruct d; simpl; inversion 1; subst; naive_solver. Qed.

Lemma kok_weaken n k : kok Red n k → kok Black n k.
Proof. inversion 1; subst; eauto with rb. Qed.
#[export] Hint Resolve kok_weaken : rb.

Lemma kok_any c n k : kok Red n k → kok c n k.
Proof. destruct c; auto with rb. Qed.

Lemma kok_plug c n k t : kok c n k → rb c n t → rbtree (plug k t).
Proof.
  intros Hk. revert t. induction Hk as [|d a s n k Hs Hk IH|c cs d a s n k Hs Hk IH];
    intros t Ht; simpl; [by eexists|apply IH..]; unfold fill; simpl; eauto with rb.
Qed.

Lemma rb_plug_inv k t :
  rbtree (plug k t) → ∃ c n, kok c n k ∧ rb c n t.
Proof.
  revert t. induction k as [|[d c a s] k IH]; intros t; simpl.
  - intros [n ?]. eauto with rb.
  - intros (c' & n & Hk & Ht)%IH. unfold fill in Ht; simpl in Ht.
    apply rb_mkn_inv in Ht. destruct c; destruct Ht as (-> & Ht).
    + destruct Ht. eauto with rb.
    + destruct Ht as (m & c1 & c2 & -> & ? & ?). eauto with rb.
Qed.

Lemma rbtree_blacken c n t : rb c n t → rbtree (blacken t).
Proof. inversion 1; subst; simpl; unfold rbtree; eauto with rb. Qed.

Lemma rbtree_black_id n t : rb Black n t → blacken t = t.
Proof. by inversion 1. Qed.

(** The height of a red-black tree is at most twice its black height plus one. *)
Fixpoint height (t : tree) : nat :=
  match t with
  | Leaf => 0
  | Node _ l _ r => S (Nat.max (height l) (height r))
  end.

Lemma rb_height c n t :
  rb c n t → (height t ≤ 2 * n + match c with Red => 1 | Black => 0 end)%nat.
Proof.
  induction 1 as [|l a r n Hl IHl Hr IHr|cl cr l a r n Hl IHl Hr IHr]; simpl in *; [lia..|].
  destruct cl, cr; lia.
Qed.

Lemma rb_size c n t : rb c n t → (2 ^ n ≤ length (addrs t) + 1)%nat.
Proof.
  induction 1; simpl; [lia|..]; rewrite length_app; simpl; lia.
Qed.

(** A red-black tree of [m] nodes has height at most [2 log2 (m + 1)]. *)
Lemma rbtree_log_height t :
  rbtree t → (2 ^ (height t / 2) ≤ length (addrs t) + 1)%nat.
Proof.
  intros [n H]. etransitivity; [|by eapply rb_size].
  apply rb_height in H. apply Nat.pow_le_mono_r; [lia|].
  apply Nat.Div0.div_le_upper_bound. lia.
Qed.

(** ** Rebalancing after an insertion *)

(** [t] is red and sits in the hole of [k]. *)
Fixpoint ins_fix (k : ctx) (t : tree) : tree :=
  match k with
  | F d1 Red p s1 :: F d2 c2 g u :: k' =>
      if is_red u then
        ins_fix k' (mkn d2 Red (mkn d1 Black t p s1) g (blacken u))
      else if decide (d1 = d2) then
        blacken (plug k' (mkn d2 Black t p (mkn d2 Red s1 g u)))
      else match t with
        | Leaf => blacken (plug k t)
        | Node _ _ n _ =>
            blacken (plug k' (mkn d2 Black (mkn d2 Red s1 p (child d2 t)) n
                                (mkn d2 Red (child d1 t) g u)))
        end
  | _ => blacken (plug k t)
  end.

Lemma addrs_ins_fix k t : addrs (ins_fix k t) = addrs (plug k t).
Proof.
  remember (length k) as n eqn:Hn. revert k t Hn.
  induction n as [n IH] using lt_wf_ind. intros k t ->.
  destruct k as [|[d1 [] p s1] [|[d2 c2 g u] k]]; simpl; try by rewrite addrs_blacken.
  destruct (is_red u).
  - rewrite (IH (length k)) by (simpl; lia). apply addrs_plug_cong.
    unfold fill; simpl. destruct d2, d1; simpl; by rewrite addrs_blacken.
  - case_decide as Hd.
    + subst d2. rewrite addrs_blacken. apply addrs_plug_cong. unfold fill; simpl.
      destruct d1; solve_app.
    + destruct t as [|c l n r]; rewrite addrs_blacken; apply addrs_plug_cong; [done|].
      unfold fill; simpl. destruct d1, d2; try done; solve_app.
Qed.

Theorem ins_fix_rb k t n :
  kok Black n k → rb Red n t → rbtree (ins_fix k t).
Proof.
  remember (length k) as m eqn:Hm. revert k t n Hm.
  induction m as [m IH] using lt_wf_ind. intros k t n -> Hk Ht.
  destruct k as [|[d1 c1 p s1] k]; [by eapply rbtree_blacken|].
  inversion Hk as [|? ? ? ? ? Hs1 Hk'|? ? ? ? ? ? ? Hs1 Hk']; subst.
  - inversion Hk' as [| |? ? d2 g u ? k'' Hu Hk'']; subst; simpl.
    destruct (is_red u) eqn:Hur.
    + eapply (IH (length k'')); [simpl; lia|done|done|].
      destruct u as [|[] ul ua ur]; try done. inversion Hu; subst.
      apply rb_mkn_red; simpl; eauto with rb.
    + assert (rb Black n u) as HuB by (inversion Hu; subst; eauto with rb; done).
      assert (∀ x, rb Black (S n) x → rbtree (blacken (plug k'' x))) as Hfin.
      { intros x Hx. destruct (kok_plug _ _ _ _ Hk'' Hx) as [N HN].
        by eapply rbtree_blacken. }
      case_decide; [|destruct t as [|c l a r]; [by inversion Ht|]]; apply Hfin.
      * eauto with rb.
      * inversion Ht; subst. destruct d1, d2; simpl; eauto with rb.
  - simpl. unfold fill; simpl.
    destruct (kok_plug _ _ _ (mkn d1 Black t p s1) Hk') as [N HN]; [eauto with rb|].
    by eapply rbtree_blacken.
Qed.

(** ** Rebalancing after a removal *)

(** One round for a black sibling [s]: done ([inl]) or one level up ([inr]). *)
Definition del_bal (d : dir) (c : color) (p : Z) (s t : tree) : tree + tree :=
  match s with
  | Leaf => inr (mkn d c t p s)
  | Node _ _ sa _ =>
      let sn := child d s in
      let sf := child (opp d) s in
      if is_red sf then inl (mkn d c (mkn d Black t p sn) sa (blacken sf))
      else if is_red sn then
        match sn with
        | Leaf => inr (mkn d c t p s)
        | Node _ _ na _ =>
            inl (mkn d c (mkn d Black t p (child d sn)) na
                   (mkn d Black (child (opp d) sn) sa sf))
        end
      else inr (mkn d c t p (mkn d Red sn sa sf))
  end.

(** [t] sits in the hole of [k] and is one black node short. *)
Fixpoint del_fix (k : ctx) (t : tree) : tree :=
  if is_red t then plug k (blacken t)
  else match k with
  | [] => t
  | F d c p s :: k' =>
      match s with
      | Node Red _ sa _ =>
          let k1 := F d Black sa (child (opp d) s) :: k' in
          match del_bal d Red p (child d s) t with
          | inl t' => blacken (plug k1 t')
          | inr t' => plug k1 (blacken t')
          end
      | _ =>
          match del_bal d c p s t with
          | inl t' => blacken (plug k' t')
          | inr t' => del_fix k' t'
          end
      end
  end.

Lemma addrs_del_bal d c p s t :
  addrs (match del_bal d c p s t with inl t' | inr t' => t' end) = addrs (mkn d c t p s).
Proof.
  destruct s as [|cs l sa r]; [done|]. unfold del_bal.
  destruct (is_red (child (opp d) _)) eqn:E1; [|destruct (is_red (child d _)) eqn:E2].
  - destruct d; simpl; rewrite addrs_blacken, <-!(assoc_L (++)); done.
  - destruct d; simpl in *.
    + destruct l as [|? l1 na l2]; solve_app.
    + destruct r as [|? l1 na l2]; solve_app.
  - by destruct d.
Qed.

Lemma addrs_del_fix k t : addrs (del_fix k t) = addrs (plug k t).
Proof.
  revert t. induction k as [|[d c p s] k IH]; intros t.
  - simpl. destruct (is_red t); [by rewrite addrs_blacken|done].
  - simpl. destruct (is_red t).
    { apply addrs_plug_cong. unfold fill; simpl. destruct d; simpl; by rewrite addrs_blacken. }
    assert (∀ c', addrs (match match del_bal d c' p s t with
                          | inl t' => inl (blacken (plug k t'))
                          | inr t' => inr (del_fix k t')
                          end with inl x | inr x => x end) = addrs (plug k (mkn d c' t p s))).
    { intros c'. pose proof (addrs_del_bal d c' p s t) as H.
      destruct (del_bal d c' p s t); rewrite ?addrs_blacken, ?IH; by apply addrs_plug_cong. }
    unfold fill; simpl.
    assert (addrs match del_bal d c p s t with
                  | inl t' => blacken (plug k t')
                  | inr t' => del_fix k t' end = addrs (plug k (mkn d c t p s))) as Hblk.
    { specialize (H c). by destruct (del_bal d c p s t). }
    destruct s as [|[] sl sa sr]; try exact Hblk. clear Hblk H.
    pose proof (addrs_del_bal d Red p (child d (Node Red sl sa sr)) t) as H.
    destruct (del_bal d Red p _ t) as [x|x]; unfold fill; simpl in *; rewrite ?addrs_blacken;
      apply addrs_plug_cong; destruct d; simpl in *;
      rewrite ?addrs_blacken, H; solve_app.
Qed.

(** The outcome of a round, when the sibling has a black root. *)
Lemma del_bal_rb d c p s t n ct :
  rb Black (S n) s → rb ct n t →
  match del_bal d c p s t with
  | inl t' => match c with
              | Black => rb Black (S (S n)) t'
              | Red => rb Red (S n) t'
              end
  | inr t' => ct = Black → match c with
              | Black => rb Black (S n) t'
              | Red => rb Black (S n) (blacken t') ∧ is_red t' = true
              end
  end.
Proof.
  intros Hs Ht. inversion Hs as [| |c1 c2 sl sa sr ? Hsl Hsr]; subst. unfold del_bal.
  assert (∃ cn, rb cn n (child d (Node Black sl sa sr))) as [cn Hn] by (destruct d; eauto).
  assert (∃ cf, rb cf n (child (opp d) (Node Black sl sa sr))) as [cf Hf] by (destruct d; eauto).
  clear Hsl Hsr Hs. revert Hn Hf.
  generalize (child d (Node Black sl sa sr)) (child (opp d) (Node Black sl sa sr)).
  intros sn sf Hn Hf.
  destruct (is_red sf) eqn:Ef; [|destruct (is_red sn) eqn:En].
  - destruct sf as [|[] fl fa fr]; try done. inversion Hf; subst. simpl.
    destruct c; eauto with rb.
  - destruct sn as [|[] nl na nr]; try done. inversion Hn; subst.
    assert (rb Black n (child d (Node Red nl na nr)) ∧
            rb Black n (child (opp d) (Node Red nl na nr))) as [??] by (destruct d; eauto).
    destruct c; eauto 10 with rb.
  - assert (rb Black n sf) by (inversion Hf; subst; done || eauto with rb).
    assert (rb Black n sn) by (inversion Hn; subst; done || eauto with rb).
    intros ->. destruct c; [|eauto with rb]. rewrite blacken_mkn.
    split; [eauto with rb|by destruct d].
Qed.

Lemma del_bal_black d p s t n :
  rb Black (S n) s → rb Black n t → ∀ k, kok Black (S (S n)) k →
  (∀ t', rb Black (S n) t' → rbtree (del_fix k t')) →
  rbtree match del_bal d Black p s t with
         | inl t' => blacken (plug k t') | inr t' => del_fix k t' end.
Proof.
  intros Hs Ht k Hk IH. pose proof (del_bal_rb d Black p s t n Black Hs Ht) as H.
  destruct (del_bal d Black p s t) as [x|x]; [|by apply IH, H].
  destruct (kok_plug _ _ _ _ Hk H) as [N HN]. by eapply rbtree_blacken.
Qed.

Lemma del_bal_red d p s t n k :
  rb Black (S n) s → rb Black n t → kok Red (S n) k →
  rbtree match del_bal d Red p s t with
         | inl t' => blacken (plug k t') | inr t' => plug k (blacken t') end.
Proof.
  intros Hs Ht Hk. pose proof (del_bal_rb d Red p s t n Black Hs Ht) as H.
  destruct (del_bal d Red p s t) as [x|x].
  - destruct (kok_plug _ _ _ _ Hk H) as [N HN]. by eapply rbtree_blacken.
  - destruct (H eq_refl) as [? _]. apply (kok_plug Black (S n)); auto with rb.
Qed.

Lemma del_fix_red k t : is_red t = true → del_fix k t = plug k (blacken t).
Proof. intros H. destruct k; simpl; by rewrite H. Qed.

Lemma del_fix_black d c p d' sn sa sf k t :
  is_red t = false →
  del_fix (F d c p (mkn d' Black sn sa sf) :: k) t =
  match del_bal d c p (mkn d' Black sn sa sf) t with
  | inl t' => blacken (plug k t')
  | inr t' => del_fix k t'
  end.
Proof. intros H. cbn [del_fix]. rewrite H. by destruct d'. Qed.

Lemma del_fix_sib_red d c p sn sa sf k t :
  is_red t = false →
  del_fix (F d c p (mkn d Red sn sa sf) :: k) t =
  match del_bal d Red p sn t with
  | inl t' => blacken (plug (F d Black sa sf :: k) t')
  | inr t' => plug (F d Black sa sf :: k) (blacken t')
  end.
Proof. intros H. cbn [del_fix]. rewrite H. by destruct d. Qed.

Theorem del_fix_rb k t c n :
  kok Black (S n) k → rb c n t → rbtree (del_fix k t).
Proof.
  revert t c n. induction k as [|[d c' p s] k IH]; intros t c n Hk Ht.
  { simpl. inversion Ht; subst; simpl; unfold rbtree; eauto with rb. }
  destruct (is_red t) eqn:Er.
  { rewrite del_fix_red by done. eapply kok_plug; [done|].
    inversion Ht; subst; try done; simpl; eauto with rb. }
  assert (rb Black n t) as HtB by (inversion Ht; subst; done || eauto with rb).
  simpl; rewrite Er. inversion Hk as [|? ? ? ? ? Hs Hk'|? cs ? ? ? ? ? Hs Hk']; subst.
  - assert (rbtree match del_bal d Red p s t with
                   | inl t' => blacken (plug k t') | inr t' => del_fix k t' end) as Hgoal.
    { pose proof (del_bal_red d p s t n k Hs HtB Hk') as H.
      pose proof (del_bal_rb d Red p s t n Black Hs HtB) as H2.
      destruct (del_bal d Red p s t) as [x|x]; [done|].
      destruct (H2 eq_refl) as [_ ?]. by rewrite del_fix_red. }
    inversion Hs; subst; exact Hgoal.
  - inversion Hs as [|sl sa sr ? Hsl Hsr|? ? sl sa sr ? Hsl Hsr]; subst.
    + apply (del_bal_red d p (child d (Node Red sl sa sr)) t n
               (F d Black sa (child (opp d) (Node Red sl sa sr)) :: k)); [by destruct d|done|].
      eapply kok_black; [|done]. by destruct d.
    + eapply del_bal_black; eauto.
Qed.

(** ** Taking a node out *)

(** The leftmost node of [Node c l a r], with its colour, its right subtree and
    its context below [k]. *)
Fixpoint leftmost (c : color) (l : tree) (a : Z) (r : tree) (k : ctx) :
    ctx * color * Z * tree :=
  match l with
  | Leaf => (k, c, a, r)
  | Node c' l' a' r' => leftmost c' l' a' r' (F L c a r :: k)
  end.

(** The hole of [k] held a node of colour [c]; [t] takes its place. *)
Definition splice (k : ctx) (c : color) (t : tree) : tree :=
  match c with Black => del_fix k t | Red => plug k t end.

(** What is left when [a] has been unlinked: a context, the colour of the node
    that is gone from its hole, and the subtree that is there now.  With two
    children it is the successor of [a] that is unlinked and takes [a]'s place. *)
Definition unlink_at (k : ctx) (c : color) (l : tree) (a : Z) (r : tree) :
    ctx * color * tree :=
  match l, r with
  | Leaf, _ => (k, c, r)
  | _, Leaf => (k, c, l)
  | _, Node cr rl ra rr =>
      let '(ky, cy, y, ry) := leftmost cr rl ra rr [] in
      (ky ++ F R c y l :: k, cy, ry)
  end.

Definition erase_at (k : ctx) (c : color) (l : tree) (a : Z) (r : tree) : tree :=
  let '(k', c', t) := unlink_at k c l a r in splice k' c' t.

Lemma leftmost_plug c l a r k k' c' a' r' :
  leftmost c l a r k = (k', c', a', r') →
  plug k (Node c l a r) = plug k' (Node c' Leaf a' r').
Proof.
  revert c a r k. induction l as [|cl ll IH al rl]; intros c a r k; simpl; [by intros [= <- <- <- <-]|].
  intros H. apply IH in H. done.
Qed.

Lemma leftmost_app c l a r k :
  leftmost c l a r k =
  let '(k', c', a', r') := leftmost c l a r [] in (k' ++ k, c', a', r').
Proof.
  revert c a r k. induction l as [|cl ll IH al rl]; intros c a r k; simpl; [done|].
  rewrite (IH _ _ _ (_ :: k)), (IH _ _ _ [_]).
  destruct (leftmost cl ll al rl []) as [[[k' c'] a'] r']. by rewrite <-(assoc_L (++)).
Qed.

Lemma leftmost_before c l a r k k' c' a' r' :
  leftmost c l a r k = (k', c', a', r') → kbefore k' = kbefore k.
Proof.
  revert c a r k. induction l as [|cl ll IH al rl]; intros c a r k; simpl; [by intros [= <- _ _ _]|].
  intros H. by apply IH in H.
Qed.

Lemma kbefore_app k1 k2 : kbefore (k1 ++ k2) = kbefore k2 ++ kbefore k1.
Proof.
  induction k1 as [|[[] c a s] k1 IH]; simpl; [by rewrite app_nil_r|done|].
  rewrite IH; solve_app.
Qed.
Lemma kafter_app k1 k2 : kafter (k1 ++ k2) = kafter k1 ++ kafter k2.
Proof.
  induction k1 as [|[[] c a s] k1 IH]; simpl; [done| |done].
  rewrite IH; solve_app.
Qed.

Lemma addrs_splice k c t : addrs (splice k c t) = kbefore k ++ addrs t ++ kafter k.
Proof. destruct c; simpl; by rewrite ?addrs_del_fix, addrs_plug. Qed.

(** The in-order sequence loses exactly the erased node. *)
Lemma addrs_erase_at k c l a r :
  addrs (erase_at k c l a r) = kbefore k ++ addrs l ++ addrs r ++ kafter k.
Proof.
  unfold erase_at, unlink_at. destruct l as [|cl ll al rl]; [by rewrite addrs_splice|].
  destruct r as [|cr rl' ra rr]; [by rewrite addrs_splice|].
  destruct (leftmost cr rl' ra rr []) as [[[ky cy] y] ry] eqn:E.
  pose proof (leftmost_before _ _ _ _ _ _ _ _ _ E) as Hb. simpl in Hb.
  apply leftmost_plug in E. simpl in E.
  apply (f_equal addrs) in E. rewrite addrs_plug, Hb in E. simpl in E.
  rewrite addrs_splice, kbefore_app, kafter_app, Hb. simpl. rewrite app_nil_r, E.
  solve_app.
Qed.

Lemma splice_rb k c t n :
  kok c n k → (match c with
               | Red => rb Black n t
               | Black => ∃ m c', n = S m ∧ rb c' m t
               end) → rbtree (splice k c t).
Proof.
  intros Hk Ht. destruct c; simpl.
  - apply (kok_plug Black n); auto with rb.
  - destruct Ht as (m & c' & -> & ?). by eapply del_fix_rb.
Qed.

Lemma leftmost_kok c l a r k k' c' a' r' cc n :
  leftmost c l a r k = (k', c', a', r') → kok cc n k → rb cc n (Node c l a r) →
  ∃ m, kok c' m k' ∧ rb c' m (Node c' Leaf a' r').
Proof.
  revert c a r k cc n. induction l as [|cl ll IH al rl]; intros c a r k cc n; simpl.
  - intros [= <- <- <- <-] Hk Ht. exists n. inversion Ht; subst; eauto with rb.
  - intros H Hk Ht. inversion Ht; subst; (eapply IH; [exact H| |eassumption]); eauto with rb.
Qed.

(** The context is short of one black node exactly when a black one is gone. *)
Definition splice_ok (k : ctx) (c : color) (t : tree) : Prop :=
  ∃ n, kok c n k ∧ match c with
                   | Red => rb Black n t
                   | Black => ∃ m c', n = S m ∧ rb c' m t
                   end.

Lemma unlink_at_ok k c l a r k' c' t :
  rbtree (plug k (Node c l a r)) → unlink_at k c l a r = (k', c', t) → splice_ok k' c' t.
Proof.
  intros (c2 & n & Hk & Ht)%rb_plug_inv.
  assert (c2 = c) as -> by (by inversion Ht).
  unfold unlink_at. destruct l as [|cl ll al rl]; [|destruct r as [|cr rl' ra rr]].
  - intros [= <- <- <-]. exists n. split; [done|]. inversion Ht; subst; eauto.
  - intros [= <- <- <-]. exists n. split; [done|]. inversion Ht; subst; eauto.
  - destruct (leftmost cr rl' ra rr []) as [[[ky cy] y] ry] eqn:E. intros [= <- <- <-].
    pose proof (leftmost_app cr rl' ra rr (F R c y (Node cl ll al rl) :: k)) as E2.
    rewrite E in E2.
    destruct c; inversion Ht; subst;
      (eapply leftmost_kok in E2 as (m & Hk2 & Hy); [| |eassumption]; [|eauto with rb]);
      exists m; (split; [done|]); inversion Hy; subst; eauto.
Qed.

Lemma erase_at_rb k c l a r :
  rbtree (plug k (Node c l a r)) → rbtree (erase_at k c l a r).
Proof.
  intros H. unfold erase_at. destruct (unlink_at k c l a r) as [[k' c'] t] eqn:E.
  destruct (unlink_at_ok _ _ _ _ _ _ _ _ H E) as (n & ? & ?). by eapply splice_rb.
Qed.

(** ** The ends of a subtree *)

(** Going down on side [d] as far as there are nodes: the context and the
    subtree where the walk stops. *)
Fixpoint spine (d : dir) (t : tree) (k : ctx) : ctx * tree :=
  match t with
  | Leaf => (k, Leaf)
  | Node c l a r =>
      match d with
      | L => match l with Leaf => (k, t) | _ => spine d l (F L c a r :: k) end
      | R => match r with Leaf => (k, t) | _ => spine d r (F R c a l :: k) end
      end
  end.

Lemma spine_mkn d c t a s k :
  spine d (mkn d c t a s) k =
  match t with Leaf => (k, mkn d c t a s) | _ => spine d t (F d c a s :: k) end.
Proof. by destruct d, t. Qed.

Lemma leftmost_spine c l a r k k' c' a' r' :
  leftmost c l a r k = (k', c', a', r') →
  spine L (Node c l a r) k = (k', Node c' Leaf a' r').
Proof.
  revert c a r k. induction l as [|cl ll IH al rl]; intros c a r k; [by intros [= <- <- <- <-]|].
  apply IH.
Qed.

Lemma leftmost_left c l a r k k' c' a' r' :
  leftmost c l a r k = (k', c', a', r') →
  Forall (λ f, f_dir f = L) k → Forall (λ f, f_dir f = L) k'.
Proof.
  revert c a r k. induction l as [|cl ll IH al rl]; intros c a r k; [by intros [= <- _ _ _]|].
  intros H Hk. eapply IH; [exact H|]. by constructor.
Qed.

(** The node where the walk stops is the first (last) one of the subtree. *)
Lemma spine_spec d t k k' t' :
  spine d t k = (k', t') → t ≠ Leaf →
  plug k t = plug k' t' ∧
  (∃ c a s, t' = mkn d c Leaf a s) ∧
  match d with L => kbefore k' = kbefore k | R => kafter k' = kafter k end.
Proof.
  revert k. induction t as [|c l IHl a r IHr]; intros k; [done|]. intros H _.
  destruct d; simpl in H.
  - destruct l as [|cl ll al lr].
    + injection H as <- <-. split_and!; [done|by exists c, a, r|done].
    + apply IHl in H as (H1 & H2 & H3); [|done]. split_and!; [by rewrite <-H1|done|done].
  - destruct r as [|cr rl ar rr].
    + injection H as <- <-. split_and!; [done|by exists c, a, l|done].
    + apply IHr in H as (H1 & H2 & H3); [|done]. split_and!; [by rewrite <-H1|done|done].
Qed.
