(* ===== verification/RbTree.v ===== *)
(** * tree/rbtree: the red-black tree of the kernel style

    [rbtree.h] and [rbtree.c]: nodes that keep the parent pointer and the colour
    in one machine word, rotations, the two rebalancing loops, removal and the
    walks in order.  The state is the heap of nodes and [root->rb_node]. *)
From S2P Require Import Prelude.

(** ** The node: rbtree.h *)

(** [struct rb_node]; [rb_parent_color] is an [unsigned long] that holds the
    parent's address (a multiple of 4) and the colour in bit 0. *)
Record rb_node := RbNode {
  rb_parent_color : Z;
  rb_right : Z;
  rb_left : Z;
}.

Definition RB_RED : Z := 0.
Definition RB_BLACK : Z := 1.

(** The state of the functions of [rbtree.c]: the nodes, and the [rb_node]
    field of the [struct rb_root] they are given. *)
Abbreviation rb_state := (st rb_node Z).
Abbreviation RB := (M rb_state).

(** [rb_parent(r)] and [rb_color(r)]: [& ~3] and [& 1] on the word. *)
Definition parent_of (n : rb_node) : Z := Z.land (rb_parent_color n) (ulong (Z.lnot 3)).
Definition color_of (n : rb_node) : Z := Z.land (rb_parent_color n) 1.

Definition rb_parent (r : Z) : RB Z := fget parent_of r.
Definition rb_color (r : Z) : RB Z := fget color_of r.
Definition rb_is_red (r : Z) : RB bool := c ← rb_color r; mret (c =? 0).
Definition rb_is_black (r : Z) : RB bool := c ← rb_color r; mret (negb (c =? 0)).

Definition with_parent_color (f : Z → Z) (n : rb_node) : rb_node :=
  RbNode (f (rb_parent_color n)) (rb_right n) (rb_left n).

Definition rb_set_red (r : Z) : RB unit :=
  fset (with_parent_color (λ w, Z.land w (ulong (Z.lnot 1)))) r.
Definition rb_set_black (r : Z) : RB unit :=
  fset (with_parent_color (λ w, Z.lor w 1)) r.
Definition rb_set_parent (rb p : Z) : RB unit :=
  fset (with_parent_color (λ w, Z.lor (Z.land w 3) p)) rb.
Definition rb_set_color (rb color : Z) : RB unit :=
  fset (with_parent_color (λ w, Z.lor (Z.land w (ulong (Z.lnot 1))) color)) rb.

Definition get_left (a : Z) : RB Z := fget rb_left a.
Definition get_right (a : Z) : RB Z := fget rb_right a.
Definition set_left (a v : Z) : RB unit :=
  fset (λ n, RbNode (rb_parent_color n) (rb_right n) v) a.
Definition set_right (a v : Z) : RB unit :=
  fset (λ n, RbNode (rb_parent_color n) v (rb_left n)) a.

Definition get_root : RB Z := get_env.
Definition set_root (v : Z) : RB unit := put_env v.

(** A [struct rb_node **]: the root field, or a child field of a node. *)
Inductive rb_link := LinkRoot | LinkLeft (a : Z) | LinkRight (a : Z).

Definition read_link (p : rb_link) : RB Z :=
  match p with
  | LinkRoot => get_root
  | LinkLeft a => get_left a
  | LinkRight a => get_right a
  end.
Definition write_link (p : rb_link) (v : Z) : RB unit :=
  match p with
  | LinkRoot => set_root v
  | LinkLeft a => set_left a v
  | LinkRight a => set_right a v
  end.

Definition rb_link_node (node parent : Z) (rb_link : rb_link) : RB unit :=
  fset (with_parent_color (λ _, parent)) node;;
  set_right node 0;;
  set_left node 0;;
  write_link rb_link node.

(** ** Rotations: rbtree.c *)

Definition __rb_rotate_left (node : Z) : RB unit :=
  right ← get_right node;
  parent ← rb_parent node;
  rl ← get_left right;
  set_right node rl;;
  when (negb (rl =? 0)) (rl' ← get_left right; rb_set_parent rl' node);;
  set_left right node;;
  rb_set_parent right parent;;
  (if negb (parent =? 0) then
     pl ← get_left parent;
     if node =? pl then set_left parent right else set_right parent right
   else set_root right);;
  rb_set_parent node right.

Definition __rb_rotate_right (node : Z) : RB unit :=
  left ← get_left node;
  parent ← rb_parent node;
  lr ← get_right left;
  set_left node lr;;
  when (negb (lr =? 0)) (lr' ← get_right left; rb_set_parent lr' node);;
  set_right left node;;
  rb_set_parent left parent;;
  (if negb (parent =? 0) then
     pr ← get_right parent;
     if node =? pr then set_right parent left else set_left parent left
   else set_root left);;
  rb_set_parent node left.

(** The loops run along a path of the tree: one round per node is enough. *)
Definition rounds : RB nat := s ← get; mret (2 + size (mem s))%nat.

(** [p && rb_is_red(p)]; [!p || rb_is_black(p)]. *)
Definition live_red (p : Z) : RB bool :=
  if p =? 0 then mret false else rb_is_red p.
Definition null_or_black (p : Z) : RB bool :=
  if p =? 0 then mret true else rb_is_black p.

(** ** Insertion *)

(** One round of the loop of [rb_insert_color]. *)
Definition insert_color_round (node : Z) : RB (Z + unit) :=
  parent ← rb_parent node;
  go ← live_red parent;
  if negb go then mret (inr ()) else
  gparent ← rb_parent parent;
  gl ← get_left gparent;
  if parent =? gl then
    uncle ← get_right gparent;
    ured ← live_red uncle;
    if (ured : bool) then
      rb_set_black uncle;;
      rb_set_black parent;;
      rb_set_red gparent;;
      mret (inl gparent)
    else
      pr ← get_right parent;
      '(parent', node') ← (if pr =? node
                           then __rb_rotate_left parent;; mret (node, parent)
                           else mret (parent, node));
      rb_set_black parent';;
      rb_set_red gparent;;
      __rb_rotate_right gparent;;
      mret (inl node')
  else
    uncle ← get_left gparent;
    ured ← live_red uncle;
    if (ured : bool) then
      rb_set_black uncle;;
      rb_set_black parent;;
      rb_set_red gparent;;
      mret (inl gparent)
    else
      pl ← get_left parent;
      '(parent', node') ← (if pl =? node
                           then __rb_rotate_right parent;; mret (node, parent)
                           else mret (parent, node));
      rb_set_black parent';;
      rb_set_red gparent;;
      __rb_rotate_left gparent;;
      mret (inl node').

Definition rb_insert_color (node : Z) : RB unit :=
  fuel ← rounds;
  loop fuel insert_color_round node;;
  root ← get_root;
  rb_set_black root.

(** ** Removal *)

(** One round of the loop of [__rb_erase_color]; the locals are [node] and
    [parent], the loop is left with the last [node]. *)
Definition erase_color_round (l : Z * Z) : RB (Z * Z + Z) :=
  let '(node, parent) := l in
  nb ← null_or_black node;
  root ← get_root;
  if negb (nb && negb (node =? root)) then mret (inr node) else
  pl ← get_left parent;
  if pl =? node then
    other0 ← get_right parent;
    ored ← rb_is_red other0;
    other ← (if (ored : bool) then
               rb_set_black other0;;
               rb_set_red parent;;
               __rb_rotate_left parent;;
               get_right parent
             else mret other0);
    ol ← get_left other;
    lb ← null_or_black ol;
    rb ← (if (lb : bool) then or ← get_right other; null_or_black or else mret false);
    if (lb && rb : bool) then
      rb_set_red other;;
      parent' ← rb_parent parent;
      mret (inl (parent, parent'))
    else
      or ← get_right other;
      orb ← null_or_black or;
      other' ← (if (orb : bool) then
                  ol' ← get_left other;
                  rb_set_black ol';;
                  rb_set_red other;;
                  __rb_rotate_right other;;
                  get_right parent
                else mret other);
      pc ← rb_color parent;
      rb_set_color other' pc;;
      rb_set_black parent;;
      or' ← get_right other';
      rb_set_black or';;
      __rb_rotate_left parent;;
      root' ← get_root;
      mret (inr root')
  else
    other0 ← get_left parent;
    ored ← rb_is_red other0;
    other ← (if (ored : bool) then
               rb_set_black other0;;
               rb_set_red parent;;
               __rb_rotate_right parent;;
               get_left parent
             else mret other0);
    ol ← get_left other;
    lb ← null_or_black ol;
    rb ← (if (lb : bool) then or ← get_right other; null_or_black or else mret false);
    if (lb && rb : bool) then
      rb_set_red other;;
      parent' ← rb_parent parent;
      mret (inl (parent, parent'))
    else
      ol' ← get_left other;
      olb ← null_or_black ol';
      other' ← (if (olb : bool) then
                  or' ← get_right other;
                  rb_set_black or';;
                  rb_set_red other;;
                  __rb_rotate_left other;;
                  get_left parent
                else mret other);
      pc ← rb_color parent;
      rb_set_color other' pc;;
      rb_set_black parent;;
      ol'' ← get_left other';
      rb_set_black ol'';;
      __rb_rotate_right parent;;
      root' ← get_root;
      mret (inr root').

Definition __rb_erase_color (node parent : Z) : RB unit :=
  fuel ← rounds;
  node' ← loop fuel erase_color_round (node, parent);
  when (negb (node' =? 0)) (rb_set_black node').

(** [while ((left = node->rb_left) != NULL) node = left;] and its mirror. *)
Definition go_left (node : Z) : RB Z :=
  fuel ← rounds;
  loop fuel (λ n, left ← get_left n;
                  mret (if left =? 0 then inr n else inl left)) node.
Definition go_right (node : Z) : RB Z :=
  fuel ← rounds;
  loop fuel (λ n, right ← get_right n;
                  mret (if right =? 0 then inr n else inl right)) node.

(** The part of [rb_erase] for a node with two children: its successor is
    unlinked and takes its place. *)
Definition erase_two (old : Z) : RB (Z * Z * Z) :=
  node0 ← get_right old;
  node ← go_left node0;
  op ← rb_parent old;
  (if negb (op =? 0) then
     opl ← get_left op;
     if opl =? old then set_left op node else set_right op node
   else set_root node);;
  child ← get_right node;
  parent ← rb_parent node;
  color ← rb_color node;
  parent' ← (if parent =? old then mret node
             else
               when (negb (child =? 0)) (rb_set_parent child parent);;
               set_left parent child;;
               or ← get_right old;
               set_right node or;;
               or' ← get_right old;
               rb_set_parent or' node;;
               mret parent);
  opc ← fget rb_parent_color old;
  fset (with_parent_color (λ _, opc)) node;;
  ol ← get_left old;
  set_left node ol;;
  ol' ← get_left old;
  rb_set_parent ol' node;;
  mret (child, parent', color).

(** The part of [rb_erase] for a node with at most one child. *)
Definition erase_one (node child : Z) : RB (Z * Z * Z) :=
  parent ← rb_parent node;
  color ← rb_color node;
  when (negb (child =? 0)) (rb_set_parent child parent);;
  (if negb (parent =? 0) then
     pl ← get_left parent;
     if pl =? node then set_left parent child else set_right parent child
   else set_root child);;
  mret (child, parent, color).

Definition rb_erase (node : Z) : RB unit :=
  nl ← get_left node;
  nr ← get_right node;
  '(child, parent, color) ←
    (if nl =? 0 then erase_one node nr
     else if nr =? 0 then erase_one node nl
     else erase_two node);
  when (color =? RB_BLACK) (__rb_erase_color child parent).

(** ** Walking *)

Definition rb_first : RB Z :=
  n ← get_root;
  if n =? 0 then mret 0 else go_left n.

Definition rb_last : RB Z :=
  n ← get_root;
  if n =? 0 then mret 0 else go_right n.

(** [while ((parent = rb_parent(node)) && node == parent->rb_right)
    node = parent;] and its mirror, followed by [return parent]. *)
Definition climb_right (node : Z) : RB Z :=
  fuel ← rounds;
  loop fuel (λ n, parent ← rb_parent n;
                  if parent =? 0 then mret (inr parent)
                  else pr ← get_right parent;
                       mret (if n =? pr then inl parent else inr parent)) node.
Definition climb_left (node : Z) : RB Z :=
  fuel ← rounds;
  loop fuel (λ n, parent ← rb_parent n;
                  if parent =? 0 then mret (inr parent)
                  else pl ← get_left parent;
                       mret (if n =? pl then inl parent else inr parent)) node.

Definition rb_next (node : Z) : RB Z :=
  p ← rb_parent node;
  if p =? node then mret 0 else
  r ← get_right node;
  if negb (r =? 0) then go_left r else climb_right node.

Definition rb_prev (node : Z) : RB Z :=
  p ← rb_parent node;
  if p =? node then mret 0 else
  l ← get_left node;
  if negb (l =? 0) then go_right l else climb_left node.

Definition rb_replace_node (victim new : Z) : RB unit :=
  parent ← rb_parent victim;
  (if negb (parent =? 0) then
     pl ← get_left parent;
     if victim =? pl then set_left parent new else set_right parent new
   else set_root new);;
  vl ← get_left victim;
  when (negb (vl =? 0)) (vl' ← get_left victim; rb_set_parent vl' new);;
  vr ← get_right victim;
  when (negb (vr =? 0)) (vr' ← get_right victim; rb_set_parent vr' new);;
  v ← load victim;
  store new v.
