(* ===== verification/RbTreeFacts.v ===== *)
(** * tree/rbtree: from words and pointers to trees

    The link between the nodes of [RbTree] and the cells of [PtrTree]: the
    packing of the parent pointer and the colour, the effect of each accessor,
    of recolouring and of a rotation on the represented tree. *)
From S2P Require Import Prelude PtrTree RbSpec RbTree.

(** ** The packed word *)

(** The addresses a node may have: nonzero, 64 bits wide, 4-byte aligned. *)
Definition node_addr (a : Z) : Prop := 0 < a < 2 ^ 64 ∧ a mod 4 = 0.

Lemma node_addr_bits a i : a = 0 ∨ node_addr a → i < 2 ∨ 64 ≤ i → Z.testbit a i = false.
Proof.
  intros [->|[Ha Hm]] Hi; [apply Z.testbit_0_l|].
  destruct (decide (i < 0)); [by apply Z.testbit_neg_r|].
  destruct Hi as [Hi|Hi].
  - change 4 with (2 ^ 2) in Hm. rewrite <-(Z.mod_pow2_bits_low a 2), Hm by lia.
    apply Z.testbit_0_l.
  - rewrite <-(Z.mod_small a (2 ^ 64)) by lia. apply Z.mod_pow2_bits_high. lia.
Qed.

Lemma mask_testbit m i :
  0 ≤ i → 0 ≤ m → Z.testbit (ulong (Z.lnot m)) i = (i <? 64) && negb (Z.testbit m i).
Proof.
  intros Hi Hm. unfold ulong, wrap. destruct (Z.ltb_spec i 64).
  - rewrite Z.mod_pow2_bits_low by lia. by rewrite Z.lnot_spec.
  - rewrite Z.mod_pow2_bits_high by lia. done.
Qed.

Lemma testbit_3 i : 0 ≤ i → Z.testbit 3 i = (i <? 2).
Proof.
  intros Hi. change 3 with (Z.ones 2). destruct (Z.ltb_spec i 2).
  - apply Z.ones_spec_low. lia.
  - apply Z.ones_spec_high. lia.
Qed.

Lemma testbit_1 i : 0 ≤ i → Z.testbit 1 i = (i <? 1).
Proof.
  intros Hi. change 1 with (Z.ones 1) at 1. destruct (Z.ltb_spec i 1).
  - apply Z.ones_spec_low. lia.
  - apply Z.ones_spec_high. lia.
Qed.

(** Equations between words by their bits below and above 2 and 64. *)
Ltac word_bits :=
  apply Z.bits_inj'; intros i Hi;
  rewrite ?Z.land_spec, ?Z.lor_spec, ?mask_testbit, ?Z.land_spec, ?Z.lor_spec,
    ?mask_testbit, ?testbit_3, ?testbit_1, ?Z.testbit_0_l by lia;
  destruct (Z.ltb_spec i 64); destruct (Z.ltb_spec i 2); destruct (Z.ltb_spec i 1);
  try lia; simpl; rewrite ?andb_true_r, ?andb_false_r, ?orb_false_r; try done.

Lemma set_parent_parent w p :
  p = 0 ∨ node_addr p →
  Z.land (Z.lor (Z.land w 3) p) (ulong (Z.lnot 3)) = p.
Proof. intros Hp. word_bits; by rewrite (node_addr_bits p) by (done || lia). Qed.

Lemma set_parent_color w p :
  p = 0 ∨ node_addr p →
  Z.land (Z.lor (Z.land w 3) p) 1 = Z.land w 1.
Proof. intros Hp. word_bits; by rewrite (node_addr_bits p), ?orb_false_r by (done || lia). Qed.

Lemma new_parent p : p = 0 ∨ node_addr p → Z.land p (ulong (Z.lnot 3)) = p ∧ Z.land p 1 = 0.
Proof.
  intros Hp. split; word_bits; by rewrite ?(node_addr_bits p) by (done || lia).
Qed.

Lemma red_word w :
  Z.land (Z.land w (ulong (Z.lnot 1))) (ulong (Z.lnot 3)) = Z.land w (ulong (Z.lnot 3)) ∧
  Z.land (Z.land w (ulong (Z.lnot 1))) 1 = 0.
Proof. split; word_bits. Qed.

Lemma black_word w :
  Z.land (Z.lor w 1) (ulong (Z.lnot 3)) = Z.land w (ulong (Z.lnot 3)) ∧
  Z.land (Z.lor w 1) 1 = 1.
Proof. split; word_bits; by rewrite orb_true_r. Qed.

Lemma land_1_cases w : Z.land w 1 = 0 ∨ Z.land w 1 = 1.
Proof.
  assert (Z.land w 1 = w mod 2) as -> by (apply (Z.land_ones w 1); lia).
  pose proof (Z.mod_pos_bound w 2). lia.
Qed.

(** ** Cells of nodes *)

Definition cell_of (n : rb_node) : cell :=
  Cell (parent_of n) (color_of n) (rb_left n) (rb_right n).

Definition shape (s : rb_state) : shapes := cell_of <$> mem s.

(** The tree whose root is [root->rb_node]. *)
Definition tree_in (s : rb_state) (T : tree) : Prop :=
  is_tree 0 node_addr (shape s) 0 (env s) T.

(** Nodes outside [L] are untouched. *)
Definition frame_out (L : list Z) (s s' : rb_state) : Prop :=
  ∀ b, b ∉ L → mem s' !! b = mem s !! b.

#[export] Instance frame_out_refl L : Reflexive (frame_out L).
Proof. by intros s b Hb. Qed.
#[export] Instance frame_out_trans L : Transitive (frame_out L).
Proof. intros s1 s2 s3 H1 H2 b Hb. by rewrite (H2 b Hb), (H1 b Hb). Qed.
#[export] Instance frame_out_proper : Proper ((≡ₚ) ==> eq ==> eq ==> iff) frame_out.
Proof.
  intros L1 L2 HL s ? <- s' ? <-. unfold frame_out. by setoid_rewrite HL.
Qed.

Lemma frame_out_mono L1 L2 s s' : frame_out L1 s s' → L1 ⊆ L2 → frame_out L2 s s'.
Proof. intros H Hs b Hb. apply H. set_solver. Qed.

Lemma shape_lookup s a c :
  shape s !! a = Some c → ∃ n, mem s !! a = Some n ∧ cell_of n = c.
Proof. unfold shape. rewrite lookup_fmap, fmap_Some. naive_solver. Qed.

Lemma wp_read {A} (f : rb_node → A) (g : cell → A) a c s Q :
  shape s !! a = Some c → (∀ n, f n = g (cell_of n)) →
  Q (g c) s → wp (fget f a) s Q.
Proof.
  intros (n & Hn & <-)%shape_lookup Hfg HQ. eapply wp_fget; [done|]. by rewrite Hfg.
Qed.

Lemma wp_upd (f : rb_node → rb_node) (g : cell → cell) a c s (Q : unit → rb_state → Prop) :
  shape s !! a = Some c → (∀ n, cell_of (f n) = g (cell_of n)) →
  (∀ s', shape s' = alter g a (shape s) → env s' = env s → frame_out [a] s s' → Q () s') →
  wp (fset f a) s Q.
Proof.
  intros (n & Hn & <-)%shape_lookup Hfg HQ. eapply wp_fset; [done|]. apply HQ.
  - unfold shape; simpl. rewrite fmap_insert, Hfg. apply map_eq. intros b.
    rewrite lookup_alter, lookup_insert, lookup_fmap. case_decide; [|done].
    subst b. by rewrite lookup_fmap, Hn.
  - done.
  - intros b Hb. simpl. rewrite lookup_insert_ne; set_solver.
Qed.

Section ops.
Context (s : rb_state) (a : Z) (c : cell) (H : shape s !! a = Some c).

Lemma wp_get_left Q : Q (c_left c) s → wp (get_left a) s Q.
Proof. by apply (wp_read _ c_left _ _ _ _ H). Qed.
Lemma wp_get_right Q : Q (c_right c) s → wp (get_right a) s Q.
Proof. by apply (wp_read _ c_right _ _ _ _ H). Qed.
Lemma wp_parent Q : Q (c_par c) s → wp (rb_parent a) s Q.
Proof. by apply (wp_read _ c_par _ _ _ _ H). Qed.
Lemma wp_color Q : Q (c_col c) s → wp (rb_color a) s Q.
Proof. by apply (wp_read _ c_col _ _ _ _ H). Qed.
Lemma wp_is_red Q : Q (c_col c =? 0) s → wp (rb_is_red a) s Q.
Proof. intros. apply wp_bind, wp_color. by apply wp_ret. Qed.
Lemma wp_is_black Q : Q (negb (c_col c =? 0)) s → wp (rb_is_black a) s Q.
Proof. intros. apply wp_bind, wp_color. by apply wp_ret. Qed.

Section upd.
Context (Q : unit → rb_state → Prop).
Abbreviation upd g := (∀ s', shape s' = alter g a (shape s) → env s' = env s →
                         frame_out [a] s s' → Q () s').

Lemma wp_set_left v : upd (set_c_child L v) → wp (set_left a v) s Q.
Proof. by eapply wp_upd. Qed.
Lemma wp_set_right v : upd (set_c_child R v) → wp (set_right a v) s Q.
Proof. by eapply wp_upd. Qed.
Lemma wp_set_parent p :
  p = 0 ∨ node_addr p → upd (set_c_par p) → wp (rb_set_parent a p) s Q.
Proof.
  intros Hp. eapply wp_upd; [done|]. intros n. unfold cell_of, parent_of, color_of; simpl.
  by rewrite set_parent_parent, set_parent_color.
Qed.
Lemma wp_set_red : upd (set_c_col 0) → wp (rb_set_red a) s Q.
Proof.
  eapply wp_upd; [done|]. intros n. unfold cell_of, parent_of, color_of; simpl.
  by destruct (red_word (rb_parent_color n)) as [-> ->].
Qed.
Lemma wp_set_black : upd (set_c_col 1) → wp (rb_set_black a) s Q.
Proof.
  eapply wp_upd; [done|]. intros n. unfold cell_of, parent_of, color_of; simpl.
  by destruct (black_word (rb_parent_color n)) as [-> ->].
Qed.
Lemma wp_set_color x :
  x = 0 ∨ x = 1 → upd (set_c_col x) → wp (rb_set_color a x) s Q.
Proof.
  intros Hx. eapply wp_upd; [done|]. intros n. unfold cell_of, parent_of, color_of; simpl.
  destruct (red_word (rb_parent_color n)) as [Hp Hc].
  destruct Hx as [-> | ->].
  - by rewrite Z.lor_0_r, Hp, Hc.
  - destruct (black_word (Z.land (rb_parent_color n) (ulong (Z.lnot 1)))) as [-> ->].
    by rewrite Hp.
Qed.
Lemma wp_new_parent p :
  p = 0 ∨ node_addr p →
  upd (λ c, Cell p 0 (c_left c) (c_right c)) →
  wp (fset (with_parent_color (λ _, p)) a) s Q.
Proof.
  intros Hp. eapply wp_upd; [done|]. intros n. unfold cell_of, parent_of, color_of; simpl.
  by destruct (new_parent p Hp) as [-> ->].
Qed.
End upd.
End ops.

(** ** Directions *)

(** The two halves of the C code are mirror images; the proofs treat them once. *)
Definition get_child (d : dir) : Z → RB Z := match d with L => get_left | R => get_right end.
Definition set_child (d : dir) : Z → Z → RB unit :=
  match d with L => set_left | R => set_right end.
Definition c_child (d : dir) (c : cell) : Z := match d with L => c_left c | R => c_right c end.

Lemma wp_get_child d s a c Q :
  shape s !! a = Some c → Q (c_child d c) s → wp (get_child d a) s Q.
Proof. intros. destruct d; [by eapply wp_get_left|by eapply wp_get_right]. Qed.

Lemma wp_set_child d s a c (Q : unit → rb_state → Prop) v :
  shape s !! a = Some c →
  (∀ s', shape s' = alter (set_c_child d v) a (shape s) → env s' = env s →
         frame_out [a] s s' → Q () s') → wp (set_child d a v) s Q.
Proof. intros. destruct d; [by eapply wp_set_left|by eapply wp_set_right]. Qed.

Lemma c_child_mkcell d p c t s : c_child d (mkcell d p c t s) = t.
Proof. by destruct d. Qed.
Lemma c_child_opp_mkcell d p c t s : c_child (opp d) (mkcell d p c t s) = s.
Proof. by destruct d. Qed.
Lemma c_child_mkcell_opp d p c t s : c_child d (mkcell (opp d) p c t s) = s.
Proof. by destruct d. Qed.
Lemma c_par_mkcell d p c t s : c_par (mkcell d p c t s) = p.
Proof. by destruct d. Qed.
Lemma c_col_mkcell d p c t s : c_col (mkcell d p c t s) = c.
Proof. by destruct d. Qed.

Lemma fmap_some {A B} (f : A → B) x : f <$> Some x = Some (f x).
Proof. done. Qed.
Lemma set_child_mkcell d q p c t s : set_c_child d q (mkcell d p c t s) = mkcell d p c q s.
Proof. by destruct d. Qed.
Lemma set_child_opp_mkcell d q p c t s :
  set_c_child (opp d) q (mkcell d p c t s) = mkcell d p c t q.
Proof. by destruct d. Qed.
Lemma set_child_mkcell_opp d q p c t s :
  set_c_child d q (mkcell (opp d) p c t s) = mkcell (opp d) p c t q.
Proof. by destruct d. Qed.
Lemma set_par_mkcell d q p c t s : set_c_par q (mkcell d p c t s) = mkcell d q c t s.
Proof. by destruct d. Qed.
Lemma set_col_mkcell d q p c t s : set_c_col q (mkcell d p c t s) = mkcell d p q t s.
Proof. by destruct d. Qed.
Lemma mkcell_opp d p c t s : mkcell (opp d) p c t s = mkcell d p c s t.
Proof. by destruct d. Qed.

Create Rewrite HintDb cells.
#[export] Hint Rewrite @fmap_some set_child_mkcell set_child_opp_mkcell
  set_child_mkcell_opp set_par_mkcell set_col_mkcell mkcell_opp opp_opp : cells.
#[export] Hint Rewrite c_child_mkcell c_child_opp_mkcell c_child_mkcell_opp
  c_par_mkcell c_col_mkcell : cells.

(** Making the parent's child pointer (or the root) that is [node] be [v]. *)
Definition relink_code (d : dir) (test : Z → bool) (parent v : Z) : RB unit :=
  if negb (parent =? 0) then
    pl ← get_child d parent;
    if test pl then set_child d parent v else set_child (opp d) parent v
  else set_root v.

Lemma wp_relink d test k node v s (Q : unit → rb_state → Prop) :
  (∀ x, test x = (x =? node)) →
  match k with
  | [] => True
  | f :: _ => f_addr f ≠ 0 ∧ ∃ c, shape s !! f_addr f = Some c ∧
      c_child (f_dir f) c = node ∧ c_child (opp (f_dir f)) c ≠ node
  end →
  (∀ s', shape s' = relink k v (shape s) →
     env s' = match k with [] => v | _ => env s end →
     frame_out (match k with [] => [] | f :: _ => [f_addr f] end) s s' → Q () s') →
  wp (relink_code d test (cpar 0 k) v) s Q.
Proof.
  intros Htest Hk HQ. unfold relink_code. destruct k as [|[d' c' a sb] k]; simpl in *.
  { apply wp_put_env. by apply HQ. }
  destruct Hk as (Ha & c & Hc & Hch & Hopp).
  destruct (Z.eqb_spec a 0) as [|_]; [done|]; simpl.
  apply wp_bind. eapply wp_get_child; [done|]. rewrite Htest.
  destruct (decide (d = d')) as [->|Hd].
  - rewrite Hch, Z.eqb_refl. eapply wp_set_child; [done|]. auto.
  - assert (d = opp d') as -> by (destruct d, d'; done).
    destruct (Z.eqb_spec (c_child (opp d') c) node) as [|_]; [done|].
    rewrite opp_opp. eapply wp_set_child; [done|]. auto.
Qed.

(** The address of a represented subtree is a node address or null. *)
Lemma tree_in_rootp s k t :
  tree_in s (plug k t) → rootp 0 t = 0 ∨ node_addr (rootp 0 t).
Proof.
  intros H. destruct t as [|c l a r]; [by left|right]. by eapply it_okp_rootp.
Qed.

Lemma tree_in_cpar s k t :
  tree_in s (plug k t) → cpar 0 k = 0 ∨ node_addr (cpar 0 k).
Proof.
  intros H. destruct k as [|f k]; [by left|right]. exact (it_okp_cpar _ _ _ _ _ f k t H).
Qed.

Lemma node_addr_nonzero a : node_addr a → a ≠ 0.
Proof. intros [? _]. lia. Qed.

(** The cell of the innermost frame. *)
Lemma tree_in_frame s k t :
  tree_in s (plug k t) →
  match k with
  | [] => True
  | f :: k' => f_addr f ≠ 0 ∧
      (shape s !! f_addr f =
        Some (mkcell (f_dir f) (cpar 0 k') (colZ (f_col f)) (rootp 0 t) (rootp 0 (f_sib f)))) ∧
      (f_addr f ∉ addrs t) ∧ (t ≠ Leaf → rootp 0 (f_sib f) ≠ rootp 0 t)
  end.
Proof.
  intros H. destruct k as [|[d c a sb] k]; [done|]. simpl.
  split_and!.
  - by eapply node_addr_nonzero, (it_okp _ _ _ _ _ k d c t a sb).
  - by apply (it_lookup _ _ _ _ _ k d c t a sb) in H.
  - apply it_focus in H as (_ & _ & _ & _ & Hd & _).
    intros Ha. eapply Hd; [done|]. rewrite kaddrs_cons_perm. set_solver.
  - intros Ht Heq. destruct t as [|c' l b r]; [done|]. simpl in Heq.
    pose proof H as H'. apply it_focus in H as (_ & _ & _ & _ & Hd & _).
    eapply (Hd b); [set_solver|]. rewrite kaddrs_cons_perm; simpl.
    destruct sb as [|? sl sa sr]; simpl in *; [|subst; set_solver].
    apply (it_okp_rootp _ _ _ _ _ (F d c a Leaf :: k)) in H'.
    by apply node_addr_nonzero in H'.
Qed.

(** Solving for the cell at an address after some updates. *)
Ltac lookup_cell :=
  repeat first
    [ match goal with H : shape ?s !! ?a = Some _ |- context [shape ?s !! ?a] => rewrite H end
    | match goal with H : shape ?s = _ |- context [shape ?s !! _] => rewrite H end
    | rewrite lookup_alter_eq
    | rewrite lookup_alter_ne by (done || congruence)
    | rewrite lookup_reparent_ne by (done || set_solver)
    | rewrite lookup_relink_ne by (done || set_solver) ];
  autorewrite with cells; reflexivity.

(** One accessor of a node whose cell is known. *)
Ltac wp_cell :=
  lazymatch goal with
  | |- wp (_ ≫= _) _ _ => apply wp_bind; wp_cell
  | |- wp (get_child _ _) _ _ => eapply wp_get_child; [lookup_cell|]
  | |- wp (get_left _) _ _ => eapply wp_get_left; [lookup_cell|]
  | |- wp (get_right _) _ _ => eapply wp_get_right; [lookup_cell|]
  | |- wp (rb_parent _) _ _ => eapply wp_parent; [lookup_cell|]
  | |- wp (rb_color _) _ _ => eapply wp_color; [lookup_cell|]
  | |- wp (rb_is_red _) _ _ => eapply wp_is_red; [lookup_cell|]
  | |- wp (rb_is_black _) _ _ => eapply wp_is_black; [lookup_cell|]
  | |- wp (set_child _ _ _) _ _ => eapply wp_set_child; [lookup_cell|]
  | |- wp (set_left _ _) _ _ => eapply wp_set_left; [lookup_cell|]
  | |- wp (set_right _ _) _ _ => eapply wp_set_right; [lookup_cell|]
  | |- wp (rb_set_parent _ _) _ _ => eapply wp_set_parent; [lookup_cell|try done|]
  | |- wp (rb_set_red _) _ _ => eapply wp_set_red; [lookup_cell|]
  | |- wp (rb_set_black _) _ _ => eapply wp_set_black; [lookup_cell|]
  | |- wp (rb_set_color _ _) _ _ => eapply wp_set_color; [lookup_cell|try done|]
  end; autorewrite with cells.

(** ** Recolouring *)

Section recolor.
Context (s : rb_state) (k : ctx) (d : dir) (c : color) (t : tree) (a : Z) (sb : tree).
Context (Q : unit → rb_state → Prop).
Context (Hin : tree_in s (plug k (mkn d c t a sb))).

Let recolored (c' : color) : Prop :=
  ∀ s', tree_in s' (plug k (mkn d c' t a sb)) →
        frame_out (addrs (plug k (mkn d c t a sb))) s s' → Q () s'.

Lemma recolored_post c' s' :
  recolored c' →
  shape s' = alter (set_c_col (colZ c')) a (shape s) → env s' = env s →
  frame_out [a] s s' → Q () s'.
Proof.
  intros HQ Hs He Hf. apply HQ.
  - unfold tree_in. rewrite Hs, He. by eapply it_recolor.
  - eapply frame_out_mono; [done|]. intros b Hb. rewrite addrs_plug_perm, addrs_mkn_perm.
    set_solver.
Qed.

Lemma wp_tree_black : recolored Black → wp (rb_set_black a) s Q.
Proof. intros HQ. eapply wp_set_black; [by eapply it_lookup|].
  intros s' ???. by eapply (recolored_post Black). Qed.

Lemma wp_tree_red : recolored Red → wp (rb_set_red a) s Q.
Proof. intros HQ. eapply wp_set_red; [by eapply it_lookup|].
  intros s' ???. by eapply (recolored_post Red). Qed.

Lemma wp_tree_color c' : recolored c' → wp (rb_set_color a (colZ c')) s Q.
Proof.
  intros HQ. eapply wp_set_color; [by eapply it_lookup|destruct c'; auto|].
  intros s' ???. by eapply (recolored_post c').
Qed.
End recolor.

(** ** Rotations *)

Definition rotate (d : dir) : Z → RB unit :=
  match d with L => __rb_rotate_left | R => __rb_rotate_right end.

Definition rotate_gen (d : dir) (node : Z) : RB unit :=
  other ← get_child (opp d) node;
  parent ← rb_parent node;
  oc ← get_child d other;
  set_child (opp d) node oc;;
  when (negb (oc =? 0)) (oc' ← get_child d other; rb_set_parent oc' node);;
  set_child d other node;;
  rb_set_parent other parent;;
  relink_code d (λ pl, node =? pl) parent other;;
  rb_set_parent node other.

Lemma rotate_rotate_gen d : rotate d = rotate_gen d.
Proof. by destruct d. Qed.

(** [if (q) rb_set_parent(q, x)] for the root [q] of a subtree; [m] may read [q]
    again before the call. *)
Lemma wp_reparent m B x s (Q : unit → rb_state → Prop) :
  match B with Leaf => True | Node _ _ b _ => b ≠ 0 ∧ is_Some (shape s !! b) end →
  x = 0 ∨ node_addr x →
  (∀ Q', wp (rb_set_parent (rootp 0 B) x) s Q' → wp m s Q') →
  (∀ s', shape s' = reparent B x (shape s) → env s' = env s →
         frame_out (addrs B) s s' → Q () s') →
  wp (when (negb (rootp 0 B =? 0)) m) s Q.
Proof.
  intros HB Hx Hm HQ. apply wp_when.
  - intros Hb. apply Hm. destruct B as [|c l b r]; simpl in *; [done|].
    destruct HB as (_ & cb & HB). eapply wp_set_parent; [done..|].
    intros s' Hs' He' Hf'. apply HQ; [done..|]. eapply frame_out_mono; [done|set_solver].
  - intros Hb. destruct B as [|c l b r]; simpl in *; [by apply HQ|].
    destruct HB as (Hb0 & _). destruct (Z.eqb_spec b 0); done.
Qed.

(** [node] is linked below its child; the subtree between them changes hands. *)
Lemma wp_rotate d k c1 A x c2 B y C s (Q : unit → rb_state → Prop) :
  tree_in s (plug k (mkn d c1 A x (mkn d c2 B y C))) →
  (∀ s', tree_in s' (plug k (mkn d c2 (mkn d c1 A x B) y C)) →
         frame_out (addrs (plug k (mkn d c1 A x (mkn d c2 B y C)))) s s' → Q () s') →
  wp (rotate d x) s Q.
Proof.
  intros Hin HQ. rewrite rotate_rotate_gen. unfold rotate_gen.
  pose proof (it_lookup _ _ _ _ _ k d c1 A x _ Hin) as Hx. rewrite rootp_mkn in Hx.
  assert (tree_in s (plug (F (opp d) c1 x A :: k) (mkn d c2 B y C))) as Hiny.
  { unfold tree_in; simpl. unfold fill; simpl. by rewrite mkn_opp. }
  assert (tree_in s (plug (F d c2 y C :: F (opp d) c1 x A :: k) B)) as HinB by exact Hiny.
  pose proof (it_lookup _ _ _ _ _ _ _ _ _ _ _ Hiny) as Hy. simpl in Hy.
  pose proof (tree_in_frame _ _ _ Hin) as Hk. pose proof (tree_in_cpar _ _ _ Hin) as Hcp.
  assert (node_addr x) as Hokx by (by eapply it_okp).
  assert (node_addr y) as Hoky by (by eapply it_okp).
  pose proof (it_focus _ _ _ _ _ _ _ Hin) as (_ & Ht & Hnd & Hndk & Hd & _).
  rewrite !rep_mkn in Ht. destruct Ht as (_ & _ & _ & HB & _).
  rewrite !addrs_mkn_perm in Hnd. setoid_rewrite addrs_mkn_perm in Hd.
  setoid_rewrite addrs_mkn_perm in Hd.
  rewrite !NoDup_cons, NoDup_app, NoDup_cons, NoDup_app in Hnd.
  destruct Hnd as (Hnx & _ & HdA & Hny & _ & HdB & _).
  assert (x ≠ y) as Hxy by set_solver.
  set (T0 := plug k _) in *.
  assert ([x; y] ++ addrs B ++ match k with [] => [] | f :: _ => [f_addr f] end
          ⊆ addrs T0) as Hsub.
  { intros b. unfold T0. rewrite addrs_plug_perm, !addrs_mkn_perm.
    destruct k as [|f k']; [set_solver|]. rewrite kaddrs_cons_perm. set_solver. }
  wp_cell. wp_cell. wp_cell. wp_cell. intros s1 Hs1 He1 Hf1.
  apply wp_bind. eapply (wp_reparent _ B x).
  { destruct B as [|cB lB b rB]; [done|]. simpl in HB. destruct HB as (Hb & _).
    split; [by eapply node_addr_nonzero, it_okp_rootp|].
    assert (b ≠ x) by set_solver. rewrite Hs1, lookup_alter_ne by done. eauto. }
  { by right. }
  { intros Q' HQ'. wp_cell. exact HQ'. }
  intros s2 Hs2 He2 Hf2.
  wp_cell. intros s3 Hs3 He3 Hf3. wp_cell. intros s4 Hs4 He4 Hf4.
  apply wp_bind. eapply (wp_relink d _ k x).
  { intros v. apply Z.eqb_sym. }
  { destruct k as [|f k']; [done|]. destruct Hk as (Hf0 & Hk & Hft & Hsib).
    assert (f_addr f ∉ addrs (mkn d c1 A x (mkn d c2 B y C))) as Hft' by done.
    rewrite !addrs_mkn_perm in Hft'. split; [done|].
    assert (f_addr f ≠ x ∧ f_addr f ≠ y ∧ f_addr f ∉ addrs B) as (? & ? & ?) by set_solver.
    eexists; split; [lookup_cell|]. autorewrite with cells. rewrite !rootp_mkn in *.
    split; [done|]. apply Hsib. by destruct d. }
  intros s5 Hs5 He5 Hf5.
  eapply wp_set_parent; [lookup_cell|by right|]. intros s6 Hs6 He6 Hf6.
  apply HQ.
  - unfold tree_in.
    assert (env s6 = krootp y k) as ->.
    { rewrite He6, He5. destruct Hin as [Hr _ _ _]. unfold T0 in Hr. rewrite rootp_plug, rootp_mkn in Hr.
      destruct k; simpl in *; congruence. }
    eapply it_rotate; [exact Hin| | |].
    + rewrite Hs6. lookup_cell.
    + lookup_cell.
    + intros a Hax Hay. rewrite Hs6, lookup_alter_ne by done. rewrite Hs5.
      apply relink_congr. rewrite Hs4, Hs3, !lookup_alter_ne, Hs2 by done.
      apply reparent_congr. by rewrite Hs1, lookup_alter_ne.
  - intros b Hb. assert (b ∉ [x; y]) as Hxyb by set_solver.
    rewrite Hf6, Hf5, Hf4, Hf3, Hf2, Hf1 by (destruct k; set_solver). done.
Qed.

(** ** Testing colours *)

Lemma wp_live_red s k t (Q : bool → rb_state → Prop) :
  tree_in s (plug k t) → Q (is_red t) s → wp (live_red (rootp 0 t)) s Q.
Proof.
  intros Hin HQ. unfold live_red. destruct t as [|c l a r]; [by apply wp_ret|].
  assert (a ≠ 0) as Ha by (by eapply node_addr_nonzero, it_okp_rootp).
  simpl. destruct (Z.eqb_spec a 0) as [|_]; [done|].
  eapply wp_is_red; [by eapply (it_lookup _ _ _ _ _ k L c l a r)|]. by destruct c.
Qed.

Lemma wp_null_or_black s k t (Q : bool → rb_state → Prop) :
  tree_in s (plug k t) → Q (negb (is_red t)) s → wp (null_or_black (rootp 0 t)) s Q.
Proof.
  intros Hin HQ. unfold null_or_black. destruct t as [|c l a r]; [by apply wp_ret|].
  assert (a ≠ 0) as Ha by (by eapply node_addr_nonzero, it_okp_rootp).
  simpl. destruct (Z.eqb_spec a 0) as [|_]; [done|].
  eapply wp_is_black; [by eapply (it_lookup _ _ _ _ _ k L c l a r)|]. by destruct c.
Qed.

Lemma wp_live_red_cpar s k t (Q : bool → rb_state → Prop) :
  tree_in s (plug k t) →
  Q (match k with F _ Red _ _ :: _ => true | _ => false end) s →
  wp (live_red (cpar 0 k)) s Q.
Proof.
  intros Hin HQ. destruct k as [|[d c a sb] k]; [by apply wp_ret|].
  replace (cpar 0 (F d c a sb :: k)) with (rootp 0 (mkn d c t a sb)) by apply rootp_mkn.
  apply wp_live_red with (k := k); [exact Hin|]. destruct c, d; exact HQ.
Qed.

(** Moving the focus between a node's two subtrees. *)
Lemma plug_sib d c a sb k t :
  plug (F d c a sb :: k) t = plug (F (opp d) c a t :: k) sb.
Proof. simpl. unfold fill; simpl. by rewrite mkn_opp. Qed.

(** The nodes of a context are live, so the loops have enough rounds. *)
Lemma tree_in_size s T : tree_in s T → (length (addrs T) ≤ size (mem s))%nat.
Proof.
  intros [_ Hrep Hnd _]. rewrite <-size_dom, <-(size_list_to_set (C := gset Z)) by done.
  apply subseteq_size. intros a. rewrite elem_of_list_to_set, elem_of_dom. intros Ha.
  apply (rep_lookup _ _ _ _ a Hrep) in Ha as [c Hc].
  apply shape_lookup in Hc as (n & ? & _). eauto.
Qed.

Lemma length_kaddrs k : (length k ≤ length (kaddrs k))%nat.
Proof.
  induction k as [|f k IH]; simpl; [lia|]. rewrite kaddrs_cons_perm. simpl.
  rewrite length_app. lia.
Qed.

Lemma tree_in_rounds s k t : tree_in s (plug k t) → (length k < 2 + size (mem s))%nat.
Proof.
  intros H%tree_in_size. rewrite addrs_plug_perm, length_app in H.
  pose proof (length_kaddrs k). lia.
Qed.

(** Two rearrangements of a tree have the same nodes. *)
Ltac addrs_perm :=
  simpl plug; unfold fill; simpl f_dir; simpl f_col; simpl f_addr; simpl f_sib;
  rewrite ?addrs_plug_perm, ?addrs_mkn_perm, ?addrs_blacken, ?addrs_mkn_perm;
  rewrite ?addrs_plug_perm, ?addrs_mkn_perm;
  solve_Permutation.

(** Composing frames: [H] frames a rearrangement of the tree. *)
Ltac frame_by H :=
  first [exact H | eapply frame_out_proper; [|done..|exact H]; addrs_perm].

Lemma krootp_in q f k : krootp q (f :: k) ∈ kaddrs (f :: k).
Proof.
  simpl. revert f. induction k as [|g k IH]; intros f; rewrite kaddrs_cons_perm; simpl; [set_solver|].
  specialize (IH g). set_solver.
Qed.

Lemma tree_in_okp s k t a : tree_in s (plug k t) → a ∈ kaddrs k → node_addr a.
Proof.
  intros [_ _ _ Hok] Ha. rewrite addrs_plug_perm, Forall_app in Hok.
  destruct Hok as [Hok _]. rewrite Forall_forall in Hok. auto.
Qed.

(** Below the root, a subtree's root is not the root. *)
Lemma tree_in_not_root s f k t : tree_in s (plug (f :: k) t) → rootp 0 t ≠ env s.
Proof.
  intros Hin Heq. pose proof (krootp_in (rootp 0 t) f k) as Hk.
  pose proof Hin as Hin'. apply it_focus in Hin as (_ & _ & _ & _ & Hd & Hr).
  rewrite <-Hr, <-Heq in Hk. destruct t as [|c l a r].
  - apply (tree_in_okp _ _ _ _ Hin') in Hk. by apply node_addr_nonzero in Hk.
  - eapply (Hd a); [simpl; set_solver|exact Hk].
Qed.
