(* ===== verification/RbTreeInsert.v ===== *)
(** * tree/rbtree: rb_insert_color computes [ins_fix]

    The rebalancing loop on pointers follows [ins_fix] on trees, round by
    round; it ends, performs no undefined behaviour and leaves a red-black tree
    with the same nodes in the same order. *)
From S2P Require Import Prelude PtrTree RbSpec RbTree RbTreeFacts.

(** The two halves of a round are the same code up to a reflection; [d] is the
    side of the grandparent the parent is on. *)
Definition insert_side (d : dir) (parent gparent node : Z) : RB (Z + unit) :=
  uncle ← get_child (opp d) gparent;
  ured ← live_red uncle;
  if (ured : bool) then
    rb_set_black uncle;;
    rb_set_black parent;;
    rb_set_red gparent;;
    mret (inl gparent)
  else
    pc ← get_child (opp d) parent;
    '(parent', node') ← (if pc =? node
                         then rotate d parent;; mret (node, parent)
                         else mret (parent, node));
    rb_set_black parent';;
    rb_set_red gparent;;
    rotate (opp d) gparent;;
    mret (inl node').

Lemma insert_color_round_sides node :
  insert_color_round node =
  (parent ← rb_parent node;
   go ← live_red parent;
   if negb go then mret (inr ()) else
   gparent ← rb_parent parent;
   gl ← get_left gparent;
   if parent =? gl then insert_side L parent gparent node
   else insert_side R parent gparent node).
Proof. reflexivity. Qed.

Lemma live_red_uncle s d c g u k t (Q : bool → rb_state → Prop) :
  tree_in s (plug (F d c g u :: k) t) → Q (is_red u) s → wp (live_red (rootp 0 u)) s Q.
Proof. rewrite plug_sib. apply wp_live_red. Qed.

(** A red uncle: the colours move up. *)
Lemma insert_recolor s d1 d2 c2 p s1 g u k t (Q : Z + unit → rb_state → Prop) :
  tree_in s (plug (F d1 Red p s1 :: F d2 c2 g u :: k) t) → is_red u = true →
  (∀ s', tree_in s' (plug k (mkn d2 Red (mkn d1 Black t p s1) g (blacken u))) →
         frame_out (addrs (plug (F d1 Red p s1 :: F d2 c2 g u :: k) t)) s s' →
         Q (inl g) s') →
  wp (insert_side d2 p g (rootp 0 t)) s Q.
Proof.
  intros Hin Hu HQ. unfold insert_side.
  pose proof (it_lookup _ _ _ _ _ k d2 c2 (mkn d1 Red t p s1) g u Hin) as Hg.
  rewrite rootp_mkn in Hg. wp_cell.
  apply wp_bind. eapply (live_red_uncle s d2 c2 g u k (mkn d1 Red t p s1)); [exact Hin|].
  rewrite Hu. destruct u as [|[] ul ua ur]; try done. simpl rootp.
  set (A := addrs _) in *. apply wp_bind.
  eapply (wp_tree_black _ (F (opp d2) c2 g (mkn d1 Red t p s1) :: k) L Red ul ua ur).
  { unfold tree_in. rewrite <-plug_sib. exact Hin. }
  rewrite <-!plug_sib. intros s2 Hin2 Hf2. apply wp_bind.
  eapply (wp_tree_black _ (F d2 c2 g (Node Black ul ua ur) :: k) d1 Red t p s1); [exact Hin2|].
  intros s3 Hin3 Hf3. apply wp_bind.
  eapply (wp_tree_red _ k d2 c2 (mkn d1 Black t p s1) g (Node Black ul ua ur)); [exact Hin3|].
  intros s4 Hin4 Hf4. apply wp_ret. apply HQ; [exact Hin4|].
  unfold A. etransitivity; [exact Hf2|]. etransitivity.
  - eapply frame_out_proper; [|done..|exact Hf3]. simpl. unfold fill; simpl.
    by rewrite !addrs_plug_perm, !addrs_mkn_perm.
  - eapply frame_out_proper; [|done..|exact Hf4]. simpl. unfold fill; simpl.
    by rewrite !addrs_plug_perm, !addrs_mkn_perm.
Qed.

(** The last two steps of the other case: [p] black, [g] red, rotate. *)
Lemma insert_rotate_up s d c2 p sp g u k t node (Q : Z + unit → rb_state → Prop) :
  tree_in s (plug k (mkn d c2 (mkn d Red t p sp) g u)) →
  (∀ s', tree_in s' (plug k (mkn d Black t p (mkn d Red sp g u))) →
         frame_out (addrs (plug k (mkn d c2 (mkn d Red t p sp) g u))) s s' →
         Q (inl node) s') →
  wp (rb_set_black p;; rb_set_red g;; rotate (opp d) g;; mret (inl node)) s Q.
Proof.
  intros Hin HQ. apply wp_bind.
  eapply (wp_tree_black _ (F d c2 g u :: k) d Red t p sp); [exact Hin|].
  intros s1 Hin1 Hf1. apply wp_bind.
  eapply (wp_tree_red _ k d c2 (mkn d Black t p sp) g u); [exact Hin1|].
  intros s2 Hin2 Hf2. apply wp_bind.
  eapply (wp_rotate (opp d) k Red u g Black sp p t); [by rewrite !mkn_opp|].
  rewrite !mkn_opp. intros s3 Hin3 Hf3. apply wp_ret. apply HQ; [done|].
  etransitivity; [exact Hf1|]. etransitivity.
  - eapply frame_out_proper; [|done..|exact Hf2].
    by rewrite !addrs_plug_perm, !addrs_mkn_perm.
  - eapply frame_out_proper; [|done..|exact Hf3].
    simpl. unfold fill; simpl. by rewrite !addrs_plug_perm, !addrs_mkn_perm.
Qed.

(** What a round leaves: the next focus, on the way to the same final tree. *)
Definition insert_inv (T : tree) (n : nat) (node : Z) (s : rb_state) : Prop :=
  ∃ k t bh, node = rootp 0 t ∧ tree_in s (plug k t) ∧ kok Black bh k ∧ rb Red bh t ∧
            ins_fix k t = T ∧ (length k < n)%nat.

(** A black (or no) parent ends the loop. *)
Lemma ins_fix_black d p sb k t : ins_fix (F d Black p sb :: k) t = blacken (plug (F d Black p sb :: k) t).
Proof. done. Qed.

Lemma insert_side_ok s d1 d2 p s1 g u k t bh n (Q : Z + unit → rb_state → Prop) :
  tree_in s (plug (F d1 Red p s1 :: F d2 Black g u :: k) t) →
  kok Black bh (F d1 Red p s1 :: F d2 Black g u :: k) → rb Red bh t →
  (2 + length k < n)%nat →
  (∀ node s', insert_inv (ins_fix (F d1 Red p s1 :: F d2 Black g u :: k) t) (n - 1) node s' →
     frame_out (addrs (plug (F d1 Red p s1 :: F d2 Black g u :: k) t)) s s' →
     Q (inl node) s') →
  wp (insert_side d2 p g (rootp 0 t)) s Q.
Proof.
  intros Hin Hk Ht Hn HQ.
  inversion Hk as [|? ? ? ? ? Hs1 Hk1|]; subst. inversion Hk1 as [| |? cu ? ? ? ? ? Hu Hk2]; subst.
  destruct (is_red u) eqn:Eu.
  { eapply insert_recolor; [done|done|]. intros s' Hin' Hf'. apply HQ; [|done].
    eexists k, _, (S bh). split_and!; [by rewrite rootp_mkn|exact Hin'|done| | |lia].
    - destruct u as [|[] ul ua ur]; try done. inversion Hu; subst.
      apply rb_mkn_red; simpl; eauto with rb.
    - simpl. by rewrite Eu. }
  assert (rb Black bh u) as HuB by (inversion Hu; subst; done || eauto with rb).
  unfold insert_side.
  pose proof (it_lookup _ _ _ _ _ k d2 Black (mkn d1 Red t p s1) g u Hin) as Hg.
  pose proof (it_lookup _ _ _ _ _ (F d2 Black g u :: k) d1 Red t p s1 Hin) as Hp.
  rewrite rootp_mkn in Hg. wp_cell.
  apply wp_bind. eapply (live_red_uncle s d2 Black g u k (mkn d1 Red t p s1)); [exact Hin|].
  rewrite Eu. wp_cell.
  assert (ins_fix (F d1 Red p s1 :: F d2 Black g u :: k) t =
          if decide (d1 = d2) then blacken (plug k (mkn d2 Black t p (mkn d2 Red s1 g u)))
          else match t with
               | Leaf => blacken (plug (F d1 Red p s1 :: F d2 Black g u :: k) t)
               | Node _ _ n _ =>
                   blacken (plug k (mkn d2 Black (mkn d2 Red s1 p (child d2 t)) n
                                      (mkn d2 Red (child d1 t) g u)))
               end) as Hfix by (simpl; by rewrite Eu).
  rewrite Hfix in HQ. clear Hfix.
  assert (∀ x q y, rb Red bh x → rb Red bh y → kok Black bh (F d2 Black q y :: k)) as Hkok
    by eauto with rb.
  destruct (decide (d1 = d2)) as [->|Hd].
  - autorewrite with cells.
    pose proof (tree_in_frame _ _ _ Hin) as (_ & _ & _ & Hne); simpl in Hne.
    assert (t ≠ Leaf) as Htl by (by inversion Ht).
    destruct (Z.eqb_spec (rootp 0 s1) (rootp 0 t)) as [|_]; [by destruct (Hne Htl)|].
    apply wp_bind, wp_ret. eapply insert_rotate_up; [exact Hin|].
    intros s' Hin' Hf'. apply HQ; [|done].
    exists (F d2 Black p (mkn d2 Red s1 g u) :: k), t, bh.
    split_and!; [done|done| |done|done|simpl; lia]. eauto with rb.
  - assert (d1 = opp d2) as -> by (by destruct d1, d2).
    autorewrite with cells. rewrite Z.eqb_refl.
    inversion Ht as [|tl tn tr ? Htl Htr|]; subst.
    rewrite (node_mkn d2) in Hin. simpl plug in Hin. unfold fill in Hin at 2; simpl in Hin.
    rewrite mkn_opp in Hin.
    apply wp_bind, wp_bind. eapply (wp_rotate d2 (F d2 Black g u :: k)); [exact Hin|].
    intros s1' Hin1 Hf1. apply wp_ret. simpl rootp.
    eapply insert_rotate_up; [exact Hin1|].
    intros s' Hin' Hf'. apply HQ.
    + exists (F d2 Black tn (mkn d2 Red (child (opp d2) (Node Red tl tn tr)) g u) :: k),
        (mkn d2 Red s1 p (child d2 (Node Red tl tn tr))), bh.
      assert (rb Black bh (child d2 (Node Red tl tn tr)) ∧
              rb Black bh (child (opp d2) (Node Red tl tn tr))) as [??] by (destruct d2; eauto).
      split_and!; [by rewrite rootp_mkn|exact Hin'| | |done|simpl; lia]; eauto with rb.
    + rewrite (node_mkn d2 Red tl tn tr). simpl. unfold fill; simpl. rewrite mkn_opp.
      etransitivity; [exact Hf1|]. eapply frame_out_proper; [|done..|exact Hf'].
      unfold fill; simpl. rewrite !addrs_plug_perm, !addrs_mkn_perm.
      solve_Permutation.
Qed.

Lemma addrs_ins_fix_eq k t T : ins_fix k t = T → addrs (plug k t) = addrs T.
Proof. intros <-. by rewrite addrs_ins_fix. Qed.

Lemma insert_color_round_ok T n node s :
  insert_inv T n node s →
  wp (insert_color_round node) s (λ r s',
    frame_out (addrs T) s s' ∧
    match r with
    | inl node' => ∃ n', (n' < n)%nat ∧ insert_inv T n' node' s'
    | inr _ => ∃ T', tree_in s' T' ∧ T' ≠ Leaf ∧ blacken T' = T
    end).
Proof.
  intros (k & t & bh & -> & Hin & Hk & Ht & HT & Hn).
  rewrite insert_color_round_sides.
  inversion Ht as [|tl ta tr ? Htl Htr|]; subst t bh.
  pose proof (it_lookup _ _ _ _ _ k L Red tl ta tr Hin) as Hta. simpl in Hta.
  simpl rootp. wp_cell. simpl. apply wp_bind. eapply wp_live_red_cpar; [exact Hin|].
  destruct k as [|[d1 [] p s1] k]; simpl negb; cbn match.
  1,3: apply wp_ret; split; [done|]; eexists; split_and!; [exact Hin| |done].
  { done. }
  { intros Heq. apply (f_equal (length ∘ addrs)) in Heq. simpl in Heq.
    rewrite addrs_plug_perm, length_app in Heq. unfold fill in Heq; simpl in Heq.
    rewrite addrs_mkn_perm in Heq. simpl in Heq. lia. }
  inversion Hk as [|? ? ? ? ? Hs1 Hk1|]; subst.
  inversion Hk1 as [| |? cu d2 g u ? k2 Hu Hk2]; subst.
  pose proof (it_lookup _ _ _ _ _ (F d2 Black g u :: k2) d1 Red (Node Red tl ta tr) p s1 Hin) as Hp.
  pose proof (it_lookup _ _ _ _ _ k2 d2 Black (mkn d1 Red (Node Red tl ta tr) p s1) g u Hin) as Hg.
  rewrite rootp_mkn in Hg. cbn [cpar f_addr] in *. wp_cell. wp_cell.
  pose proof (tree_in_frame s (F d2 Black g u :: k2) (mkn d1 Red (Node Red tl ta tr) p s1) Hin)
    as (_ & _ & _ & Hne). simpl in Hne. rewrite rootp_mkn in Hne.
  match goal with |- wp (if ?b then _ else _) _ _ =>
    replace b with (bool_decide (d2 = L))
  end; cycle 1.
  { destruct d2; simpl; [by rewrite Z.eqb_refl|].
    destruct (Z.eqb_spec p (rootp 0 u)); [|done]. subst p. destruct Hne; by destruct d1. }
  assert (∀ Q : Z + unit → rb_state → Prop,
    wp (if bool_decide (d2 = L) then insert_side L p g ta else insert_side R p g ta) s Q ↔
    wp (insert_side d2 p g ta) s Q) as -> by (by destruct d2).
  eapply (insert_side_ok s d1 d2 p s1 g u k2 (Node Red tl ta tr)) with (n := n);
    [done..|simpl in Hn; lia|].
  intros node s' Hinv Hf. split.
  - by erewrite <-addrs_ins_fix_eq.
  - exists (n - 1)%nat. split; [simpl in Hn; lia|done].
Qed.

(** [rb_insert_color] on a red node [t] whose place in [k] holds a tree of the
    right black height. *)
Theorem rb_insert_color_ins_fix s k t bh :
  tree_in s (plug k t) → kok Black bh k → rb Red bh t →
  wp (rb_insert_color (rootp 0 t)) s (λ _ s',
    tree_in s' (ins_fix k t) ∧ frame_out (addrs (plug k t)) s s').
Proof.
  intros Hin Hk Ht. unfold rb_insert_color. apply wp_bind. unfold rounds.
  apply wp_bind, wp_get, wp_ret. apply wp_bind.
  set (T := ins_fix k t).
  eapply wp_mono.
  { eapply (wp_loop (λ n node s', insert_inv T n node s' ∧ frame_out (addrs T) s s')
              _ (λ _ s', frame_out (addrs T) s s' ∧
                         ∃ T', tree_in s' T' ∧ T' ≠ Leaf ∧ blacken T' = T))
      with (n := S (length k)).
    - intros n node s1 [Hinv Hf]. eapply wp_mono; [by apply insert_color_round_ok|].
      intros [node'|[]] s2 [Hf2 H].
      + destruct H as (n' & ? & ?). exists n'. split_and!; [done..|]. by transitivity s1.
      + split; [by transitivity s1|done].
    - split; [|done]. exists k, t, bh. split_and!; auto.
    - pose proof (tree_in_size _ _ Hin) as Hsz.
      rewrite addrs_plug_perm, length_app in Hsz. pose proof (length_kaddrs k). lia. }
  intros _ s' (Hf & T' & Hin' & Hne & HT). apply wp_bind, wp_get_env.
  assert (addrs (plug k t) = addrs T) as -> by (by apply addrs_ins_fix_eq).
  destruct T' as [|c l a r]; [done|]. pose proof (it_root _ _ _ _ _ _ Hin') as Hroot.
  simpl in Hroot. rewrite Hroot.
  eapply (wp_tree_black _ [] L c l a r); [exact Hin'|]. intros s2 Hin2 Hf2.
  split; [by rewrite <-HT|]. transitivity s'; [done|]. by rewrite <-HT.
Qed.
