(* ===== verification/RbTreeErase.v ===== *)
(** * tree/rbtree: rb_erase computes [erase_at]

    The loop of [__rb_erase_color] follows [del_fix], the unlinking in
    [rb_erase] gives the tree without the node; together they end, perform no
    undefined behaviour and leave a red-black tree. *)
From S2P Require Import Prelude PtrTree RbSpec RbTree RbTreeFacts.

(** ** One half of a round; [d] is the side [node] is on *)

Definition erase_tail (d : dir) (parent other : Z) : RB (Z * Z + Z) :=
  pc ← rb_color parent;
  rb_set_color other pc;;
  rb_set_black parent;;
  ofar ← get_child (opp d) other;
  rb_set_black ofar;;
  rotate d parent;;
  root ← get_root;
  mret (inr root).

Definition erase_bal (d : dir) (parent other : Z) : RB (Z * Z + Z) :=
  ol ← get_left other;
  lb ← null_or_black ol;
  rb ← (if (lb : bool) then or ← get_right other; null_or_black or else mret false);
  if (lb && rb : bool) then
    rb_set_red other;;
    parent' ← rb_parent parent;
    mret (inl (parent, parent'))
  else
    ofar ← get_child (opp d) other;
    ofb ← null_or_black ofar;
    other' ← (if (ofb : bool) then
                onear ← get_child d other;
                rb_set_black onear;;
                rb_set_red other;;
                rotate (opp d) other;;
                get_child (opp d) parent
              else mret other);
    erase_tail d parent other'.

Definition erase_side (d : dir) (parent : Z) : RB (Z * Z + Z) :=
  other0 ← get_child (opp d) parent;
  ored ← rb_is_red other0;
  other ← (if (ored : bool) then
             rb_set_black other0;;
             rb_set_red parent;;
             rotate d parent;;
             get_child (opp d) parent
           else mret other0);
  erase_bal d parent other.

Lemma erase_color_round_sides node parent :
  erase_color_round (node, parent) =
  (nb ← null_or_black node;
   root ← get_root;
   if negb (nb && negb (node =? root)) then mret (inr node) else
   pl ← get_left parent;
   if pl =? node then erase_side L parent else erase_side R parent).
Proof. reflexivity. Qed.

Section round.
Context (d : dir) (c : color) (p : Z) (k : ctx) (t : tree).

(** The far nephew is red: the rotation finishes the job. *)
Lemma erase_tail_ok s sn sa sf (Q : Z * Z + Z → rb_state → Prop) :
  tree_in s (plug k (mkn d c t p (mkn d Black sn sa sf))) → is_red sf = true →
  (∀ s', tree_in s' (plug k (mkn d c (mkn d Black t p sn) sa (blacken sf))) →
     frame_out (addrs (plug k (mkn d c t p (mkn d Black sn sa sf)))) s s' →
     Q (inr (env s')) s') →
  wp (erase_tail d p sa) s Q.
Proof.
  intros Hin Hsf HQ. unfold erase_tail.
  pose proof (it_lookup _ _ _ _ _ k d c t p _ Hin) as Hp. wp_cell. apply wp_bind.
  eapply (wp_tree_color _ (F (opp d) c p t :: k) d Black sn sa sf).
  { unfold tree_in. by rewrite <-plug_sib. }
  rewrite <-!plug_sib. intros s1 Hin1 Hf1. apply wp_bind.
  eapply (wp_tree_black _ k d c t p); [exact Hin1|]. intros s2 Hin2 Hf2.
  assert (tree_in s2 (plug (F (opp d) Black p t :: k) (mkn d c sn sa sf))) as Hin2'.
  { by rewrite <-plug_sib. }
  pose proof (it_lookup _ _ _ _ _ _ _ _ _ _ _ Hin2') as Hsa. wp_cell.
  destruct sf as [|[] fl fa fr]; try done. apply wp_bind.
  eapply (wp_tree_black _ (F (opp d) c sa sn :: F (opp d) Black p t :: k) L Red fl fa fr).
  { unfold tree_in. rewrite <-plug_sib. exact Hin2'. }
  rewrite <-!plug_sib. intros s3 Hin3 Hf3. apply wp_bind.
  eapply (wp_rotate d k Black t p c sn sa (Node Black fl fa fr)).
  { simpl in Hin3. unfold fill in Hin3; simpl in Hin3. by rewrite mkn_opp in Hin3. }
  intros s4 Hin4 Hf4. apply wp_bind, wp_get_env, wp_ret. apply HQ; [exact Hin4|].
  change (Node Red fl fa fr) with (mkn L Red fl fa fr) in *.
  change (Node Black fl fa fr) with (mkn L Black fl fa fr) in *.
  etransitivity; [frame_by Hf1|]. etransitivity; [frame_by Hf2|].
  etransitivity; [|frame_by Hf4]. frame_by Hf3.
Qed.

(** Reading the nephews' colours, left one first. *)
Lemma wp_nephews {X} s sc sn sa sf (A B : RB X) Q :
  tree_in s (plug k (mkn d c t p (mkn d sc sn sa sf))) →
  wp (if negb (is_red sn) && negb (is_red sf) then A else B) s Q →
  wp (ol ← get_left sa;
      lb ← null_or_black ol;
      rb ← (if (lb : bool) then or ← get_right sa; null_or_black or else mret false);
      if (lb && rb : bool) then A else B) s Q.
Proof.
  intros Hin HQ.
  assert (∃ tl tr, mkn d sc sn sa sf = Node sc tl sa tr ∧
    (negb (is_red tl) && negb (is_red tr)) = (negb (is_red sn) && negb (is_red sf)))
    as (tl & tr & E & Eb).
  { destruct d; simpl; do 2 eexists; split; [done|done|done|]. by rewrite andb_comm. }
  rewrite E in Hin. rewrite <-Eb in HQ. clear E Eb.
  assert (tree_in s (plug (F (opp d) c p t :: k) (Node sc tl sa tr))) as Hin'.
  { by rewrite <-plug_sib. }
  pose proof (it_lookup _ _ _ _ _ _ L sc tl sa tr Hin') as Hsa.
  wp_cell. apply wp_bind.
  eapply (wp_null_or_black _ (F L sc sa tr :: F (opp d) c p t :: k)); [exact Hin'|].
  apply wp_bind. destruct (negb (is_red tl)); simpl in *; [|by apply wp_ret].
  wp_cell. eapply (wp_null_or_black _ (F R sc sa tl :: F (opp d) c p t :: k)); [exact Hin'|].
  done.
Qed.

Lemma erase_bal_ok s sn sa sf (Q : Z * Z + Z → rb_state → Prop) :
  tree_in s (plug k (mkn d c t p (mkn d Black sn sa sf))) →
  (∀ s', frame_out (addrs (plug k (mkn d c t p (mkn d Black sn sa sf)))) s s' →
     match del_bal d c p (mkn d Black sn sa sf) t with
     | inl t' => tree_in s' (plug k t') → Q (inr (env s')) s'
     | inr t' => tree_in s' (plug k t') → rootp 0 t' = p → Q (inl (p, cpar 0 k)) s'
     end) →
  wp (erase_bal d p sa) s Q.
Proof.
  intros Hin HQ. unfold erase_bal.
  assert (del_bal d c p (mkn d Black sn sa sf) t =
    if is_red sf then inl (mkn d c (mkn d Black t p sn) sa (blacken sf))
    else if is_red sn then
      match sn with
      | Leaf => inr (mkn d c t p (mkn d Black sn sa sf))
      | Node _ _ na _ =>
          inl (mkn d c (mkn d Black t p (child d sn)) na
                 (mkn d Black (child (opp d) sn) sa sf))
      end
    else inr (mkn d c t p (mkn d Red sn sa sf))) as Hdb by (by destruct d).
  rewrite Hdb in HQ. clear Hdb.
  assert (tree_in s (plug (F (opp d) c p t :: k) (mkn d Black sn sa sf))) as Hin'.
  { by rewrite <-plug_sib. }
  pose proof (it_lookup _ _ _ _ _ _ _ _ _ _ _ Hin') as Hsa.
  eapply wp_nephews; [exact Hin|].
  destruct (is_red sf) eqn:Ef; [|destruct (is_red sn) eqn:En]; simpl.
  - rewrite andb_false_r. wp_cell. apply wp_bind.
    eapply (wp_null_or_black _ (F (opp d) Black sa sn :: F (opp d) c p t :: k)).
    { rewrite <-plug_sib. exact Hin'. }
    rewrite Ef. apply wp_bind, wp_ret. eapply erase_tail_ok; [done..|].
    intros s' Hin2 Hf2. by apply HQ.
  - wp_cell. apply wp_bind.
    eapply (wp_null_or_black _ (F (opp d) Black sa sn :: F (opp d) c p t :: k)).
    { rewrite <-plug_sib. exact Hin'. }
    rewrite Ef. apply wp_bind. cbn [negb]. wp_cell.
    destruct sn as [|[] nl na nr]; try done. rewrite (node_mkn d) in Hin'.
    set (nn := child d (Node Red nl na nr)) in *.
    set (nf := child (opp d) (Node Red nl na nr)) in *.
    apply wp_bind.
    eapply (wp_tree_black _ (F d Black sa sf :: F (opp d) c p t :: k) d Red nn na nf);
      [exact Hin'|].
    intros s1 Hin1 Hf1. apply wp_bind.
    eapply (wp_tree_red _ (F (opp d) c p t :: k) d Black _ sa sf); [exact Hin1|].
    intros s2 Hin2 Hf2. apply wp_bind.
    eapply (wp_rotate (opp d) (F (opp d) c p t :: k) Red sf sa Black nf na nn).
    { by rewrite !mkn_opp. }
    rewrite !mkn_opp, <-!plug_sib. intros s3 Hin3 Hf3.
    pose proof (it_lookup _ _ _ _ _ k d c t p (mkn d Black nn na (mkn d Red nf sa sf)) Hin3) as Hp3. rewrite rootp_mkn in Hp3.
    wp_cell. eapply erase_tail_ok; [exact Hin3|by destruct d|].
    rewrite blacken_mkn. intros s4 Hin4 Hf4. apply HQ; [|exact Hin4].
    rewrite (node_mkn d). fold nn nf.
    etransitivity; [frame_by Hf1|]. etransitivity; [frame_by Hf2|].
    etransitivity; [frame_by Hf3|frame_by Hf4].
  - apply wp_bind. eapply (wp_tree_red _ (F (opp d) c p t :: k) d Black sn sa sf); [exact Hin'|].
    rewrite <-!plug_sib. intros s1 Hin1 Hf1.
    pose proof (it_lookup _ _ _ _ _ k d c t p _ Hin1) as Hp. wp_cell.
    apply wp_ret. apply HQ; [exact Hf1|exact Hin1|apply rootp_mkn].
Qed.
End round.

(** ** The loop *)

Definition erase_inv (T : tree) (n : nat) (l : Z * Z) (s : rb_state) : Prop :=
  ∃ k t, l = (rootp 0 t, cpar 0 k) ∧ tree_in s (plug k t) ∧ del_fix k t = T ∧
         (is_red t = true ∨ ∃ bh, kok Black (S bh) k ∧ rb Black bh t) ∧
         (length k + (if is_red t then 0 else 1) ≤ n)%nat.

Definition erase_done (T : tree) (x : Z) (s : rb_state) : Prop :=
  ∃ k t, x = rootp 0 t ∧ tree_in s (plug k t) ∧ plug k (blacken t) = T.

(** What a half round is to achieve. *)
Definition erase_post (T : tree) (n : nat) (s0 : rb_state) (r : Z * Z + Z) (s : rb_state) : Prop :=
  frame_out (addrs T) s0 s ∧
  match r with
  | inl l => ∃ n', (n' < n)%nat ∧ erase_inv T n' l s
  | inr x => erase_done T x s
  end.

Lemma erase_done_root T s k t : tree_in s (plug k t) → blacken (plug k t) = T → erase_done T (env s) s.
Proof. intros Hin HT. exists [], (plug k t). split_and!; [by eapply it_root|done|done]. Qed.

(** A black sibling. *)
Lemma erase_bal_post d c p sn sa sf k t bh T n s0 s :
  tree_in s (plug k (mkn d c t p (mkn d Black sn sa sf))) →
  rb Black (S bh) (mkn d Black sn sa sf) → rb Black bh t →
  (c = Black → kok Black (S (S bh)) k) →
  match del_bal d c p (mkn d Black sn sa sf) t with
  | inl t' => blacken (plug k t') = T
  | inr t' => del_fix k t' = T
  end →
  frame_out (addrs T) s0 s →
  (length k + (match c with Red => 0 | Black => 1 end) ≤ n)%nat →
  wp (erase_bal d p sa) s (erase_post T (S n) s0).
Proof.
  intros Hin Hsb Ht Hk HT Hf0 Hn.
  pose proof (del_bal_rb d c p _ t bh Black Hsb Ht) as Hrb.
  pose proof (addrs_del_bal d c p (mkn d Black sn sa sf) t) as Haddr.
  eapply erase_bal_ok; [exact Hin|]. intros s' Hf.
  assert (addrs (plug k (mkn d c t p (mkn d Black sn sa sf))) = addrs T) as HA.
  { destruct (del_bal d c p _ t) as [t'|t']; subst T;
      rewrite ?addrs_blacken, ?addrs_del_fix; by apply addrs_plug_cong. }
  rewrite HA in Hf. clear HA.
  destruct (del_bal d c p (mkn d Black sn sa sf) t) as [t'|t'].
  - intros Hin'. split; [by transitivity s|]. by eapply erase_done_root.
  - intros Hin' Hroot. split; [by transitivity s|]. specialize (Hrb eq_refl).
    exists n. split; [lia|]. exists k, t'. rewrite Hroot. split_and!; [done..| |].
    + destruct c; [by left; destruct Hrb|]. right. exists (S bh). auto.
    + destruct c; [destruct Hrb as [_ ->]; lia|]. destruct (is_red t'); lia.
Qed.

Lemma rb_black_mkn d n t : rb Black (S n) t → ∃ sn sa sf, t = mkn d Black sn sa sf.
Proof.
  inversion 1 as [| |? ? l a r]; subst. destruct d; [by exists l, a, r|by exists r, a, l].
Qed.

Lemma erase_side_ok d c p sb k t bh T n s :
  tree_in s (plug (F d c p sb :: k) t) → kok Black (S bh) (F d c p sb :: k) →
  rb Black bh t → del_fix (F d c p sb :: k) t = T → (length k + 1 ≤ n)%nat →
  wp (erase_side d p) s (erase_post T (S n) s).
Proof.
  intros Hin Hk Ht HT Hn. unfold erase_side.
  assert (is_red t = false) as Er by (by inversion Ht).
  pose proof (it_lookup _ _ _ _ _ k d c t p sb Hin) as Hp. wp_cell.
  assert (∀ sn sa sf, sb = mkn d Black sn sa sf →
    (c = Black → kok Black (S (S bh)) k) → rb Black (S bh) sb →
    wp (ored ← rb_is_red (rootp 0 sb);
        other ← (if (ored : bool) then
                   rb_set_black (rootp 0 sb);; rb_set_red p;; rotate d p;;
                   get_child (opp d) p
                 else mret (rootp 0 sb));
        erase_bal d p other) s (erase_post T (S n) s)) as Hblack.
  { intros sn sa sf -> Hkb Hsb. rewrite rootp_mkn.
    assert (tree_in s (plug (F (opp d) c p t :: k) (mkn d Black sn sa sf))) as Hin'.
    { by rewrite <-plug_sib. }
    pose proof (it_lookup _ _ _ _ _ _ _ _ _ _ _ Hin') as Hsa. wp_cell.
    apply wp_bind, wp_ret.
    eapply (erase_bal_post d c p sn sa sf k t bh); [exact Hin|done|done|done| |done|].
    - rewrite del_fix_black in HT by done. by destruct (del_bal d c p (mkn d Black sn sa sf) t).
    - destruct c; lia. }
  inversion Hk as [|? ? ? ? ? Hsb Hk'|? cs ? ? ? ? ? Hsb Hk']; subst.
  - destruct (rb_black_mkn d _ _ Hsb) as (sn & sa & sf & ->). by eapply Hblack.
  - destruct cs; [clear Hblack|].
    + inversion Hsb as [|sl sa sr ? Hsl Hsr|]; subst. rewrite (node_mkn d) in Hin, Hsb |- *.
      set (sn := child d (Node Red sl sa sr)) in *.
      set (sf := child (opp d) (Node Red sl sa sr)) in *.
      assert (rb Black (S bh) sn) as Hsn by (subst sn; by destruct d).
      destruct (rb_black_mkn d _ _ Hsn) as (nn & na & nf & E). rewrite E in *.
      rewrite rootp_mkn.
      assert (tree_in s (plug (F (opp d) Black p t :: k) (mkn d Red (mkn d Black nn na nf) sa sf)))
        as Hin' by (by rewrite <-plug_sib).
      pose proof (it_lookup _ _ _ _ _ _ _ _ _ _ _ Hin') as Hsa. wp_cell. cbn match.
      apply wp_bind, wp_bind.
      eapply (wp_tree_black _ (F (opp d) Black p t :: k) d Red); [exact Hin'|].
      rewrite <-!plug_sib. intros s1 Hin1 Hf1. apply wp_bind.
      eapply (wp_tree_red _ k d Black t p); [exact Hin1|]. intros s2 Hin2 Hf2.
      apply wp_bind. eapply (wp_rotate d k Red t p Black _ sa sf); [exact Hin2|].
      intros s3 Hin3 Hf3.
      pose proof (it_lookup _ _ _ _ _ (F d Black sa sf :: k) d Red t p (mkn d Black nn na nf) Hin3)
        as Hp3. rewrite rootp_mkn in Hp3. wp_cell.
      eapply (erase_bal_post d Red p nn na nf (F d Black sa sf :: k) t bh);
        [exact Hin3|done|done|done| | |simpl; lia].
      * rewrite del_fix_sib_red by done.
        pose proof (del_bal_rb d Red p _ t bh Black Hsn Ht) as Hrb.
        destruct (del_bal d Red p _ t); [done|]. destruct (Hrb eq_refl) as [_ Hr].
        by rewrite del_fix_red.
      * rewrite addrs_del_fix.
        etransitivity; [frame_by Hf1|]. etransitivity; [frame_by Hf2|frame_by Hf3].
    + destruct (rb_black_mkn d _ _ Hsb) as (sn & sa & sf & ->). by eapply Hblack.
Qed.

Lemma erase_color_round_ok T n l s :
  erase_inv T n l s → wp (erase_color_round l) s (erase_post T n s).
Proof.
  intros (k & t & -> & Hin & HT & Hok & Hn). rewrite erase_color_round_sides.
  apply wp_bind. eapply wp_null_or_black; [exact Hin|]. apply wp_bind, wp_get_env.
  destruct (is_red t) eqn:Er; simpl.
  { apply wp_ret. split; [done|]. exists k, t. split_and!; [done..|].
    by rewrite <-HT, del_fix_red. }
  destruct Hok as [|(bh & Hk & Ht)]; [done|].
  destruct k as [|[d c p sb] k].
  { rewrite <-(it_root _ _ _ _ _ _ Hin : env s = rootp 0 t), Z.eqb_refl. apply wp_ret.
    split; [done|]. exists [], t. split_and!; [by apply Hin|done|].
    rewrite <-HT. simpl. rewrite Er. by eapply rbtree_black_id. }
  destruct (Z.eqb_spec (rootp 0 t) (env s)) as [E|_].
  { by destruct (tree_in_not_root _ _ _ _ Hin). }
  simpl negb. cbn match.
  pose proof (it_lookup _ _ _ _ _ k d c t p sb Hin) as Hp. simpl cpar. wp_cell.
  match goal with |- wp (if ?b then _ else _) _ _ =>
    replace b with (bool_decide (d = L))
  end; cycle 1.
  { destruct d; simpl; [by rewrite Z.eqb_refl|].
    destruct (Z.eqb_spec (rootp 0 sb) (rootp 0 t)) as [E|]; [|done]. exfalso.
    assert (tree_in s (plug (F (opp R) c p t :: k) sb)) as Hin' by (by rewrite <-plug_sib).
    pose proof (tree_in_frame _ _ _ Hin') as (_ & _ & _ & Hne); simpl in Hne.
    symmetry in E. revert E. apply Hne. intros ->.
    inversion Hk as [|? ? ? ? ? Hsb|? ? ? ? ? ? ? Hsb]; inversion Hsb. }
  destruct n as [|n]; [simpl in Hn; lia|].
  assert (wp (erase_side d p) s (erase_post T (S n) s)) as Hw; [|by destruct d].
  eapply erase_side_ok; [exact Hin|done|done|done|simpl in Hn; lia].
Qed.

Lemma addrs_erase_done T x s : erase_done T x s → ∃ k t,
  x = rootp 0 t ∧ tree_in s (plug k t) ∧ plug k (blacken t) = T ∧
  addrs (plug k t) = addrs T.
Proof.
  intros (k & t & ? & ? & <-). exists k, t. split_and!; [done..|].
  apply addrs_plug_cong. by rewrite addrs_blacken.
Qed.

(** [__rb_erase_color(node, parent)] for a hole that is one black node short. *)
Theorem rb_erase_color_del_fix s k t bh c :
  tree_in s (plug k t) → kok Black (S bh) k → rb c bh t →
  wp (__rb_erase_color (rootp 0 t) (cpar 0 k)) s (λ _ s',
    tree_in s' (del_fix k t) ∧ frame_out (addrs (plug k t)) s s').
Proof.
  intros Hin Hk Ht. unfold __rb_erase_color. apply wp_bind. unfold rounds.
  apply wp_bind, wp_get, wp_ret. apply wp_bind. set (T := del_fix k t).
  rewrite <-(addrs_del_fix k t). fold T. eapply wp_mono.
  { eapply (wp_loop (λ n l s', erase_inv T n l s' ∧ frame_out (addrs T) s s')
              _ (λ x s', frame_out (addrs T) s s' ∧ erase_done T x s'))
      with (n := S (length k)).
    - intros n l s1 [Hinv Hf]. eapply wp_mono; [by apply erase_color_round_ok|].
      intros [l'|x] s2 [Hf2 H].
      + destruct H as (n' & ? & ?). exists n'. split_and!; [done..|]. by transitivity s1.
      + split; [by transitivity s1|done].
    - split; [|done]. exists k, t. split_and!; [done..| |destruct (is_red t); lia].
      destruct (is_red t) eqn:Er; [by left|right].
      exists bh. split; [done|]. inversion Ht; subst; done || eauto with rb.
    - pose proof (tree_in_size _ _ Hin) as Hsz.
      rewrite addrs_plug_perm, length_app in Hsz. pose proof (length_kaddrs k). lia. }
  intros x s' (Hf & Hdone). apply addrs_erase_done in Hdone as (k' & t' & -> & Hin' & HT & HA).
  destruct t' as [|c' l a r]; simpl.
  - split; [by rewrite <-HT|done].
  - assert (a ≠ 0) as Ha by (by eapply node_addr_nonzero, it_okp_rootp).
    destruct (Z.eqb_spec a 0) as [|_]; [done|]. simpl.
    eapply (wp_tree_black _ k' L c' l a r); [exact Hin'|]. intros s2 Hin2 Hf2.
    split; [by rewrite <-HT|]. transitivity s'; [done|]. by rewrite <-HA.
Qed.
