(* ===== verification/RbTreeUnlink.v ===== *)
(** * tree/rbtree: [rb_erase]

    The walk to the successor, taking a node out of the tree, and the whole of
    [rb_erase] as the function [erase_at] of [RbSpec]. *)
From S2P Require Import Prelude PtrTree RbSpec RbTree RbTreeFacts RbTreeErase.

(** ** Walking down one side *)

Definition go (d : dir) (node : Z) : RB Z :=
  fuel ← rounds;
  loop fuel (λ n, c ← get_child d n; mret (if c =? 0 then inr n else inl c)) node.

Lemma go_dir d : go d = match d with L => go_left | R => go_right end.
Proof. by destruct d. Qed.

Lemma wp_go_end d s k t k' t' (Q : Z → rb_state → Prop) :
  tree_in s (plug k t) → t ≠ Leaf → spine d t k = (k', t') →
  Q (rootp 0 t') s → wp (go d (rootp 0 t)) s Q.
Proof.
  intros Hin Ht Hsp HQ. unfold go. apply wp_bind. unfold rounds.
  apply wp_bind, wp_get, wp_ret.
  eapply (wp_loop (λ n x s', s' = s ∧ ∃ k0 t0, x = rootp 0 t0 ∧ tree_in s (plug k0 t0) ∧
            t0 ≠ Leaf ∧ spine d t0 k0 = (k', t') ∧ (length (addrs t0) ≤ n)%nat))
    with (n := length (addrs t)).
  2: { split; [done|]. exists k, t. auto. }
  2: { pose proof (tree_in_size _ _ Hin) as Hs.
       rewrite addrs_plug_perm, length_app in Hs. lia. }
  clear k t Hin Ht Hsp. intros n x s' (-> & k & t & -> & Hin & Ht & Hsp & Hn).
  destruct t as [|c l a r]; [done|]. rewrite (node_mkn d) in *.
  generalize dependent (child (opp d) (Node c l a r)); intros sb.
  generalize dependent (child d (Node c l a r)); intros t Hin Ht Hsp Hn.
  pose proof (it_lookup _ _ _ _ _ k d c t a sb Hin) as Ha. rewrite rootp_mkn. wp_cell.
  apply wp_ret. rewrite spine_mkn in Hsp. rewrite addrs_mkn_perm in Hn. simpl in Hn.
  destruct t as [|ct lt at_ rt].
  - injection Hsp as <- <-. simpl. by rewrite rootp_mkn in HQ.
  - assert (tree_in s (plug (F d c a sb :: k) (Node ct lt at_ rt))) as Hin' by exact Hin.
    pose proof (node_addr_nonzero _ (it_okp_rootp _ _ _ _ _ _ _ _ _ _ Hin')).
    simpl. destruct (Z.eqb_spec at_ 0) as [|_]; [done|].
    rewrite length_app in Hn.
    exists (length (addrs (Node ct lt at_ rt))). split; [lia|]. split; [done|].
    eexists _, (Node ct lt at_ rt). eauto 10.
Qed.

(** ** A node with at most one child *)

Lemma erase_one_ok d s k c t a (Q : Z * Z * Z → rb_state → Prop) :
  tree_in s (plug k (mkn d c t a Leaf)) →
  (∀ s', tree_in s' (plug k t) → frame_out (addrs (plug k (mkn d c t a Leaf))) s s' →
         Q (rootp 0 t, cpar 0 k, colZ c) s') →
  wp (erase_one a (rootp 0 t)) s Q.
Proof.
  intros Hin HQ. unfold erase_one.
  pose proof (it_lookup _ _ _ _ _ k d c t a Leaf Hin) as Ha.
  pose proof (tree_in_frame _ _ _ Hin) as Hk. pose proof (tree_in_cpar _ _ _ Hin) as Hcp.
  pose proof (it_focus _ _ _ _ _ _ _ Hin) as (_ & Hrep & Hnd & _ & Hd & Hrt).
  rewrite rep_mkn in Hrep. destruct Hrep as (_ & Hrep & _).
  rewrite addrs_mkn_perm in Hnd. simpl in Hnd. rewrite app_nil_r in Hnd.
  setoid_rewrite addrs_mkn_perm in Hd. simpl in Hd. rewrite app_nil_r in Hd.
  apply NoDup_cons in Hnd as [Hat Hnd].
  assert (Forall node_addr (addrs t)) as Hok.
  { destruct Hin as [_ _ _ Hok]. rewrite addrs_plug_perm, addrs_mkn_perm, Forall_app, Forall_cons in Hok.
    destruct Hok as (_ & _ & Hok). simpl in Hok. by rewrite app_nil_r in Hok. }
  wp_cell. wp_cell. apply wp_bind. eapply (wp_reparent _ t).
  { destruct t as [|ct lt b rt]; [done|]. split.
    - simpl in Hok. apply node_addr_nonzero. rewrite Forall_app, Forall_cons in Hok. apply Hok.
    - simpl in Hrep. destruct Hrep as [-> _]. eauto. }
  { done. }
  { auto. }
  intros s1 Hs1 He1 Hf1. apply wp_bind.
  eapply (wp_relink L (λ pl, pl =? a) k a); [done|..].
  { destruct k as [|f k']; [done|]. destruct Hk as (Hf0 & Hk & Hft & Hsib). split; [done|].
    rewrite addrs_mkn_perm in Hft. simpl in Hft. rewrite app_nil_r in Hft.
    eexists. split; [lookup_cell|]. autorewrite with cells. rewrite rootp_mkn in *.
    split; [done|]. apply Hsib. by destruct d. }
  intros s2 Hs2 He2 Hf2. apply wp_ret. apply HQ.
  - unfold tree_in. rewrite Hs2, Hs1.
    replace (env s2) with (krootp (rootp 0 t) k).
    + eapply it_refocus; [exact Hin|done|done|set_solver|done].
    + rewrite He2. rewrite rootp_mkn in Hrt. destruct k; simpl in *; congruence.
  - intros b Hb. rewrite addrs_plug_perm, addrs_mkn_perm in Hb. simpl in Hb.
    rewrite app_nil_r in Hb. destruct k as [|f k']; [|rewrite kaddrs_cons_perm in Hb];
      rewrite Hf2, Hf1 by set_solver; done.
Qed.

(** ** A node with two children *)

(** [node->rb_parent_color = old->rb_parent_color]. *)
Lemma wp_copy_word {A} s a b ca cb (K : RB A) (Q : A → rb_state → Prop) :
  shape s !! a = Some ca → shape s !! b = Some cb →
  (∀ s', shape s' = alter (λ c, Cell (c_par ca) (c_col ca) (c_left c) (c_right c)) b (shape s) →
     env s' = env s → frame_out [b] s s' → wp K s' Q) →
  wp (opc ← fget rb_parent_color a; fset (with_parent_color (λ _, opc)) b;; K) s Q.
Proof.
  intros (n & Hn & <-)%shape_lookup Hb HQ. apply wp_bind. eapply wp_fget; [done|].
  apply wp_bind. by eapply (wp_upd _ (λ c, Cell (parent_of n) (color_of n) (c_left c) (c_right c))).
Qed.

(** The successor [y] of [a], in the right subtree of [a]. *)
Lemma two_nodup s k ky c cy l ry a y :
  tree_in s (plug (ky ++ F R c a l :: k) (Node cy Leaf y ry)) →
  NoDup (kaddrs k ++ addrs l ++ kaddrs ky ++ a :: y :: addrs ry).
Proof. apply it_two_nodup. Qed.

(** The part of [erase_two] that moves the successor out of its place. *)
Definition take_successor (old node parent child : Z) : RB Z :=
  if parent =? old then mret node
  else
    when (negb (child =? 0)) (rb_set_parent child parent);;
    set_left parent child;;
    or ← get_right old;
    set_right node or;;
    or' ← get_right old;
    rb_set_parent or' node;;
    mret parent.

(** The state after it, when [s] was the state before [erase_two]. *)
Record taken (k ky : ctx) (c : color) (l ry : tree) (a y : Z) (s s' : rb_state) : Prop := {
  tk_a : ∃ x, shape s' !! a = Some (Cell (cpar 0 k) (colZ c) (rootp 0 l) x);
  tk_y : ∃ p x, shape s' !! y = Some (Cell p x 0 (rootp 0 (plug ky ry)));
  tk_k : ∀ x, x ∈ kaddrs k → shape s' !! x = relink k y (shape s) !! x;
  tk_l : ∀ x, x ∈ addrs l → shape s' !! x = shape s !! x;
  tk_r : ∀ x, x ∈ kaddrs ky ∨ x ∈ addrs ry → shape s' !! x =
    reparent (plug ky ry) y (relink ky (rootp 0 ry) (reparent ry (cpar y ky) (shape s))) !! x;
}.

Section take.
Context (s : rb_state) (k ky : ctx) (c cy : color) (l ry : tree) (a y : Z).
Context (Hin : tree_in s (plug (ky ++ F R c a l :: k) (Node cy Leaf y ry))).
Context (Hleft : Forall (λ f, f_dir f = L) ky).

Lemma wp_take_successor s1 (Q : Z → rb_state → Prop) :
  shape s1 = relink k y (shape s) →
  (∀ s', taken k ky c l ry a y s s' → env s' = env s1 →
         frame_out (y :: kaddrs ky ++ addrs ry) s1 s' → Q (cpar y ky) s') →
  wp (take_successor a y (cpar a ky) (rootp 0 ry)) s1 Q.
Proof.
  intros Hs1 HQ. pose proof (two_nodup _ _ _ _ _ _ _ _ _ Hin) as Hnd.
  pose proof (it_lookup _ _ _ _ _ (ky ++ F R c a l :: k) L cy Leaf y ry Hin) as Hy.
  assert (shape s !! a = Some (Cell (cpar 0 k) (colZ c) (rootp 0 l) (krootp y ky))) as Ha.
  { pose proof Hin as H. unfold tree_in in H. rewrite plug_app in H.
    apply (it_lookup _ _ _ _ _ k R c) in H. by rewrite rootp_plug in H. }
  rewrite cpar_app in Hy. simpl in Hy.
  assert (node_addr y) as Hoky by (by eapply it_okp_rootp).
  pose proof (it_focus _ _ _ _ _ _ _ Hin) as (_ & Hrep & _). simpl in Hrep.
  destruct Hrep as (_ & _ & Hrep).
  destruct ky as [|[d cf f sf] ky']; unfold take_successor; simpl in *.
  - rewrite Z.eqb_refl. apply wp_ret. apply HQ; [|done|done].
    rewrite !NoDup_app, !NoDup_cons in Hnd.
    destruct Hnd as (_ & HdK & _ & HdL & Haa & Hyr & _).
    split; rewrite Hs1.
    + exists y. rewrite lookup_relink_ne; [done|set_solver].
    + eexists _, _. rewrite lookup_relink_ne; [done|set_solver].
    + done.
    + intros x Hx. rewrite lookup_relink_ne; [done|set_solver].
    + intros x [Hx|Hx]; [by apply not_elem_of_nil in Hx|]. simpl.
      rewrite lookup_relink_ne by set_solver. by rewrite lookup_reparent_twice, (lookup_reparent_id 0).
  - apply Forall_cons in Hleft as [Hd _]. simpl in Hd. subst d.
    rewrite kaddrs_cons_perm in Hnd. simpl in Hnd.
    rewrite !NoDup_app, !NoDup_cons, !NoDup_app, !NoDup_cons in Hnd.
    destruct Hnd as (_ & HdK & _ & HdL & Hff & _ & Hdf & Haa & Hyr & _).
    assert (node_addr f) as Hokf.
    { exact (it_okp _ _ _ _ _ (ky' ++ F R c a l :: k) L cf (Node cy Leaf y ry) f sf Hin). }
    pose proof (it_lookup _ _ _ _ _ (ky' ++ F R c a l :: k) L cf (Node cy Leaf y ry) f sf Hin) as Hf.
    simpl in Hf.
    assert (a ≠ f ∧ y ≠ f ∧ a ≠ y ∧ f ∉ addrs ry) as (Haf & Hyf & Hay & Hfr) by set_solver.
    destruct (Z.eqb_spec f a) as [|_]; [congruence|].
    destruct (plug_cons_node (F L cf f sf) ky' ry) as (c' & l' & r' & Hpl).
    simpl in Hpl. set (ra := krootp f ky') in *.
    apply wp_bind. eapply (wp_reparent _ ry f).
    { destruct ry as [|cb lb b rb]; [done|]. simpl in Hrep. destruct Hrep as [Hb _].
      split.
      { eapply node_addr_nonzero, (it_okp_rootp _ _ _ _ _
          (F R cy y Leaf :: F L cf f sf :: ky' ++ F R c a l :: k)). exact Hin. }
      rewrite Hs1, lookup_relink_ne by set_solver. eauto. }
    { by right. }
    { auto. }
    intros s2 Hs2 He2 Hf2.
    assert ((f ∉ kaddrs k) ∧ (y ∉ kaddrs k) ∧ a ∉ kaddrs k) as (?&?&?) by set_solver.
    wp_cell. intros s3 Hs3 He3 Hf3. wp_cell. wp_cell. intros s4 Hs4 He4 Hf4. wp_cell.
    assert (ra ∈ f :: addrs sf ++ kaddrs ky') as Hra.
    { pose proof (krootp_in y (F L cf f sf) ky') as H3. by rewrite kaddrs_cons_perm in H3. }
    clearbody ra.
    assert (ra ≠ y ∧ (ra ∉ addrs ry) ∧ ra ≠ a ∧ (ra ∉ kaddrs k) ∧ ra ∉ addrs l)
      as (Hray & Hrr & Hraa & Hrk & Hrl).
    { clear -HdK HdL Hff Hdf Hra Hyf Haf. set_solver. }
    assert (is_Some (shape s !! ra)) as [cra Hcra].
    { pose proof (it_rep _ _ _ _ _ _ Hin) as Hr. eapply rep_lookup; [exact Hr|].
      change (ra ∈ addrs (plug ((F L cf f sf :: ky') ++ F R c a l :: k) (Node cy Leaf y ry))).
      rewrite addrs_plug_perm, kaddrs_app_perm, kaddrs_cons_perm. simpl.
      clear -Hra. set_solver. }
    assert (is_Some (shape s4 !! ra)) as [cra4 Hcra4].
    { rewrite Hs4, lookup_alter_is_Some, Hs3, lookup_alter_is_Some, Hs2.
      rewrite lookup_reparent_ne, Hs1, lookup_relink_ne by done. eauto. }
    apply wp_bind. eapply wp_set_parent; [exact Hcra4|by right|].
    intros s5 Hs5 He5 Hf5. apply wp_ret. apply HQ.
    + assert (rootp 0 (plug (F L cf f sf :: ky') ry) = ra) as Hpr by (simpl; by rewrite Hpl).
      split; rewrite ?Hs5, ?Hs4, ?Hs3, ?Hs2, ?Hs1, ?Hpr.
      * exists ra. rewrite !lookup_alter_ne, lookup_reparent_ne, lookup_relink_ne
          by (done || (clear -Haa; set_solver)). done.
      * rewrite lookup_alter_ne, lookup_alter_eq, lookup_alter_ne, lookup_reparent_ne,
          lookup_relink_ne by done. rewrite Hy. simpl. eauto.
      * intros x Hx. rewrite !lookup_alter_ne, lookup_reparent_ne; [done|..];
          clear -Hx HdK Hrk; set_solver.
      * intros x Hx. rewrite !lookup_alter_ne, lookup_reparent_ne, lookup_relink_ne; [done|..];
          clear -Hx HdL HdK Hrl; set_solver.
      * intros x Hx. rewrite kaddrs_cons_perm in Hx. simpl in Hx.
        assert (x ≠ y ∧ x ∉ kaddrs k) as (? & ?) by (clear -Hx HdK Hyf Hdf Hyr; set_solver).
        simpl plug. rewrite Hpl. simpl. apply alter_congr. rewrite lookup_alter_ne by done.
        apply alter_congr, reparent_congr. by rewrite lookup_relink_ne.
    + congruence.
    + intros x Hx. rewrite kaddrs_cons_perm in Hx. simpl in Hx.
      rewrite Hf5, Hf4, Hf3, Hf2; [done|..]; clear -Hx Hra; set_solver.
Qed.
End take.

(** The last part of [erase_two]: the successor takes over from [old]. *)
Definition take_place {A} (old node : Z) (r : A) : RB A :=
  opc ← fget rb_parent_color old;
  fset (with_parent_color (λ _, opc)) node;;
  ol ← get_left old;
  set_left node ol;;
  ol' ← get_left old;
  rb_set_parent ol' node;;
  mret r.

Lemma erase_two_parts old : erase_two old =
  (node0 ← get_right old;
   node ← go L node0;
   op ← rb_parent old;
   relink_code L (λ opl, opl =? old) op node;;
   child ← get_right node;
   parent ← rb_parent node;
   color ← rb_color node;
   parent' ← take_successor old node parent child;
   take_place old node (child, parent', color)).
Proof. reflexivity. Qed.

Section place.
Context (s s1 : rb_state) (k ky : ctx) (c cy : color) (l ry : tree) (a y : Z).
Context (Hin : tree_in s (plug (ky ++ F R c a l :: k) (Node cy Leaf y ry))).
Context (Hl : l ≠ Leaf) (Htk : taken k ky c l ry a y s s1) (He : env s1 = krootp y k).

Lemma wp_take_place {A} (r : A) (Q : A → rb_state → Prop) :
  (∀ s', tree_in s' (plug (ky ++ F R c y l :: k) ry) → frame_out (y :: addrs l) s1 s' → Q r s') →
  wp (take_place a y r) s1 Q.
Proof.
  intros HQ. destruct Htk as [(xa & Ha) (py & cy' & Hy) HK HL HR].
  pose proof (two_nodup _ _ _ _ _ _ _ _ _ Hin) as Hnd.
  rewrite !NoDup_app, !NoDup_cons in Hnd.
  destruct Hnd as (_ & HdK & _ & HdL & _ & Hdy & Haa & Hyr & _).
  assert (node_addr y) as Hoky by (by eapply it_okp_rootp).
  assert (a ≠ y) as Hay by (clear -Haa; set_solver).
  assert (y ∉ addrs l) as Hyl by (clear -HdL; set_solver).
  unfold take_place. eapply wp_copy_word; [done..|]. intros s2 Hs2 He2 Hf2.
  wp_cell. wp_cell. intros s3 Hs3 He3 Hf3. wp_cell. simpl.
  apply wp_bind.
  destruct l as [|cl ll al rl]; [done|].
  assert (is_Some (shape s !! al)) as [cal Hal].
  { pose proof (it_rep _ _ _ _ _ _ Hin) as Hr. eapply rep_lookup; [exact Hr|].
    rewrite addrs_plug_perm, kaddrs_app_perm, kaddrs_cons_perm. simpl.
    clear. set_solver. }
  assert (al ≠ y) as Haly by (clear -Hyl; set_solver).
  simpl. eapply wp_set_parent.
  { rewrite Hs3, Hs2, !lookup_alter_ne, HL, Hal by (done || (clear; set_solver)). done. }
  { by right. }
  intros s4 Hs4 He4 Hf4. apply wp_ret. apply HQ.
  - unfold tree_in. replace (env s4) with (krootp y k) by congruence.
    eapply it_two_replace; [exact Hin|..].
    + rewrite Hs4, Hs3, Hs2, lookup_alter_ne, !lookup_alter_eq, Hy by done. done.
    + intros x Hx. rewrite Hs4, Hs3, Hs2, !lookup_alter_ne; [auto|..];
        clear -Hx HdK; set_solver.
    + intros x Hx. rewrite Hs4. simpl. apply alter_congr.
      rewrite Hs3, Hs2, !lookup_alter_ne by (clear -Hx Hyl; set_solver). auto.
    + intros x Hx. rewrite Hs4, Hs3, Hs2, !lookup_alter_ne; [auto|..];
        clear -Hx HdL Hdy Hyr; set_solver.
  - intros x Hx. simpl in Hx. rewrite Hf4, Hf3, Hf2; [done|..]; clear -Hx; set_solver.
Qed.
End place.

Lemma erase_two_ok s k c l a cr rl ra rr ky cy y ry (Q : Z * Z * Z → rb_state → Prop) :
  tree_in s (plug k (Node c l a (Node cr rl ra rr))) → l ≠ Leaf →
  leftmost cr rl ra rr [] = (ky, cy, y, ry) →
  (∀ s', tree_in s' (plug (ky ++ F R c y l :: k) ry) →
         frame_out (addrs (plug k (Node c l a (Node cr rl ra rr)))) s s' →
         Q (rootp 0 ry, cpar 0 (ky ++ F R c y l :: k), colZ cy) s') →
  wp (erase_two a) s Q.
Proof.
  intros Hin Hl Hlm HQ. rewrite erase_two_parts.
  pose proof (it_lookup _ _ _ _ _ k R c _ a l Hin) as Ha. simpl in Ha.
  pose proof (tree_in_frame _ _ _ Hin) as Hk.
  pose proof (leftmost_left _ _ _ _ _ _ _ _ _ Hlm (Forall_nil_2 _)) as Hleft.
  assert (spine L (Node cr rl ra rr) (F R c a l :: k) = (ky ++ F R c a l :: k, Node cy Leaf y ry)) as Hsp.
  { apply leftmost_spine. rewrite leftmost_app, Hlm. done. }
  pose proof (leftmost_plug _ _ _ _ _ _ _ _ _ Hlm) as Hpl. simpl in Hpl.
  assert (tree_in s (plug (ky ++ F R c a l :: k) (Node cy Leaf y ry))) as Hin2.
  { unfold tree_in. rewrite plug_app, <-Hpl. exact Hin. }
  pose proof (it_lookup _ _ _ _ _ (ky ++ F R c a l :: k) L cy Leaf y ry Hin2) as Hy.
  rewrite cpar_app in Hy. simpl in Hy.
  pose proof (two_nodup _ _ _ _ _ _ _ _ _ Hin2) as Hnd. rewrite NoDup_app in Hnd.
  destruct Hnd as (_ & HdK & _).
  assert (y ∉ kaddrs k) as Hyk by (clear -HdK; set_solver).
  wp_cell. apply wp_bind. eapply (wp_go_end L s (F R c a l :: k) (Node cr rl ra rr)); [exact Hin|done|exact Hsp|].
  simpl. wp_cell. apply wp_bind. eapply (wp_relink L _ k a); [done|..].
  { destruct k as [|f k']; [done|]. destruct Hk as (Hf0 & Hk & _ & Hsib). split; [done|].
    eexists. split; [exact Hk|]. autorewrite with cells. split; [done|]. by apply Hsib. }
  intros s1 Hs1 He1 Hf1. wp_cell. wp_cell. wp_cell. apply wp_bind.
  eapply wp_take_successor; [exact Hin2|exact Hleft|exact Hs1|].
  intros s2 Htk He2 Hf2. eapply wp_take_place; [exact Hin2|exact Hl|exact Htk|..].
  { rewrite He2, He1. pose proof (it_root _ _ _ _ _ _ Hin) as Hr. rewrite rootp_plug in Hr.
    destruct k; simpl in *; congruence. }
  intros s3 Hin3 Hf3. simpl. replace (cpar y ky) with (cpar 0 (ky ++ F R c y l :: k))
    by (by rewrite cpar_app).
  apply HQ; [done|]. intros b Hb. change (b ∉ addrs (plug (F R c a l :: k) (Node cr rl ra rr))) in Hb.
  rewrite Hpl, <-plug_app, addrs_plug_perm, kaddrs_app_perm, kaddrs_cons_perm in Hb.
  simpl in Hb. clear -Hb Hf1 Hf2 Hf3. rewrite Hf3, Hf2, Hf1; [done|..].
  - destruct k as [|f k']; [set_solver|]. rewrite kaddrs_cons_perm in Hb. set_solver.
  - set_solver.
  - set_solver.
Qed.

(** [rb_erase] takes the node out and leaves a red-black tree. *)
Lemma rb_erase_erase_at s k c l a r :
  tree_in s (plug k (Node c l a r)) → rbtree (plug k (Node c l a r)) →
  wp (rb_erase a) s (λ _ s',
    tree_in s' (erase_at k c l a r) ∧ frame_out (addrs (plug k (Node c l a r))) s s').
Proof.
  intros Hin Hrb. unfold rb_erase, erase_at.
  destruct (unlink_at k c l a r) as [[k' c'] t] eqn:E.
  pose proof (unlink_at_ok _ _ _ _ _ _ _ _ Hrb E) as Hsp.
  set (T := plug k (Node c l a r)) in *.
  assert (∀ s', tree_in s' (plug k' t) → addrs (plug k' t) ⊆ addrs T → frame_out (addrs T) s s' →
    wp (when (colZ c' =? RB_BLACK) (__rb_erase_color (rootp 0 t) (cpar 0 k'))) s'
      (λ _ s'', tree_in s'' (splice k' c' t) ∧ frame_out (addrs T) s s'')) as Hfin.
  { intros s' Hin' Hsub Hf. destruct Hsp as (n & Hk & Ht). destruct c'; simpl.
    - by apply wp_ret.
    - destruct Ht as (m & ct & -> & Ht). eapply wp_mono.
      { by eapply rb_erase_color_del_fix. }
      intros _ s'' [? Hf2]. split; [done|]. etrans; [exact Hf|].
      by eapply frame_out_mono. }
  pose proof (it_lookup _ _ _ _ _ k L c l a r Hin) as Ha. simpl in Ha.
  wp_cell. wp_cell. simpl. apply wp_bind. unfold T in *.
  destruct l as [|cl ll al rl]; simpl in E.
  - injection E as <- <- <-. simpl. eapply (erase_one_ok R); [exact Hin|]. intros s' Hin' Hf.
    apply Hfin; [done| |done]. rewrite !addrs_plug_perm. simpl. clear. set_solver.
  - assert (al ≠ 0) as Hal.
    { eapply node_addr_nonzero, (it_okp_rootp _ _ _ _ _ (F L c a r :: k)). exact Hin. }
    simpl. destruct (Z.eqb_spec al 0) as [|_]; [done|].
    destruct r as [|cr rl' ra rr].
    + injection E as <- <- <-. simpl. eapply (erase_one_ok L _ _ _ (Node cl ll al rl)); [exact Hin|].
      intros s' Hin' Hf. apply Hfin; [done| |done]. rewrite !addrs_plug_perm. simpl. clear. set_solver.
    + assert (ra ≠ 0) as Hra.
      { eapply node_addr_nonzero, (it_okp_rootp _ _ _ _ _ (F R c a (Node cl ll al rl) :: k)). exact Hin. }
      simpl. destruct (Z.eqb_spec ra 0) as [|_]; [done|].
      destruct (leftmost cr rl' ra rr []) as [[[ky cy] y] ry] eqn:Hlm. injection E as <- <- <-.
      eapply erase_two_ok; [exact Hin|done|exact Hlm|]. intros s' Hin' Hf. apply Hfin; [done| |done].
      apply leftmost_plug in Hlm. simpl in Hlm.
      change (addrs (plug (ky ++ F R c y (Node cl ll al rl) :: k) ry) ⊆
              addrs (plug (F R c a (Node cl ll al rl) :: k) (Node cr rl' ra rr))).
      rewrite Hlm, <-plug_app, !addrs_plug_perm, !kaddrs_app_perm, !kaddrs_cons_perm. simpl.
      clear. set_solver.
Qed.
