(* ===== verification/RbTreeWalk.v ===== *)
(** * tree/rbtree: the walks in order, and replacing a node

    [rb_first], [rb_last], [rb_next] and [rb_prev] on the in-order sequence of
    the addresses; [rb_replace_node] and [rb_link_node]. *)
From S2P Require Import Prelude PtrTree RbSpec RbTree RbTreeFacts RbTreeUnlink.

(** The first (last) element of a list, or the null pointer. *)
Definition end_of (d : dir) (l : list Z) : Z :=
  default 0 (match d with L => head l | R => last l end).

(** What comes in order on side [d] of the hole of a context. *)
Definition kside (d : dir) (k : ctx) : list Z :=
  match d with L => kbefore k | R => kafter k end.

(** The node where the walk down side [d] stops. *)
Lemma spine_end d t k k' t' :
  spine d t k = (k', t') → t ≠ Leaf →
  end_of d (match d with L => addrs t ++ kafter k | R => kbefore k ++ addrs t end) = rootp 0 t'.
Proof.
  intros H Ht. apply spine_spec in H as (Hp & (c & a & s & ->) & Hk); [|done].
  apply (f_equal addrs) in Hp. rewrite !addrs_plug in Hp. rewrite rootp_mkn.
  destruct d; simpl in Hp.
  - rewrite Hk in Hp. apply app_inv_head in Hp. by rewrite Hp.
  - rewrite Hk, !(assoc_L (++)) in Hp. apply app_inv_tail in Hp. rewrite Hp.
    unfold end_of. by rewrite last_snoc.
Qed.

Section ends.
Context (s : rb_state) (T : tree) (Hin : tree_in s T).

Lemma wp_end d :
  wp (n ← get_root; if n =? 0 then mret 0 else go d n) s
    (λ a s', s' = s ∧ a = end_of d (addrs T)).
Proof.
  apply wp_bind, wp_get_env. rewrite (it_root _ _ _ _ _ _ Hin).
  destruct T as [|c l a r]; [by destruct d|].
  assert (a ≠ 0) as Ha by (by eapply node_addr_nonzero, (it_okp_rootp _ _ _ _ _ [])).
  simpl. destruct (Z.eqb_spec a 0) as [|_]; [done|].
  destruct (spine d (Node c l a r) []) as [k' t'] eqn:E.
  eapply (wp_go_end d s [] (Node c l a r)); [done..|exact E|]. split; [done|].
  apply spine_end in E; [|done]. simpl in E. rewrite <-E. destruct d; by rewrite ?app_nil_r.
Qed.
End ends.

(** ** Neighbours *)

Definition climb (d : dir) (node : Z) : RB Z :=
  fuel ← rounds;
  loop fuel (λ n, parent ← rb_parent n;
                  if parent =? 0 then mret (inr parent)
                  else pr ← get_child d parent;
                       mret (if n =? pr then inl parent else inr parent)) node.

Lemma wp_climb d s k t :
  tree_in s (plug k t) → t ≠ Leaf →
  wp (climb d (rootp 0 t)) s (λ a s', s' = s ∧ a = end_of (opp d) (kside d k)).
Proof.
  intros Hin Ht. unfold climb. apply wp_bind. unfold rounds.
  apply wp_bind, wp_get, wp_ret.
  eapply (wp_loop (λ n x s', s' = s ∧ ∃ k0 t0, x = rootp 0 t0 ∧ tree_in s (plug k0 t0) ∧
            t0 ≠ Leaf ∧ kside d k0 = kside d k ∧ length k0 = n))
    with (n := length k).
  2: { split; [done|]. exists k, t. auto. }
  2: { by eapply tree_in_rounds. }
  set (K := kside d k). clearbody K. clear k t Hin Ht.
  intros n x s' (-> & k & t & -> & Hin & Ht & HK & Hn).
  destruct t as [|c l a r]; [done|].
  pose proof (it_lookup _ _ _ _ _ k L c l a r Hin) as Ha. simpl in Ha. simpl rootp. wp_cell.
  pose proof (tree_in_frame _ _ _ Hin) as Hf.
  destruct k as [|[d' cf f sf] k]; simpl.
  { apply wp_ret. split; [done|]. rewrite <-HK. by destruct d. }
  destruct Hf as (Hf0 & Hf & _ & Hsib). simpl in Hf0, Hf, Hsib.
  destruct (Z.eqb_spec f 0) as [|_]; [done|]. wp_cell. apply wp_ret.
  destruct (decide (d = d')) as [->|Hd].
  - rewrite c_child_mkcell, Z.eqb_refl. exists (length k). split; [simpl in Hn; lia|].
    split; [done|]. exists k, (mkn d' cf (Node c l a r) f sf). rewrite rootp_mkn.
    split_and!; [done|exact Hin|by destruct d'| |done]. rewrite <-HK. by destruct d'.
  - assert (d' = opp d) as -> by (destruct d, d'; done).
    rewrite c_child_mkcell_opp. destruct (Z.eqb_spec a (rootp 0 sf)) as [Heq|_].
    { exfalso. by apply Hsib. }
    split; [done|]. rewrite <-HK. destruct d; [|done]. unfold end_of. simpl.
    by rewrite (assoc_L (++)), last_snoc.
Qed.

Definition neighbour (d : dir) (node : Z) : RB Z :=
  p ← rb_parent node;
  if p =? node then mret 0 else
  r ← get_child d node;
  if negb (r =? 0) then go (opp d) r else climb d node.

Lemma wp_neighbour d s k c l a r :
  tree_in s (plug k (Node c l a r)) →
  wp (neighbour d a) s (λ b s', s' = s ∧
    b = match d with L => end_of R (kbefore k ++ addrs l) | R => end_of L (addrs r ++ kafter k) end).
Proof.
  intros Hin. unfold neighbour.
  pose proof (it_lookup _ _ _ _ _ k L c l a r Hin) as Ha. simpl in Ha. wp_cell. simpl.
  assert (cpar 0 k ≠ a) as Hp.
  { pose proof (tree_in_frame _ _ _ Hin) as Hf. destruct k as [|f k]; simpl.
    - apply it_okp_rootp, node_addr_nonzero in Hin. done.
    - destruct Hf as (_ & _ & Hf & _). clear -Hf. set_solver. }
  destruct (Z.eqb_spec (cpar 0 k) a) as [|_]; [done|]. wp_cell.
  set (t := child d (Node c l a r)).
  assert (c_child d (Cell (cpar 0 k) (colZ c) (rootp 0 l) (rootp 0 r)) = rootp 0 t) as ->
    by (by destruct d).
  set (k2 := F d c a (child (opp d) (Node c l a r)) :: k).
  assert (tree_in s (plug k2 t)) as Hin2 by (by destruct d).
  destruct (decide (t = Leaf)) as [Ht|Ht].
  - rewrite Ht. simpl. eapply wp_mono; [by eapply (wp_climb d s k (Node c l a r))|].
    intros b s' [-> ->]. split; [done|]. unfold t in Ht. destruct d; simpl in *; subst; simpl.
    + by rewrite app_nil_r.
    + done.
  - assert (rootp 0 t ≠ 0) as Ht0.
    { destruct t as [|ct lt at_ rt]; [done|]. by eapply node_addr_nonzero, it_okp_rootp. }
    destruct (Z.eqb_spec (rootp 0 t) 0) as [|_]; [done|]. simpl.
    destruct (spine (opp d) t k2) as [k' t'] eqn:E.
    eapply wp_go_end; [exact Hin2|done|exact E|]. split; [done|].
    apply spine_end in E; [|done]. rewrite <-E. by destruct d.
Qed.

(** ** The four walks by position in the sequence *)

(** Every position of the in-order sequence is a node of the tree. *)
Lemma addrs_zipper_at T K pre a post :
  addrs T = pre ++ a :: post → ∃ k c l r,
    plug K T = plug k (Node c l a r) ∧ kbefore K ++ pre = kbefore k ++ addrs l ∧
    post ++ kafter K = addrs r ++ kafter k.
Proof.
  revert K pre post. induction T as [|c l IHl b r IHr]; intros K pre post; simpl.
  { by destruct pre. }
  assert (∀ pre post, pre = addrs l → a = b → post = addrs r → ∃ k c' l' r',
    plug K (Node c l b r) = plug k (Node c' l' a r') ∧ kbefore K ++ pre = kbefore k ++ addrs l' ∧
    post ++ kafter K = addrs r' ++ kafter k) as Hhere.
  { intros ? ? -> -> ->. by exists K, c, l, r. }
  intros H. apply app_eq_inv in H as [([|x m] & Hl & Hm)|([|x m] & Hp & Hm)].
  - injection Hm as ? ?. apply Hhere; [by rewrite app_nil_r in Hl|congruence..].
  - injection Hm as -> ->. destruct (IHl (F L c b r :: K) _ _ Hl) as (k & c' & l' & r' & H1 & H2 & H3).
    exists k, c', l', r'. split_and!; [done|done|]. rewrite <-H3. simpl. solve_app.
  - injection Hm as ? ?. apply Hhere; [by rewrite app_nil_r in Hp|congruence..].
  - injection Hm as -> Hr. destruct (IHr (F R c x l :: K) _ _ Hr) as (k & c' & l' & r' & H1 & H2 & H3).
    exists k, c', l', r'. split_and!; [done| |done]. rewrite <-H2, Hp. simpl. solve_app.
Qed.

Lemma addrs_zipper T pre a post :
  addrs T = pre ++ a :: post → ∃ k c l r,
    T = plug k (Node c l a r) ∧ pre = kbefore k ++ addrs l ∧ post = addrs r ++ kafter k.
Proof.
  intros (k & c & l & r & H1 & H2 & H3)%(addrs_zipper_at _ []). simpl in *.
  rewrite app_nil_r in H3. eauto 10.
Qed.

Lemma wp_neighbour_at d s T pre a post :
  tree_in s T → addrs T = pre ++ a :: post →
  wp (neighbour d a) s (λ b s', s' = s ∧
    b = match d with L => end_of R pre | R => end_of L post end).
Proof.
  intros Hin (k & c & l & r & -> & -> & ->)%addrs_zipper.
  eapply wp_mono; [by eapply wp_neighbour|]. intros b s' [-> ->]. by destruct d.
Qed.

(** ** Putting nodes in *)

(** A node that is live and not in the tree. *)
Definition spare (s : rb_state) (T : tree) (b : Z) : Prop :=
  is_Some (mem s !! b) ∧ node_addr b ∧ b ∉ addrs T.

Lemma spare_shape s T b : spare s T b → ∃ c, shape s !! b = Some c.
Proof. intros ([n Hn] & _). exists (cell_of n). unfold shape. by rewrite lookup_fmap, Hn. Qed.

(** The link of the hole of a context, as the code passes it. *)
Definition klink (k : ctx) : rb_link :=
  match k with
  | [] => LinkRoot
  | F L _ a _ :: _ => LinkLeft a
  | F R _ a _ :: _ => LinkRight a
  end.

Lemma wp_link_node s k b :
  tree_in s (plug k Leaf) → spare s (plug k Leaf) b →
  wp (rb_link_node b (cpar 0 k) (klink k)) s (λ _ s',
    tree_in s' (plug k (Node Red Leaf b Leaf)) ∧ frame_out (b :: addrs (plug k Leaf)) s s').
Proof.
  intros Hin Hsp. destruct (spare_shape _ _ _ Hsp) as [cb Hb]. destruct Hsp as (_ & Hokb & Hbn).
  rewrite addrs_plug_perm in Hbn. simpl in Hbn. rewrite app_nil_r in Hbn.
  pose proof (tree_in_cpar _ _ _ Hin) as Hcp. pose proof (tree_in_frame _ _ _ Hin) as Hk.
  unfold rb_link_node. apply wp_bind. eapply wp_new_parent; [done|exact Hcp|].
  intros s1 Hs1 He1 Hf1. wp_cell. intros s2 Hs2 He2 Hf2. wp_cell. intros s3 Hs3 He3 Hf3.
  set (h := alter (λ _, Cell (cpar 0 k) 0 0 0) b (shape s)).
  assert (shape s3 = h) as Hs3'.
  { rewrite Hs3, Hs2, Hs1. unfold h. apply map_eq. intros x. rewrite !lookup_alter.
    repeat case_decide; try done. subst. by rewrite Hb. }
  assert (is_tree 0 node_addr h 0 (env s) (plug k Leaf)) as Hin3.
  { eapply is_tree_frame; [exact Hin|]. intros x Hx. unfold h. rewrite lookup_alter_ne; [done|].
    intros <-. rewrite addrs_plug_perm in Hx. simpl in Hx. rewrite app_nil_r in Hx. done. }
  assert (wp (write_link (klink k) b) s3 (λ _ s', shape s' = relink k b h ∧
            env s' = krootp b k ∧ frame_out (kaddrs k) s3 s')) as Hw.
  { pose proof (it_root _ _ _ _ _ _ Hin) as Hr. rewrite rootp_plug in Hr.
    destruct k as [|[d c a sb] k']; simpl.
    - apply wp_put_env. split_and!; [by rewrite <-Hs3'|done|done].
    - destruct Hk as (_ & Hk & _). simpl in Hk, Hr. rewrite kaddrs_cons_perm in Hbn.
      simpl in Hbn. assert (a ≠ b) as Hab by (clear -Hbn; set_solver).
      destruct d; simpl.
      + eapply wp_set_left; [rewrite Hs3'; unfold h; by rewrite lookup_alter_ne|].
        intros s' Hs' He' Hf'. split_and!; [by rewrite <-Hs3'|congruence|].
        eapply frame_out_mono; [done|]. rewrite kaddrs_cons_perm. clear. set_solver.
      + eapply wp_set_right; [rewrite Hs3'; unfold h; by rewrite lookup_alter_ne|].
        intros s' Hs' He' Hf'. split_and!; [by rewrite <-Hs3'|congruence|].
        eapply frame_out_mono; [done|]. rewrite kaddrs_cons_perm. clear. set_solver. }
  eapply wp_mono; [exact Hw|]. intros _ s4 (Hs4 & He4 & Hf4). split.
  - unfold tree_in. rewrite He4, Hs4.
    pose proof (it_refocus 0 node_addr h 0 _ k Leaf (Node Red Leaf b Leaf) (cpar 0 k) Hin3) as H.
    simpl in H.
    assert (alter (set_c_par (cpar 0 k)) b h = h) as Heq.
    { unfold h. apply map_eq. intros x. rewrite !lookup_alter.
      case_decide; [|done]. subst. by rewrite decide_True, Hb by done. }
    rewrite Heq in H. apply H.
    + unfold h. by rewrite lookup_alter_eq, Hb.
    + apply NoDup_singleton.
    + intros a Ha. assert (a = b) as -> by (clear -Ha; set_solver). done.
    + by apply Forall_singleton.
  - intros x Hx. rewrite addrs_plug_perm in Hx. simpl in Hx. rewrite app_nil_r in Hx.
    rewrite Hf4, Hf3, Hf2, Hf1; [done|..]; clear -Hx; set_solver.
Qed.

(** [store new v] as an update of the cells. *)
Lemma wp_store_cell s b n c (Q : unit → rb_state → Prop) :
  shape s !! b = Some c →
  (∀ s', shape s' = <[b := cell_of n]> (shape s) → env s' = env s → frame_out [b] s s' → Q () s') →
  wp (store b n) s Q.
Proof.
  intros (m & Hm & _)%shape_lookup HQ. eapply wp_store; [done|]. apply HQ; [|done|].
  - unfold shape; simpl. by rewrite fmap_insert.
  - intros x Hx. simpl. rewrite lookup_insert_ne; [done|]. clear -Hx; set_solver.
Qed.

Lemma wp_replace_node s k c l a r b :
  tree_in s (plug k (Node c l a r)) → spare s (plug k (Node c l a r)) b →
  wp (rb_replace_node a b) s (λ _ s',
    tree_in s' (plug k (Node c l b r)) ∧ mem s' !! a = mem s !! a ∧
    frame_out (b :: addrs (plug k (Node c l a r))) s s').
Proof.
  intros Hin Hsp. destruct (spare_shape _ _ _ Hsp) as [cb Hb]. destruct Hsp as (_ & Hokb & Hbn).
  rewrite addrs_plug_perm in Hbn. simpl in Hbn.
  pose proof (it_lookup _ _ _ _ _ k L c l a r Hin) as Ha. simpl in Ha.
  pose proof (tree_in_frame _ _ _ Hin) as Hk.
  pose proof (it_focus _ _ _ _ _ _ _ Hin) as (_ & (_ & Hl & Hr) & Hnd & Hndk & Hd & Hrt).
  simpl in Hnd, Hd. rewrite NoDup_app, NoDup_cons in Hnd. destruct Hnd as (_ & Hdl & Har & _).
  assert (b ≠ a ∧ (b ∉ addrs l) ∧ (b ∉ addrs r) ∧ b ∉ kaddrs k) as (Hba & Hbl & Hbr & Hbk)
    by (clear -Hbn; set_solver).
  assert (tree_in s (plug (F L c a r :: k) l)) as Hinl by exact Hin.
  assert (tree_in s (plug (F R c a l :: k) r)) as Hinr by exact Hin.
  assert (∀ t k', tree_in s (plug k' t) → (∀ x, x ∈ addrs t → x ∉ kaddrs k) →
    match t with Leaf => True | Node _ _ b' _ => b' ≠ 0 ∧ is_Some (relink k b (shape s) !! b') end) as Hsub.
  { intros t k' Hin' Hk'. destruct t as [|ct lt x rt]; [done|]. split.
    - by eapply node_addr_nonzero, it_okp_rootp.
    - apply (it_lookup _ _ _ _ _ k' L) in Hin'. rewrite lookup_relink_ne; [eauto|].
      apply Hk'. simpl. clear. set_solver. }
  assert (a ∉ kaddrs k) as Hak by (apply Hd; clear; set_solver).
  assert (∀ x, x ∈ addrs l → x ∉ addrs r) as Hlr by (clear -Hdl; set_solver).
  unfold rb_replace_node. wp_cell. simpl. apply wp_bind.
  eapply (wp_relink L (λ pl, a =? pl) k a); [intros x; apply Z.eqb_sym|..].
  { destruct k as [|f k']; [done|]. destruct Hk as (Hf0 & Hk & _ & Hsib). split; [done|].
    eexists. split; [exact Hk|]. autorewrite with cells. split; [done|]. by apply Hsib. }
  intros s1 Hs1 He1 Hf1. wp_cell. simpl. apply wp_bind.
  eapply (wp_reparent _ l b); [rewrite Hs1; eapply Hsub; [exact Hinl|clear -Hd; set_solver]|by right|..].
  { intros Q' HQ'. wp_cell. exact HQ'. }
  intros s2 Hs2 He2 Hf2. wp_cell. simpl. apply wp_bind.
  eapply (wp_reparent _ r b); [|by right|..].
  { pose proof (Hsub r _ Hinr) as H. destruct r as [|cr rl ar rr]; [done|].
    rewrite Hs2, Hs1, lookup_reparent_ne; [apply H|].
    { intros x Hx. apply Hd. rewrite elem_of_app, elem_of_cons. by right; right. }
    intros Hx. eapply Hlr; [exact Hx|]. simpl. clear. set_solver. }
  { intros Q' HQ'. wp_cell. exact HQ'. }
  intros s3 Hs3 He3 Hf3.
  assert (mem s3 !! a = mem s !! a) as Hma.
  { rewrite Hf3, Hf2, Hf1; [done| |clear -Hdl; set_solver|exact Har].
    destruct k as [|f k']; [clear; set_solver|]. rewrite kaddrs_cons_perm in Hak. clear -Hak. set_solver. }
  destruct (shape_lookup _ _ _ Ha) as (na & Hna & Hca).
  apply wp_bind. eapply wp_load; [rewrite Hma; exact Hna|].
  eapply wp_store_cell.
  { rewrite Hs3, lookup_reparent_ne, Hs2, lookup_reparent_ne, Hs1, lookup_relink_ne by done. exact Hb. }
  intros s4 Hs4 He4 Hf4. rewrite Hca in Hs4. split_and!.
  - unfold tree_in. replace (env s4) with (krootp b k) by (destruct k; simpl in *; congruence).
    eapply (it_replace _ _ _ _ _ _ k c l a r b); [exact Hin|done..| | | |].
    + by rewrite Hs4, lookup_insert_eq.
    + intros x Hx. rewrite Hs4, lookup_insert_ne, Hs3, lookup_reparent_ne, Hs2, lookup_reparent_ne, Hs1;
        [done|..]; clear -Hx Hd Hbk; set_solver.
    + intros x Hx. rewrite Hs4, lookup_insert_ne, Hs3, lookup_reparent_ne, Hs2.
      * apply reparent_congr. rewrite Hs1, lookup_relink_ne; [done|]. clear -Hx Hd; set_solver.
      * by apply Hlr.
      * clear -Hx Hbl; set_solver.
    + intros x Hx. rewrite Hs4, lookup_insert_ne, Hs3 by (clear -Hx Hbr; set_solver).
      apply reparent_congr. rewrite Hs2, lookup_reparent_ne, Hs1, lookup_relink_ne; [done|..];
        clear -Hx Hd Hlr; set_solver.
  - rewrite Hf4; [done|]. clear -Hba. set_solver.
  - intros x Hx. rewrite addrs_plug_perm in Hx. simpl in Hx.
    rewrite Hf4, Hf3, Hf2, Hf1; [done| |clear -Hx; set_solver..].
    destruct k as [|f k']; [clear; set_solver|]. rewrite kaddrs_cons_perm in Hx. clear -Hx. set_solver.
Qed.
