(* ===== verification/RbTreeProps.v ===== *)
(** * tree/rbtree: what the operations promise

    The contract of the tree for its users: a represented red-black tree, its
    in-order sequence of node addresses, and what each operation does to it. *)
From S2P Require Import Prelude PtrTree RbSpec RbTree RbTreeFacts RbTreeInsert RbTreeErase RbTreeUnlink RbTreeWalk.

(** The state holds a red-black tree whose nodes are, in order, [l]. *)
Definition rb_holds (s : rb_state) (l : list Z) : Prop :=
  ∃ T, tree_in s T ∧ rbtree T ∧ addrs T = l.

(** ** The operations create and free no node *)

Class KeepsDom {A} (m : RB A) : Prop :=
  keeps_dom s a s' : m s = Ok (a, s') → dom (mem s') = dom (mem s).

#[export] Instance keeps_ret {A} (a : A) : KeepsDom (mret a).
Proof. by intros s b s' [= <- <-]. Qed.
#[export] Instance keeps_bind {A B} (m : RB A) (f : A → RB B) :
  KeepsDom m → (∀ a, KeepsDom (f a)) → KeepsDom (m ≫= f).
Proof.
  intros Hm Hf s b s'. unfold mbind, M_bind. destruct (m s) as [[a s1]| |] eqn:E; [|done..].
  intros H. rewrite (Hf a _ _ _ H). by eapply Hm.
Qed.
#[export] Instance keeps_fget {A} (f : rb_node → A) a : KeepsDom (fget f a).
Proof.
  intros s b s'. unfold fget, fmap, M_fmap, load. destruct (mem s !! a); [|done].
  by intros [= <- <-].
Qed.
#[export] Instance keeps_load a : KeepsDom (load a).
Proof. intros s b s'. unfold load. destruct (mem s !! a); [|done]. by intros [= <- <-]. Qed.
#[export] Instance keeps_store a n : KeepsDom (store a n).
Proof.
  intros s b s'. unfold store. destruct (mem s !! a) eqn:E; [|done]. intros [= <- <-]. simpl.
  rewrite dom_insert_L. apply elem_of_dom_2 in E. set_solver.
Qed.
#[export] Instance keeps_get_env : KeepsDom get_env.
Proof. by intros s b s' [= <- <-]. Qed.
#[export] Instance keeps_put_env e : KeepsDom (put_env e).
Proof. by intros s b s' [= <- <-]. Qed.
#[export] Instance keeps_rounds : KeepsDom rounds.
Proof. by intros s b s' [= <- <-]. Qed.
#[export] Instance keeps_loop {Lo R} fuel (body : Lo → RB (Lo + R)) l :
  (∀ l, KeepsDom (body l)) → KeepsDom (loop fuel body l).
Proof.
  intros Hb. revert l. induction fuel as [|fuel IH]; intros l; simpl; [by intros s b s'|].
  apply keeps_bind; [done|]. intros [l'|x]; [apply IH|apply _].
Qed.

(** [solve_keeps]: by the structure of the code. *)
Ltac solve_keeps :=
  repeat first
    [ solve [apply _]
    | apply keeps_bind; [|intros ?]
    | apply keeps_loop; intros ?
    | case_match
    | progress unfold when ].

#[export] Instance keeps_rotate_left n : KeepsDom (__rb_rotate_left n).
Proof. unfold __rb_rotate_left, rb_set_parent, rb_parent, set_left, set_right, fset. solve_keeps. Qed.
#[export] Instance keeps_rotate_right n : KeepsDom (__rb_rotate_right n).
Proof. unfold __rb_rotate_right, rb_set_parent, rb_parent, set_left, set_right, fset. solve_keeps. Qed.
#[export] Instance keeps_fset (f : rb_node → rb_node) a : KeepsDom (fset f a).
Proof. unfold fset. solve_keeps. Qed.
#[export] Instance keeps_null_or_black p : KeepsDom (null_or_black p).
Proof. unfold null_or_black, rb_is_black, rb_color. solve_keeps. Qed.
#[export] Instance keeps_erase_color n p : KeepsDom (__rb_erase_color n p).
Proof.
  unfold __rb_erase_color, erase_color_round, rb_is_red, rb_color, rb_parent, rb_set_color,
    rb_set_black, rb_set_red, get_left, get_right, get_root. solve_keeps.
Qed.
#[export] Instance keeps_erase a : KeepsDom (rb_erase a).
Proof.
  unfold rb_erase, erase_one, erase_two, go_left, rb_color, rb_parent, rb_set_parent,
    get_left, get_right, set_left, set_right, set_root. solve_keeps.
Qed.

Lemma wp_keeps {A} (m : RB A) s Q :
  KeepsDom m → wp m s Q → wp m s (λ a s', Q a s' ∧ dom (mem s') = dom (mem s)).
Proof.
  intros Hm. unfold wp. destruct (m s) as [[a s']| |] eqn:E; [|done..]. intros HQ.
  split; [done|]. by eapply Hm.
Qed.

Lemma wp_insert_at s k b :
  tree_in s (plug k Leaf) → rbtree (plug k Leaf) → spare s (plug k Leaf) b →
  wp (rb_link_node b (cpar 0 k) (klink k);; rb_insert_color b) s (λ _ s',
    rb_holds s' (kbefore k ++ b :: kafter k) ∧ frame_out (b :: addrs (plug k Leaf)) s s').
Proof.
  intros Hin (c & n & Hk & Hleaf)%rb_plug_inv Hsp.
  assert (c = Black ∧ n = 0%nat) as [-> ->] by (by inversion Hleaf).
  apply wp_bind. eapply wp_mono; [by apply wp_link_node|].
  intros _ s1 [Hin1 Hf1].
  assert (rb Red 0 (Node Red Leaf b Leaf)) as Hrb by eauto with rb.
  eapply wp_mono; [by eapply (rb_insert_color_ins_fix s1 k (Node Red Leaf b Leaf))|].
  intros _ s2 [Hin2 Hf2]. split.
  - exists (ins_fix k (Node Red Leaf b Leaf)). split_and!; [done|by eapply ins_fix_rb|].
    by rewrite addrs_ins_fix, addrs_plug.
  - etrans; [exact Hf1|]. eapply frame_out_mono; [exact Hf2|].
    rewrite !addrs_plug_perm. simpl. clear. set_solver.
Qed.

Lemma wp_erase_at s pre a post :
  rb_holds s (pre ++ a :: post) →
  wp (rb_erase a) s (λ _ s', rb_holds s' (pre ++ post) ∧ frame_out (pre ++ a :: post) s s').
Proof.
  intros (T & Hin & Hrb & HT). rewrite <-HT.
  apply addrs_zipper in HT as (k & c & l & r & -> & -> & ->).
  eapply wp_mono; [by apply rb_erase_erase_at|]. intros _ s' [Hin' Hf]. split; [|done].
  eexists. split_and!; [done|by apply erase_at_rb|]. rewrite addrs_erase_at. solve_app.
Qed.

(** ** The contract *)

(** C1: linking a live node [b] that is not in the tree into the place of an empty
    child pointer ([rb_link_node]) and calling [rb_insert_color] terminates
    without undefined behaviour, leaves a red-black tree whose in-order sequence
    has [b] at that place, and touches no other node. *)
Theorem rb_insert_spec s k b :
  tree_in s (plug k Leaf) → rbtree (plug k Leaf) → spare s (plug k Leaf) b →
  wp (rb_link_node b (cpar 0 k) (klink k);; rb_insert_color b) s (λ _ s',
    rb_holds s' (kbefore k ++ b :: kafter k) ∧
    frame_out (b :: addrs (plug k Leaf)) s s').
Proof. apply wp_insert_at. Qed.

(** C2: [rb_erase] of any node of a red-black tree terminates without undefined
    behaviour, leaves a red-black tree whose in-order sequence has lost exactly
    that node, and touches no node outside the tree. *)
Theorem rb_erase_spec s pre a post :
  rb_holds s (pre ++ a :: post) →
  wp (rb_erase a) s (λ _ s',
    rb_holds s' (pre ++ post) ∧ frame_out (pre ++ a :: post) s s').
Proof. apply wp_erase_at. Qed.

(** C36: [rb_first], [rb_last], [rb_next] and [rb_prev] are the ends of the in-order
    sequence and the neighbours in it, with the null pointer past the ends, and
    change nothing. *)
Theorem rb_walk_spec s l :
  rb_holds s l →
  wp rb_first s (λ b s', s' = s ∧ b = default 0 (head l)) ∧
  wp rb_last s (λ b s', s' = s ∧ b = default 0 (last l)) ∧
  ∀ pre a post, l = pre ++ a :: post →
    wp (rb_next a) s (λ b s', s' = s ∧ b = default 0 (head post)) ∧
    wp (rb_prev a) s (λ b s', s' = s ∧ b = default 0 (last pre)).
Proof.
  intros (T & Hin & _ & <-). split_and!.
  - exact (wp_end s T Hin L).
  - exact (wp_end s T Hin R).
  - intros pre a post HT. split.
    + exact (wp_neighbour_at R s T pre a post Hin HT).
    + exact (wp_neighbour_at L s T pre a post Hin HT).
Qed.

(** [rb_replace_node] puts a live node that is not in the tree in the place
    of [victim]: same tree, same sequence with the one address exchanged. *)
Theorem rb_replace_node_spec s pre a post b :
  rb_holds s (pre ++ a :: post) →
  is_Some (mem s !! b) → node_addr b → b ∉ pre ++ a :: post →
  wp (rb_replace_node a b) s (λ _ s',
    rb_holds s' (pre ++ b :: post) ∧ frame_out (b :: pre ++ a :: post) s s').
Proof.
  intros (T & Hin & Hrb & HT) Hlive Hok Hb. rewrite <-HT in Hb |- *.
  apply addrs_zipper in HT as (k & c & l & r & -> & -> & ->).
  eapply wp_mono; [by apply wp_replace_node|]. intros _ s' (Hin' & _ & Hf). split; [|done].
  eexists. split_and!; [done| |rewrite addrs_plug; simpl; solve_app].
  apply rb_plug_inv in Hrb as (c' & n & Hk & Ht). eapply kok_plug; [done|].
  inversion Ht; subst; eauto with rb.
Qed.

(** the depth of a red-black tree, which bounds every search and every walk,
    is logarithmic in the number of its nodes. *)
Theorem rb_height_spec s l :
  rb_holds s l → ∃ T, tree_in s T ∧ addrs T = l ∧ (2 ^ (height T / 2) ≤ length l + 1)%nat.
Proof.
  intros (T & Hin & Hrb & <-). exists T. split_and!; [done..|]. by apply rbtree_log_height.
Qed.

(** ** The contract on a concrete tree *)

(** Three nodes in a tree and a fourth one outside. *)
Definition demo_tree : tree := Node Black (Node Red Leaf 32 Leaf) 16 (Node Red Leaf 48 Leaf).
Definition demo_state : rb_state :=
  St {[ 16 := RbNode 1 48 32; 32 := RbNode 16 0 0; 48 := RbNode 16 0 0; 64 := RbNode 0 0 0 ]} 16.

Lemma demo_in : tree_in demo_state demo_tree.
Proof.
  split; [done|..].
  - by repeat split.
  - apply (bool_decide_unpack _). by vm_compute.
  - by repeat constructor.
Qed.

Lemma demo_rb : rbtree demo_tree.
Proof. exists 1%nat. unfold demo_tree. eauto with rb. Qed.

Lemma demo_holds : rb_holds demo_state [32; 16; 48].
Proof. exists demo_tree. split_and!; [apply demo_in|apply demo_rb|done]. Qed.

Lemma demo_spare : spare demo_state demo_tree 64.
Proof.
  split_and!; [by eexists|done|].
  apply (bool_decide_unpack _). by vm_compute.
Qed.

(** 64 becomes the right child of 48. *)
Definition demo_ctx : ctx := [F R Red 48 Leaf; F R Black 16 (Node Red Leaf 32 Leaf)].

Lemma rb_insert_spec_witness :
  wp (rb_link_node 64 48 (LinkRight 48);; rb_insert_color 64) demo_state (λ _ s',
    rb_holds s' [32; 16; 48; 64] ∧ frame_out [64; 32; 16; 48] demo_state s').
Proof. exact (rb_insert_spec demo_state demo_ctx 64 demo_in demo_rb demo_spare). Defined.

Lemma rb_erase_spec_witness :
  wp (rb_erase 16) demo_state (λ _ s',
    rb_holds s' [32; 48] ∧ frame_out [32; 16; 48] demo_state s').
Proof. exact (rb_erase_spec demo_state [32] 16 [48] demo_holds). Defined.

Lemma rb_walk_spec_witness :
  wp (rb_next 16) demo_state (λ b s', s' = demo_state ∧ b = 48).
Proof.
  destruct (rb_walk_spec demo_state [32; 16; 48] demo_holds) as (_ & _ & H).
  exact (proj1 (H [32] 16 [48] eq_refl)).
Defined.

Lemma rb_replace_node_spec_witness :
  wp (rb_replace_node 32 64) demo_state (λ _ s',
    rb_holds s' [64; 16; 48] ∧ frame_out [64; 32; 16; 48] demo_state s').
Proof.
  apply (rb_replace_node_spec demo_state [] 32 [16; 48] 64 demo_holds).
  - by eexists.
  - done.
  - apply (bool_decide_unpack _). by vm_compute.
Defined.

Lemma rb_height_spec_witness :
  ∃ T, tree_in demo_state T ∧ addrs T = [32; 16; 48] ∧ (2 ^ (height T / 2) ≤ 3 + 1)%nat.
Proof. exact (rb_height_spec demo_state [32; 16; 48] demo_holds). Defined.
