(* ===== verification/ExRbTree.v ===== *)
(** * tree/rbtree: the example client ex-rbtree.c

    A set of [struct data_type] objects indexed by [id], kept in the red-black
    tree.  The state adds to the tree the [data_content] pointers of the nodes,
    the [id]s of the data objects and the numbers printed.  [calloc] is a
    parameter: it gives the null pointer or the address of a fresh object. *)
From stdpp Require Import sorting.
From S2P Require Import Prelude PtrTree RbSpec RbTree RbTreeFacts RbTreeUnlink RbTreeWalk RbTreeProps.

(** ** The program *)

(** [my_node] is the first member of [struct node_type]: [container_of] does not
    change the address.  Standard output is what the [printf]s were given. *)
Inductive print := PrintId (id : Z) | PrintNewline | PrintNotFound (id : Z).

Record ex_state := Ex {
  ex_rb : rb_state;
  ex_content : gmap Z Z;
  ex_id : gmap Z Z;
  ex_out : list print;
}.
Abbreviation EX := (M ex_state).

Definition on_rb {A} (m : RB A) : EX A := λ s,
  match m (ex_rb s) with
  | Ok (a, r) => Ok (a, Ex r (ex_content s) (ex_id s) (ex_out s))
  | UB => UB
  | NoFuel => NoFuel
  end.

Definition data_content (a : Z) : EX Z := λ s,
  match ex_content s !! a with Some d => Ok (d, s) | None => UB end.
Definition id (d : Z) : EX Z := λ s,
  match ex_id s !! d with Some i => Ok (i, s) | None => UB end.
Definition set_data_content (a d : Z) : EX unit := λ s,
  match ex_content s !! a with
  | Some _ => Ok ((), Ex (ex_rb s) (<[a:=d]> (ex_content s)) (ex_id s) (ex_out s))
  | None => UB
  end.
Definition print_out (p : print) : EX unit := λ s,
  Ok ((), Ex (ex_rb s) (ex_content s) (ex_id s) (ex_out s ++ [p])).

(** [free(data->data_content)] and [free(data)]. *)
Definition free_data (d : Z) : EX unit := λ s,
  if decide (d = 0) then Ok ((), s) else
  match ex_id s !! d with
  | Some _ => Ok ((), Ex (ex_rb s) (ex_content s) (delete d (ex_id s)) (ex_out s))
  | None => UB
  end.
Definition free_node (a : Z) : EX unit := λ s,
  if decide (a = 0) then Ok ((), s) else
  match mem (ex_rb s) !! a, ex_content s !! a with
  | Some _, Some _ =>
      Ok ((), Ex (St (delete a (mem (ex_rb s))) (env (ex_rb s)))
                 (delete a (ex_content s)) (ex_id s) (ex_out s))
  | _, _ => UB
  end.

Definition rbtree_init : Z := 0.

Section client.
Context (calloc : ex_state → Z).

(** [calloc(1, sizeof(struct node_type))]: a zeroed object, when there is one. *)
Definition calloc_node : EX Z := λ s,
  let a := calloc s in
  if decide (a = 0) then Ok (0, s)
  else Ok (a, Ex (St (<[a := RbNode 0 0 0]> (mem (ex_rb s))) (env (ex_rb s)))
                 (<[a := 0]> (ex_content s)) (ex_id s) (ex_out s)).

Definition rbtree_search (data : Z) : EX Z :=
  root ← on_rb get_root;
  fuel ← on_rb rounds;
  loop fuel (λ node,
    if node =? 0 then mret (inr 0) else
    x ← id data;
    d ← data_content node;
    y ← id d;
    if x <? y then left ← on_rb (get_left node); mret (inl left)
    else if x >? y then right ← on_rb (get_right node); mret (inl right)
    else mret (inr node)) root.

Definition rbtree_insert (data_content' : Z) : EX Z :=
  data ← calloc_node;
  set_data_content data data_content';;
  fuel ← on_rb rounds;
  r ← loop fuel (λ '(tmp, parent),
    thiz ← on_rb (read_link tmp);
    if thiz =? 0 then mret (inr (Some (tmp, parent))) else
    d ← data_content data;
    x ← id d;
    d' ← data_content thiz;
    y ← id d';
    if x <? y then mret (inl (LinkLeft thiz, thiz))
    else if x >? y then mret (inl (LinkRight thiz, thiz))
    else mret (inr None)) (LinkRoot, 0);
  match r with
  | Some (tmp, parent) =>
      on_rb (rb_link_node data parent tmp);;
      on_rb (rb_insert_color data);;
      mret 0
  | None => mret (-1)
  end.

Definition rbtree_delete (data_content' : Z) : EX unit :=
  data ← rbtree_search data_content';
  if data =? 0 then
    i ← id data_content';
    print_out (PrintNotFound i)
  else
    on_rb (rb_erase data);;
    d ← data_content data;
    free_data d;;
    free_node data.

Definition print_rbtree : EX unit :=
  node0 ← on_rb rb_first;
  fuel ← on_rb rounds;
  loop fuel (λ node,
    if node =? 0 then mret (inr ()) else
    d ← data_content node;
    i ← id d;
    print_out (PrintId i);;
    next ← on_rb (rb_next node);
    mret (inl next)) node0;;
  print_out PrintNewline.
End client.

(** ** Looking a key up *)

Section descend.
Context (key : Z → Z) (i : Z).

(** Where the search for the key [i] ends. *)
Fixpoint descend (t : tree) (k : ctx) : ctx * tree :=
  match t with
  | Leaf => (k, Leaf)
  | Node c l a r =>
      if i <? key a then descend l (F L c a r :: k)
      else if key a <? i then descend r (F R c a l :: k)
      else (k, t)
  end.

Definition bst (l : list Z) : Prop := StronglySorted (λ a b, key a < key b) l.

Lemma bst_split l1 a l2 :
  bst (l1 ++ a :: l2) → Forall (λ x, key x < key a) l1 ∧ Forall (λ x, key a < key x) l2.
Proof.
  intros H. split.
  - apply Forall_forall. intros x Hx.
    apply (StronglySorted_app_1_elem_of (λ a b, key a < key b) l1 (a :: l2)); [exact H|done|by left].
  - apply StronglySorted_app_1_r in H. by apply StronglySorted_inv in H as [_ ?].
Qed.

Lemma descend_spec t k k' t' :
  bst (addrs (plug k t)) →
  Forall (λ x, key x < i) (kbefore k) → Forall (λ x, i < key x) (kafter k) →
  descend t k = (k', t') →
  plug k t = plug k' t' ∧
  Forall (λ x, key x < i) (kbefore k') ∧ Forall (λ x, i < key x) (kafter k') ∧
  match t' with Leaf => True | Node _ _ a _ => key a = i end.
Proof.
  revert k. induction t as [|c l IHl a r IHr]; intros k Hs Hb Ha; simpl.
  { intros [= <- <-]. done. }
  pose proof Hs as Hs'. rewrite addrs_plug in Hs'. simpl in Hs'.
  rewrite <-(assoc_L (++)), (assoc_L (++) (kbefore k)) in Hs'. simpl in Hs'.
  apply bst_split in Hs' as [H1 H2]. apply Forall_app in H1 as [_ H1].
  apply Forall_app in H2 as [H2 _].
  destruct (Z.ltb_spec i (key a)).
  - intros H'. apply (IHl (F L c a r :: k)); [exact Hs|done| |exact H']. simpl.
    rewrite Forall_cons, Forall_app. split_and!; [done| |done].
    eapply Forall_impl; [exact H2|]. simpl. lia.
  - destruct (Z.ltb_spec (key a) i).
    + intros H'. apply (IHr (F R c a l :: k)); [exact Hs| |done|exact H']. simpl.
      rewrite !Forall_app, Forall_singleton. split_and!; [done| |done].
      eapply Forall_impl; [exact H1|]. simpl. lia.
    + intros [= <- <-]. split_and!; [done..|lia].
Qed.
End descend.

(** ** The contents *)

Record entry := Entry { e_node : Z; e_data : Z; e_id : Z }.

(** The tree holds the entries [l], in the order of their [id]s. *)
Record ex_holds (s : ex_state) (l : list entry) : Prop := {
  eh_rb : rb_holds (ex_rb s) (e_node <$> l);
  eh_link : ∀ e, e ∈ l → ex_content s !! e_node e = Some (e_data e) ∧
    ex_id s !! e_data e = Some (e_id e) ∧ e_data e ≠ 0;
  eh_sorted : StronglySorted (λ e e', e_id e < e_id e') l;
  eh_data : NoDup (e_data <$> l);
}.

(** The [id] of the data of a node. *)
Definition key (s : ex_state) (a : Z) : Z :=
  default 0 (ex_content s !! a ≫= λ d, ex_id s !! d).

Lemma eh_key s l e : ex_holds s l → e ∈ l → key s (e_node e) = e_id e.
Proof. intros H (H1 & H2 & _)%(eh_link _ _ H). unfold key. by rewrite H1; simpl; rewrite H2. Qed.

Lemma eh_bst s l : ex_holds s l → bst (key s) (e_node <$> l).
Proof.
  intros H. assert (∀ e, e ∈ l → key s (e_node e) = e_id e) as Hk by (intros; by eapply eh_key).
  pose proof (eh_sorted _ _ H) as Hs. clear H. unfold bst.
  induction l as [|e l IH]; [constructor|]. apply StronglySorted_inv in Hs as [Hs He]. simpl.
  constructor.
  - apply IH; [|done]. intros x Hx. apply Hk. by right.
  - rewrite Forall_fmap. rewrite Forall_forall in He. apply Forall_forall. intros x Hx. simpl.
    rewrite !Hk; [by apply He|by right|by left].
Qed.

Lemma eh_keyed s l a :
  ex_holds s l → a ∈ e_node <$> l →
  ∃ d, ex_content s !! a = Some d ∧ ex_id s !! d = Some (key s a).
Proof.
  intros H (e & -> & He)%list_elem_of_fmap. exists (e_data e).
  erewrite eh_key by done. destruct (eh_link _ _ H e He) as (? & ? & ?). done.
Qed.

(** ** Running the tree operations *)

Lemma wp_on_rb {A} (m : RB A) s (Q : A → ex_state → Prop) :
  wp m (ex_rb s) (λ a r, Q a (Ex r (ex_content s) (ex_id s) (ex_out s))) → wp (on_rb m) s Q.
Proof. unfold wp, on_rb. by destruct (m (ex_rb s)) as [[a r]| |]. Qed.

(** An operation that leaves the tree alone. *)
Lemma wp_on_rb_ro {A} (m : RB A) s (Q : A → ex_state → Prop) :
  wp m (ex_rb s) (λ a r, r = ex_rb s ∧ Q a s) → wp (on_rb m) s Q.
Proof.
  intros H. apply wp_on_rb. eapply wp_mono; [exact H|]. simpl. intros a r [-> ?]. by destruct s.
Qed.

Lemma wp_data_content s a d (Q : Z → ex_state → Prop) :
  ex_content s !! a = Some d → Q d s → wp (data_content a) s Q.
Proof. intros H ?. unfold wp, data_content. by rewrite H. Qed.
Lemma wp_id s d i (Q : Z → ex_state → Prop) :
  ex_id s !! d = Some i → Q i s → wp (id d) s Q.
Proof. intros H ?. unfold wp, id. by rewrite H. Qed.

Lemma wp_ex_rounds s (Q : nat → ex_state → Prop) :
  Q (2 + size (mem (ex_rb s)))%nat s → wp (on_rb rounds) s Q.
Proof. intros H. apply wp_on_rb_ro. unfold rounds. by apply wp_bind, wp_get, wp_ret. Qed.

(** The tree at a node on the way of a search. *)
Record at_node (s : ex_state) (T : tree) (k : ctx) (c : color) (l : tree) (a : Z) (r : tree) : Prop := {
  an_child d : shape (ex_rb s) !! a = Some (mkcell d (cpar 0 k) (colZ c)
    (rootp 0 (child d (Node c l a r))) (rootp 0 (child (opp d) (Node c l a r))));
  an_nonzero : a ≠ 0;
  an_keyed : ∃ d, ex_content s !! a = Some d ∧ ex_id s !! d = Some (key s a);
}.

Definition all_keyed (s : ex_state) (T : tree) : Prop :=
  ∀ x, x ∈ addrs T → ∃ d, ex_content s !! x = Some d ∧ ex_id s !! d = Some (key s x).

Lemma at_node_intro s T k c l a r :
  tree_in (ex_rb s) T → all_keyed s T → plug k (Node c l a r) = T → at_node s T k c l a r.
Proof.
  intros Hin Hk <-. split.
  - intros d. rewrite (node_mkn d c l a r) in Hin. by apply it_lookup in Hin.
  - by eapply node_addr_nonzero, it_okp_rootp.
  - apply Hk. rewrite addrs_plug_perm. simpl. clear. set_solver.
Qed.

(** ** Search *)

Lemma wp_search_descend s T d i k' t' (Q : Z → ex_state → Prop) :
  tree_in (ex_rb s) T → all_keyed s T → ex_id s !! d = Some i →
  descend (key s) i T [] = (k', t') → Q (rootp 0 t') s →
  wp (rbtree_search d) s Q.
Proof.
  intros Hin Hkey Hd Hdesc HQ. unfold rbtree_search.
  apply wp_bind. apply wp_on_rb_ro. apply wp_get_env. split; [done|].
  apply wp_bind, wp_ex_rounds.
  eapply (wp_loop (λ n node s', s' = s ∧ ∃ k t, node = rootp 0 t ∧ plug k t = T ∧
            descend (key s) i t k = (k', t') ∧ (length (addrs t) ≤ n)%nat))
    with (n := length (addrs T)).
  2: { split; [done|]. exists [], T. rewrite (it_root _ _ _ _ _ _ Hin). auto. }
  2: { pose proof (tree_in_size _ _ Hin). lia. }
  intros n node s' (-> & k & t & -> & Hpl & Hde & Hn).
  destruct t as [|c l a r]; simpl in Hde |- *.
  { apply wp_ret. injection Hde as <- <-. done. }
  destruct (at_node_intro s T k c l a r Hin Hkey Hpl) as [Hch Ha0 (da & Hda & Hia)].
  destruct (Z.eqb_spec a 0) as [|_]; [done|].
  apply wp_bind. eapply wp_id; [done|]. apply wp_bind. eapply wp_data_content; [done|].
  apply wp_bind. eapply wp_id; [done|]. simpl in Hn. rewrite length_app in Hn. simpl in Hn.
  destruct (Z.ltb_spec i (key s a)).
  - apply wp_bind. apply wp_on_rb_ro. eapply (wp_get_child L); [apply (Hch L)|]. split; [done|].
    apply wp_ret. exists (length (addrs l)). split; [lia|]. split; [done|].
    by exists (F L c a r :: k), l.
  - rewrite Z.gtb_ltb. destruct (Z.ltb_spec (key s a) i).
    + apply wp_bind. apply wp_on_rb_ro. eapply (wp_get_child R); [apply (Hch R)|]. split; [done|].
      apply wp_ret. exists (length (addrs r)). split; [lia|]. split; [done|].
      by exists (F R c a l :: k), r.
    + apply wp_ret. injection Hde as <- <-. done.
Qed.

(** What a search for [i] finds in the entries. *)
Definition found (l : list entry) (i a : Z) : Prop :=
  (∃ pre e post, l = pre ++ e :: post ∧ e_id e = i ∧ a = e_node e) ∨
  (a = 0 ∧ ∀ e, e ∈ l → e_id e ≠ i).

Lemma fmap_zipper (l : list entry) pre a post :
  e_node <$> l = pre ++ a :: post → ∃ l1 e l2,
    l = l1 ++ e :: l2 ∧ pre = e_node <$> l1 ∧ a = e_node e ∧ post = e_node <$> l2.
Proof.
  intros H. apply fmap_app_inv in H as (l1 & l2 & -> & H2 & ->).
  destruct l2 as [|e l2]; [done|]. injection H2 as -> ->. by exists l1, e, l2.
Qed.

Lemma wp_search s l d i (Q : Z → ex_state → Prop) :
  ex_holds s l → ex_id s !! d = Some i → (∀ a, found l i a → Q a s) →
  wp (rbtree_search d) s Q.
Proof.
  intros H Hd HQ. destruct (eh_rb _ _ H) as (T & Hin & Hrb & HT).
  assert (all_keyed s T) as Hkey.
  { intros x Hx. rewrite HT in Hx. by eapply eh_keyed. }
  destruct (descend (key s) i T []) as [k' t'] eqn:Hde.
  eapply wp_search_descend; [done..|]. apply HQ.
  apply descend_spec in Hde as (Hpl & Hb & Ha & Ht); [|simpl; rewrite HT; by eapply eh_bst|done..].
  simpl in Hpl. rewrite Hpl, addrs_plug in HT. destruct t' as [|c l' a r]; simpl.
  - right. split; [done|]. intros e He Heq.
    assert (e_node e ∈ kbefore k' ++ kafter k') as Hx.
    { simpl in HT. rewrite HT. by apply list_elem_of_fmap_2. }
    pose proof (eh_key _ _ _ H He) as Hk. rewrite Forall_forall in Hb, Ha. simpl in Hx.
    apply elem_of_app in Hx as [Hx|Hx]; [apply Hb in Hx|apply Ha in Hx]; lia.
  - left. simpl in HT. symmetry in HT. rewrite <-!(assoc_L (++)) in HT. simpl in HT.
    rewrite (assoc_L (++)) in HT.
    apply fmap_zipper in HT as (l1 & e & l2 & -> & _ & -> & _). exists l1, e, l2.
    split_and!; [done| |done]. rewrite <-Ht. symmetry. eapply eh_key; [done|].
    clear. set_solver.
Qed.

(** ** Deletion *)

Lemma rb_holds_frame s s' l :
  rb_holds s l → env s' = env s → (∀ a, a ∈ l → mem s' !! a = mem s !! a) → rb_holds s' l.
Proof.
  intros (T & Hin & Hrb & <-) He Hm. exists T. split_and!; [|done..]. unfold tree_in. rewrite He.
  eapply is_tree_frame; [exact Hin|]. intros a Ha. unfold shape. rewrite !lookup_fmap.
  by rewrite Hm.
Qed.

Lemma rb_holds_nodup s l : rb_holds s l → NoDup l ∧ Forall node_addr l.
Proof. intros (T & [] & _ & <-). done. Qed.

Lemma rb_holds_live s l a : rb_holds s l → a ∈ l → is_Some (mem s !! a).
Proof.
  intros (T & [_ Hr _ _] & _ & <-) Ha. apply (rep_lookup _ _ _ _ _ Hr) in Ha as [c Hc].
  apply shape_lookup in Hc as (n & ? & _). eauto.
Qed.

Lemma nodup_mid {A} (l1 l2 : list A) x : NoDup (l1 ++ x :: l2) → NoDup (l1 ++ l2) ∧ x ∉ l1 ++ l2.
Proof. rewrite <-Permutation_middle, NoDup_cons. tauto. Qed.

Lemma sorted_mid l1 e l2 :
  StronglySorted (λ e e', e_id e < e_id e') (l1 ++ e :: l2) →
  StronglySorted (λ e e', e_id e < e_id e') (l1 ++ l2).
Proof.
  induction l1 as [|x l1 IH]; simpl; intros [Hs Hx]%StronglySorted_inv; [done|].
  constructor; [by apply IH|]. rewrite Forall_app, Forall_cons in *. tauto.
Qed.

(** The two [free]s after [rb_erase]. *)
Lemma wp_free_entry s pre e post :
  rb_holds (ex_rb s) ((e_node <$> pre) ++ (e_node <$> post)) →
  is_Some (mem (ex_rb s) !! e_node e) → e_node e ≠ 0 →
  (∀ x, x ∈ pre ++ e :: post → ex_content s !! e_node x = Some (e_data x) ∧
     ex_id s !! e_data x = Some (e_id x) ∧ e_data x ≠ 0) →
  StronglySorted (λ e e', e_id e < e_id e') (pre ++ e :: post) →
  NoDup (e_data <$> pre ++ e :: post) → NoDup (e_node <$> pre ++ e :: post) →
  wp (d ← data_content (e_node e); free_data d;; free_node (e_node e)) s
    (λ _ s', ex_holds s' (pre ++ post) ∧ ex_out s' = ex_out s ∧
       mem (ex_rb s') !! e_node e = None ∧ ex_id s' !! e_data e = None).
Proof.
  intros Hrb [n Hn] Hne Hl Hs Hd Hno.
  assert (e ∈ pre ++ e :: post) as He by (rewrite elem_of_app, elem_of_cons; auto).
  destruct (Hl e He) as (Hc & Hi & Hd0).
  apply wp_bind. eapply wp_data_content; [done|].
  rewrite fmap_app in Hd, Hno. simpl in Hd, Hno.
  apply nodup_mid in Hd as [Hd Hde]. apply nodup_mid in Hno as [_ Hno].
  apply wp_bind. unfold wp at 1, free_data. rewrite decide_False, Hi by done.
  unfold wp at 1, free_node. simpl. rewrite decide_False, Hn, Hc by done.
  simpl. split_and!; [|done|by rewrite lookup_delete_eq|by rewrite lookup_delete_eq].
  split; simpl.
  - rewrite fmap_app. eapply rb_holds_frame; [exact Hrb|done|]. simpl. intros a Ha.
    rewrite lookup_delete_ne; [done|]. by intros <-.
  - intros x Hx. destruct (Hl x) as (? & ? & ?).
    { clear -Hx. set_solver. }
    assert (e_node x ≠ e_node e ∧ e_data x ≠ e_data e) as [? ?].
    { split; intros Heq; [apply Hno|apply Hde]; rewrite <-fmap_app, <-Heq;
        by apply list_elem_of_fmap_2. }
    by rewrite !lookup_delete_ne.
  - by eapply sorted_mid.
  - by rewrite fmap_app.
Qed.

Lemma wp_delete s l d i :
  ex_holds s l → ex_id s !! d = Some i →
  wp (rbtree_delete d) s (λ _ s',
    (∃ pre e post, l = pre ++ e :: post ∧ e_id e = i ∧ ex_holds s' (pre ++ post) ∧
       ex_out s' = ex_out s ∧ mem (ex_rb s') !! e_node e = None ∧ ex_id s' !! e_data e = None) ∨
    ((∀ e, e ∈ l → e_id e ≠ i) ∧ s' = Ex (ex_rb s) (ex_content s) (ex_id s)
       (ex_out s ++ [PrintNotFound i]))).
Proof.
  intros H Hd. unfold rbtree_delete. apply wp_bind. eapply wp_search; [done..|].
  intros a [(pre & e & post & -> & He & ->)|[-> Hno]].
  - pose proof (eh_rb _ _ H) as Hrb. rewrite fmap_app in Hrb. simpl in Hrb.
    pose proof (rb_holds_nodup _ _ Hrb) as [Hnd Hok].
    assert (node_addr (e_node e)) as Hne.
    { apply Forall_app in Hok as [_ Hok]. by apply Forall_cons in Hok as [? _]. }
    apply node_addr_nonzero in Hne. destruct (Z.eqb_spec (e_node e) 0) as [|_]; [done|].
    apply wp_bind, wp_on_rb. eapply wp_mono; [eapply (wp_keeps _ _ _ _); by eapply wp_erase_at|].
    intros _ r [[Hrb' Hf] Hdom]. eapply wp_mono.
    { apply wp_free_entry with (pre := pre) (post := post); simpl; [exact Hrb'| |done|..].
      - apply elem_of_dom. rewrite Hdom. apply elem_of_dom. eapply rb_holds_live; [done|].
        clear. set_solver.
      - apply (eh_link _ _ H).
      - apply (eh_sorted _ _ H).
      - apply (eh_data _ _ H).
      - rewrite fmap_app. done. }
    simpl. intros _ s' (H1 & H2 & H3 & H4). left. eauto 10.
  - simpl. apply wp_bind. eapply wp_id; [done|]. right. split; [done|]. done.
Qed.

(** ** Insertion *)

(** What [calloc] is documented to give: the null pointer, or an address that
    suits a node and that no live object has. *)
Definition calloc_fresh (calloc : ex_state → Z) : Prop :=
  ∀ s, calloc s = 0 ∨ (node_addr (calloc s) ∧ mem (ex_rb s) !! calloc s = None ∧
                       ex_content s !! calloc s = None).

(** The search loop of [rbtree_insert], from the root, for the data of [data]. *)
Definition insert_pos (data : Z) : EX (option (rb_link * Z)) :=
  fuel ← on_rb rounds;
  loop fuel (λ '(tmp, parent),
    thiz ← on_rb (read_link tmp);
    if thiz =? 0 then mret (inr (Some (tmp, parent))) else
    d ← data_content data;
    x ← id d;
    d' ← data_content thiz;
    y ← id d';
    if x <? y then mret (inl (LinkLeft thiz, thiz))
    else if x >? y then mret (inl (LinkRight thiz, thiz))
    else mret (inr None)) (LinkRoot, 0).

Lemma klink_cons d c a s k :
  klink (F d c a s :: k) = match d with L => LinkLeft a | R => LinkRight a end.
Proof. by destruct d. Qed.

Lemma wp_read_klink s k t (Q : Z → rb_state → Prop) :
  tree_in s (plug k t) → Q (rootp 0 t) s → wp (read_link (klink k)) s Q.
Proof.
  intros Hin HQ. destruct k as [|[d c a sb] k].
  - apply wp_get_env. by rewrite (it_root _ _ _ _ _ _ Hin).
  - pose proof (it_lookup _ _ _ _ _ k d c t a sb Hin) as Ha. rewrite klink_cons.
    destruct d; [by eapply wp_get_left|by eapply wp_get_right].
Qed.

Lemma wp_insert_pos s T data d i k' t' (Q : option (rb_link * Z) → ex_state → Prop) :
  tree_in (ex_rb s) T → all_keyed s T →
  ex_content s !! data = Some d → ex_id s !! d = Some i →
  descend (key s) i T [] = (k', t') →
  Q (match t' with Leaf => Some (klink k', cpar 0 k') | _ => None end) s →
  wp (insert_pos data) s Q.
Proof.
  intros Hin Hkey Hd Hi Hdesc HQ. unfold insert_pos. apply wp_bind, wp_ex_rounds.
  eapply (wp_loop (λ n l s', s' = s ∧ ∃ k t, l = (klink k, cpar 0 k) ∧ plug k t = T ∧
            descend (key s) i t k = (k', t') ∧ (length (addrs t) ≤ n)%nat))
    with (n := length (addrs T)).
  2: { split; [done|]. by exists [], T. }
  2: { pose proof (tree_in_size _ _ Hin). lia. }
  intros n l s' (-> & k & t & -> & Hpl & Hde & Hn).
  apply wp_bind. apply wp_on_rb_ro. eapply wp_read_klink; [rewrite Hpl; exact Hin|]. split; [done|].
  destruct t as [|c l a r]; simpl in Hde |- *.
  { apply wp_ret. injection Hde as <- <-. done. }
  destruct (at_node_intro s T k c l a r Hin Hkey Hpl) as [Hch Ha0 (da & Hda & Hia)].
  destruct (Z.eqb_spec a 0) as [|_]; [done|].
  apply wp_bind. eapply wp_data_content; [done|]. apply wp_bind. eapply wp_id; [done|].
  apply wp_bind. eapply wp_data_content; [done|]. apply wp_bind. eapply wp_id; [done|].
  simpl in Hn. rewrite length_app in Hn. simpl in Hn.
  destruct (Z.ltb_spec i (key s a)).
  - apply wp_ret. exists (length (addrs l)). split; [lia|]. split; [done|].
    by exists (F L c a r :: k), l.
  - rewrite Z.gtb_ltb. destruct (Z.ltb_spec (key s a) i).
    + apply wp_ret. exists (length (addrs r)). split; [lia|]. split; [done|].
      by exists (F R c a l :: k), r.
    + apply wp_ret. injection Hde as <- <-. done.
Qed.

(** The outcome of an insertion of [d] with the key [i] at the node [p]. *)
Definition inserted (l : list entry) (p d i : Z) (r : Z) (s' : ex_state) : Prop :=
  (r = 0 ∧ ∃ l1 l2, l = l1 ++ l2 ∧ ex_holds s' (l1 ++ Entry p d i :: l2)) ∨
  (r = -1 ∧ (∃ e, e ∈ l ∧ e_id e = i) ∧ ex_holds s' l).

Lemma sorted_insert l1 e l2 :
  StronglySorted (λ e e', e_id e < e_id e') (l1 ++ l2) →
  Forall (λ x, e_id x < e_id e) l1 → Forall (λ x, e_id e < e_id x) l2 →
  StronglySorted (λ e e', e_id e < e_id e') (l1 ++ e :: l2).
Proof.
  induction l1 as [|x l1 IH]; simpl.
  - intros. by constructor.
  - intros [Hs Hx]%StronglySorted_inv [H1 H1']%Forall_cons H2. constructor; [by apply IH|].
    rewrite Forall_app, Forall_cons in *. split_and!; [tauto|done|tauto].
Qed.

(** The state in which the new node has been allocated and filled in. *)
Lemma ex_holds_alloc s l p d i :
  ex_holds s l → mem (ex_rb s) !! p = None → ex_content s !! p = None →
  ex_id s !! d = Some i →
  let s1 := Ex (St (<[p := RbNode 0 0 0]> (mem (ex_rb s))) (env (ex_rb s)))
               (<[p := d]> (ex_content s)) (ex_id s) (ex_out s) in
  ex_holds s1 l ∧ (∀ e, e ∈ l → e_node e ≠ p).
Proof.
  intros H Hp Hc Hi s1.
  assert (∀ e, e ∈ l → e_node e ≠ p) as Hne.
  { intros e He <-. destruct (eh_link _ _ H e He) as (? & _). congruence. }
  split; [|done]. split.
  - eapply rb_holds_frame; [by apply eh_rb|done|]. simpl. intros a (e & -> & He)%list_elem_of_fmap.
    rewrite lookup_insert_ne; [done|]. intros Heq. by eapply Hne.
  - intros e He. simpl. rewrite lookup_insert_ne by (intros Heq; by eapply Hne).
    by apply (eh_link _ _ H).
  - by apply (eh_sorted _ _ H).
  - by apply (eh_data _ _ H).
Qed.

Lemma wp_insert_new s1 l p d i k :
  ex_holds s1 l → (∀ e, e ∈ l → e_node e ≠ p) → node_addr p →
  is_Some (mem (ex_rb s1) !! p) → ex_content s1 !! p = Some d → ex_id s1 !! d = Some i →
  d ≠ 0 → d ∉ e_data <$> l →
  tree_in (ex_rb s1) (plug k Leaf) → rbtree (plug k Leaf) →
  addrs (plug k Leaf) = e_node <$> l →
  Forall (λ x, key s1 x < i) (kbefore k) → Forall (λ x, i < key s1 x) (kafter k) →
  wp (on_rb (rb_link_node p (cpar 0 k) (klink k));; on_rb (rb_insert_color p);; mret 0) s1
    (λ r s', inserted l p d i r s' ∧ ex_out s' = ex_out s1 ∧ ex_id s' = ex_id s1).
Proof.
  intros H Hne Hok Hlive Hc Hi Hd0 Hdn Hin Hrb Hl Hb Ha.
  assert (wp (rb_link_node p (cpar 0 k) (klink k);; rb_insert_color p) (ex_rb s1) (λ _ r,
    rb_holds r (kbefore k ++ p :: kafter k))) as Hw.
  { eapply wp_mono; [apply wp_insert_at; [done..|]|by intros _ r [? _]].
    split_and!; [done..|]. rewrite Hl. intros (e & -> & He)%list_elem_of_fmap. by eapply Hne. }
  rewrite addrs_plug in Hl. simpl in Hl. symmetry in Hl.
  apply fmap_app_inv in Hl as (l1 & l2 & Hl1 & Hl2 & ->). rewrite Hl1, Hl2 in *.
  apply wp_bind, wp_on_rb. unfold wp, mbind, M_bind in Hw |- *.
  destruct (rb_link_node p _ _ (ex_rb s1)) as [[[] r1]| |]; [|done..]. unfold on_rb. simpl.
  destruct (rb_insert_color p r1) as [[[] r2]| |]; [|done..].
  split; [|done]. left. split; [done|]. exists l1, l2. split; [done|].
  assert (∀ x, x ∈ l1 ++ Entry p d i :: l2 → x = Entry p d i ∨ x ∈ l1 ++ l2) as Hx.
  { clear. set_solver. }
  rewrite Forall_fmap in Hb, Ha. rewrite Forall_forall in Hb, Ha.
  split; simpl.
  - rewrite fmap_app. exact Hw.
  - intros e [->|He]%Hx; [done|]. by apply (eh_link _ _ H).
  - apply sorted_insert; [by apply (eh_sorted _ _ H)|..]; apply Forall_forall; intros x Hx'; simpl.
    + specialize (Hb x Hx'). simpl in Hb. erewrite eh_key in Hb; [done|done|]. clear -Hx'; set_solver.
    + specialize (Ha x Hx'). simpl in Ha. erewrite eh_key in Ha; [done|done|]. clear -Hx'; set_solver.
  - rewrite fmap_app in *. simpl. rewrite <-Permutation_middle. constructor; [done|].
    rewrite <-fmap_app. apply (eh_data _ _ H).
Qed.

Lemma wp_insert calloc s l d i :
  calloc_fresh calloc → calloc s ≠ 0 → ex_holds s l → ex_id s !! d = Some i →
  d ≠ 0 → d ∉ e_data <$> l →
  wp (rbtree_insert calloc d) s (λ r s',
    inserted l (calloc s) d i r s' ∧ ex_out s' = ex_out s ∧ ex_id s' = ex_id s).
Proof.
  intros Hfresh Hp0 H Hi Hd0 Hdn. destruct (Hfresh s) as [|(Hok & Hp & Hc)]; [done|].
  set (p := calloc s) in *.
  destruct (ex_holds_alloc s l p d i H Hp Hc Hi) as [H1 Hne].
  set (s1 := Ex _ _ _ _) in *.
  unfold rbtree_insert. apply wp_bind. unfold wp at 1, calloc_node. fold p. rewrite decide_False by done.
  apply wp_bind. unfold wp at 1, set_data_content. simpl. rewrite lookup_insert_eq. simpl.
  rewrite insert_insert_eq. fold s1.
  assert (ex_content s1 !! p = Some d) as Hc1 by apply lookup_insert_eq.
  destruct (eh_rb _ _ H1) as (T & Hin & Hrb & HT).
  assert (all_keyed s1 T) as Hkey.
  { intros x Hx. rewrite HT in Hx. by eapply eh_keyed. }
  destruct (descend (key s1) i T []) as [k' t'] eqn:Hde.
  change (wp (r ← insert_pos p; match r with
    | Some (tmp, parent) => on_rb (rb_link_node p parent tmp);; on_rb (rb_insert_color p);; mret 0
    | None => mret (-1) end) s1 (λ r s', inserted l p d i r s' ∧ ex_out s' = ex_out s ∧ ex_id s' = ex_id s)).
  apply wp_bind. eapply wp_insert_pos; [exact Hin|exact Hkey|exact Hc1|exact Hi|exact Hde|].
  apply descend_spec in Hde as (Hpl & Hb & Ha & Ht); [|simpl; rewrite HT; by eapply eh_bst|done..].
  simpl in Hpl. subst T. destruct t' as [|c l' a r].
  - apply (wp_insert_new s1 l p d i k'); try done. eexists. apply lookup_insert_eq.
  - apply wp_ret. split; [|done]. right. split; [done|]. split; [|done].
    rewrite addrs_plug in HT. simpl in HT. symmetry in HT. rewrite <-!(assoc_L (++)) in HT. simpl in HT.
    rewrite (assoc_L (++)) in HT.
    apply fmap_zipper in HT as (l1 & e & l2 & -> & _ & -> & _). exists e.
    assert (e ∈ l1 ++ e :: l2) as He by (clear; set_solver). split; [done|].
    rewrite <-Ht. symmetry. by eapply eh_key.
Qed.

(** [calloc] is not checked: without memory the null pointer is written to. *)
Lemma insert_oom calloc s d :
  calloc s = 0 → ex_content s !! 0 = None → rbtree_insert calloc d s = UB.
Proof.
  intros H Hc. unfold rbtree_insert, mbind, M_bind, calloc_node. rewrite H, decide_True by done.
  unfold set_data_content. by rewrite Hc.
Qed.

(** ** Printing *)

Lemma wp_print s l :
  ex_holds s l →
  wp print_rbtree s (λ _ s', s' = Ex (ex_rb s) (ex_content s) (ex_id s)
    (ex_out s ++ (PrintId ∘ e_id <$> l) ++ [PrintNewline])).
Proof.
  intros H. destruct (eh_rb _ _ H) as (T & Hin & Hrb & HT). unfold print_rbtree.
  apply wp_bind, wp_on_rb_ro. eapply wp_mono; [exact (wp_end _ T Hin L)|].
  intros a r [-> ->]. split; [done|]. apply wp_bind, wp_ex_rounds. apply wp_bind.
  eapply (wp_loop (λ n a s', s' = Ex (ex_rb s) (ex_content s) (ex_id s) (ex_out s') ∧ ∃ pre post,
            l = pre ++ post ∧ a = end_of L (e_node <$> post) ∧ n = length post ∧
            ex_out s' = ex_out s ++ (PrintId ∘ e_id <$> pre)))
    with (n := length l).
  2: { split; [by destruct s|]. exists [], l. rewrite HT. by rewrite app_nil_r. }
  2: { pose proof (tree_in_size _ _ Hin) as Hsz. rewrite HT, length_fmap in Hsz. lia. }
  intros n a s' (Hs' & pre & post & Hl & -> & -> & Hout).
  destruct post as [|e post]; simpl.
  { apply wp_ret. unfold wp, print_out. rewrite Hs', Hout. simpl. f_equal.
    rewrite Hl, app_nil_r. by rewrite <-(assoc_L (++)). }
  assert (e ∈ l) as He by (rewrite Hl; clear; set_solver).
  pose proof (rb_holds_nodup _ _ (eh_rb _ _ H)) as [_ Hok]. rewrite Forall_fmap, Forall_forall in Hok.
  pose proof (node_addr_nonzero _ (Hok e He)) as Hne. simpl in Hne. unfold end_of; simpl.
  destruct (Z.eqb_spec (e_node e) 0) as [|_]; [done|].
  destruct (eh_link _ _ H e He) as (Hc & Hi & _). rewrite Hs'.
  apply wp_bind. eapply wp_data_content; [done|]. apply wp_bind. eapply wp_id; [done|].
  apply wp_bind. unfold wp at 1, print_out. simpl. apply wp_bind, wp_on_rb. simpl.
  rewrite Hl, fmap_app in HT. simpl in HT. eapply wp_mono; [exact (wp_neighbour_at R _ T _ _ _ Hin HT)|].
  simpl. intros b r [-> ->]. apply wp_ret. exists (length post). split; [lia|]. split; [done|].
  exists (pre ++ [e]), post. split_and!; [by rewrite Hl, <-(assoc_L (++))|done|done|].
  rewrite Hout, fmap_app. simpl. by rewrite <-(assoc_L (++)).
Qed.

(** ** The contract of the client *)

(** [rbtree_search] terminates and returns the node of the entry with the
    given [id], or the null pointer when there is none, and changes nothing. *)
Theorem rbtree_search_spec s l d i :
  ex_holds s l → ex_id s !! d = Some i →
  wp (rbtree_search d) s (λ a s', s' = s ∧ found l i a).
Proof. intros. by eapply wp_search. Qed.

(** C37: with memory available, [rbtree_insert] of data with a new [id] returns 0
    and adds one entry at its place in the order; with an [id] that is present it
    returns -1 and the entries are the same. *)
Theorem rbtree_insert_spec calloc s l d i :
  calloc_fresh calloc → calloc s ≠ 0 → ex_holds s l → ex_id s !! d = Some i →
  d ≠ 0 → d ∉ e_data <$> l →
  wp (rbtree_insert calloc d) s (λ r s',
    inserted l (calloc s) d i r s' ∧ ex_out s' = ex_out s ∧ ex_id s' = ex_id s).
Proof. apply wp_insert. Qed.

(** [rbtree_delete] takes out the entry with the given [id] and frees its node
    and its data object, or prints that there is none and changes nothing else. *)
Theorem rbtree_delete_spec s l d i :
  ex_holds s l → ex_id s !! d = Some i →
  wp (rbtree_delete d) s (λ _ s',
    (∃ pre e post, l = pre ++ e :: post ∧ e_id e = i ∧ ex_holds s' (pre ++ post) ∧
       ex_out s' = ex_out s ∧ mem (ex_rb s') !! e_node e = None ∧ ex_id s' !! e_data e = None) ∨
    ((∀ e, e ∈ l → e_id e ≠ i) ∧ s' = Ex (ex_rb s) (ex_content s) (ex_id s)
       (ex_out s ++ [PrintNotFound i]))).
Proof. apply wp_delete. Qed.

(** [print_rbtree] prints the [id]s of the entries in increasing order. *)
Theorem print_rbtree_spec s l :
  ex_holds s l →
  wp print_rbtree s (λ _ s', s' = Ex (ex_rb s) (ex_content s) (ex_id s)
    (ex_out s ++ (PrintId ∘ e_id <$> l) ++ [PrintNewline])).
Proof. apply wp_print. Qed.

(** ** The contract on a concrete set *)

(** The set {5, 7, 9} in the tree of [demo_state], and data with the [id] 8. *)
Definition demo_ex : ex_state :=
  Ex demo_state {[ 16 := 160; 32 := 320; 48 := 480 ]}
     {[ 160 := 7; 320 := 5; 480 := 9; 640 := 8 ]} [].
Definition demo_entries : list entry := [Entry 32 320 5; Entry 16 160 7; Entry 48 480 9].

Lemma demo_ex_holds : ex_holds demo_ex demo_entries.
Proof.
  split.
  - exact demo_holds.
  - apply Forall_forall. by repeat constructor.
  - unfold demo_entries. repeat constructor.
  - apply (bool_decide_unpack _). by vm_compute.
Qed.

(** An allocator: the first multiple of 16 that no live object of the tree has. *)
Definition bump (s : ex_state) : Z :=
  let a := 16 * (1 + foldr Z.max 0 (elements (dom (mem (ex_rb s)) ∪ dom (ex_content s)))) in
  if a <? 2 ^ 64 then a else 0.

Lemma max_fold_nonneg l : 0 ≤ foldr Z.max 0 l.
Proof. induction l; simpl; lia. Qed.

Lemma bump_fresh : calloc_fresh bump.
Proof.
  intros s. unfold bump. set (l := elements _). pose proof (max_fold_nonneg l).
  destruct (Z.ltb_spec (16 * (1 + foldr Z.max 0 l)) (2 ^ 64)); [right|by left].
  assert (∀ x, x ∈ dom (mem (ex_rb s)) ∪ dom (ex_content s) → x ≠ 16 * (1 + foldr Z.max 0 l)) as Hx.
  { intros x Hx%elem_of_elements%max_fold_le. fold l in Hx. lia. }
  split_and!.
  - split; [lia|]. rewrite Z.mul_comm. change 16 with (4 * 4).
    rewrite Z.mul_assoc. by apply Z.mod_mul.
  - apply not_elem_of_dom. intros Hd. by apply (Hx _ (union_subseteq_l _ _ _ Hd)).
  - apply not_elem_of_dom. intros Hd. by apply (Hx _ (union_subseteq_r _ _ _ Hd)).
Qed.

Lemma rbtree_search_spec_witness :
  wp (rbtree_search 640) demo_ex (λ a s', s' = demo_ex ∧ found demo_entries 8 a).
Proof. by apply (rbtree_search_spec demo_ex demo_entries 640 8 demo_ex_holds). Defined.

Lemma rbtree_insert_spec_witness :
  wp (rbtree_insert bump 640) demo_ex (λ r s',
    inserted demo_entries (bump demo_ex) 640 8 r s' ∧ ex_out s' = [] ∧ ex_id s' = ex_id demo_ex).
Proof.
  apply (rbtree_insert_spec bump demo_ex demo_entries 640 8 bump_fresh).
  - by vm_compute.
  - exact demo_ex_holds.
  - done.
  - done.
  - apply (bool_decide_unpack _). by vm_compute.
Defined.

Lemma rbtree_delete_spec_witness :
  wp (rbtree_delete 160) demo_ex (λ _ s',
    (∃ pre e post, demo_entries = pre ++ e :: post ∧ e_id e = 7 ∧ ex_holds s' (pre ++ post) ∧
       ex_out s' = [] ∧ mem (ex_rb s') !! e_node e = None ∧ ex_id s' !! e_data e = None) ∨
    ((∀ e, e ∈ demo_entries → e_id e ≠ 7) ∧ s' = Ex demo_state (ex_content demo_ex) (ex_id demo_ex)
       [PrintNotFound 7])).
Proof. by apply (rbtree_delete_spec demo_ex demo_entries 160 7 demo_ex_holds). Defined.

Lemma print_rbtree_spec_witness :
  wp print_rbtree demo_ex (λ _ s', s' = Ex demo_state (ex_content demo_ex) (ex_id demo_ex)
    [PrintId 5; PrintId 7; PrintId 9; PrintNewline]).
Proof. exact (print_rbtree_spec demo_ex demo_entries demo_ex_holds). Defined.

(** The executable model agrees. *)
Example demo_insert_runs :
  match (rbtree_insert bump 640;; print_rbtree) demo_ex with
  | Ok (_, s) => ex_out s = [PrintId 5; PrintId 7; PrintId 8; PrintId 9; PrintNewline]
  | _ => False
  end.
Proof. by vm_compute. Qed.
