(* ===== verification/RadixTree.v ===== *)
(** * tree/radix-tree: the radix tree

    [radix-tree.h] and [radix-tree.c] on a flat memory of 64-bit words, because
    the program takes the addresses of slots for nodes: a pointer is a word, an
    [unsigned int] the half of one, on a 64-bit little-endian machine.  An index
    out of [height_to_maxindex] or of [path] is undefined behaviour, and so is
    freeing what [calloc] has not given. *)
From S2P Require Import Prelude.

(** ** Memory *)

(** What was printed, and the sizes in words of the blocks from [calloc]. *)
Record radix_env := REnv { r_out : list string; r_blocks : gmap Z nat }.
Abbreviation radix_state := (st Z radix_env).
Abbreviation RX := (M radix_state).

Definition printf (msg : string) : RX unit :=
  e ← get_env; put_env (REnv (r_out e ++ [msg]) (r_blocks e)).

(** An [unsigned int] at a multiple of 4. *)
Definition load4 (a : Z) : RX Z :=
  if a mod 8 =? 0 then w ← load a; mret (w mod 2 ^ 32)
  else if a mod 8 =? 4 then w ← load (a - 4); mret (w / 2 ^ 32) else ub.
Definition store4 (a v : Z) : RX unit :=
  if a mod 8 =? 0 then w ← load a; store a (w / 2 ^ 32 * 2 ^ 32 + v)
  else if a mod 8 =? 4 then w ← load (a - 4); store (a - 4) (v * 2 ^ 32 + w mod 2 ^ 32) else ub.

(** The words of a block. *)
Definition block (a : Z) (n : nat) : list Z := (λ i, a + 8 * Z.of_nat i) <$> seq 0 n.
Definition zero_words (l : list Z) (m : gmap Z Z) : gmap Z Z := foldr (λ a, <[a := 0]>) m l.
Definition drop_words (l : list Z) (m : gmap Z Z) : gmap Z Z := foldr delete m l.

(** [x >> s] on [unsigned int]: [s] must be less than the width. *)
Definition shr (x s : Z) : RX Z := assert (s <? 32);; mret (Z.shiftr x s).

Definition RADIX_TREE_MAP_SHIFT : Z := 3.
Definition RADIX_TREE_MAP_SIZE : Z := Z.shiftl 1 RADIX_TREE_MAP_SHIFT.
Definition RADIX_TREE_MAP_MASK : Z := RADIX_TREE_MAP_SIZE - 1.
Definition RADIX_TREE_INDEX_BITS : Z := 32.
Definition RADIX_TREE_MAX_PATH : Z := 4.

(** [struct radix_tree_node]: the count, then eight slots. *)
Definition node_count (node : Z) : Z := node.
Definition node_slots (node i : Z) : Z := node + 8 + 8 * i.

(** [struct radix_tree_head]: the height, the root, the table. *)
Definition head_height (head : Z) : Z := head.
Definition head_rnode (head : Z) : Z := head + 8.
Definition height_to_maxindex (head i : Z) : Z := head + 16 + 4 * i.

(** [head->height_to_maxindex[i]] within the array. *)
Definition load_maxindex (head i : Z) : RX Z :=
  assert (i <? RADIX_TREE_MAX_PATH);; load4 (height_to_maxindex head i).
Definition store_maxindex (head i v : Z) : RX unit :=
  assert (i <? RADIX_TREE_MAX_PATH);; store4 (height_to_maxindex head i) v.

Section radix.
Context (calloc : radix_state → Z).

(** [calloc] of [n] words. *)
Definition calloc_words (n : nat) : RX Z := λ s,
  let a := calloc s in
  if decide (a = 0) then Ok (0, s)
  else Ok (a, St (zero_words (block a n) (mem s)) (REnv (r_out (env s)) (<[a := n]> (r_blocks (env s))))).

Definition radix_tree_node_alloc : RX Z :=
  ret ← calloc_words 9;
  when (ret =? 0) (printf "calloc radix_tree_node failed");;
  mret ret.

Definition radix_tree_node_free (node : Z) : RX unit := λ s,
  if decide (node = 0) then Ok ((), s) else
  match r_blocks (env s) !! node with
  | Some n => Ok ((), St (drop_words (block node n) (mem s))
                         (REnv (r_out (env s)) (delete node (r_blocks (env s)))))
  | None => UB
  end.

(** ** The height *)

Definition radix_tree_maxindex (head : Z) : RX Z :=
  h ← load4 (head_height head); load_maxindex head h.

Definition __maxindex (height : Z) : RX Z :=
  let tmp := uint (height * RADIX_TREE_MAP_SHIFT) in
  x ← shr (uint (Z.lnot 0)) (ulong (RADIX_TREE_INDEX_BITS - tmp - 1));
  index ← shr x 1;
  mret (if tmp >=? RADIX_TREE_INDEX_BITS then uint (Z.lnot 0) else index).

Definition radix_tree_init_maxindex (head : Z) : RX unit :=
  loop 5 (λ i, if i <? RADIX_TREE_MAX_PATH
               then m ← __maxindex i; store_maxindex head i m;; mret (inl (i + 1))
               else mret (inr ())) 0.

(** The loop that looks for the height; the message does not end it. *)
Definition extend_height (head index height : Z) : RX Z :=
  loop 5 (λ height,
    m ← load_maxindex head height;
    if index >? m then
      when (height + 1 >? RADIX_TREE_MAX_PATH) (printf "index are out of the capacity of radix tree");;
      mret (inl (height + 1))
    else mret (inr height)) height.

Definition radix_tree_extend (head index : Z) : RX Z :=
  h ← load4 (head_height head);
  height ← extend_height head index (uint (h + 1));
  rnode ← load (head_rnode head);
  if negb (rnode =? 0) then
    loop (S (Z.to_nat height)) (λ _,
      node ← radix_tree_node_alloc;
      if node =? 0 then mret (inr 1) else
      r ← load (head_rnode head);
      store (node_slots node 0) r;;
      store4 (node_count node) 1;;
      store (head_rnode head) node;;
      h ← load4 (head_height head);
      store4 (head_height head) (uint (h + 1));;
      h ← load4 (head_height head);
      mret (if height >? h then inl () else inr 0)) ()
  else
    store4 (head_height head) height;;
    mret 0.

(** ** Insertion and lookup *)

Definition count_up (node : Z) : RX unit :=
  c ← load4 (node_count node); store4 (node_count node) (uint (c + 1)).

(** One level of the descent: the slot, the node above it, what is left of the
    height and the shift. *)
Definition insert_level (index : Z) (l : Z * Z * Z * Z) : RX (Z * Z * Z * Z + option (Z * Z)) :=
  let '(slot, node, height, shift) := l in
  if height >? 0 then
    v ← load slot;
    ok ← (if v =? 0 then
            tmp ← radix_tree_node_alloc;
            if tmp =? 0 then mret false else
            store slot tmp;;
            when (negb (node =? 0)) (count_up node);;
            mret true
          else mret true);
    if negb (ok : bool) then mret (inr None) else
    node' ← load slot;
    i ← shr index shift;
    mret (inl (node_slots node' (Z.land i RADIX_TREE_MAP_MASK), node',
               height - 1, uint (shift - RADIX_TREE_MAP_SHIFT)))
  else mret (inr (Some (slot, node))).

Definition radix_tree_insert (head index item : Z) : RX Z :=
  m ← radix_tree_maxindex head;
  m' ← (if index >? m then mret m else radix_tree_maxindex head);
  error ← (if (index >? m) || (m' =? 0) then radix_tree_extend head index else mret 0);
  if negb (error =? 0) then mret error else
  height ← load4 (head_height head);
  r ← loop (S (Z.to_nat height)) (insert_level index)
        (head_rnode head, 0, height, uint (uint (height - 1) * RADIX_TREE_MAP_SHIFT));
  match r with
  | None => mret 1
  | Some (slot, node) =>
      v ← load slot;
      if negb (v =? 0) then printf "slot have been occupied";; mret 1 else
      when (negb (node =? 0)) (count_up node);;
      store slot item;;
      mret 0
  end.

Definition radix_tree_lookup (head index : Z) : RX Z :=
  height ← load4 (head_height head);
  m ← radix_tree_maxindex head;
  if index >? m then printf "index are out of range";; mret 0 else
  loop (S (Z.to_nat height)) (λ '(slot, height, shift),
    if height >? 0 then
      v ← load slot;
      if v =? 0 then printf "index does not exist,its empty";; mret (inr 0) else
      v ← load slot;
      i ← shr index shift;
      mret (inl (node_slots v (Z.land i RADIX_TREE_MAP_MASK), height - 1,
                 uint (shift - RADIX_TREE_MAP_SHIFT)))
    else v ← load slot; mret (inr v))
    (head_rnode head, height, uint (uint (height - 1) * RADIX_TREE_MAP_SHIFT)).

(** ** Several items *)

(** [results[i] = v]. *)
Definition put_result (results : list Z) (i v : Z) : RX (list Z) :=
  assert (i <? Z.of_nat (length results));; mret (<[Z.to_nat i := v]> results).

(** The loop over a leaf; true when [max_items] have been found. *)
Definition leaf_scan (slot max_items offset j index nr_found : Z) (results : list Z)
    : RX (bool * Z * Z * list Z) :=
  loop 9 (λ '(j, index, nr_found, results),
    if j <? RADIX_TREE_MAP_SIZE then
      let index := uint (index + 1) in
      v ← load (node_slots slot j);
      if negb (v =? 0) then
        results ← put_result results (offset + nr_found) v;
        if nr_found + 1 =? max_items then mret (inr (true, 0, nr_found + 1, results))
        else mret (inl (j + 1, index, nr_found + 1, results))
      else mret (inl (j + 1, index, nr_found, results))
    else mret (inr (false, index, nr_found, results))) (j, index, nr_found, results).

(** The number found, the next index and the array; [offset] is where
    [results] starts in the caller's array. *)
Definition __lookup (head : Z) (results : list Z) (offset first_index max_items : Z)
    : RX (Z * Z * list Z) :=
  height ← load4 (head_height head);
  slot ← load (head_rnode head);
  loop (S (Z.to_nat height)) (λ '(slot, height, shift, index, nr_found, results),
    if height >? 0 then
      i ← shr index shift;
      let i := Z.land i RADIX_TREE_MAP_MASK in
      let height := height - 1 in
      bug ← (if negb (height =? 0) then v ← load (node_slots slot i); mret (v =? 0) else mret false);
      when (bug : bool) (printf "bug,please check!!");;
      '(out, index, nr_found, results) ←
        (if height =? 0 then leaf_scan slot max_items offset (Z.land index RADIX_TREE_MAP_MASK) index nr_found results
         else mret (false, index, nr_found, results));
      if (out : bool) then mret (inr (nr_found, index, results)) else
      v ← load (node_slots slot i);
      mret (inl (v, height, uint (shift - RADIX_TREE_MAP_SHIFT), index, nr_found, results))
    else mret (inr (nr_found, index, results)))
    (slot, height, uint (uint (height - 1) * RADIX_TREE_MAP_SHIFT), first_index, 0, results).

(** The number found and the array; at most [max_index / 8 + 1] leaves. *)
Definition radix_tree_gang_lookup (head : Z) (results : list Z) (first_index max_items : Z)
    : RX (Z * list Z) :=
  max_index ← radix_tree_maxindex head;
  rnode ← load (head_rnode head);
  if (rnode =? 0) || (max_index =? 0) then mret (0, results) else
  loop (S (S (Z.to_nat (max_index / 8)))) (λ '(cur_index, ret, results),
    if ret <? max_items then
      if cur_index >? max_index then mret (inr (ret, results)) else
      '(nr_found, next_index, results) ← __lookup head results ret cur_index (max_items - ret);
      let ret := ret + nr_found in
      if next_index =? 0 then mret (inr (ret, results))
      else mret (inl (next_index, ret, results))
    else mret (inr (ret, results))) (first_index, 0, results).

(** ** Deletion *)

(** [path[0]] to [path[pathp]] in reverse: the node and the slot of each entry;
    the array has [RADIX_TREE_MAX_PATH] entries. *)
Definition push_path (path : list (Z * Z)) (e : Z * Z) : RX (list (Z * Z)) :=
  assert (Z.of_nat (length path) <? RADIX_TREE_MAX_PATH);; mret (e :: path).

(** Down: the node of an entry is the slot of the one before, not what the slot
    holds. [None] is the jump to [out]. *)
Definition delete_down (index : Z) (path : list (Z * Z)) (height shift : Z) : RX (option (list (Z * Z))) :=
  loop (S (Z.to_nat height)) (λ '(path, height, shift),
    if negb (height =? 0) then
      match path with
      | [] => ub
      | (_, slot) :: _ =>
          if slot =? 0 then printf "bug, please check your input";; mret (inr None) else
          i ← shr index shift;
          path ← push_path path (slot, node_slots slot (Z.land i RADIX_TREE_MAP_MASK));
          mret (inl (path, height - 1, uint (shift - RADIX_TREE_MAP_SHIFT)))
      end
    else mret (inr (Some path))) (path, height, shift).

(** Up: [path[0].slot = NULL] changes the local array only. *)
Definition delete_up (path : list (Z * Z)) : RX unit :=
  loop (S (length path)) (λ path,
    match path with
    | [] => ub
    | (node, _) :: above =>
        if node =? 0 then mret (inr ()) else
        c ← load4 (node_count node);
        let c := uint (c - 1) in
        store4 (node_count node) c;;
        if c =? 0 then radix_tree_node_free node;; mret (inl above) else mret (inr ())
    end) path.

Definition radix_tree_delete (head index : Z) : RX Z :=
  height ← load4 (head_height head);
  m ← radix_tree_maxindex head;
  if index >? m then mret 0 else
  r ← delete_down index [(0, head_rnode head)] height (uint (uint (height - 1) * RADIX_TREE_MAP_SHIFT));
  match r with
  | None => mret 0
  | Some path =>
      let ret := match path with (_, slot) :: _ => slot | [] => 0 end in
      if ret =? 0 then printf "bug, please check your input";; mret ret else
      delete_up path;;
      rnode ← load (head_rnode head);
      when (rnode =? 0) (printf "radix tree emtpy now";; store4 (head_height head) 0);;
      mret ret
  end.

(** ** The head *)

Definition radix_tree_head_new : RX Z :=
  head ← calloc_words 4;
  when (head =? 0) (printf "calloc radix_tree_node failed");;
  mret head.

Definition radix_tree_initial (head : Z) : RX unit := radix_tree_init_maxindex head.

Definition radix_tree_destroy (head : Z) : RX Z :=
  printf "why I should write this function?, is it useful?!!!!";; mret 0.

End radix.
