(* ===== verification/RadixFacts.v ===== *)
(** * tree/radix-tree: the tree behind the words

    The keys of a radix tree as a finite map from places to words: the place
    [(0, k)] is the item with index [k], the place [(S l, p)] the node that
    covers the indices from [p * 8^(l+1)] on. *)
From S2P Require Import Prelude RadixTree.

(** Quotients and remainders by constants are in the reach of [lia] here. *)
Ltac Zify.zify_post_hook ::= Z.div_mod_to_equations.

(** ** Words and halves *)

Section words.
Context (s : radix_state).

Lemma wp_load4_low a w (Q : Z → radix_state → Prop) :
  a mod 8 = 0 → mem s !! a = Some w → Q (w mod 2 ^ 32) s → wp (load4 a) s Q.
Proof.
  intros Ha Hw HQ. unfold load4. rewrite Ha. cbn [Z.eqb]. apply wp_bind. by eapply wp_load.
Qed.

Lemma wp_load4_high a w (Q : Z → radix_state → Prop) :
  a mod 8 = 4 → mem s !! (a - 4) = Some w → Q (w / 2 ^ 32) s → wp (load4 a) s Q.
Proof.
  intros Ha Hw HQ. unfold load4. rewrite Ha. cbn [Z.eqb Pos.eqb]. apply wp_bind. by eapply wp_load.
Qed.

Lemma wp_store4_low a w v (Q : unit → radix_state → Prop) :
  a mod 8 = 0 → mem s !! a = Some w →
  Q () (St (<[a := w / 2 ^ 32 * 2 ^ 32 + v]> (mem s)) (env s)) → wp (store4 a v) s Q.
Proof.
  intros Ha Hw HQ. unfold store4. rewrite Ha. cbn [Z.eqb]. apply wp_bind. eapply wp_load; [done|].
  by eapply wp_store.
Qed.

Lemma wp_store4_high a w v (Q : unit → radix_state → Prop) :
  a mod 8 = 4 → mem s !! (a - 4) = Some w →
  Q () (St (<[a - 4 := v * 2 ^ 32 + w mod 2 ^ 32]> (mem s)) (env s)) → wp (store4 a v) s Q.
Proof.
  intros Ha Hw HQ. unfold store4. rewrite Ha. cbn [Z.eqb Pos.eqb]. apply wp_bind. eapply wp_load; [done|].
  by eapply wp_store.
Qed.

Lemma wp_shr x n (Q : Z → radix_state → Prop) :
  n < 32 → 0 ≤ n → Q (x / 2 ^ n) s → wp (shr x n) s Q.
Proof.
  intros Hn H0 HQ. apply wp_bind, wp_assert; [by apply Z.ltb_lt|]. apply wp_ret.
  by rewrite Z.shiftr_div_pow2.
Qed.
End words.

(** The same memory; only messages have been added. *)
Definition quiet (s s' : radix_state) : Prop :=
  mem s' = mem s ∧ r_blocks (env s') = r_blocks (env s).

#[export] Instance quiet_refl : Reflexive quiet.
Proof. by split. Qed.
#[export] Instance quiet_trans : Transitive quiet.
Proof. intros s1 s2 s3 [??] [??]. split; congruence. Qed.

Lemma wp_printf msg s (Q : unit → radix_state → Prop) :
  (∀ s', quiet s s' → Q () s') → wp (printf msg) s Q.
Proof. intros HQ. apply wp_bind, wp_get_env, wp_put_env, HQ. by split. Qed.

(** ** The representation *)

Abbreviation places := (gmap (nat * Z) Z).

(** The nonempty slots of the node at [(S l, p)]. *)
Definition sum8 (f : Z → Z) : Z := f 0 + f 1 + f 2 + f 3 + f 4 + f 5 + f 6 + f 7.
Definition taken (K : places) (l : nat) (q : Z) : Z := if K !! (l, q) is Some _ then 1 else 0.
Definition kids (K : places) (l : nat) (p : Z) : Z := sum8 (λ i, taken K l (8 * p + i)).

(** A node neither overlaps the head nor another node. *)
Definition node_at (head a : Z) : Prop := a ≠ 0 ∧ a mod 8 = 0 ∧ (a + 72 ≤ head ∨ head + 32 ≤ a).
Definition apart (a b : Z) : Prop := a + 72 ≤ b ∨ b + 72 ≤ a.

Record radix_rep (head : Z) (h : nat) (s : radix_state) (K : places) : Prop := {
  rx_head : head mod 8 = 0;
  rx_height : ∃ w, mem s !! head = Some w ∧ w mod 2 ^ 32 = Z.of_nat h;
  rx_three : (h ≤ 3)%nat;
  rx_rnode : mem s !! head_rnode head = Some (default 0 (K !! (h, 0)));
  rx_max : mem s !! (head + 16) = Some (7 * 2 ^ 32) ∧ mem s !! (head + 24) = Some (511 * 2 ^ 32 + 63);
  rx_slot : ∀ l p a i, K !! (S l, p) = Some a → 0 ≤ i < 8 →
    mem s !! node_slots a i = Some (default 0 (K !! (l, 8 * p + i)));
  rx_count : ∀ l p a, K !! (S l, p) = Some a →
    ∃ w, mem s !! node_count a = Some w ∧ w mod 2 ^ 32 = kids K l p;
  rx_val : ∀ l p v, K !! (l, p) = Some v → v ≠ 0 ∧ 0 ≤ p ∧ (l ≤ h)%nat;
  rx_top : ∀ p v, K !! (h, p) = Some v → p = 0 ∧ h ≠ 0%nat;
  rx_par : ∀ l p v, K !! (l, p) = Some v → (l < h)%nat → is_Some (K !! (S l, p / 8));
  rx_node : ∀ l p a, K !! (S l, p) = Some a → node_at head a;
  rx_apart : ∀ l1 p1 a1 l2 p2 a2, K !! (S l1, p1) = Some a1 → K !! (S l2, p2) = Some a2 →
    (l1, p1) ≠ (l2, p2) → apart a1 a2;
}.

(** The tree of height [h] at [head] holds the items [I]. *)
Definition radix_holds (head : Z) (h : nat) (s : radix_state) (I : gmap Z Z) : Prop :=
  ∃ K, radix_rep head h s K ∧ ∀ k, K !! (0%nat, k) = I !! k.

(** What [calloc] is documented to give: null, or an aligned block of its own. *)
Definition calloc_fresh (calloc : radix_state → Z) : Prop :=
  ∀ s, calloc s = 0 ∨
       (0 < calloc s ∧ calloc s mod 8 = 0 ∧ ∀ i, 0 ≤ i < 9 → mem s !! (calloc s + 8 * i) = None).

Lemma radix_rep_quiet head h s s' K : radix_rep head h s K → quiet s s' → radix_rep head h s' K.
Proof. intros [] [Hm _]. split; rewrite ?Hm; auto; intros; rewrite ?Hm; eauto. Qed.

(** ** Digits of an index *)

Definition digit (index : Z) (l : nat) : Z := index / 8 ^ Z.of_nat l mod 8.
Definition prefix (index : Z) (l : nat) : Z := index / 8 ^ Z.of_nat l.

Lemma prefix_succ index l : prefix index (S l) = prefix index l / 8.
Proof.
  unfold prefix. rewrite Nat2Z.inj_succ, Z.pow_succ_r by lia.
  rewrite Z.mul_comm, Z.div_div by (try apply Z.pow_pos_nonneg; lia). done.
Qed.

Lemma prefix_digit index l : 8 * prefix index (S l) + digit index l = prefix index l.
Proof.
  rewrite prefix_succ. change (digit index l) with (prefix index l mod 8).
  pose proof (Z.div_mod (prefix index l) 8). lia.
Qed.

Lemma digit_bounds index l : 0 ≤ digit index l < 8.
Proof. apply Z.mod_pos_bound. lia. Qed.

Lemma prefix_0 index : prefix index 0 = index.
Proof. apply Z.div_1_r. Qed.

Lemma prefix_top index h : 0 ≤ index < 8 ^ Z.of_nat h → prefix index h = 0.
Proof. apply Z.div_small. Qed.

Lemma prefix_nonneg index l : 0 ≤ index → 0 ≤ prefix index l.
Proof. intros. apply Z.div_pos; [done|]. apply Z.pow_pos_nonneg; lia. Qed.

(** The shift and the mask of the program. *)
Lemma land_mask x : Z.land x RADIX_TREE_MAP_MASK = x mod 8.
Proof. change RADIX_TREE_MAP_MASK with (Z.ones 3). by rewrite Z.land_ones. Qed.

Lemma wp_digit s index l (Q : Z → radix_state → Prop) :
  (l < 3)%nat → Q (index / 8 ^ Z.of_nat l) s → wp (shr index (3 * Z.of_nat l)) s Q.
Proof.
  intros Hl HQ. apply wp_shr; [lia|lia|]. by rewrite Z.pow_mul_r by lia.
Qed.

Lemma shift_start h : (1 ≤ h ≤ 3)%nat → uint (uint (Z.of_nat h - 1) * RADIX_TREE_MAP_SHIFT) = 3 * Z.of_nat (h - 1).
Proof. intros. destruct h as [|[|[|[|]]]]; try lia; done. Qed.

Lemma shift_next l : (1 ≤ l ≤ 3)%nat → uint (3 * Z.of_nat l - RADIX_TREE_MAP_SHIFT) = 3 * Z.of_nat (l - 1).
Proof. intros. destruct l as [|[|[|[|]]]]; try lia; done. Qed.

(** ** A new place *)

Lemma sum8_update f g i :
  0 ≤ i < 8 → g i = f i + 1 → (∀ j, 0 ≤ j < 8 → j ≠ i → g j = f j) → sum8 g = sum8 f + 1.
Proof.
  intros Hi Hg Hne. unfold sum8.
  assert (∀ j, 0 ≤ j < 8 → g j = f j + (if decide (j = i) then 1 else 0)) as H.
  { intros j Hj. case_decide; [congruence|]. rewrite Hne by done. lia. }
  rewrite !H by lia. repeat case_decide; lia.
Qed.

Lemma sum8_ext f g : (∀ j, 0 ≤ j < 8 → g j = f j) → sum8 g = sum8 f.
Proof. intros H. unfold sum8. by rewrite !H by lia. Qed.

Lemma kids_insert K l q v l' p :
  K !! (l, q) = None →
  kids (<[(l, q) := v]> K) l' p = kids K l' p + (if decide (l' = l ∧ p = q / 8) then 1 else 0).
Proof.
  intros Hn. unfold kids. destruct (decide _) as [[-> ->]|Hne].
  - apply (sum8_update _ _ (q mod 8)); [by apply Z.mod_pos_bound| |].
    + unfold taken. rewrite <-Z.div_mod by lia. by rewrite lookup_insert_eq, Hn.
    + intros j Hj Hne. unfold taken. rewrite lookup_insert_ne; [done|].
      intros E. apply (f_equal snd) in E. cbn [snd] in E. apply Hne. lia.
  - rewrite Z.add_0_r. apply sum8_ext. intros j Hj. unfold taken. rewrite lookup_insert_ne; [done|].
    intros E. pose proof (f_equal fst E) as E1. apply (f_equal snd) in E. cbn [fst snd] in E, E1.
    apply Hne. split; [done|]. lia.
Qed.

Lemma kids_bounds K l p : 0 ≤ kids K l p ≤ 8.
Proof.
  assert (∀ q, 0 ≤ taken K l q ≤ 1) as H.
  { intros q. unfold taken. destruct (K !! (l, q)); lia. }
  unfold kids, sum8. pose proof (H (8 * p + 0)). pose proof (H (8 * p + 1)). pose proof (H (8 * p + 2)).
  pose proof (H (8 * p + 3)). pose proof (H (8 * p + 4)). pose proof (H (8 * p + 5)).
  pose proof (H (8 * p + 6)). pose proof (H (8 * p + 7)). lia.
Qed.

Section rep.
Context (head : Z) (h : nat) (s : radix_state) (K : places) (Hrep : radix_rep head h s K).

Lemma rx_node_word l p a j : K !! (S l, p) = Some a → 0 ≤ j < 9 → is_Some (mem s !! (a + 8 * j)).
Proof.
  intros Ha Hj. destruct (decide (j = 0)) as [->|].
  - destruct (rx_count _ _ _ _ Hrep l p a Ha) as (w & Hw & _). rewrite Z.add_0_r. by exists w.
  - pose proof (rx_slot _ _ _ _ Hrep l p a (j - 1) Ha ltac:(lia)) as Hs. unfold node_slots in Hs.
    replace (a + 8 + 8 * (j - 1)) with (a + 8 * j) in Hs by lia. by eexists.
Qed.

Lemma rx_head_word j : 0 ≤ j < 4 → is_Some (mem s !! (head + 8 * j)).
Proof.
  intros Hj. destruct (rx_height _ _ _ _ Hrep) as (w & Hw & _). destruct (rx_max _ _ _ _ Hrep) as [Hm1 Hm2].
  pose proof (rx_rnode _ _ _ _ Hrep) as Hr. unfold head_rnode in Hr.
  assert (j = 0 ∨ j = 1 ∨ j = 2 ∨ j = 3) as [->|[->|[->| ->]]] by lia; eauto. by rewrite Z.add_0_r; eauto.
Qed.

(** Every place hangs from the root. *)
Lemma rx_rooted l p v : K !! (l, p) = Some v → is_Some (K !! (h, 0)).
Proof.
  intros Hv. destruct (rx_val _ _ _ _ Hrep _ _ _ Hv) as (_ & _ & Hl).
  remember (h - l)%nat as n eqn:En. revert l p v Hv Hl En. induction n as [|n IH]; intros l p v Hv Hl En.
  - assert (l = h) as -> by lia. destruct (rx_top _ _ _ _ Hrep _ _ Hv) as [-> _]. eauto.
  - destruct (rx_par _ _ _ _ Hrep _ _ _ Hv) as [v' Hv']; [lia|].
    destruct (rx_val _ _ _ _ Hrep _ _ _ Hv') as (_ & _ & ?). eapply IH; [exact Hv'|lia|lia].
Qed.

Lemma rx_empty : K !! (h, 0) = None → K = ∅.
Proof.
  intros Hn. apply map_empty. intros [l p]. destruct (K !! (l, p)) as [v|] eqn:E; [|done].
  apply rx_rooted in E as [??]. congruence.
Qed.

(** A fresh block is a node that can be added. *)
Lemma fresh_node v :
  0 < v → v mod 8 = 0 → (∀ i, 0 ≤ i < 9 → mem s !! (v + 8 * i) = None) →
  node_at head v ∧ ∀ l p a, K !! (S l, p) = Some a → apart v a.
Proof.
  intros Hv Hal Hf.
  assert (∀ x, x mod 8 = 0 → is_Some (mem s !! x) → x < v ∨ v + 72 ≤ x) as Hout.
  { intros x Hx [w Hw]. destruct (decide (x < v ∨ v + 72 ≤ x)); [done|]. exfalso.
    specialize (Hf ((x - v) / 8) ltac:(lia)). replace (v + 8 * ((x - v) / 8)) with x in Hf by lia. congruence. }
  pose proof (rx_head _ _ _ _ Hrep) as Hh. split.
  - split_and!; [lia|done|].
    destruct (decide (v < head)) as [Hlt|Hge].
    + left. destruct (Hout head Hh); [|lia..]. rewrite <-(Z.add_0_r head). apply (rx_head_word 0). lia.
    + right. destruct (decide (head + 32 ≤ v)); [done|]. exfalso.
      destruct (Hout (head + 8 * ((v - head) / 8))); [lia|apply rx_head_word; lia|lia|lia].
  - intros l p a Ha. destruct (rx_node _ _ _ _ Hrep _ _ _ Ha) as (Ha0 & Haal & _). unfold apart.
    destruct (decide (v < a)) as [Hlt|Hge].
    + left. destruct (Hout a Haal); [|lia..]. rewrite <-(Z.add_0_r a). by apply (rx_node_word l p a 0).
    + right. destruct (decide (a + 72 ≤ v)); [done|]. exfalso.
      destruct (Hout (a + 8 * ((v - a) / 8))); [lia|eapply rx_node_word; [done|lia]|lia|lia].
Qed.
End rep.

(** The slot that holds the place [(l, q)], and the node that has the slot. *)
Definition slot_of (head : Z) (h : nat) (K : places) (l : nat) (q : Z) : Z :=
  if decide (l = h) then head_rnode head else node_slots (default 0 (K !! (S l, q / 8))) (q mod 8).
Definition node_of (h : nat) (K : places) (l : nat) (q : Z) : Z :=
  if decide (l = h) then 0 else default 0 (K !! (S l, q / 8)).

(** A place that may be filled. *)
Record open_place (h : nat) (K : places) (l : nat) (q : Z) : Prop := {
  op_le : (l ≤ h)%nat;
  op_pos : 0 ≤ q;
  op_top : l = h → q = 0 ∧ h ≠ 0%nat;
  op_par : (l < h)%nat → is_Some (K !! (S l, q / 8));
}.

(** The slot lies in the head or in the node above. *)
Lemma slot_cases head h K l q :
  open_place h K l q →
  (l = h ∧ q = 0 ∧ slot_of head h K l q = head + 8) ∨
  ((l < h)%nat ∧ ∃ a, K !! (S l, q / 8) = Some a ∧ node_of h K l q = a ∧
     slot_of head h K l q = a + 8 + 8 * (q mod 8)).
Proof.
  intros [Hle Hpos Htop Hpar]. unfold slot_of, node_of. destruct (decide (l = h)) as [E|E].
  - left. split_and!; [done|by apply Htop|done].
  - right. split; [lia|]. destruct Hpar as [a Ha]; [lia|]. exists a. rewrite Ha. done.
Qed.

(** The memory when [v] has been put in the place [(l, q)] and counted. *)
Record filled (head : Z) (h : nat) (K : places) (l : nat) (q v : Z) (m m' : gmap Z Z) : Prop := {
  fl_slot : m' !! slot_of head h K l q = Some v;
  fl_count : (l < h)%nat → ∃ w, m' !! node_of h K l q = Some w ∧ w mod 2 ^ 32 = kids K l (q / 8) + 1;
  fl_new : (l ≠ 0)%nat → ∀ i, 0 ≤ i < 9 → m' !! (v + 8 * i) = Some 0;
  fl_frame : ∀ x, x ≠ slot_of head h K l q → ((l < h)%nat → x ≠ node_of h K l q) →
    ((l ≠ 0)%nat → x < v ∨ v + 72 ≤ x) → m' !! x = m !! x;
}.

Section add.
Context (head : Z) (h : nat) (s s' : radix_state) (K : places) (Hrep : radix_rep head h s K).
Context (l : nat) (q v : Z) (Hop : open_place h K l q) (Hnone : K !! (l, q) = None) (Hv0 : v ≠ 0).
Context (Hfresh : (l ≠ 0)%nat → 0 < v ∧ v mod 8 = 0 ∧ ∀ i, 0 ≤ i < 9 → mem s !! (v + 8 * i) = None).
Context (Hfill : filled head h K l q v (mem s) (mem s')).

Lemma add_no_kids l0 i : l = S l0 → 0 ≤ i < 8 → K !! (l0, 8 * q + i) = None.
Proof.
  intros -> Hi. destruct (K !! (l0, 8 * q + i)) as [x|] eqn:E; [|done].
  destruct Hop as [Hle _ _ _].
  apply (rx_par _ _ _ _ Hrep) in E as [y Hy]; [|lia]. replace ((8 * q + i) / 8) with q in Hy by lia. congruence.
Qed.

(** What is outside the new block, not the slot and not the count is as it was. *)
Lemma add_other l0 p a j :
  K !! (S l0, p) = Some a → 0 ≤ j < 9 → a + 8 * j ≠ slot_of head h K l q →
  ((l < h)%nat → a + 8 * j ≠ node_of h K l q) → mem s' !! (a + 8 * j) = mem s !! (a + 8 * j).
Proof.
  intros Ha Hj Hs Hn. apply (fl_frame _ _ _ _ _ _ _ _ Hfill); [done|done|]. intros Hl.
  destruct (Hfresh Hl) as (Hv & Hal & Hf).
  destruct (fresh_node _ _ _ _ Hrep v Hv Hal Hf) as [_ Hap]. destruct (Hap _ _ _ Ha) as [?|?]; lia.
Qed.

Lemma add_head j :
  0 ≤ j < 4 → head + 8 * j ≠ slot_of head h K l q → mem s' !! (head + 8 * j) = mem s !! (head + 8 * j).
Proof.
  intros Hj Hs. apply (fl_frame _ _ _ _ _ _ _ _ Hfill); [done|..].
  - intros Hl. destruct (slot_cases head h K l q Hop) as [(? & _)|(_ & a & Ha & -> & _)]; [lia|].
    destruct (rx_node _ _ _ _ Hrep _ _ _ Ha) as (_ & _ & [?|?]); lia.
  - intros Hl. destruct (Hfresh Hl) as (Hv & Hal & Hf).
    destruct (fresh_node _ _ _ _ Hrep v Hv Hal Hf) as [(_ & _ & [?|?]) _]; lia.
Qed.

Lemma slot_of_head j : 0 ≤ j < 4 → j ≠ 1 → head + 8 * j ≠ slot_of head h K l q.
Proof.
  intros Hj Hj1. destruct (slot_cases head h K l q Hop) as [(_ & _ & ->)|(_ & a & Ha & _ & ->)]; [lia|].
  destruct (rx_node _ _ _ _ Hrep _ _ _ Ha) as (_ & _ & [?|?]); lia.
Qed.

(** A slot of another place. *)
Lemma slot_of_ne l0 p a i :
  K !! (S l0, p) = Some a → 0 ≤ i < 8 → (l0, 8 * p + i) ≠ (l, q) →
  a + 8 * (i + 1) ≠ slot_of head h K l q ∧ ((l < h)%nat → a + 8 * (i + 1) ≠ node_of h K l q).
Proof.
  intros Ha Hi Hne. destruct (rx_node _ _ _ _ Hrep _ _ _ Ha) as (_ & Hal & Hh).
  destruct (slot_cases head h K l q Hop) as [(-> & _ & ->)|(Hl & b & Hb & -> & ->)]; [split; lia|].
  destruct (rx_node _ _ _ _ Hrep _ _ _ Hb) as (_ & Hbl & _).
  destruct (decide ((l0, p) = (l, q / 8))) as [[= -> ->]|Hd].
  - assert (a = b) as -> by congruence. split; [|lia]. intros E. apply Hne. f_equal. lia.
  - destruct (rx_apart _ _ _ _ Hrep _ _ _ _ _ _ Ha Hb Hd) as [?|?]; split; lia.
Qed.

(** The count of another node. *)
Lemma count_ne l0 p a :
  K !! (S l0, p) = Some a → (l0, p) ≠ (l, q / 8) ∨ l = h →
  a ≠ slot_of head h K l q ∧ ((l < h)%nat → a ≠ node_of h K l q).
Proof.
  intros Ha Hne. destruct (rx_node _ _ _ _ Hrep _ _ _ Ha) as (_ & Hal & Hh).
  destruct (slot_cases head h K l q Hop) as [(-> & _ & ->)|(Hl & b & Hb & -> & ->)]; [split; lia|].
  destruct Hne as [Hne|]; [|lia].
  destruct (rx_apart _ _ _ _ Hrep _ _ _ _ _ _ Ha Hb Hne) as [?|?]; split; lia.
Qed.

Lemma add_slot_eq l0 p a i :
  <[(l, q) := v]> K !! (S l0, p) = Some a → 0 ≤ i < 8 →
  mem s' !! node_slots a i = Some (default 0 (<[(l, q) := v]> K !! (l0, 8 * p + i))).
Proof.
  intros Ha Hi. unfold node_slots. replace (a + 8 + 8 * i) with (a + 8 * (i + 1)) by lia.
  destruct (decide ((S l0, p) = (l, q))) as [E|Hne].
  - injection E as El ->. rewrite <-El, lookup_insert_eq in Ha. injection Ha as <-.
    rewrite (fl_new _ _ _ _ _ _ _ _ Hfill) by lia.
    rewrite lookup_insert_ne by (intros E; apply (f_equal fst) in E; simpl in E; lia).
    by rewrite add_no_kids.
  - rewrite lookup_insert_ne in Ha by done.
    destruct (decide ((l0, 8 * p + i) = (l, q))) as [E|Hd].
    + pose proof (f_equal fst E) as E1. pose proof (f_equal snd E) as E2. cbn [fst snd] in E1, E2.
      rewrite E, lookup_insert_eq. simpl.
      assert (slot_of head h K l q = a + 8 * (i + 1)) as <-; [|apply Hfill].
      destruct (slot_cases head h K l q Hop) as [(Hl & _)|(_ & b & Hb & _ & ->)].
      * destruct (rx_val _ _ _ _ Hrep _ _ _ Ha) as (_ & _ & ?). lia.
      * rewrite <-E1, <-E2 in Hb. replace ((8 * p + i) / 8) with p in Hb by lia.
        assert (a = b) as -> by congruence. rewrite <-E2. lia.
    + rewrite lookup_insert_ne by congruence.
      destruct (slot_of_ne l0 p a i Ha Hi Hd) as [H1 H2].
      rewrite (add_other l0 p a (i + 1) Ha) by (done || lia).
      replace (a + 8 * (i + 1)) with (node_slots a i) by (unfold node_slots; lia).
      by apply (rx_slot _ _ _ _ Hrep l0 p a i).
Qed.

Lemma add_count_eq l0 p a :
  <[(l, q) := v]> K !! (S l0, p) = Some a →
  ∃ w, mem s' !! node_count a = Some w ∧ w mod 2 ^ 32 = kids (<[(l, q) := v]> K) l0 p.
Proof.
  intros Ha. unfold node_count. rewrite kids_insert by done.
  destruct (decide ((S l0, p) = (l, q))) as [E|Hne].
  - injection E as El ->. rewrite <-El, lookup_insert_eq in Ha. injection Ha as <-.
    exists 0. pose proof (fl_new _ _ _ _ _ _ _ _ Hfill ltac:(lia) 0 ltac:(lia)) as Hz.
    rewrite Z.add_0_r in Hz. split; [done|]. rewrite decide_False by lia.
    assert (kids K l0 q = 0) as ->; [|done]. unfold kids.
    assert (∀ j, 0 ≤ j < 8 → taken K l0 (8 * q + j) = 0) as Hk.
    { intros j Hj. unfold taken. by rewrite add_no_kids. }
    unfold sum8. by rewrite !Hk by lia.
  - rewrite lookup_insert_ne in Ha by done.
    destruct (decide (l0 = l ∧ p = q / 8)) as [[-> ->]|Hd].
    + destruct (rx_val _ _ _ _ Hrep _ _ _ Ha) as (_ & _ & Hl).
      destruct (fl_count _ _ _ _ _ _ _ _ Hfill ltac:(lia)) as (w & Hw & Hwk). exists w. split; [|done].
      rewrite <-Hw. unfold node_of. rewrite decide_False by lia. by rewrite Ha.
    + destruct (count_ne l0 p a Ha) as [H1 H2].
      { left. intros E. apply Hd. by injection E. }
      destruct (rx_count _ _ _ _ Hrep l0 p a Ha) as (w & Hw & Hwk). exists w. split; [|lia].
      rewrite <-Hw. unfold node_count. rewrite <-(Z.add_0_r a) in H1, H2 |- *. change 0 with (8 * 0).
      apply (add_other l0 p a 0 Ha); [lia|done|done].
Qed.

Lemma radix_rep_add : radix_rep head h s' (<[(l, q) := v]> K).
Proof.
  pose proof Hop as [Hle Hpos Htop Hpar]. split.
  - apply Hrep.
  - destruct (rx_height _ _ _ _ Hrep) as (w & Hw & Hh). exists w. split; [|done].
    rewrite <-Hw. rewrite <-(Z.add_0_r head). change 0 with (8 * 0).
    apply add_head; [lia|apply slot_of_head; lia].
  - apply Hrep.
  - destruct (decide (l = h)) as [->|Hlh].
    + destruct Htop as [-> _]; [done|]. rewrite lookup_insert_eq. simpl.
      pose proof (fl_slot _ _ _ _ _ _ _ _ Hfill) as Hs. unfold slot_of in Hs. by rewrite decide_True in Hs.
    + rewrite lookup_insert_ne by congruence. rewrite <-(rx_rnode _ _ _ _ Hrep).
      apply (add_head 1); [lia|]. destruct (slot_cases head h K l q Hop) as [(? & _)|(_ & a & Ha & _ & ->)]; [lia|].
      destruct (rx_node _ _ _ _ Hrep _ _ _ Ha) as (_ & _ & [?|?]); lia.
  - destruct (rx_max _ _ _ _ Hrep) as [H1 H2]. rewrite <-H1, <-H2. split.
    + apply (add_head 2); [lia|apply slot_of_head; lia].
    + apply (add_head 3); [lia|apply slot_of_head; lia].
  - apply add_slot_eq.
  - apply add_count_eq.
  - intros l0 p x [[[= <- <-] <-]|[_ Hx]]%lookup_insert_Some; [done|by eapply rx_val].
  - intros p x [[[= -> <-] <-]|[_ Hx]]%lookup_insert_Some; [by apply Htop|by eapply rx_top].
  - intros l0 p x Hx Hl0. destruct (decide ((S l0, p / 8) = (l, q))) as [->|Hd].
    { rewrite lookup_insert_eq. by eexists. }
    rewrite lookup_insert_ne by congruence.
    apply lookup_insert_Some in Hx as [[[= <- <-] <-]|[_ Hx]]; [by apply Hpar|by eapply rx_par].
  - intros l0 p x [[[= -> <-] <-]|[_ Hx]]%lookup_insert_Some; [|by eapply rx_node].
    destruct (Hfresh ltac:(lia)) as (H1 & H2 & H3). by apply (fresh_node _ _ _ _ Hrep v H1 H2 H3).
  - assert (∀ l2 p2 a2, (l ≠ 0)%nat → K !! (S l2, p2) = Some a2 → apart v a2) as Hap.
    { intros l2 p2 a2 Hl Ha. destruct (Hfresh Hl) as (H1 & H2 & H3).
      destruct (fresh_node _ _ _ _ Hrep v H1 H2 H3) as [_ H]. by eapply H. }
    intros l1 p1 a1 l2 p2 a2 [[E1 <-]|[_ H1]]%lookup_insert_Some [[E2 <-]|[_ H2]]%lookup_insert_Some Hne.
    + exfalso. apply Hne. congruence.
    + apply (Hap l2 p2); [injection E1 as -> _; lia|done].
    + assert (apart v a1) as [?|?] by (apply (Hap l1 p1); [injection E2 as -> _; lia|done]); [by right|by left].
    + by apply (rx_apart _ _ _ _ Hrep _ _ _ _ _ _ H1 H2).
Qed.
End add.
