(* ===== verification/RadixOps.v ===== *)
(** * tree/radix-tree: the operations on the representation

    The height and its table, allocation, the growth of the tree, the descent
    of an insertion and the lookup. *)
From S2P Require Import Prelude RadixTree RadixFacts.

(** ** The table of heights *)

Definition maxindex (h : nat) : Z := 8 ^ Z.of_nat h - 1.

Lemma wp_load_maxindex head s i (Q : Z → radix_state → Prop) :
  head mod 8 = 0 → mem s !! (head + 16) = Some (7 * 2 ^ 32) → mem s !! (head + 24) = Some (511 * 2 ^ 32 + 63) →
  (i < 4)%nat → Q (maxindex i) s → wp (load_maxindex head (Z.of_nat i)) s Q.
Proof.
  intros Hh H1 H2 Hi HQ. unfold load_maxindex. apply wp_bind, wp_assert.
  { apply Z.ltb_lt. unfold RADIX_TREE_MAX_PATH. lia. }
  unfold height_to_maxindex. destruct i as [|[|[|[|]]]]; [..|lia].
  - eapply wp_load4_low; [lia|by rewrite Z.add_0_r|done].
  - eapply (wp_load4_high _ _ (7 * 2 ^ 32)); [lia| |done]. rewrite <-H1. f_equal. lia.
  - eapply (wp_load4_low _ _ (511 * 2 ^ 32 + 63)); [lia| |done]. rewrite <-H2. f_equal. lia.
  - eapply (wp_load4_high _ _ (511 * 2 ^ 32 + 63)); [lia| |done]. rewrite <-H2. f_equal. lia.
Qed.

Section ops.
Context (head : Z) (h : nat) (s : radix_state) (K : places) (Hrep : radix_rep head h s K).

Lemma wp_height (Q : Z → radix_state → Prop) : Q (Z.of_nat h) s → wp (load4 (head_height head)) s Q.
Proof.
  intros HQ. destruct (rx_height _ _ _ _ Hrep) as (w & Hw & Hh).
  eapply wp_load4_low; [apply Hrep|exact Hw|]. by rewrite Hh.
Qed.

Lemma wp_maxindex (Q : Z → radix_state → Prop) : Q (maxindex h) s → wp (radix_tree_maxindex head) s Q.
Proof.
  intros HQ. apply wp_bind, wp_height. destruct (rx_max _ _ _ _ Hrep).
  apply wp_load_maxindex; [apply Hrep|done|done|pose proof (rx_three _ _ _ _ Hrep); lia|done].
Qed.

(** The root pointer. *)
Lemma wp_rnode (Q : Z → radix_state → Prop) :
  Q (default 0 (K !! (h, 0))) s → wp (load (head_rnode head)) s Q.
Proof. intros. eapply wp_load; [apply Hrep|done]. Qed.

Lemma place_value l q : open_place h K l q → mem s !! slot_of head h K l q = Some (default 0 (K !! (l, q))).
Proof.
  intros [Hl Hq Ht Hp]. unfold slot_of. destruct (decide (l = h)) as [->|Hne].
  - destruct Ht as [-> _]; [done|]. apply Hrep.
  - destruct Hp as [a Ha]; [lia|]. rewrite Ha. simpl.
    rewrite (rx_slot _ _ _ _ Hrep l (q / 8) a) by (done || lia). by rewrite <-Z.div_mod by lia.
Qed.

Lemma place_none l q : default 0 (K !! (l, q)) = 0 → K !! (l, q) = None.
Proof.
  destruct (K !! (l, q)) as [v|] eqn:E; [|done]. simpl. intros ->.
  by destruct (rx_val _ _ _ _ Hrep _ _ _ E).
Qed.

Lemma node_of_nonzero l q : open_place h K l q → (node_of h K l q =? 0) = bool_decide (l = h).
Proof.
  intros [Hl Hq Ht Hp]. unfold node_of. destruct (decide (l = h)) as [E|E].
  - by rewrite bool_decide_true.
  - rewrite bool_decide_false by done. destruct Hp as [a Ha]; [lia|]. rewrite Ha. simpl.
    apply Z.eqb_neq. by destruct (rx_node _ _ _ _ Hrep _ _ _ Ha).
Qed.

Lemma root_place : h ≠ 0%nat → open_place h K h 0.
Proof. intros. split; [done|done|done|lia]. Qed.

Lemma open_down l q a i :
  K !! (S l, q) = Some a → 0 ≤ i < 8 →
  open_place h K l (8 * q + i) ∧ slot_of head h K l (8 * q + i) = node_slots a i ∧
  node_of h K l (8 * q + i) = a.
Proof.
  intros Ha Hi. destruct (rx_val _ _ _ _ Hrep _ _ _ Ha) as (_ & Hq & Hl).
  assert ((8 * q + i) / 8 = q) as Hd by lia. split_and!.
  - split; [lia|lia|lia|]. rewrite Hd. by eexists.
  - unfold slot_of. rewrite decide_False by lia. rewrite Hd, Ha. simpl. f_equal. lia.
  - unfold node_of. rewrite decide_False by lia. by rewrite Hd, Ha.
Qed.
End ops.

(** ** Allocation *)

Lemma lookup_zero_words l m x : zero_words l m !! x = if decide (x ∈ l) then Some 0 else m !! x.
Proof.
  unfold zero_words. induction l as [|a l IH]; simpl.
  - done.
  - rewrite lookup_insert, IH. repeat case_decide; set_solver.
Qed.

Lemma elem_of_block a n x : x ∈ block a n ↔ ∃ i, 0 ≤ i < Z.of_nat n ∧ x = a + 8 * i.
Proof.
  unfold block. rewrite list_elem_of_fmap. split.
  - intros (i & -> & Hi%elem_of_seq). exists (Z.of_nat i). lia.
  - intros (i & Hi & ->). exists (Z.to_nat i). rewrite elem_of_seq. split; [|lia]. f_equal. lia.
Qed.

Section alloc.
Context (calloc : radix_state → Z) (Hc : calloc_fresh calloc).

(** A node of zeros at [v]. *)
Record new_node (v : Z) (s s' : radix_state) : Prop := {
  nn_pos : 0 < v;
  nn_align : v mod 8 = 0;
  nn_fresh : ∀ i, 0 ≤ i < 9 → mem s !! (v + 8 * i) = None;
  nn_zero : ∀ i, 0 ≤ i < 9 → mem s' !! (v + 8 * i) = Some 0;
  nn_frame : ∀ x, x < v ∨ v + 72 ≤ x → mem s' !! x = mem s !! x;
}.

Lemma wp_node_alloc s (Q : Z → radix_state → Prop) :
  (∀ s', (∃ s0, calloc s0 = 0) → quiet s s' → Q 0 s') →
  (∀ v s', new_node v s s' → Q v s') → wp (radix_tree_node_alloc calloc) s Q.
Proof.
  intros H0 H1. apply wp_bind. unfold wp at 1, calloc_words.
  destruct (Hc s) as [E|(Hpos & Hal & Hf)].
  { rewrite decide_True by done. simpl. apply wp_bind, wp_printf. intros s' Hq. apply wp_ret. eauto. }
  rewrite decide_False by lia. destruct (Z.eqb_spec (calloc s) 0) as [|_]; [lia|].
  apply wp_ret. apply H1. split; [done|done|done|..].
  - intros i Hi. cbn [mem]. rewrite lookup_zero_words, decide_True; [done|].
    apply elem_of_block. exists i. lia.
  - intros x Hx. cbn [mem]. rewrite lookup_zero_words, decide_False; [done|].
    intros (i & Hi & ->)%elem_of_block. lia.
Qed.

Lemma wp_count_up a w c s (Q : unit → radix_state → Prop) :
  a mod 8 = 0 → mem s !! a = Some w → w mod 2 ^ 32 = c → 0 ≤ c < 2 ^ 31 →
  (∀ w', w' mod 2 ^ 32 = c + 1 → Q () (St (<[a := w']> (mem s)) (env s))) →
  wp (count_up a) s Q.
Proof.
  intros Ha Hw Hwc Hb HQ. apply wp_bind. eapply wp_load4_low; [exact Ha|exact Hw|]. rewrite Hwc.
  eapply wp_store4_low; [exact Ha|exact Hw|]. apply HQ. unfold uint. rewrite wrap_small by lia.
  rewrite Z.add_comm, Z.mod_add by lia. apply Z.mod_small. lia.
Qed.

(** ** The descent of an insertion *)


Lemma new_node_mapped v s s' x : new_node v s s' → x mod 8 = 0 → is_Some (mem s !! x) → x < v ∨ v + 72 ≤ x.
Proof.
  intros [_ Hal Hf _ _] Hx [w Hw]. destruct (decide (x < v ∨ v + 72 ≤ x)); [done|]. exfalso.
  specialize (Hf ((x - v) / 8) ltac:(lia)). replace (v + 8 * ((x - v) / 8)) with x in Hf by lia. congruence.
Qed.

(** ** Filling a place *)

Section place.
Context (head : Z) (h : nat) (s : radix_state) (K : places) (Hrep : radix_rep head h s K).
Context (l : nat) (q : Z) (Hop : open_place h K l q) (Hnone : K !! (l, q) = None).

Lemma slot_mapped : slot_of head h K l q mod 8 = 0 ∧ mem s !! slot_of head h K l q = Some 0.
Proof.
  split; [|by rewrite (place_value _ _ _ _ Hrep _ _ Hop), Hnone].
  pose proof (rx_head _ _ _ _ Hrep).
  destruct (slot_cases head h K l q Hop) as [(_ & _ & ->)|(_ & a & Ha & _ & ->)]; [lia|].
  destruct (rx_node _ _ _ _ Hrep _ _ _ Ha) as (_ & Hal & _). lia.
Qed.

(** The node above and its count. *)
Lemma node_mapped :
  (l < h)%nat → node_of h K l q ≠ 0 ∧ node_of h K l q mod 8 = 0 ∧
    node_of h K l q ≠ slot_of head h K l q ∧
    ∃ w, mem s !! node_of h K l q = Some w ∧ w mod 2 ^ 32 = kids K l (q / 8).
Proof.
  intros Hl. destruct (slot_cases head h K l q Hop) as [(? & _)|(_ & a & Ha & -> & ->)]; [lia|].
  destruct (rx_node _ _ _ _ Hrep _ _ _ Ha) as (H0 & Hal & _). split_and!; [done|done|lia|].
  by apply (rx_count _ _ _ _ Hrep l (q / 8) a).
Qed.

(** A new node: the slot is written, then counted. *)
Lemma wp_place_node v s1 (Q : unit → radix_state → Prop) :
  l ≠ 0%nat → new_node v s s1 →
  (∀ s', radix_rep head h s' (<[(l, q) := v]> K) → mem s' !! slot_of head h K l q = Some v → Q () s') →
  wp (store (slot_of head h K l q) v;;
      when (negb (node_of h K l q =? 0)) (count_up (node_of h K l q))) s1 Q.
Proof.
  intros Hl0 Hnew HQ. destruct slot_mapped as [Hsal Hs].
  pose proof (new_node_mapped v s s1 _ Hnew Hsal ltac:(by eexists)) as Hsout.
  assert (mem s1 !! slot_of head h K l q = Some 0) as Hs1 by (rewrite (nn_frame _ _ _ Hnew); [done|lia]).
  apply wp_bind. eapply wp_store; [exact Hs1|].
  assert (∀ m', filled head h K l q v (mem s) m' → Q () (St m' (env s1))) as Hdone.
  { intros m' Hf. apply HQ; [|apply Hf]. apply (radix_rep_add head h s _ K Hrep l q v); try done.
    - pose proof (nn_pos _ _ _ Hnew). lia.
    - intros _. split_and!; [apply Hnew..|]. apply Hnew. }
  rewrite (node_of_nonzero _ _ _ _ Hrep) by done. destruct (decide (l = h)) as [E|Hne].
  - rewrite bool_decide_true by done. apply wp_ret. apply Hdone. split.
    + by rewrite lookup_insert_eq.
    + lia.
    + intros _ i Hi. rewrite lookup_insert_ne by lia. by apply Hnew.
    + intros x Hx _ Hv. rewrite lookup_insert_ne by congruence. apply Hnew. auto.
  - rewrite bool_decide_false by done. simpl.
    destruct Hop as [Hle _ _ _]. destruct node_mapped as (Hn0 & Hnal & Hns & w & Hw & Hwk); [lia|].
    pose proof (new_node_mapped v s s1 _ Hnew Hnal ltac:(by eexists)) as Hnout.
    eapply (wp_count_up _ w); [done| |exact Hwk|pose proof (kids_bounds K l (q / 8)); lia|].
    { simpl. rewrite lookup_insert_ne by congruence. rewrite (nn_frame _ _ _ Hnew); [done|lia]. }
    intros w' Hw'. apply Hdone. simpl. split.
    + rewrite lookup_insert_ne by congruence. by rewrite lookup_insert_eq.
    + intros _. exists w'. by rewrite lookup_insert_eq.
    + intros _ i Hi. rewrite !lookup_insert_ne by lia. by apply Hnew.
    + intros x Hx Hn Hv. rewrite !lookup_insert_ne by (try congruence; apply not_eq_sym, Hn; lia).
      apply Hnew. auto.
Qed.

(** The item: counted, then written. *)
Lemma wp_place_item v (Q : unit → radix_state → Prop) :
  l = 0%nat → v ≠ 0 → h ≠ 0%nat →
  (∀ s', radix_rep head h s' (<[(l, q) := v]> K) → Q () s') →
  wp (when (negb (node_of h K l q =? 0)) (count_up (node_of h K l q));;
      store (slot_of head h K l q) v) s Q.
Proof.
  intros Hl0 Hv0 Hh HQ. destruct slot_mapped as [Hsal Hs].
  rewrite (node_of_nonzero _ _ _ _ Hrep), bool_decide_false by (done || lia). simpl.
  destruct node_mapped as (Hn0 & Hnal & Hns & w & Hw & Hwk); [lia|].
  apply wp_bind. eapply (wp_count_up _ w); [done|exact Hw|exact Hwk|pose proof (kids_bounds K l (q / 8)); lia|].
  intros w' Hw'. eapply wp_store; [simpl; rewrite lookup_insert_ne by congruence; exact Hs|].
  apply HQ. apply (radix_rep_add head h s _ K Hrep l q v); try done. simpl. split.
  - by rewrite lookup_insert_eq.
  - intros _. exists w'. rewrite lookup_insert_ne by congruence. by rewrite lookup_insert_eq.
  - done.
  - intros x Hx Hn _. rewrite !lookup_insert_ne by (try congruence; apply not_eq_sym, Hn; lia). done.
Qed.
End place.

(** ** The descent of an insertion *)

(** The items are those of [K0]. *)
Definition same_items (K0 K : places) : Prop := ∀ k, K !! (0%nat, k) = K0 !! (0%nat, k).

(** Where the descent stands [l] levels above the items. *)
Definition descending (head : Z) (h : nat) (index : Z) (K0 : places) (l : nat)
    (loc : Z * Z * Z * Z) (s : radix_state) : Prop :=
  ∃ K sh, radix_rep head h s K ∧ same_items K0 K ∧ open_place h K l (prefix index l) ∧
    loc = (slot_of head h K l (prefix index l), node_of h K l (prefix index l), Z.of_nat l, sh) ∧
    ((1 ≤ l)%nat → sh = 3 * Z.of_nat (l - 1)).

Lemma descending_start head h s K index :
  radix_rep head h s K → h ≠ 0%nat → prefix index h = 0 →
  descending head h index K h
    (head_rnode head, 0, Z.of_nat h, uint (uint (Z.of_nat h - 1) * RADIX_TREE_MAP_SHIFT)) s.
Proof.
  intros Hrep Hh Hp. exists K, (uint (uint (Z.of_nat h - 1) * RADIX_TREE_MAP_SHIFT)).
  rewrite Hp. split_and!; [done|done|by apply root_place| |].
  - unfold slot_of, node_of. by rewrite !decide_True.
  - intros. apply shift_start. pose proof (rx_three _ _ _ _ Hrep). lia.
Qed.

(** Down from the node at [(S l, prefix index (S l))]. *)
Lemma descending_down head h s K K0 index l a :
  radix_rep head h s K → same_items K0 K → K !! (S l, prefix index (S l)) = Some a → (S l ≤ 3)%nat →
  descending head h index K0 l
    (node_slots a (index / 8 ^ Z.of_nat l mod 8), a, Z.of_nat (S l) - 1,
     uint (3 * Z.of_nat (S l - 1) - RADIX_TREE_MAP_SHIFT)) s.
Proof.
  intros Hrep Hsame Ha Hl. pose proof (digit_bounds index l) as Hd.
  destruct (open_down _ _ _ _ Hrep l (prefix index (S l)) a (digit index l) Ha Hd) as (Hop & Hs & Hn).
  rewrite prefix_digit in Hop, Hs, Hn.
  exists K, (uint (3 * Z.of_nat (S l - 1) - RADIX_TREE_MAP_SHIFT)). rewrite Hs, Hn.
  split_and!; [done|done|done| |].
  - repeat f_equal; lia.
  - intros. replace (S l - 1)%nat with l by lia. apply shift_next. lia.
Qed.

Lemma wp_insert_level head h index K0 l loc s :
  descending head h index K0 l loc s →
  wp (insert_level calloc index loc) s (λ r s', match r with
    | inl loc' => ∃ l', l = S l' ∧ descending head h index K0 l' loc' s'
    | inr None => (∃ s0, calloc s0 = 0) ∧ ∃ K, radix_rep head h s' K ∧ same_items K0 K
    | inr (Some (slot, node)) => l = 0%nat ∧ descending head h index K0 0 (slot, node, 0, loc.2) s'
    end).
Proof.
  intros (K & sh & Hrep & Hsame & Hop & -> & Hsh). unfold insert_level. rewrite Z.gtb_ltb.
  destruct l as [|l]; [apply wp_ret; split; [done|]; exists K, sh; by split_and!|].
  destruct (Z.ltb_spec 0 (Z.of_nat (S l))) as [_|]; [|lia]. rewrite (Hsh ltac:(lia)) in *.
  pose proof (rx_three _ _ _ _ Hrep). destruct Hop as [Hle Hpos Htop Hpar] eqn:EHop. clear EHop.
  assert (open_place h K (S l) (prefix index (S l))) as Hop' by (by split).
  assert (∀ s' K' a, radix_rep head h s' K' → same_items K0 K' → K' !! (S l, prefix index (S l)) = Some a →
    mem s' !! slot_of head h K (S l) (prefix index (S l)) = Some a →
    wp (node' ← load (slot_of head h K (S l) (prefix index (S l)));
        i ← shr index (3 * Z.of_nat (S l - 1));
        mret (inl (node_slots node' (Z.land i RADIX_TREE_MAP_MASK), node', Z.of_nat (S l) - 1,
                   uint (3 * Z.of_nat (S l - 1) - RADIX_TREE_MAP_SHIFT)) : Z * Z * Z * Z + option (Z * Z))) s'
      (λ r s'', match r with
        | inl loc' => ∃ l', S l = S l' ∧ descending head h index K0 l' loc' s''
        | inr _ => False end)) as Hdown.
  { intros s' K' a Hrep' Hsame' Ha Hslot. apply wp_bind. eapply wp_load; [exact Hslot|].
    apply wp_bind. apply wp_digit; [lia|]. apply wp_ret. exists l. split; [done|].
    rewrite land_mask. replace (S l - 1)%nat with l at 1 by lia. eapply descending_down; [done|done|done|lia]. }
  apply wp_bind. eapply wp_load; [by apply (place_value _ _ _ _ Hrep)|].
  destruct (Z.eqb_spec (default 0 (K !! (S l, prefix index (S l)))) 0) as [E|E].
  - apply (place_none _ _ _ _ Hrep) in E. apply wp_bind. apply wp_bind. apply wp_node_alloc.
    + intros s' Hoom Hq. cbn [Z.eqb]. apply wp_ret. cbn [negb]. apply wp_ret. split; [done|].
      exists K. split; [by eapply radix_rep_quiet|done].
    + intros v s1 Hnew. destruct (Z.eqb_spec v 0) as [|_]; [pose proof (nn_pos _ _ _ Hnew); lia|].
      apply wp_seq2. eapply (wp_place_node head h s K Hrep); [done|done|done|exact Hnew|].
      intros s' Hrep' Hslot. apply wp_ret. cbn [negb].
      eapply wp_mono; [eapply (Hdown s' _ v); [exact Hrep'| |by rewrite lookup_insert_eq|exact Hslot]|].
      * intros k. by rewrite lookup_insert_ne.
      * by intros [loc'|r] s''.
  - destruct (K !! (S l, prefix index (S l))) as [a|] eqn:Ha; [|done]. apply wp_bind, wp_ret. cbn [negb].
    eapply wp_mono; [eapply (Hdown s K a); [done|done|done|]|by intros [loc'|r] s''].
    rewrite (place_value _ _ _ _ Hrep _ _ Hop'). by rewrite Ha.
Qed.

Lemma wp_insert_loop head h s K index fuel (Q : option (Z * Z) → radix_state → Prop) :
  radix_rep head h s K → h ≠ 0%nat → prefix index h = 0 → (h < fuel)%nat →
  (∀ s' K', (∃ s0, calloc s0 = 0) → radix_rep head h s' K' → same_items K K' → Q None s') →
  (∀ s' K', radix_rep head h s' K' → same_items K K' → open_place h K' 0 index →
     Q (Some (slot_of head h K' 0 index, node_of h K' 0 index)) s') →
  wp (loop fuel (insert_level calloc index)
       (head_rnode head, 0, Z.of_nat h, uint (uint (Z.of_nat h - 1) * RADIX_TREE_MAP_SHIFT))) s Q.
Proof.
  intros Hrep Hh Hp Hf HN HS.
  eapply (wp_loop (λ n loc s', descending head h index K n loc s')); [|by apply descending_start|exact Hf].
  intros l loc s' Hd. eapply wp_mono; [by eapply wp_insert_level|].
  intros [loc'|[[slot node]|]] s''.
  - intros (l' & -> & Hd'). exists l'. split; [lia|done].
  - intros (-> & K' & sh & Hrep' & Hsame & Hop & E & _). rewrite prefix_0 in Hop, E.
    injection E as -> -> _. by apply HS.
  - intros (Hoom & K' & Hrep' & Hsame). by eapply HN.
Qed.

(** ** The height grows *)

Lemma maxindex_digits index h : 0 ≤ index → prefix index h = 0 ↔ index ≤ maxindex h.
Proof.
  intros Hi. unfold prefix, maxindex. assert (0 < 8 ^ Z.of_nat h) by (apply Z.pow_pos_nonneg; lia).
  split.
  - intros E. apply Z.div_small_iff in E; lia.
  - intros. apply Z.div_small. lia.
Qed.

Lemma maxindex_mono h h' : (h ≤ h')%nat → maxindex h ≤ maxindex h'.
Proof. intros. unfold maxindex. pose proof (Z.pow_le_mono_r 8 (Z.of_nat h) (Z.of_nat h')). lia. Qed.

(** The least height from [h] on that reaches the index. *)
Lemma wp_extend_height head h s K index :
  radix_rep head h s K → 0 ≤ index ≤ maxindex 3 → (h < 3)%nat →
  wp (extend_height head index (uint (Z.of_nat h + 1))) s (λ r s', s' = s ∧
    ∃ h', r = Z.of_nat h' ∧ (h < h' ≤ 3)%nat ∧ index ≤ maxindex h').
Proof.
  intros Hrep Hi Hh. unfold extend_height.
  eapply (wp_loop (λ n height s', s' = s ∧ ∃ h', height = Z.of_nat h' ∧ (h < h' ≤ 3)%nat ∧ (n = 3 - h')%nat))
    with (n := (3 - S h)%nat); [|split; [done|]; exists (S h); unfold uint; rewrite wrap_small by lia; split_and!; lia|lia].
  intros n height s' (-> & h' & -> & Hh' & ->). destruct (rx_max _ _ _ _ Hrep) as [H1 H2].
  apply wp_bind. apply wp_load_maxindex; [apply Hrep|done|done|lia|].
  rewrite Z.gtb_ltb. destruct (Z.ltb_spec (maxindex h') index) as [Hlt|Hge].
  - assert (h' ≠ 3%nat) by (intros ->; lia). apply wp_bind, wp_when.
    + intros E. apply Z.gtb_lt in E. unfold RADIX_TREE_MAX_PATH in E. lia.
    + intros _. apply wp_ret. exists (3 - S h')%nat. split; [lia|]. split; [done|].
      exists (S h'). split_and!; lia.
  - apply wp_ret. split; [done|]. by exists h'.
Qed.

(** The memory when the node [v] has been put above the root [r]. *)
Record grown (head : Z) (h : nat) (v r : Z) (m m' : gmap Z Z) : Prop := {
  gr_height : ∃ w, m' !! head = Some w ∧ w mod 2 ^ 32 = Z.of_nat (S h);
  gr_rnode : m' !! (head + 8) = Some v;
  gr_count : ∃ w, m' !! v = Some w ∧ w mod 2 ^ 32 = 1;
  gr_slot : m' !! (v + 8) = Some r;
  gr_rest : ∀ i, 2 ≤ i < 9 → m' !! (v + 8 * i) = Some 0;
  gr_frame : ∀ x, x ≠ head → x ≠ head + 8 → x < v ∨ v + 72 ≤ x → m' !! x = m !! x;
}.

Section grow.
Context (head : Z) (h : nat) (s s' : radix_state) (K : places) (Hrep : radix_rep head h s K).
Context (v r : Z) (Hv : 0 < v) (Hal : v mod 8 = 0) (Hfr : ∀ i, 0 ≤ i < 9 → mem s !! (v + 8 * i) = None).
Context (Hroot : K !! (h, 0) = Some r) (Hh : (h < 3)%nat) (Hg : grown head h v r (mem s) (mem s')).

Lemma grow_old l p a j :
  K !! (S l, p) = Some a → 0 ≤ j < 9 → mem s' !! (a + 8 * j) = mem s !! (a + 8 * j).
Proof.
  intros Ha Hj. destruct (rx_node _ _ _ _ Hrep _ _ _ Ha) as (_ & _ & Hout).
  destruct (fresh_node _ _ _ _ Hrep v Hv Hal Hfr) as [_ Hap]. destruct (Hap _ _ _ Ha) as [?|?];
    apply (gr_frame _ _ _ _ _ _ Hg); destruct Hout; lia.
Qed.

Lemma grow_kids : kids K h 0 = 1.
Proof.
  unfold kids. assert (∀ j, 0 < j < 8 → taken K h (8 * 0 + j) = 0) as Hk.
  { intros j Hj. unfold taken. destruct (K !! (h, 8 * 0 + j)) as [x|] eqn:E; [|done].
    apply (rx_top _ _ _ _ Hrep) in E as [E _]. lia. }
  unfold sum8. rewrite (Hk 1), (Hk 2), (Hk 3), (Hk 4), (Hk 5), (Hk 6), (Hk 7) by lia. change (8 * 0 + 0) with 0. unfold taken. by rewrite Hroot.
Qed.

Lemma grow_level l p x : K !! (l, p) = Some x → l ≠ S h.
Proof. intros H. destruct (rx_val _ _ _ _ Hrep _ _ _ H) as (_ & _ & ?). lia. Qed.

Lemma grow_outside x : head ≤ x < head + 32 → x ≠ head → x ≠ head + 8 → mem s' !! x = mem s !! x.
Proof.
  intros Hx H1 H2. destruct (fresh_node _ _ _ _ Hrep v Hv Hal Hfr) as [(_ & _ & Hout) _].
  apply (gr_frame _ _ _ _ _ _ Hg); [done|done|]. destruct Hout; lia.
Qed.

Lemma grow_slot l p a i :
  <[(S h, 0) := v]> K !! (S l, p) = Some a → 0 ≤ i < 8 →
  mem s' !! node_slots a i = Some (default 0 (<[(S h, 0) := v]> K !! (l, 8 * p + i))).
Proof.
  intros Ha Hi. apply lookup_insert_Some in Ha as [[E <-]|[Hne Ha]].
  - injection E as <- <-.
    rewrite lookup_insert_ne by (intros E; apply (f_equal fst) in E; simpl in E; lia).
    unfold node_slots. destruct (decide (i = 0)) as [->|Hi0].
    + rewrite Z.add_0_r. change (8 * 0 + 0) with 0. rewrite Hroot. rewrite (gr_slot _ _ _ _ _ _ Hg). done.
    + replace (v + 8 + 8 * i) with (v + 8 * (i + 1)) by lia. rewrite (gr_rest _ _ _ _ _ _ Hg) by lia.
      destruct (K !! (h, 8 * 0 + i)) as [x|] eqn:E; [|done].
      apply (rx_top _ _ _ _ Hrep) in E as [E _]. lia.
  - pose proof (grow_level _ _ _ Ha) as Hl. destruct (rx_val _ _ _ _ Hrep _ _ _ Ha) as (_ & _ & Hlh).
    rewrite lookup_insert_ne by (intros E; apply (f_equal fst) in E; simpl in E; lia).
    rewrite <-(rx_slot _ _ _ _ Hrep l p a i Ha Hi). unfold node_slots.
    replace (a + 8 + 8 * i) with (a + 8 * (i + 1)) by lia. eapply grow_old; [done|lia].
Qed.

Lemma grow_count l p a :
  <[(S h, 0) := v]> K !! (S l, p) = Some a →
  ∃ w, mem s' !! node_count a = Some w ∧ w mod 2 ^ 32 = kids (<[(S h, 0) := v]> K) l p.
Proof.
  intros Ha. rewrite kids_insert.
  2: { destruct (K !! (S h, 0)) as [x|] eqn:E; [|done]. by apply grow_level in E. }
  apply lookup_insert_Some in Ha as [[E <-]|[Hne Ha]].
  - injection E as <- <-. rewrite grow_kids, decide_False by lia. apply Hg.
  - destruct (rx_val _ _ _ _ Hrep _ _ _ Ha) as (_ & _ & Hlh). rewrite decide_False by lia.
    destruct (rx_count _ _ _ _ Hrep _ _ _ Ha) as (w & Hw & Hk). exists w. split; [|lia].
    rewrite <-Hw. pose proof (grow_old l p a 0 Ha ltac:(lia)) as H. by rewrite Z.add_0_r in H.
Qed.

Lemma radix_rep_grow : radix_rep head (S h) s' (<[(S h, 0) := v]> K).
Proof.
  destruct (fresh_node _ _ _ _ Hrep v Hv Hal Hfr) as [Hnode Hap].
  assert (∀ l1 p1 a1 l2 p2 a2, <[(S h, 0) := v]> K !! (S l1, p1) = Some a1 → K !! (S l2, p2) = Some a2 →
    (l1, p1) ≠ (l2, p2) → apart a1 a2) as Hapart.
  { intros l1 p1 a1 l2 p2 a2 [[E <-]|[_ H1]]%lookup_insert_Some H2 Hne; [by eapply Hap|].
    by apply (rx_apart _ _ _ _ Hrep _ _ _ _ _ _ H1 H2). }
  split.
  - apply Hrep.
  - apply Hg.
  - lia.
  - rewrite lookup_insert_eq. apply Hg.
  - destruct (rx_max _ _ _ _ Hrep) as [H1 H2]. by rewrite !grow_outside by lia.
  - apply grow_slot.
  - apply grow_count.
  - intros l p x [[E <-]|[_ Hx]]%lookup_insert_Some; [injection E as <- <-; lia|].
    destruct (rx_val _ _ _ _ Hrep _ _ _ Hx) as (? & ? & ?). split_and!; [done|done|lia].
  - intros p x [[E <-]|[_ Hx]]%lookup_insert_Some; [by injection E as <-|]. by apply grow_level in Hx.
  - intros l p x [[E <-]|[_ Hx]]%lookup_insert_Some Hl; [injection E as <- <-; lia|].
    destruct (decide (l = h)) as [->|Hne].
    + apply (rx_top _ _ _ _ Hrep) in Hx as [-> _]. rewrite lookup_insert_eq. by eexists.
    + destruct (rx_par _ _ _ _ Hrep _ _ _ Hx) as [y Hy]; [lia|].
      rewrite lookup_insert_ne by (intros E; apply (f_equal fst) in E; simpl in E; lia). by eexists.
  - intros l p x [[E <-]|[_ Hx]]%lookup_insert_Some; [done|by eapply rx_node].
  - intros l1 p1 a1 l2 p2 a2 H1 H2 Hne.
    pose proof H2 as [[E <-]|[_ H2']]%lookup_insert_Some; [|by eapply (Hapart _ _ _ _ _ _ H1)].
    pose proof H1 as [[E' _]|[_ H1']]%lookup_insert_Some; [congruence|].
    destruct (Hapart l2 p2 v l1 p1 a1) as [?|?]; [done|done|congruence|by right|by left].
Qed.
End grow.
End alloc.
