(* ===== verification/RadixProps.v ===== *)
(** * tree/radix-tree: properties

    The tree at a head holds a finite map from indices to items: growth and
    insertion, lookup, the scan of several items, the deletion that does not
    delete, and the bound on the indices. *)
From S2P Require Import Prelude RadixTree RadixFacts RadixOps.

(** ** Growth *)

Section alloc.
Context (calloc : radix_state → Z) (Hc : calloc_fresh calloc).

(** One more node above the root. *)
Lemma wp_grow_round {A} head h s K v r s1 (f : Z → RX A) (Q : A → radix_state → Prop) :
  radix_rep head h s K → K !! (h, 0) = Some r → (h < 3)%nat → new_node v s s1 →
  (∀ s', radix_rep head (S h) s' (<[(S h, 0) := v]> K) → wp (f (Z.of_nat (S h))) s' Q) →
  wp (r ← load (head_rnode head);
      store (node_slots v 0) r;;
      store4 (node_count v) 1;;
      store (head_rnode head) v;;
      h ← load4 (head_height head);
      store4 (head_height head) (uint (h + 1));;
      h ← load4 (head_height head);
      f h) s1 Q.
Proof.
  intros Hrep Hr Hh Hnew HQ. pose proof Hnew as [Hv Hal Hfr Hz Hfm].
  destruct (fresh_node _ _ _ _ Hrep v Hv Hal Hfr) as [(_ & _ & Hout) _].
  pose proof (rx_head _ _ _ _ Hrep) as Hha. destruct (rx_height _ _ _ _ Hrep) as (w & Hw & Hwh).
  pose proof (rx_rnode _ _ _ _ Hrep) as Hrn. rewrite Hr in Hrn. simpl in Hrn.
  unfold head_height, head_rnode, node_slots, node_count in *.
  assert (mem s1 !! (head + 8) = Some r) as Hrn1 by (rewrite Hfm; [done|destruct Hout; lia]).
  assert (mem s1 !! head = Some w) as Hw1 by (rewrite Hfm; [done|destruct Hout; lia]).
  pose proof (Hz 0 ltac:(lia)) as Hz0. rewrite Z.add_0_r in Hz0. pose proof (Hz 1 ltac:(lia)) as Hz1.
  assert (∀ x y : Z, x ≠ y → ∀ (m : gmap Z Z) u, <[x := u]> m !! y = m !! y) as Hne
    by (intros; by rewrite lookup_insert_ne).
  assert (v + 8 ≠ head ∧ v + 8 ≠ head + 8 ∧ v ≠ head ∧ v ≠ head + 8) as (?&?&?&?) by (destruct Hout; lia).
  replace (v + 8 + 8 * 0) with (v + 8) by lia. replace (v + 8 * 1) with (v + 8) in Hz1 by lia.
  apply wp_bind. eapply wp_load; [exact Hrn1|]. apply wp_bind. eapply wp_store; [exact Hz1|].
  apply wp_bind. eapply wp_store4_low; [done|cbn [mem]; rewrite Hne by lia; exact Hz0|].
  apply wp_bind. eapply wp_store; [cbn [mem]; rewrite !Hne by lia; exact Hrn1|].
  apply wp_bind. eapply wp_load4_low; [done|cbn [mem]; rewrite !Hne by lia; exact Hw1|]. rewrite Hwh.
  assert (uint (Z.of_nat h + 1) = Z.of_nat (S h)) as -> by (unfold uint; rewrite wrap_small; lia).
  apply wp_bind. eapply wp_store4_low; [done|cbn [mem]; rewrite !Hne by lia; exact Hw1|].
  apply wp_bind. eapply wp_load4_low; [done|apply lookup_insert_eq|].
  rewrite Z.add_comm, Z.mod_add, Z.mod_small by lia. apply HQ.
  apply (radix_rep_grow head h s _ K Hrep v r Hv Hal Hfr Hr Hh). cbn [mem env]. split.
  - eexists. rewrite lookup_insert_eq. split; [done|]. lia.
  - rewrite Hne by lia. by rewrite lookup_insert_eq.
  - eexists. rewrite !Hne by lia. rewrite lookup_insert_eq. split; [done|]. done.
  - rewrite !Hne by lia. by rewrite lookup_insert_eq.
  - intros i Hi. rewrite !Hne by (destruct Hout; lia). apply Hz. lia.
  - intros x Hx1 Hx2 Hx3. rewrite !Hne by lia. by apply Hfm.
Qed.

(** What the growth leaves: the same items in a tree at least as high. *)
Definition grown_to (head : Z) (h : nat) (K : places) (index e : Z) (s' : radix_state) : Prop :=
  ∃ h' K', radix_rep head h' s' K' ∧ same_items K K' ∧ (h ≤ h')%nat ∧
    ((e = 0 ∧ h' ≠ 0%nat ∧ index ≤ maxindex h') ∨ (e = 1 ∧ ∃ s0, calloc s0 = 0)).

Lemma wp_radix_tree_extend head h s K index :
  radix_rep head h s K → 0 ≤ index ≤ maxindex 3 → h = 0%nat ∨ maxindex h < index →
  wp (radix_tree_extend calloc head index) s (λ e s', grown_to head h K index e s').
Proof.
  intros Hrep Hi Hlow. assert (h < 3)%nat as Hh.
  { destruct Hlow as [->|Hlt]; [lia|]. pose proof (rx_three _ _ _ _ Hrep).
    destruct (decide (h = 3%nat)) as [->|]; lia. }
  apply wp_bind, (wp_height _ _ _ _ Hrep), wp_bind.
  eapply wp_mono; [by eapply wp_extend_height|]. intros height s0 (-> & h' & -> & Hh' & Hih).
  apply wp_bind, (wp_rnode _ _ _ _ Hrep).
  destruct (Z.eqb_spec (default 0 (K !! (h, 0))) 0) as [E|E]; cbn [negb].
  - apply (place_none _ _ _ _ Hrep), (rx_empty _ _ _ _ Hrep) in E as ->.
    destruct (rx_height _ _ _ _ Hrep) as (w & Hw & _). apply wp_bind.
    eapply wp_store4_low; [apply Hrep|exact Hw|]. apply wp_ret. exists h', ∅.
    split; [|split_and!; [done|lia|left; split_and!; [done|lia|done]]].
    destruct Hrep. split; cbn [mem]; try done; unfold head_height, head_rnode in *.
    + eexists. rewrite lookup_insert_eq. split; [done|]. lia.
    + lia.
    + by rewrite lookup_insert_ne by lia.
    + by rewrite !lookup_insert_ne by lia.
  - destruct (K !! (h, 0)) as [r|] eqn:Hr; [clear E|done].
    eapply (wp_loop (λ n (_ : unit) s1, ∃ h1 K1 r1, radix_rep head h1 s1 K1 ∧ same_items K K1 ∧
      (h ≤ h1 < h')%nat ∧ K1 !! (h1, 0) = Some r1 ∧ n = (h' - h1)%nat)) with (n := (h' - h)%nat).
    2: { exists h, K, r. split_and!; [done|done|lia|lia|done|done]. }
    2: { lia. }
    intros n [] s1 (h1 & K1 & r1 & Hrep1 & Hsame & Hle & Hr1 & ->). apply wp_bind, wp_node_alloc; [done|..].
    + intros s2 Hoom Hq. cbn [Z.eqb]. apply wp_ret. exists h1, K1.
      split_and!; [by eapply radix_rep_quiet|done|lia|by right].
    + intros v s2 Hnew. destruct (Z.eqb_spec v 0) as [|_]; [pose proof (nn_pos _ _ _ Hnew); lia|].
      eapply (wp_grow_round head h1 s1 K1 v r1); [done|done|lia|done|]. intros s3 Hrep3. apply wp_ret.
      assert (same_items K (<[(S h1, 0) := v]> K1)) as Hsame3.
      { intros k. rewrite lookup_insert_ne by congruence. apply Hsame. }
      rewrite Z.gtb_ltb. destruct (Z.ltb_spec (Z.of_nat (S h1)) (Z.of_nat h')).
      * exists (h' - S h1)%nat. split; [lia|]. exists (S h1), (<[(S h1, 0) := v]> K1), v.
        split_and!; [done|done|lia|lia|by rewrite lookup_insert_eq|done].
      * exists (S h1), (<[(S h1, 0) := v]> K1). split_and!; [done|done|lia|left].
        assert (h' = S h1) as -> by lia. split_and!; [done|lia|done].
Qed.

(** ** Insertion *)

(** What an insertion leaves, by its result. *)
Definition inserted (head : Z) (h : nat) (I : gmap Z Z) (index item r : Z) (s' : radix_state) : Prop :=
  ∃ h', (h ≤ h')%nat ∧
    match I !! index with
    | Some _ => r = 1 ∧ radix_holds head h' s' I
    | None => (r = 0 ∧ radix_holds head h' s' (<[index := item]> I)) ∨
              (r = 1 ∧ (∃ s0, calloc s0 = 0) ∧ radix_holds head h' s' I)
    end.

Lemma inserted_oom head h h' s' K K' I index item :
  (h ≤ h')%nat → radix_rep head h' s' K' → same_items K K' → (∀ k, K !! (0%nat, k) = I !! k) →
  (∃ s0, calloc s0 = 0) → inserted head h I index item 1 s'.
Proof.
  intros Hle Hrep Hsame HI Hoom.
  assert (radix_holds head h' s' I) as Hh by (exists K'; split; [done|]; intros; by rewrite Hsame).
  exists h'. split; [done|]. destruct (I !! index); [done|by right].
Qed.

(** The end of an insertion, in a tree that is high enough. *)
Lemma wp_insert_end head h0 h s K K0 I index item :
  radix_rep head h s K → same_items K0 K → (∀ k, K0 !! (0%nat, k) = I !! k) →
  (h0 ≤ h)%nat → h ≠ 0%nat → 0 ≤ index ≤ maxindex h → item ≠ 0 →
  wp (height ← load4 (head_height head);
      r ← loop (S (Z.to_nat height)) (insert_level calloc index)
            (head_rnode head, 0, height, uint (uint (height - 1) * RADIX_TREE_MAP_SHIFT));
      match r with
      | None => mret 1
      | Some (slot, node) =>
          v ← load slot;
          if negb (v =? 0) then printf "slot have been occupied";; mret 1 else
          when (negb (node =? 0)) (count_up node);;
          store slot item;;
          mret 0
      end) s (inserted head h0 I index item).
Proof.
  intros Hrep Hsame0 HI Hle Hh [Hi0 Hi] Hitem. apply wp_bind, (wp_height _ _ _ _ Hrep), wp_bind.
  eapply (wp_insert_loop calloc Hc head h s K); [done|done|by apply maxindex_digits|lia|..].
  - intros s' K' Hoom Hrep' Hsame. apply wp_ret. apply (inserted_oom _ _ h _ K0 K'); try done.
    intros k. by rewrite Hsame, Hsame0.
  - intros s' K' Hrep' Hsame Hop. apply wp_bind. eapply wp_load; [by apply (place_value _ _ _ _ Hrep')|].
    assert (K' !! (0%nat, index) = I !! index) as HKI by by rewrite Hsame, Hsame0.
    destruct (Z.eqb_spec (default 0 (K' !! (0%nat, index))) 0) as [E|E]; cbn [negb].
    + apply (place_none _ _ _ _ Hrep') in E. apply wp_seq2.
      eapply (wp_place_item head h s' K' Hrep' 0 index); [done|done|done|done|done|].
      intros s'' Hrep''. apply wp_ret. exists h. split; [done|]. rewrite <-HKI, E. left. split; [done|].
      eexists. split; [done|]. intros k. destruct (decide (k = index)) as [->|Hne].
      * by rewrite !lookup_insert_eq.
      * rewrite !lookup_insert_ne by congruence. by rewrite Hsame, Hsame0.
    + apply wp_bind, wp_printf. intros s'' Hq. apply wp_ret. exists h. split; [done|]. rewrite <-HKI.
      destruct (K' !! (0%nat, index)); [|done]. split; [done|]. exists K'.
      split; [by eapply radix_rep_quiet|]. intros k. by rewrite Hsame, Hsame0.
Qed.

Lemma wp_radix_tree_insert head h s I index item :
  radix_holds head h s I → 0 ≤ index ≤ maxindex 3 → item ≠ 0 →
  wp (radix_tree_insert calloc head index item) s (inserted head h I index item).
Proof.
  intros (K & Hrep & HI) Hi Hitem.
  apply wp_bind, (wp_maxindex _ _ _ _ Hrep), wp_bind.
  assert (∀ Q, Q (maxindex h) s →
    wp (if index >? maxindex h then mret (maxindex h) else radix_tree_maxindex head) s Q) as Hm.
  { intros Q HQ. destruct (index >? maxindex h); [done|]. by apply (wp_maxindex _ _ _ _ Hrep). }
  apply Hm, wp_bind. clear Hm. rewrite Z.gtb_ltb.
  destruct (Z.ltb_spec (maxindex h) index) as [Hlt|Hge];
    [|destruct (Z.eqb_spec (maxindex h) 0) as [E0|E0]]; cbn [orb].
  3: { apply wp_ret. cbn [Z.eqb negb]. apply (wp_insert_end head h h s K K); try done; [|lia].
       by intros ->. }
  all: eapply wp_mono; [eapply (wp_radix_tree_extend head h s K); [done|done|]|].
  1: by right.
  2: { left. destruct h as [|h]; [done|]. pose proof (maxindex_mono 1 (S h) ltac:(lia)) as Hm.
       change (maxindex 1) with 7 in Hm. lia. }
  all: intros e s' (h' & K' & Hrep' & Hsame & Hle & [(-> & Hh' & Hi')|(-> & Hoom)]); cbn [Z.eqb negb].
  1, 3: apply (wp_insert_end head h h' s' K' K); (done || lia).
  all: apply wp_ret; by apply (inserted_oom _ _ h' _ K K').
Qed.
End alloc.

(** ** Lookup *)

(** The nodes above an item are there. *)
Lemma rx_above head h s K index :
  radix_rep head h s K → is_Some (K !! (0%nat, index)) →
  ∀ l, (l ≤ h)%nat → is_Some (K !! (l, prefix index l)).
Proof.
  intros Hrep H0 l. induction l as [|l IH]; intros Hl; [by rewrite prefix_0|].
  destruct IH as [v Hv]; [lia|]. rewrite prefix_succ. by apply (rx_par _ _ _ _ Hrep l _ v).
Qed.

Lemma holds_range head h s K index v :
  radix_rep head h s K → K !! (0%nat, index) = Some v → 0 ≤ index ≤ maxindex h.
Proof.
  intros Hrep Hv. destruct (rx_val _ _ _ _ Hrep _ _ _ Hv) as (_ & Hpos & _). split; [done|].
  apply maxindex_digits; [done|].
  destruct (rx_above _ _ _ _ index Hrep ltac:(by eexists) h ltac:(done)) as [x Hx].
  by destruct (rx_top _ _ _ _ Hrep _ _ Hx).
Qed.

Lemma wp_radix_tree_lookup head h s I index :
  radix_holds head h s I → 0 ≤ index →
  wp (radix_tree_lookup head index) s (λ r s', quiet s s' ∧ r = default 0 (I !! index)).
Proof.
  intros (K & Hrep & HI) Hi. apply wp_bind, (wp_height _ _ _ _ Hrep), wp_bind, (wp_maxindex _ _ _ _ Hrep).
  rewrite <-HI, Z.gtb_ltb. destruct (Z.ltb_spec (maxindex h) index) as [Hlt|Hge].
  { apply wp_bind, wp_printf. intros s' Hq. apply wp_ret. split; [done|].
    destruct (K !! (0%nat, index)) as [v|] eqn:E; [|done]. apply (holds_range _ _ _ _ _ _ Hrep) in E. lia. }
  destruct (decide (h = 0%nat)) as [->|Hh].
  { cbn [Z.of_nat Z.to_nat loop]. apply wp_bind. cbn [Z.gtb Z.compare].
    apply wp_bind, (wp_rnode _ _ _ _ Hrep), wp_ret, wp_ret. split; [done|].
    change (maxindex 0) with 0 in Hge. by assert (index = 0) as -> by lia. }
  eapply (wp_loop (λ l loc s', s' = s ∧ open_place h K l (prefix index l) ∧
    ∃ sh, loc = (slot_of head h K l (prefix index l), Z.of_nat l, sh) ∧
      ((1 ≤ l)%nat → sh = 3 * Z.of_nat (l - 1)))) with (n := h); [|split; [done|]|lia].
  2: { assert (prefix index h = 0) as -> by by apply maxindex_digits.
       pose proof (rx_three _ _ _ _ Hrep). split; [by apply root_place|].
       eexists. unfold slot_of. rewrite decide_True by done. split; [done|]. intros. apply shift_start. lia. }
  intros l [[slot height] shift] s' (-> & Hop & sh & E & Hsh). injection E as -> -> ->.
  rewrite Z.gtb_ltb.
  pose proof (place_value _ _ _ _ Hrep _ _ Hop) as Hval. destruct l as [|l].
  { cbn [Z.of_nat Z.ltb Z.compare]. apply wp_bind. eapply wp_load; [exact Hval|]. apply wp_ret.
    by rewrite prefix_0. }
  destruct (Z.ltb_spec 0 (Z.of_nat (S l))) as [_|]; [|lia].
  apply wp_bind. eapply wp_load; [exact Hval|]. destruct Hop as [Hle _ _ _].
  destruct (Z.eqb_spec (default 0 (K !! (S l, prefix index (S l)))) 0) as [E|E].
  - apply (place_none _ _ _ _ Hrep) in E. apply wp_bind, wp_printf. intros s'' Hq. apply wp_ret.
    split; [done|]. destruct (K !! (0%nat, index)) as [v|] eqn:Ev; [|done].
    destruct (rx_above _ _ _ _ index Hrep ltac:(by eexists) (S l) Hle). congruence.
  - destruct (K !! (S l, prefix index (S l))) as [a|] eqn:Ha; [|done]. simpl in Hval.
    pose proof (rx_three _ _ _ _ Hrep).
    apply wp_bind. eapply wp_load; [exact Hval|]. apply wp_bind. rewrite (Hsh ltac:(lia)).
    apply wp_digit; [lia|]. apply wp_ret. exists l. split; [lia|]. split; [done|].
    pose proof (digit_bounds index l) as Hd.
    destruct (open_down _ _ _ _ Hrep l _ a (digit index l) Ha Hd) as (Hop & Hs & Hn).
    rewrite prefix_digit in Hop, Hs, Hn. rewrite land_mask. replace (S l - 1)%nat with l by lia.
    split; [done|]. eexists. split; [rewrite Hs; repeat f_equal; lia|].
    intros. apply shift_next. lia.
Qed.

(** ** Several items *)

(** The items with indices from [lo] up to [hi], in order. *)
Definition items (I : gmap Z Z) (lo hi : Z) : list Z := omap (λ k, I !! k) (seqZ lo (hi - lo)).

Lemma items_app I lo mid hi : lo ≤ mid ≤ hi → items I lo hi = items I lo mid ++ items I mid hi.
Proof.
  intros H. unfold items. replace (hi - lo) with ((mid - lo) + (hi - mid)) by lia.
  rewrite seqZ_app by lia. replace (lo + (mid - lo)) with mid by lia. apply omap_app.
Qed.

Lemma items_succ I lo k :
  lo ≤ k → items I lo (k + 1) = items I lo k ++ (if I !! k is Some v then [v] else []).
Proof.
  intros. rewrite (items_app _ _ k) by lia. f_equal. unfold items.
  rewrite (seqZ_cons k) by lia. replace (Z.pred (k + 1 - k)) with 0 by lia. simpl. by destruct (I !! k).
Qed.

Lemma items_empty lo hi : items ∅ lo hi = [].
Proof. unfold items. induction (seqZ lo (hi - lo)) as [|x l IH]; [done|]. cbn. by rewrite lookup_empty. Qed.

Lemma items_prefix I lo mid hi n :
  lo ≤ mid ≤ hi → length (items I lo mid) = n → take n (items I lo hi) = items I lo mid.
Proof. intros H <-. rewrite (items_app I lo mid hi) by done. by rewrite take_app_length. Qed.

(** The array with [W] at its start. *)
Definition written (W r0 : list Z) : list Z := W ++ drop (length W) r0.

Lemma wp_put_result W r0 i v s (Q : list Z → radix_state → Prop) :
  i = Z.of_nat (length W) → (length W < length r0)%nat → Q (written (W ++ [v]) r0) s →
  wp (put_result (written W r0) i v) s Q.
Proof.
  intros -> Hl HQ. unfold written in *. apply wp_bind, wp_assert.
  { apply Z.ltb_lt. rewrite length_app, length_drop. lia. }
  apply wp_ret. rewrite Nat2Z.id, insert_app_r_alt, Nat.sub_diag by lia.
  destruct (drop (length W) r0) as [|x rest] eqn:E.
  { apply (f_equal length) in E. rewrite length_drop in E. simpl in E. lia. }
  simpl. replace (W ++ v :: rest) with ((W ++ [v]) ++ drop (length (W ++ [v])) r0); [done|].
  rewrite <-app_assoc. simpl. do 2 f_equal. rewrite length_app. simpl.
  pose proof (drop_drop r0 1 (length W)) as Hd. rewrite E in Hd. by rewrite <-Hd.
Qed.

Lemma items_none I lo hi : hi ≤ lo → items I lo hi = [].
Proof. intros. unfold items. by rewrite seqZ_nil by lia. Qed.

Lemma items_done I lo mid hi n :
  mid ≤ hi ∨ mid = lo → lo ≤ mid →
  Z.of_nat (length (items I lo mid)) = n ∨ (Z.of_nat (length (items I lo mid)) ≤ n ∧ hi ≤ mid) →
  take (Z.to_nat n) (items I lo hi) = items I lo mid.
Proof.
  intros Hm Hle Hn. destruct (decide (mid ≤ hi)) as [Hmh|Hmh].
  - destruct Hn as [<-|[Hn Hh]].
    + apply items_prefix; [done|lia].
    + assert (mid = hi) as -> by lia. apply take_ge. lia.
  - assert (mid = lo) as -> by lia. rewrite !items_none by lia. apply take_nil.
Qed.

Section scan.
Context (head : Z) (h : nat) (s : radix_state) (K : places) (Hrep : radix_rep head h s K).
Context (I : gmap Z Z) (HI : ∀ k, K !! (0%nat, k) = I !! k).
Context (first M : Z) (r0 : list Z) (Hfirst : 0 ≤ first) (HM : M ≤ Z.of_nat (length r0)).

(** What a scan up to [hi] gives: stopped by the number, or at the next leaf. *)
Definition scanned (offset hi : Z) (r : bool * Z * Z * list Z) : Prop :=
  let '(out, index, nr, results) := r in
  ∃ W, results = written W r0 ∧ offset + nr = Z.of_nat (length W) ∧
    ((out = true ∧ index = 0 ∧ Z.of_nat (length W) = M ∧ ∃ e, first ≤ e ≤ hi ∧ W = items I first e) ∨
     (out = false ∧ index = hi ∧ Z.of_nat (length W) < M ∧ W = items I first hi)).

Lemma item_value v index : K !! (0%nat, index) = Some v → v ≠ 0.
Proof. intros Hv. by destruct (rx_val _ _ _ _ Hrep _ _ _ Hv). Qed.

Lemma wp_leaf_scan a p offset nr W index :
  K !! (1%nat, p) = Some a → 0 ≤ p < 64 → p = index / 8 → first ≤ index →
  W = items I first index → offset + nr = Z.of_nat (length W) → Z.of_nat (length W) < M →
  wp (leaf_scan a (M - offset) offset (Z.land index RADIX_TREE_MAP_MASK) index nr (written W r0)) s
    (λ r s', s' = s ∧ scanned offset (8 * p + 8) r).
Proof.
  intros Ha Hp Epi Hle HW Hnr HlM. rewrite land_mask. unfold leaf_scan.
  eapply (wp_loop (λ n loc s', ∃ W index nr, s' = s ∧ first ≤ index ∧ 8 * p ≤ index ∧
    index = 8 * p + 8 - Z.of_nat n ∧ W = items I first index ∧ offset + nr = Z.of_nat (length W) ∧
    Z.of_nat (length W) < M ∧ loc = (index - 8 * p, index, nr, written W r0)))
    with (n := Z.to_nat (8 - index mod 8)); [|exists W, index, nr; split_and!; try done; [lia|lia|]|lia].
  2: { repeat f_equal. lia. }
  clear W nr index HW Hnr HlM Hle Epi.
  intros n loc s' (W & index & nr & -> & Hle & Hlo & Ei & HW & Hnr & HlM & ->).
  unfold RADIX_TREE_MAP_SIZE, RADIX_TREE_MAP_SHIFT. change (Z.shiftl 1 3) with 8.
  destruct (Z.ltb_spec (index - 8 * p) 8) as [Hlt|Hge].
  2: { apply wp_ret. split; [done|]. assert (index = 8 * p + 8) as -> by lia.
       exists W. split_and!; [done|done|by right]. }
  assert (uint (index + 1) = index + 1) as -> by (unfold uint; apply wrap_small; lia).
  apply wp_bind. eapply wp_load; [apply (rx_slot _ _ _ _ Hrep 0 p a); [done|lia]|].
  replace (8 * p + (index - 8 * p)) with index by lia. rewrite HI.
  pose proof (items_succ I first index Hle) as Hnext.
  destruct (I !! index) as [v|] eqn:Ev; cbn [default from_option id].
  - assert (v ≠ 0) as Hv by (apply (item_value v index); by rewrite HI).
    apply Z.eqb_neq in Hv as ->. cbn [negb]. apply wp_bind.
    apply wp_put_result; [done|lia|]. rewrite HW in *. rewrite <-Hnext.
    assert (offset + (nr + 1) = Z.of_nat (length (items I first (index + 1)))) as Hnr'.
    { rewrite Hnext, length_app. simpl. lia. }
    destruct (Z.eqb_spec (nr + 1) (M - offset)) as [E|E].
    + apply wp_ret. split; [done|]. eexists. split_and!; [done|done|]. left.
      split_and!; [done|done|lia|]. exists (index + 1). split; [lia|done].
    + apply wp_ret. exists (n - 1)%nat. split; [lia|].
      exists (items I first (index + 1)), (index + 1), (nr + 1).
      rewrite Hnext, length_app in Hnr'. simpl in Hnr'. rewrite Hnext, length_app. simpl.
      split_and!; try (done || lia). repeat f_equal; lia.
  - cbn [Z.eqb negb]. apply wp_ret. exists (n - 1)%nat. split; [lia|].
    rewrite app_nil_r in Hnext. exists W, (index + 1), nr.
    split_and!; try (done || lia || congruence). repeat f_equal; lia.
Qed.

(** Down to the leaf of an index, which must be there, and along it. *)
Lemma wp___lookup W index :
  h ≠ 0%nat → first ≤ index ≤ maxindex h → is_Some (K !! (1%nat, index / 8)) →
  W = items I first index → Z.of_nat (length W) < M →
  wp (__lookup head (written W r0) (Z.of_nat (length W)) index (M - Z.of_nat (length W))) s (λ r s', s' = s ∧
    let '(nr, next, results) := r in
    ∃ out, scanned (Z.of_nat (length W)) (8 * (index / 8) + 8) (out, next, nr, results)).
Proof.
  intros Hh [Hle Hmax] Hleaf HW HlM. apply wp_bind, (wp_height _ _ _ _ Hrep), wp_bind, (wp_rnode _ _ _ _ Hrep).
  pose proof (rx_three _ _ _ _ Hrep). assert (prefix index h = 0) as Hp by (apply maxindex_digits; [lia|done]).
  assert (∀ l, (1 ≤ l ≤ h)%nat → is_Some (K !! (l, prefix index l))) as Hab.
  { intros l Hl. induction l as [|l IH]; [lia|]. destruct (decide (l = 0)%nat) as [->|].
    - by rewrite prefix_succ, prefix_0.
    - destruct IH as [v Hv]; [lia|]. rewrite prefix_succ. apply (rx_par _ _ _ _ Hrep l _ v); [done|lia]. }
  eapply (wp_loop (λ l loc s', s' = s ∧ (l ≤ h)%nat ∧ match l with
    | O => ∃ v sh next nr results, loc = (v, 0, sh, next, nr, results) ∧
        ∃ out, scanned (Z.of_nat (length W)) (8 * (index / 8) + 8) (out, next, nr, results)
    | S l' => ∃ a, K !! (l, prefix index l) = Some a ∧
        loc = (a, Z.of_nat l, 3 * Z.of_nat l', index, 0, written W r0) end)) with (n := h); [|split; [done|]|lia].
  2: { split; [done|]. destruct (Hab h) as [a Ha]; [lia|]. destruct h as [|h']; [done|].
       exists a. split; [done|]. rewrite Hp in Ha. rewrite Ha. simpl default.
       rewrite shift_start by lia. repeat f_equal; lia. }
  intros l loc s' (-> & Hl & Hinv). destruct l as [|l].
  { destruct Hinv as (v & sh & next & nr & results & -> & Hs). cbn [Z.gtb Z.compare]. by apply wp_ret. }
  destruct Hinv as (a & Ha & ->). rewrite Z.gtb_ltb. destruct (Z.ltb_spec 0 (Z.of_nat (S l))) as [_|]; [|lia].
  apply wp_bind, wp_digit; [lia|]. rewrite land_mask. cbv zeta.
  pose proof (digit_bounds index l) as Hd. pose proof (rx_slot _ _ _ _ Hrep l _ a _ Ha Hd) as Hslot.
  rewrite prefix_digit in Hslot. change (index / 8 ^ Z.of_nat l mod 8) with (digit index l).
  replace (Z.of_nat (S l) - 1) with (Z.of_nat l) by lia. destruct l as [|l].
  - cbn [Z.of_nat Z.eqb negb]. apply wp_bind, wp_ret. cbn [when]. apply wp_bind, wp_ret, wp_bind.
    assert (0 ≤ index / 8 < 64) as Hpb.
    { pose proof (maxindex_mono h 3 ltac:(lia)) as Hm. change (maxindex 3) with 511 in Hm. lia. }
    rewrite prefix_succ, prefix_0 in Ha.
    eapply wp_mono; [apply (wp_leaf_scan a (index / 8)); (done || lia)|].
    intros [[[out next] nr] results] s' (-> & Hsc). destruct out.
    + apply wp_ret. split; [done|]. by exists true.
    + apply wp_bind. eapply wp_load; [exact Hslot|]. apply wp_ret. exists 0%nat. split; [lia|].
      split_and!; [done|lia|]. do 5 eexists. split; [done|]. by exists false.
  - destruct (Hab (S l)) as [b Hb]; [lia|]. rewrite Hb in Hslot. simpl default in Hslot.
    assert (b ≠ 0) as Hb0 by by destruct (rx_val _ _ _ _ Hrep _ _ _ Hb).
    assert ((Z.of_nat (S l) =? 0) = false) as -> by (apply Z.eqb_neq; lia). cbn [negb].
    apply wp_bind, wp_bind. eapply wp_load; [exact Hslot|]. apply wp_ret.
    apply Z.eqb_neq in Hb0 as ->. cbn [when]. apply wp_bind, wp_ret, wp_bind, wp_ret, wp_bind.
    eapply wp_load; [exact Hslot|]. apply wp_ret. exists (S l). split; [lia|]. split_and!; [done|lia|].
    exists b. split; [done|]. do 3 f_equal. unfold RADIX_TREE_MAP_SHIFT, uint. rewrite wrap_small by lia. f_equal. lia.
Qed.
End scan.

(** Every leaf from that of [first] on is there. *)
Definition dense (h : nat) (I : gmap Z Z) (first : Z) : Prop :=
  ∀ b, first / 8 ≤ b → 8 * b ≤ maxindex h → ∃ k, k / 8 = b ∧ is_Some (I !! k).

(** The next leaf begins within the tree or after its last index. *)
Lemma leaf_end h index : h ≠ 0%nat → 0 ≤ index ≤ maxindex h → 8 * (index / 8) + 8 ≤ maxindex h + 1.
Proof.
  intros Hh Hi. destruct h as [|h]; [done|]. unfold maxindex in *.
  rewrite Nat2Z.inj_succ, Z.pow_succ_r in * by lia. lia.
Qed.

Lemma wp_radix_tree_gang_lookup head h s I first M r0 :
  radix_holds head h s I → 0 ≤ first → 0 ≤ M ≤ Z.of_nat (length r0) → dense h I first →
  wp (radix_tree_gang_lookup head r0 first M) s (λ '(n, results) s', s' = s ∧
    let L := take (Z.to_nat M) (items I first (maxindex h + 1)) in
    n = Z.of_nat (length L) ∧ results = L ++ drop (length L) r0).
Proof.
  intros (K & Hrep & HI) Hfirst HM Hdense.
  apply wp_bind, (wp_maxindex _ _ _ _ Hrep), wp_bind, (wp_rnode _ _ _ _ Hrep).
  destruct (decide (K !! (h, 0) = None)) as [Hn|Hroot].
  { rewrite Hn. cbn [default from_option Z.eqb orb]. apply wp_ret. split; [done|].
    apply (rx_empty _ _ _ _ Hrep) in Hn as ->. assert (I = ∅) as ->.
    { apply map_empty. intros k. by rewrite <-HI. }
    rewrite items_empty, take_nil. done. }
  destruct (K !! (h, 0)) as [r|] eqn:Hr; [clear Hroot|done].
  destruct (rx_top _ _ _ _ Hrep _ _ Hr) as [_ Hh]. destruct (rx_val _ _ _ _ Hrep _ _ _ Hr) as (Hr0 & _ & _).
  cbn [default from_option id]. apply Z.eqb_neq in Hr0 as ->. pose proof (rx_three _ _ _ _ Hrep) as H3.
  pose proof (maxindex_mono 1 h ltac:(lia)) as Hmx. change (maxindex 1) with 7 in Hmx.
  destruct (Z.eqb_spec (maxindex h) 0) as [|_]; [lia|]. cbn [orb].
  eapply (wp_loop (λ n loc s', ∃ index, let W := items I first index in s' = s ∧ first ≤ index ∧
    (index ≤ maxindex h + 1 ∨ index = first) ∧ Z.of_nat (length W) ≤ M ∧
    loc = (index, Z.of_nat (length W), written W r0) ∧ n = Z.to_nat (maxindex h / 8 + 1 - index / 8)))
    with (n := Z.to_nat (maxindex h / 8 + 1 - first / 8)); [| |lia].
  2: { exists first. cbv zeta. rewrite items_none by lia. simpl. split_and!; (done || lia || by right). }
  intros n loc s' (index & -> & Hle & Hend & HlM & -> & ->). cbv zeta in *.
  destruct (Z.ltb_spec (Z.of_nat (length (items I first index))) M) as [Hlt|Hge].
  2: { apply wp_ret. split; [done|]. rewrite (items_done I first index) by (done || lia). done. }
  rewrite Z.gtb_ltb. destruct (Z.ltb_spec (maxindex h) index) as [Hout|Hin].
  { apply wp_ret. split; [done|]. rewrite (items_done I first index) by (done || lia). done. }
  assert (is_Some (K !! (1%nat, index / 8))) as Hleaf.
  { destruct (Hdense (index / 8)) as (k & Hk & Hv); [lia..|]. rewrite <-HI in Hv.
    pose proof (rx_above _ _ _ _ k Hrep Hv 1 ltac:(lia)) as Hp. by rewrite prefix_succ, prefix_0, Hk in Hp. }
  pose proof (leaf_end h index Hh ltac:(lia)) as Hle8. apply wp_bind.
  eapply wp_mono; [apply (wp___lookup head h s K Hrep I HI first M r0); (done || lia)|].
  intros [[nr next] results] s' (-> & out & W & -> & Hnr & Hcase). cbv zeta.
  destruct Hcase as [(_ & -> & HW & e & He & ->)|(_ & -> & HW & ->)].
  - cbn [Z.eqb]. apply wp_ret. split; [done|]. rewrite (items_done I first e) by lia. by rewrite Hnr.
  - destruct (Z.eqb_spec (8 * (index / 8) + 8) 0) as [|_]; [lia|]. apply wp_ret. eexists. split; [|exists (8 * (index / 8) + 8)].
    2: { split_and!; [done|lia|lia|lia|by rewrite Hnr|done]. } lia.
Qed.

(** ** The bound on the indices *)

Lemma load_maxindex_eq head h s K i :
  radix_rep head h s K → (i < 4)%nat → load_maxindex head (Z.of_nat i) s = Ok (maxindex i, s).
Proof.
  intros Hrep Hi. destruct (rx_max _ _ _ _ Hrep) as [H1 H2].
  assert (wp (load_maxindex head (Z.of_nat i)) s (λ a s', a = maxindex i ∧ s' = s)) as Hwp.
  { apply wp_load_maxindex; [apply Hrep|done|done|done|done]. }
  apply wp_ok in Hwp as (a & s' & -> & -> & ->). done.
Qed.

Lemma extend_height_ub head h s K index fuel i :
  radix_rep head h s K → maxindex 3 < index → (5 ≤ i + fuel)%nat → (0 < i ≤ 4)%nat →
  loop fuel (λ height,
    m ← load_maxindex head height;
    if index >? m then
      when (height + 1 >? RADIX_TREE_MAX_PATH) (printf "index are out of the capacity of radix tree");;
      mret (inl (height + 1))
    else mret (inr height)) (Z.of_nat i) s = @UB (Z * radix_state).
Proof.
  intros Hrep Hi. revert i. induction fuel as [|fuel IH]; intros i Hf Hi4; [lia|].
  simpl. unfold mbind, M_bind. destruct (decide (i = 4)%nat) as [->|Hne].
  { done. }
  rewrite (load_maxindex_eq head h s K) by (done || lia).
  pose proof (maxindex_mono i 3 ltac:(lia)). rewrite Z.gtb_ltb.
  destruct (Z.ltb_spec (maxindex i) index); [|lia].
  assert ((Z.of_nat i + 1 >? RADIX_TREE_MAX_PATH) = false) as ->.
  { unfold RADIX_TREE_MAX_PATH. rewrite Z.gtb_ltb. apply Z.ltb_ge. lia. }
  simpl. replace (Z.of_nat i + 1) with (Z.of_nat (S i)) by lia. apply IH; lia.
Qed.

Lemma radix_tree_insert_out calloc head h s I index item :
  radix_holds head h s I → maxindex 3 < index → radix_tree_insert calloc head index item s = UB.
Proof.
  intros (K & Hrep & _) Hi. pose proof (rx_three _ _ _ _ Hrep) as H3.
  pose proof (maxindex_mono h 3 H3) as Hm.
  assert (radix_tree_maxindex head s = Ok (maxindex h, s)) as Hmax.
  { assert (wp (radix_tree_maxindex head) s (λ a s', a = maxindex h ∧ s' = s)) as Hwp by by apply (wp_maxindex _ _ _ _ Hrep).
    apply wp_ok in Hwp as (a & s' & -> & -> & ->). done. }
  assert (load4 (head_height head) s = Ok (Z.of_nat h, s)) as Hh.
  { assert (wp (load4 (head_height head)) s (λ a s', a = Z.of_nat h ∧ s' = s)) as Hwp by by apply (wp_height _ _ _ _ Hrep).
    apply wp_ok in Hwp as (a & s' & -> & -> & ->). done. }
  assert ((index >? maxindex h) = true) as Hgt by (apply Z.gtb_lt; lia).
  unfold radix_tree_insert, radix_tree_extend, mbind, M_bind, mret, M_ret.
  rewrite Hmax, Hgt. cbn [orb]. rewrite Hh.
  replace (uint (Z.of_nat h + 1)) with (Z.of_nat (S h)) by (unfold uint; rewrite wrap_small; lia).
  assert (extend_height head index (Z.of_nat (S h)) s = UB) as ->; [|done].
  apply (extend_height_ub head h s K); (done || lia).
Qed.

(** ** Deletion *)

(** The deletion takes the address of the root pointer for a node: it counts
    down the low half of that pointer and gives the address of a slot after it. *)
Lemma wp_radix_tree_delete head s I index :
  radix_holds head 1 s I → 0 < head → 0 ≤ index ≤ 7 →
  wp (radix_tree_delete head index) s (λ ret s', ret = head + 16 + 8 * index ∧ ∃ r,
    mem s !! (head + 8) = Some r ∧
    s' = St (<[head + 8 := r / 2 ^ 32 * 2 ^ 32 + uint (r mod 2 ^ 32 - 1)]> (mem s)) (env s) ∧
    (r / 2 ^ 32 * 2 ^ 32 + uint (r mod 2 ^ 32 - 1)) mod 8 = 7).
Proof.
  intros (K & Hrep & _) H0 Hi. pose proof (rx_head _ _ _ _ Hrep) as Hal.
  pose proof (rx_rnode _ _ _ _ Hrep) as Hr. unfold head_rnode in Hr.
  set (r := default 0 (K !! (1%nat, 0))) in *.
  assert (r mod 8 = 0) as Hrmod.
  { subst r. destruct (K !! (1%nat, 0)) as [a|] eqn:E; [|done]. by destruct (rx_node _ _ _ _ Hrep _ _ _ E) as (_ & ? & _). }
  apply wp_bind, (wp_height _ _ _ _ Hrep), wp_bind, (wp_maxindex _ _ _ _ Hrep).
  change (maxindex 1) with 7. rewrite Z.gtb_ltb. destruct (Z.ltb_spec 7 index) as [|_]; [lia|].
  change (Z.of_nat 1) with 1. change (uint (uint (1 - 1) * RADIX_TREE_MAP_SHIFT)) with (3 * Z.of_nat 0).
  apply wp_bind. unfold delete_down. change (S (Z.to_nat 1)) with 2%nat. cbn [loop].
  assert ((head_rnode head =? 0) = false) as Hs0 by (apply Z.eqb_neq; unfold head_rnode; lia).
  apply wp_bind. cbn [Z.eqb negb]. rewrite Hs0. apply wp_bind, wp_digit; [lia|].
  apply wp_bind. apply wp_bind, wp_assert; [done|]. apply wp_ret, wp_ret.
  change (1 - 1) with 0. cbn [Z.eqb negb]. apply wp_bind, wp_ret, wp_ret.
  rewrite land_mask. change (Z.of_nat 0) with 0. rewrite Z.pow_0_r, Z.div_1_r, Z.mod_small by lia.
  unfold node_slots, head_rnode. destruct (Z.eqb_spec (head + 8 + 8 + 8 * index) 0) as [|_]; [lia|].
  set (c := uint (r mod 2 ^ 32 - 1)).
  assert (c = (r mod 2 ^ 32 - 1) mod 2 ^ 32) as Hc by done.
  apply wp_bind. unfold delete_up. cbn [length loop]. apply wp_bind.
  destruct (Z.eqb_spec (head + 8) 0) as [|_]; [lia|].
  apply wp_bind. unfold node_count. eapply wp_load4_low; [lia|exact Hr|]. cbv zeta.
  apply wp_bind. eapply wp_store4_low; [lia|exact Hr|]. fold c.
  destruct (Z.eqb_spec c 0) as [|_]; [lia|]. apply wp_ret. apply wp_ret.
  apply wp_bind. eapply wp_load; [apply lookup_insert_eq|].
  destruct (Z.eqb_spec (r / 2 ^ 32 * 2 ^ 32 + c) 0) as [|_]; [lia|]. cbn [when].
  apply wp_bind, wp_ret, wp_ret. split; [lia|]. exists r. split_and!; [done|done|lia].
Qed.

(** What is left is no radix tree. *)
Lemma root_unaligned head h s I r :
  mem s !! (head + 8) = Some r → r mod 8 = 7 → ¬ radix_holds head h s I.
Proof.
  intros Hr Hm (K & Hrep & _). pose proof (rx_rnode _ _ _ _ Hrep) as Hrn. unfold head_rnode in Hrn.
  rewrite Hr in Hrn. injection Hrn as ->. destruct (K !! (h, 0)) as [a|] eqn:E; [|done].
  destruct (rx_top _ _ _ _ Hrep _ _ E) as [_ Hh]. destruct h as [|h]; [done|].
  destruct (rx_node _ _ _ _ Hrep _ _ _ E) as (_ & Hal & _). simpl in Hm. lia.
Qed.

(** ** A new tree *)

(** One entry of the table, at [v]: the two words that hold the table. *)
Lemma wp_init_round {A} v i w1 w2 m e (f : RX A) (Q : A → radix_state → Prop) :
  v mod 8 = 0 → 0 ≤ i < 4 → m !! (v + 16) = Some w1 → m !! (v + 24) = Some w2 →
  (∀ m', m' !! (v + 16) = Some (if decide (i = 0) then w1 / 2 ^ 32 * 2 ^ 32 else if decide (i = 1) then 7 * 2 ^ 32 + w1 mod 2 ^ 32 else w1) →
    m' !! (v + 24) = Some (if decide (i = 2) then w2 / 2 ^ 32 * 2 ^ 32 + 63 else if decide (i = 3) then 511 * 2 ^ 32 + w2 mod 2 ^ 32 else w2) →
    m' !! v = m !! v → m' !! (v + 8) = m !! (v + 8) → wp f (St m' e) Q) →
  wp (x ← __maxindex i; store_maxindex v i x;; f) (St m e) Q.
Proof.
  intros Hal Hi H1 H2 HQ.
  assert (__maxindex i (St m e) = Ok (8 ^ i - 1, St m e)) as Em.
  { assert (i = 0 ∨ i = 1 ∨ i = 2 ∨ i = 3) as [->|[->|[->| ->]]] by lia; reflexivity. }
  apply wp_bind. unfold wp at 1. rewrite Em. apply wp_bind, wp_bind, wp_assert.
  { unfold RADIX_TREE_MAX_PATH. apply Z.ltb_lt. lia. }
  unfold height_to_maxindex.
  assert (i = 0 ∨ i = 1 ∨ i = 2 ∨ i = 3) as [->|[->|[->| ->]]] by lia.
  - replace (v + 16 + 4 * 0) with (v + 16) by lia. eapply wp_store4_low; [lia|done|].
    apply HQ; simpl; [rewrite lookup_insert_eq; f_equal; lia|by rewrite !lookup_insert_ne by lia..].
  - replace (v + 16 + 4 * 1) with (v + 20) by lia.
    eapply (wp_store4_high _ _ w1); [lia|cbn [mem]; rewrite <-H1; f_equal; lia|].
    replace (v + 20 - 4) with (v + 16) by lia.
    apply HQ; simpl; [rewrite lookup_insert_eq; f_equal; lia|by rewrite !lookup_insert_ne by lia..].
  - replace (v + 16 + 4 * 2) with (v + 24) by lia. eapply wp_store4_low; [lia|done|].
    apply HQ; simpl; [by rewrite lookup_insert_ne by lia|rewrite lookup_insert_eq; f_equal; lia|by rewrite !lookup_insert_ne by lia..].
  - replace (v + 16 + 4 * 3) with (v + 28) by lia.
    eapply (wp_store4_high _ _ w2); [lia|cbn [mem]; rewrite <-H2; f_equal; lia|].
    replace (v + 28 - 4) with (v + 24) by lia.
    apply HQ; simpl; [by rewrite lookup_insert_ne by lia|rewrite lookup_insert_eq; f_equal; lia|by rewrite !lookup_insert_ne by lia..].
Qed.

Lemma wp_new_tree calloc s :
  calloc_fresh calloc → calloc s ≠ 0 →
  wp (head ← radix_tree_head_new calloc; radix_tree_initial head;; mret head) s (λ head s',
    0 < head ∧ radix_holds head 0 s' ∅).
Proof.
  intros Hc Hn. destruct (Hc s) as [|(Hpos & Hal & _)]; [done|]. set (v := calloc s) in *.
  apply wp_bind. unfold radix_tree_head_new. apply wp_bind. unfold wp at 1, calloc_words. fold v.
  rewrite decide_False by done. destruct (Z.eqb_spec v 0) as [|_]; [done|]. apply wp_ret, wp_ret.
  set (m := zero_words (block v 4) (mem s)).
  assert (∀ i, 0 ≤ i < 4 → m !! (v + 8 * i) = Some 0) as Hz.
  { intros i Hi. unfold m. rewrite lookup_zero_words, decide_True; [done|]. apply elem_of_block. exists i. lia. }
  pose proof (Hz 0 ltac:(lia)) as Z0. pose proof (Hz 1 ltac:(lia)) as Z1.
  pose proof (Hz 2 ltac:(lia)) as Z2. pose proof (Hz 3 ltac:(lia)) as Z3. clear Hz.
  rewrite Z.add_0_r in Z0. change (8 * 1) with 8 in Z1. change (8 * 2) with 16 in Z2. change (8 * 3) with 24 in Z3.
  apply wp_bind. unfold radix_tree_initial, radix_tree_init_maxindex.
  set (w := λ i : Z, (if decide (2 ≤ i) then 7 * 2 ^ 32 else 0, if decide (3 ≤ i) then (if decide (4 ≤ i) then 511 * 2 ^ 32 + 63 else 63) else 0)).
  eapply (wp_loop (λ n i s', 0 ≤ i ≤ 4 ∧ n = Z.to_nat (4 - i) ∧ mem s' !! v = Some 0 ∧ mem s' !! (v + 8) = Some 0 ∧
    mem s' !! (v + 16) = Some (w i).1 ∧ mem s' !! (v + 24) = Some (w i).2)) with (n := 4%nat); [|by split_and!|lia].
  intros n i [m' e] (Hi & -> & M0 & M1 & M2 & M3). cbn [mem] in *.
  unfold RADIX_TREE_MAX_PATH. destruct (Z.ltb_spec i 4) as [Hlt|Hge].
  - eapply wp_init_round; [done|lia|exact M2|exact M3|]. intros m'' E2 E3 E0 E1. apply wp_ret.
    exists (Z.to_nat (4 - (i + 1))). split; [lia|]. cbn [mem]. rewrite E0, E1, E2, E3.
    split_and!; try (done || lia).
    + assert (i = 0 ∨ i = 1 ∨ i = 2 ∨ i = 3) as [->|[->|[->| ->]]] by lia; done.
    + assert (i = 0 ∨ i = 1 ∨ i = 2 ∨ i = 3) as [->|[->|[->| ->]]] by lia; done.
  - apply wp_ret. assert (i = 4) as -> by lia. apply wp_ret. split; [done|]. exists ∅. split; [|done].
    split; cbn [mem]; try done. { by exists 0. } lia.
Qed.

(** ** The properties *)

(** The height grows as far as the index needs: for an index up to 511 that
    the tree of height [h] does not reach, or in a tree of height 0,
    [radix_tree_extend] leaves a well-formed tree at least as high with the same
    items at the same indices; with result 0 the index is in its range, with
    result 1 an allocation has failed. *)
Theorem radix_tree_extend_spec calloc head h s K index :
  calloc_fresh calloc → radix_rep head h s K → 0 ≤ index ≤ maxindex 3 →
  h = 0%nat ∨ maxindex h < index →
  wp (radix_tree_extend calloc head index) s (λ e s', grown_to calloc head h K index e s').
Proof. intros Hc. by apply wp_radix_tree_extend. Qed.

(** C17: Insertion into the map that the tree holds: for an index up to 511 and an
    item that is not null, an index that is free gets the item with result 0
    and every other index keeps its own; an index that is taken gives 1 and the
    map stays; so it does when an allocation fails, which gives 1 as well.
    The loops end and no pointer is followed that is not live. *)
Theorem radix_tree_insert_spec calloc head h s I index item :
  calloc_fresh calloc → radix_holds head h s I → 0 ≤ index ≤ maxindex 3 → item ≠ 0 →
  wp (radix_tree_insert calloc head index item) s (inserted calloc head h I index item).
Proof. intros Hc. by apply wp_radix_tree_insert. Qed.

(** C40: Lookup: the item of the index, or null when the index has none, be it out
    of range or under a node that is not there; only messages are added. *)
Theorem radix_tree_lookup_spec head h s I index :
  radix_holds head h s I → 0 ≤ index →
  wp (radix_tree_lookup head index) s (λ r s', quiet s s' ∧ r = default 0 (I !! index)).
Proof. apply wp_radix_tree_lookup. Qed.

(** The scan: when every leaf from that of [first] on holds an item, the
    array begins with the first [M] items of indices from [first] on, in the
    order of the indices, the rest of it is as it was, and their number is the
    result. *)
Theorem radix_tree_gang_lookup_spec head h s I first M r0 :
  radix_holds head h s I → 0 ≤ first → 0 ≤ M ≤ Z.of_nat (length r0) → dense h I first →
  wp (radix_tree_gang_lookup head r0 first M) s (λ '(n, results) s', s' = s ∧
    let L := take (Z.to_nat M) (items I first (maxindex h + 1)) in
    n = Z.of_nat (length L) ∧ results = L ++ drop (length L) r0).
Proof. apply wp_radix_tree_gang_lookup. Qed.

(** No capacity check: inserting at an index above 511, into whatever tree,
    reads [height_to_maxindex] past its last entry. *)
Theorem radix_tree_insert_out_of_bounds calloc head h s I index item :
  radix_holds head h s I → maxindex 3 < index → radix_tree_insert calloc head index item s = UB.
Proof. apply radix_tree_insert_out. Qed.

(** The deletion deletes nothing and destroys the tree: of a tree of height 1
    it takes away no item, gives the address of a word after the root pointer,
    and leaves a memory in which the head is that of no radix tree. *)
Theorem radix_tree_delete_breaks head s I index :
  radix_holds head 1 s I → 0 < head → 0 ≤ index ≤ 7 →
  wp (radix_tree_delete head index) s (λ ret s', ret = head + 16 + 8 * index ∧
    (∀ x, x ≠ head + 8 → mem s' !! x = mem s !! x) ∧ ∀ h' I', ¬ radix_holds head h' s' I').
Proof.
  intros HI H0 Hi. eapply wp_mono; [by eapply wp_radix_tree_delete|].
  intros ret s' (-> & r & Hr & -> & Hm). cbn [mem]. split_and!; [done| |].
  - intros x Hx. by rewrite lookup_insert_ne.
  - intros h' I'. eapply root_unaligned; [apply lookup_insert_eq|exact Hm].
Qed.

(** A new head, initialised, is the empty tree of height 0. *)
Theorem radix_tree_new_spec calloc s :
  calloc_fresh calloc → calloc s ≠ 0 →
  wp (head ← radix_tree_head_new calloc; radix_tree_initial head;; mret head) s (λ head s',
    0 < head ∧ radix_holds head 0 s' ∅).
Proof. apply wp_new_tree. Qed.

(** ** Witnesses *)

(** The block after the last word in use. *)
Definition radix_bump (s : radix_state) : Z :=
  8 * (foldr Z.max 0 ((map_to_list (mem s)).*1) / 8 + 1).

Lemma radix_bump_fresh : calloc_fresh radix_bump.
Proof.
  intros s. right. unfold radix_bump. set (mx := foldr Z.max 0 ((map_to_list (mem s)).*1)).
  assert (0 ≤ mx) as H0.
  { unfold mx. clear. induction ((map_to_list (mem s)).*1); simpl; lia. }
  split_and!; [lia|lia|]. intros i Hi. destruct (mem s !! _) as [w|] eqn:E; [|done].
  apply elem_of_map_to_list in E. apply (list_elem_of_fmap_2 fst) in E. cbn [fst] in E.
  apply max_fold_le in E. fold mx in E. lia.
Qed.

(** Before any allocation. *)
Definition radix_start : radix_state := St ∅ (REnv [] ∅).

(** The tree of a program that has inserted 70 at 3. *)
Definition radix_run : outcome (Z * radix_state) :=
  (head ← radix_tree_head_new radix_bump; radix_tree_initial head;;
   radix_tree_insert radix_bump head 3 70;; mret head) radix_start.
Definition radix_demo : radix_state := Eval vm_compute in
  match radix_run with Ok (_, s) => s | _ => radix_start end.
Definition radix_empty : radix_state := Eval vm_compute in
  match (head ← radix_tree_head_new radix_bump; radix_tree_initial head) radix_start with
  | Ok (_, s) => s | _ => radix_start end.

Lemma radix_empty_holds : radix_holds 8 0 radix_empty ∅.
Proof.
  pose proof (wp_new_tree radix_bump radix_start radix_bump_fresh ltac:(vm_compute; discriminate)) as H.
  apply wp_ok in H as (head & s' & E & _ & H). vm_compute in E. injection E as <- <-. exact H.
Qed.

Definition radix_demo_items : gmap Z Z := {[3 := 70]}.

Lemma radix_demo_holds : radix_holds 8 1 radix_demo radix_demo_items.
Proof.
  pose proof (wp_radix_tree_insert radix_bump radix_bump_fresh 8 0 radix_empty ∅ 3 70 radix_empty_holds ltac:(by split; vm_compute) ltac:(done)) as H.
  apply wp_ok in H as (r & s' & E & h' & _ & H). vm_compute in E. injection E as <- <-.
  rewrite lookup_empty in H. destruct H as [[_ H]|[? _]]; [|done]. 
  assert (h' = 1%nat) as ->; [|exact H]. destruct H as (K & Hrep & _).
  destruct (rx_height _ _ _ _ Hrep) as (w & Hw & Hh). vm_compute in Hw. injection Hw as <-.
  change (1 mod 2 ^ 32) with 1 in Hh. lia.
Qed.

Lemma radix_empty_rep : radix_rep 8 0 radix_empty ∅.
Proof.
  destruct radix_empty_holds as (K & Hrep & _). assert (K = ∅) as ->; [|exact Hrep].
  apply (rx_empty _ _ _ _ Hrep). destruct (K !! (0%nat, 0)) as [v|] eqn:E; [|done].
  by destruct (rx_top _ _ _ _ Hrep _ _ E).
Qed.

Lemma radix_tree_extend_spec_witness :
  wp (radix_tree_extend radix_bump 8 100) radix_empty (λ e s', grown_to radix_bump 8 0 ∅ 100 e s').
Proof.
  apply (radix_tree_extend_spec radix_bump 8 0 radix_empty ∅ 100 radix_bump_fresh radix_empty_rep).
  - split; by vm_compute.
  - by left.
Defined.

Lemma radix_tree_insert_spec_witness :
  wp (radix_tree_insert radix_bump 8 100 71) radix_demo (inserted radix_bump 8 1 radix_demo_items 100 71).
Proof.
  apply (radix_tree_insert_spec radix_bump 8 1 radix_demo radix_demo_items 100 71 radix_bump_fresh radix_demo_holds).
  - split; by vm_compute.
  - done.
Defined.

Lemma radix_tree_lookup_spec_witness :
  wp (radix_tree_lookup 8 3) radix_demo (λ r s', quiet radix_demo s' ∧ r = default 0 (radix_demo_items !! 3)).
Proof. apply (radix_tree_lookup_spec 8 1 radix_demo radix_demo_items 3 radix_demo_holds). done. Defined.

Lemma radix_demo_dense : dense 1 radix_demo_items 0.
Proof.
  intros b Hb Hm. change (maxindex 1) with 7 in Hm. exists 3.
  assert (b = 0) as -> by lia. split; [done|]. by eexists.
Qed.

Lemma radix_tree_gang_lookup_spec_witness :
  wp (radix_tree_gang_lookup 8 [0; 0] 0 2) radix_demo (λ '(n, results) s', s' = radix_demo ∧
    let L := take (Z.to_nat 2) (items radix_demo_items 0 (maxindex 1 + 1)) in
    n = Z.of_nat (length L) ∧ results = L ++ drop (length L) [0; 0]).
Proof.
  apply (radix_tree_gang_lookup_spec 8 1 radix_demo radix_demo_items 0 2 [0; 0] radix_demo_holds).
  - done.
  - split; by vm_compute.
  - exact radix_demo_dense.
Defined.

Lemma radix_tree_insert_out_of_bounds_witness :
  radix_tree_insert radix_bump 8 512 71 radix_demo = UB.
Proof.
  apply (radix_tree_insert_out_of_bounds radix_bump 8 1 radix_demo radix_demo_items 512 71 radix_demo_holds).
  by vm_compute.
Defined.

Lemma radix_tree_delete_breaks_witness :
  wp (radix_tree_delete 8 3) radix_demo (λ ret s', ret = 8 + 16 + 8 * 3 ∧
    (∀ x, x ≠ 8 + 8 → mem s' !! x = mem radix_demo !! x) ∧ ∀ h' I', ¬ radix_holds 8 h' s' I').
Proof.
  apply (radix_tree_delete_breaks 8 radix_demo radix_demo_items 3 radix_demo_holds); [done|].
  split; by vm_compute.
Defined.

Lemma radix_tree_new_spec_witness :
  wp (head ← radix_tree_head_new radix_bump; radix_tree_initial head;; mret head) radix_start (λ head s',
    0 < head ∧ radix_holds head 0 s' ∅).
Proof. apply (radix_tree_new_spec radix_bump radix_start radix_bump_fresh). vm_compute. discriminate. Defined.
