(* ===== verification/UtilRbTree.v ===== *)
(** * libconhash: the red-black tree with a sentinel, util_rbtree

    [util_rbtree.h] and [util_rbtree.c]: keys in the nodes, the sentinel node
    inside [struct util_rbtree_s] in place of the null pointer, rebalancing
    after an insertion and a removal, search, lookup on the ring of keys, the
    checker and the walk in order. *)
From S2P Require Import Prelude.

(** ** Data *)

Record util_rbtree_node := UNode {
  u_key : Z;
  u_parent : Z;
  u_right : Z;
  u_left : Z;
  u_color : Z;
  u_data : Z;
}.

(** The nodes (the sentinel among them), [rbtree->root] and [rbtree->size]. *)
Record util_rbtree := UTree { ut_root : Z; ut_size : Z }.
Abbreviation util_state := (st util_rbtree_node util_rbtree).
Abbreviation URB := (M util_state).

(** [_NULL(rbtree)] is [&rbtree->null]: the field after the root pointer. *)
Definition NIL (rbtree : Z) : Z := rbtree + 8.

Definition ukey (a : Z) : URB Z := fget u_key a.
Definition uparent (a : Z) : URB Z := fget u_parent a.
Definition uleft (a : Z) : URB Z := fget u_left a.
Definition uright (a : Z) : URB Z := fget u_right a.
Definition ucolor (a : Z) : URB Z := fget u_color a.
Definition udata (a : Z) : URB Z := fget u_data a.
Definition set_uparent (a v : Z) : URB unit :=
  fset (λ n, UNode (u_key n) v (u_right n) (u_left n) (u_color n) (u_data n)) a.
Definition set_uright (a v : Z) : URB unit :=
  fset (λ n, UNode (u_key n) (u_parent n) v (u_left n) (u_color n) (u_data n)) a.
Definition set_uleft (a v : Z) : URB unit :=
  fset (λ n, UNode (u_key n) (u_parent n) (u_right n) v (u_color n) (u_data n)) a.
Definition set_ucolor (a v : Z) : URB unit :=
  fset (λ n, UNode (u_key n) (u_parent n) (u_right n) (u_left n) v (u_data n)) a.

Definition get_uroot : URB Z := ut_root <$> get_env.
Definition set_uroot (v : Z) : URB unit := e ← get_env; put_env (UTree v (ut_size e)).
Definition get_usize : URB Z := ut_size <$> get_env.
Definition set_usize (v : Z) : URB unit := e ← get_env; put_env (UTree (ut_root e) v).

Definition util_rbt_black (a : Z) : URB unit := set_ucolor a 1.
Definition util_rbt_red (a : Z) : URB unit := set_ucolor a 0.
Definition util_rbt_isblack (a : Z) : URB bool := c ← ucolor a; mret (c =? 1).
Definition util_rbt_isred (a : Z) : URB bool := c ← ucolor a; mret (c =? 0).

Definition rbt_clear_node (node : Z) : URB unit :=
  set_uleft node 0;; set_uright node 0;; set_uparent node 0.

Definition util_rbtree_isempty (rbtree : Z) : URB bool :=
  root ← get_uroot; mret (root =? NIL rbtree).

(** The loops run along a path of the tree. *)
Definition urounds : URB nat := s ← get; mret (2 + size (mem s))%nat.

Definition util_rbtree_init (rbtree : Z) : URB unit :=
  when (negb (rbtree =? 0))
    (util_rbt_black (NIL rbtree);;
     set_uroot (NIL rbtree);;
     set_usize 0).

(** ** Ends of a subtree *)

Definition util_rbsubtree_min (node sentinel : Z) : URB Z :=
  if node =? sentinel then mret 0 else
  fuel ← urounds;
  loop fuel (λ node, l ← uleft node;
                     mret (if negb (l =? sentinel) then inl l else inr node)) node.

Definition util_rbsubtree_max (node sentinel : Z) : URB Z :=
  if node =? sentinel then mret 0 else
  fuel ← urounds;
  loop fuel (λ node, r ← uright node;
                     mret (if negb (r =? sentinel) then inl r else inr node)) node.

Definition util_rbtree_min (rbtree : Z) : URB Z :=
  root ← get_uroot; util_rbsubtree_min root (NIL rbtree).

(** ** Rotations *)

Definition rbtree_left_rotate (rbtree node : Z) : URB unit :=
  rc ← uright node;
  rclc ← uleft rc;
  np ← uparent node;
  set_uparent rc np;;
  root ← get_uroot;
  (if node =? root then set_uroot rc
   else
     np ← uparent node;
     npl ← uleft np;
     np ← uparent node;
     if npl =? node then set_uleft np rc else set_uright np rc);;
  set_uparent node rc;;
  set_uleft rc node;;
  set_uright node rclc;;
  when (negb (rclc =? NIL rbtree)) (set_uparent rclc node).

Definition rbtree_right_rotate (rbtree node : Z) : URB unit :=
  lc ← uleft node;
  lcrc ← uright lc;
  np ← uparent node;
  set_uparent lc np;;
  root ← get_uroot;
  (if node =? root then set_uroot lc
   else
     np ← uparent node;
     npl ← uleft np;
     np ← uparent node;
     if npl =? node then set_uleft np lc else set_uright np lc);;
  set_uright lc node;;
  set_uparent node lc;;
  set_uleft node lcrc;;
  when (negb (lcrc =? NIL rbtree)) (set_uparent lcrc node).

(** ** Insertion *)

Definition insert_fixup_round (rbtree node : Z) : URB (Z + unit) :=
  np ← uparent node;
  red ← util_rbt_isred np;
  if negb red then mret (inr ()) else
  p ← uparent node;
  pp ← uparent p;
  ppl ← uleft pp;
  if p =? ppl then
    pp ← uparent p;
    u ← uright pp;
    ured ← util_rbt_isred u;
    if (ured : bool) then
      util_rbt_black u;;
      util_rbt_black p;;
      pp ← uparent p;
      util_rbt_red pp;;
      node' ← uparent p;
      mret (inl node')
    else
      pr ← uright p;
      '(node', p') ← (if node =? pr then
                        rbtree_left_rotate rbtree p;;
                        p' ← uparent p;
                        mret (p, p')
                      else mret (node, p));
      util_rbt_black p';;
      pp ← uparent p';
      util_rbt_red pp;;
      pp ← uparent p';
      rbtree_right_rotate rbtree pp;;
      mret (inl node')
  else
    pp ← uparent p;
    u ← uleft pp;
    ured ← util_rbt_isred u;
    if (ured : bool) then
      util_rbt_black u;;
      util_rbt_black p;;
      pp ← uparent p;
      util_rbt_red pp;;
      node' ← uparent p;
      mret (inl node')
    else
      pl ← uleft p;
      '(node', p') ← (if pl =? node then
                        rbtree_right_rotate rbtree p;;
                        p' ← uparent p;
                        mret (p, p')
                      else mret (node, p));
      util_rbt_black p';;
      pp ← uparent p';
      util_rbt_red pp;;
      pp ← uparent p';
      rbtree_left_rotate rbtree pp;;
      mret (inl node').

Definition rbtree_insert_fixup (rbtree node : Z) : URB unit :=
  fuel ← urounds;
  loop fuel (insert_fixup_round rbtree) node;;
  root ← get_uroot;
  util_rbt_black root.

(** The descent of [util_rbtree_insert]: [y] trails [x]. *)
Definition insert_descend (rbtree node x : Z) : URB Z :=
  fuel ← urounds;
  loop fuel (λ '(x, y),
    if x =? NIL rbtree then mret (inr y) else
    nk ← ukey node;
    xk ← ukey x;
    if nk <? xk then l ← uleft x; mret (inl (l, x))
    else r ← uright x; mret (inl (r, x))) (x, 0).

Definition util_rbtree_insert (rbtree node : Z) : URB unit :=
  if (rbtree =? 0) || (node =? 0) || (node =? NIL rbtree) then mret () else
  root ← get_uroot;
  (if root =? NIL rbtree then
     set_uroot node;;
     set_uparent node (NIL rbtree)
   else
     x ← get_uroot;
     y ← insert_descend rbtree node x;
     set_uparent node y;;
     nk ← ukey node;
     yk ← ukey y;
     if nk <? yk then set_uleft y node else set_uright y node);;
  set_uleft node (NIL rbtree);;
  set_uright node (NIL rbtree);;
  util_rbt_red node;;
  rbtree_insert_fixup rbtree node;;
  sz ← get_usize;
  set_usize (uint (sz + 1)).

(** ** Removal *)

Definition delete_fixup_round (rbtree node : Z) : URB (Z + Z) :=
  root ← get_uroot;
  black ← (if negb (node =? root) then util_rbt_isblack node else mret false);
  if negb black then mret (inr node) else
  np ← uparent node;
  npl ← uleft np;
  if node =? npl then
    np ← uparent node;
    w0 ← uright np;
    wred ← util_rbt_isred w0;
    w ← (if (wred : bool) then
           util_rbt_black w0;;
           np ← uparent node;
           util_rbt_red np;;
           np ← uparent node;
           rbtree_left_rotate rbtree np;;
           np ← uparent node;
           uright np
         else mret w0);
    wl ← uleft w;
    wlb ← util_rbt_isblack wl;
    wrb ← (if (wlb : bool) then wr ← uright w; util_rbt_isblack wr else mret false);
    if (wlb && wrb : bool) then
      util_rbt_red w;;
      node' ← uparent node;
      mret (inl node')
    else
      wr ← uright w;
      wrb ← util_rbt_isblack wr;
      w' ← (if (wrb : bool) then
              wl ← uleft w;
              util_rbt_black wl;;
              util_rbt_red w;;
              rbtree_right_rotate rbtree w;;
              np ← uparent node;
              uright np
            else mret w);
      np ← uparent node;
      npc ← ucolor np;
      set_ucolor w' npc;;
      np ← uparent node;
      util_rbt_black np;;
      wr ← uright w';
      util_rbt_black wr;;
      np ← uparent node;
      rbtree_left_rotate rbtree np;;
      root ← get_uroot;
      mret (inl root)
  else
    np ← uparent node;
    w0 ← uleft np;
    wred ← util_rbt_isred w0;
    w ← (if (wred : bool) then
           util_rbt_black w0;;
           np ← uparent node;
           util_rbt_red np;;
           np ← uparent node;
           rbtree_right_rotate rbtree np;;
           np ← uparent node;
           uleft np
         else mret w0);
    wl ← uleft w;
    wlb ← util_rbt_isblack wl;
    wrb ← (if (wlb : bool) then wr ← uright w; util_rbt_isblack wr else mret false);
    if (wlb && wrb : bool) then
      util_rbt_red w;;
      node' ← uparent node;
      mret (inl node')
    else
      wl ← uleft w;
      wlb ← util_rbt_isblack wl;
      w' ← (if (wlb : bool) then
              wr ← uright w;
              util_rbt_black wr;;
              util_rbt_red w;;
              rbtree_left_rotate rbtree w;;
              np ← uparent node;
              uleft np
            else mret w);
      np ← uparent node;
      npc ← ucolor np;
      set_ucolor w' npc;;
      np ← uparent node;
      util_rbt_black np;;
      wl ← uleft w';
      util_rbt_black wl;;
      np ← uparent node;
      rbtree_right_rotate rbtree np;;
      root ← get_uroot;
      mret (inl root).

(** The counter [h] of the C loop is never read. *)
Definition rbtree_delete_fixup (rbtree node : Z) : URB unit :=
  fuel ← urounds;
  node' ← loop fuel (delete_fixup_round rbtree) node;
  util_rbt_black node'.

(** The node that is taken out of its place, and the subtree that goes there. *)
Definition delete_pos (rbtree node : Z) : URB (Z * Z) :=
  nl ← uleft node;
  if nl =? NIL rbtree then subst ← uright node; mret (node, subst) else
  nr ← uright node;
  if nr =? NIL rbtree then subst ← uleft node; mret (node, subst) else
  nr ← uright node;
  temp ← util_rbsubtree_min nr (NIL rbtree);
  tl ← uleft temp;
  subst ← (if negb (tl =? NIL rbtree) then uleft temp else uright temp);
  mret (temp, subst).

(** [temp] takes the place of [node]. *)
Definition delete_replace (rbtree node temp : Z) : URB unit :=
  np ← uparent node;
  set_uparent temp np;;
  root ← get_uroot;
  (if node =? root then set_uroot temp
   else
     np ← uparent node;
     npl ← uleft np;
     np ← uparent node;
     if npl =? node then set_uleft np temp else set_uright np temp);;
  nr ← uright node;
  set_uright temp nr;;
  nl ← uleft node;
  set_uleft temp nl;;
  tl ← uleft temp;
  when (negb (tl =? NIL rbtree)) (tl ← uleft temp; set_uparent tl temp);;
  tr ← uright temp;
  when (negb (tr =? NIL rbtree)) (tr ← uright temp; set_uparent tr temp);;
  nc ← ucolor node;
  set_ucolor temp nc.

Definition util_rbtree_delete (rbtree node : Z) : URB unit :=
  if (rbtree =? 0) || (node =? 0) || (node =? NIL rbtree) then mret () else
  sz ← get_usize;
  set_usize (uint (sz - 1));;
  '(temp, subst) ← delete_pos rbtree node;
  root ← get_uroot;
  if temp =? root then
    set_uroot subst;;
    util_rbt_black subst;;
    rbt_clear_node temp
  else
    isblack ← util_rbt_isblack temp;
    tp ← uparent temp;
    (if tp =? node then set_uparent subst temp
     else tp ← uparent temp; set_uparent subst tp);;
    tp ← uparent temp;
    tpl ← uleft tp;
    tp ← uparent temp;
    (if temp =? tpl then set_uleft tp subst else set_uright tp subst);;
    when (negb (temp =? node)) (delete_replace rbtree node temp);;
    rbt_clear_node node;;
    when (isblack : bool) (rbtree_delete_fixup rbtree subst).

(** ** Queries *)

Definition util_rbtree_search (rbtree key : Z) : URB Z :=
  if rbtree =? 0 then mret 0 else
  node ← get_uroot;
  fuel ← urounds;
  loop fuel (λ node,
    if node =? NIL rbtree then mret (inr 0) else
    k ← ukey node;
    if key <? k then l ← uleft node; mret (inl l)
    else if key >? k then r ← uright node; mret (inl r)
    else if k =? key then mret (inr node) else mret (inl node)) node.

Definition util_rbtree_lookup (rbtree key : Z) : URB Z :=
  if rbtree =? 0 then mret 0 else
  empty ← util_rbtree_isempty rbtree;
  if (empty : bool) then mret 0 else
  temp ← get_uroot;
  fuel ← urounds;
  node ← loop fuel (λ '(temp, node),
    if temp =? NIL rbtree then mret (inr node) else
    k ← ukey temp;
    if key <=? k then l ← uleft temp; mret (inl (l, temp))
    else if key >? k then r ← uright temp; mret (inl (r, node))
    else mret (inl (temp, node))) (temp, 0);
  if negb (node =? 0) then mret node else util_rbtree_min rbtree.

(** [struct rbtree_check_s] without the sentinel; [rbh] and [maxd] are [short]s. *)
Record rbtree_check_t := Check { ck_rbh : Z; ck_maxd : Z; ck_fini : Z }.
Definition set_fini (c : rbtree_check_t) (x : Z) : rbtree_check_t :=
  Check (ck_rbh c) (ck_maxd c) x.
Definition short (x : Z) : Z := (x + 2 ^ 15) mod 2 ^ 16 - 2 ^ 15.

(** The code at the label [__check_rb_height]. *)
Definition check_rb_height (check : rbtree_check_t) (level curheight : Z) : rbtree_check_t :=
  let rbh := if ck_rbh check =? 0 then short curheight else ck_rbh check in
  let maxd := if ck_maxd check <? level then short level else ck_maxd check in
  let fini := if negb (rbh =? curheight) then 3 else ck_fini check in
  Check rbh maxd fini.

Fixpoint rbtree_check_subtree (fuel : nat) (null node : Z) (check : rbtree_check_t)
    (level curheight : Z) : URB rbtree_check_t :=
  match fuel with
  | O => λ _, NoFuel
  | S fuel =>
      if negb (ck_fini check =? 0) then mret check else
      black ← util_rbt_isblack node;
      red ← util_rbt_isred node;
      if negb black && negb red then mret (set_fini check 2) else
      let curheight := if (black : bool) then curheight + 1 else curheight in
      l ← uleft node;
      if l =? null then mret (check_rb_height check level curheight) else
      nred ← util_rbt_isred node;
      lred ← util_rbt_isred l;
      if nred && lred then mret (set_fini check 4) else
      k ← ukey node;
      lk ← ukey l;
      if k <? lk then mret (set_fini check 5) else
      check ← rbtree_check_subtree fuel null l check (level + 1) curheight;
      r ← uright node;
      if r =? null then mret (check_rb_height check level curheight) else
      nred ← util_rbt_isred node;
      rred ← util_rbt_isred r;
      if nred && rred then mret (set_fini check 4) else
      k ← ukey node;
      rk ← ukey r;
      if k >? rk then mret (set_fini check 5) else
      rbtree_check_subtree fuel null r check (level + 1) curheight
  end.

(** The result and what is stored through [blackheight] and [maxdepth]. *)
Definition util_rbtree_check (rbtree : Z) : URB (Z * option (Z * Z)) :=
  root ← get_uroot;
  if root =? NIL rbtree then mret (0, None) else
  black ← util_rbt_isblack root;
  if negb black then mret (1, None) else
  fuel ← urounds;
  check ← rbtree_check_subtree fuel (NIL rbtree) root (Check 0 0 0) 1 0;
  mret (ck_fini check, Some (ck_rbh check, ck_maxd check)).

(** [opera(node, data)], with the object behind [data] as a value. *)
Fixpoint rbtree_mid_travel {D} (fuel : nat) (node sentinel : Z) (opera : Z → D → URB D) (data : D) : URB D :=
  match fuel with
  | O => λ _, NoFuel
  | S fuel =>
      l ← uleft node;
      data ← (if negb (l =? sentinel) then rbtree_mid_travel fuel l sentinel opera data else mret data);
      data ← opera node data;
      r ← uright node;
      if negb (r =? sentinel) then rbtree_mid_travel fuel r sentinel opera data else mret data
  end.

Definition util_rbtree_mid_travel {D} (rbtree : Z) (opera : Z → D → URB D) (data : D) : URB D :=
  if rbtree =? 0 then mret data else
  empty ← util_rbtree_isempty rbtree;
  if (empty : bool) then mret data else
  root ← get_uroot;
  fuel ← urounds;
  rbtree_mid_travel fuel root (NIL rbtree) opera data.
