(* ===== verification/UtilRbFacts.v ===== *)
(** * libconhash: util_rbtree, from nodes and pointers to trees

    The representation of the tree with a sentinel in the vocabulary of
    [PtrTree]: the accessors, recolouring, rotations. *)
From S2P Require Import Prelude PtrTree RbSpec UtilRbTree.

(** ** Cells *)

Definition ucell_of (n : util_rbtree_node) : cell :=
  Cell (u_parent n) (u_color n) (u_left n) (u_right n).

Definition ushape (s : util_state) : shapes := ucell_of <$> mem s.
Definition uroot (s : util_state) : Z := ut_root (env s).

(** What the tree operations never change: the keys and the data pointers. *)
Definition upayload (s : util_state) : gmap Z (Z * Z) := (λ n, (u_key n, u_data n)) <$> mem s.

(** Only the nodes of [L] are touched, and of those the links and colours. *)
Record uframe (L : list Z) (s s' : util_state) : Prop := {
  uf_mem : ∀ b, b ∉ L → mem s' !! b = mem s !! b;
  uf_pay : upayload s' = upayload s;
  uf_size : ut_size (env s') = ut_size (env s);
}.

#[export] Instance uframe_refl L : Reflexive (uframe L).
Proof. by intros s; split. Qed.
#[export] Instance uframe_trans L : Transitive (uframe L).
Proof.
  intros s1 s2 s3 [H1 P1 S1] [H2 P2 S2]. split; [|congruence..].
  intros b Hb. by rewrite (H2 b Hb), (H1 b Hb).
Qed.
#[export] Instance uframe_proper : Proper ((≡ₚ) ==> eq ==> eq ==> iff) uframe.
Proof.
  intros L1 L2 HL s ? <- s' ? <-.
  split; intros [H ? ?]; (split; [|done..]); intros b Hb; apply H; [by rewrite HL|by rewrite <-HL].
Qed.

Lemma uframe_mono L1 L2 s s' : uframe L1 s s' → L1 ⊆ L2 → uframe L2 s s'.
Proof. intros [H ? ?] Hs. split; [|done..]. intros b Hb. apply H. set_solver. Qed.

Lemma ushape_lookup s a c :
  ushape s !! a = Some c → ∃ n, mem s !! a = Some n ∧ ucell_of n = c.
Proof. unfold ushape. rewrite lookup_fmap, fmap_Some. naive_solver. Qed.

Lemma wp_uread {A} (f : util_rbtree_node → A) (g : cell → A) a c s Q :
  ushape s !! a = Some c → (∀ n, f n = g (ucell_of n)) →
  Q (g c) s → wp (fget f a) s Q.
Proof.
  intros (n & Hn & <-)%ushape_lookup Hfg HQ. eapply wp_fget; [done|]. by rewrite Hfg.
Qed.

Lemma fmap_insert_same {A B} (f : A → B) (m : gmap Z A) a x y :
  m !! a = Some x → f y = f x → f <$> <[a:=y]> m = f <$> m.
Proof. intros Hm Hf. rewrite fmap_insert, Hf. apply insert_id. by rewrite lookup_fmap, Hm. Qed.

Lemma wp_uupd (f : util_rbtree_node → util_rbtree_node) (g : cell → cell) a c s
    (Q : unit → util_state → Prop) :
  ushape s !! a = Some c → (∀ n, ucell_of (f n) = g (ucell_of n)) →
  (∀ n, u_key (f n) = u_key n ∧ u_data (f n) = u_data n) →
  (∀ s', ushape s' = alter g a (ushape s) → uroot s' = uroot s → uframe [a] s s' → Q () s') →
  wp (fset f a) s Q.
Proof.
  intros (n & Hn & <-)%ushape_lookup Hfg Hkd HQ. eapply wp_fset; [done|]. apply HQ.
  - unfold ushape; simpl. rewrite fmap_insert, Hfg. apply map_eq. intros b.
    rewrite lookup_alter, lookup_insert, lookup_fmap. case_decide; [|done].
    subst b. by rewrite lookup_fmap, Hn.
  - done.
  - split; [|unfold upayload; simpl|done].
    + intros b Hb. simpl. rewrite lookup_insert_ne; [done|]. clear -Hb; set_solver.
    + eapply fmap_insert_same; [done|]. destruct (Hkd n) as [-> ->]. done.
Qed.

(** ** Accessors *)

Definition uget_child (d : dir) : Z → URB Z := match d with L => uleft | R => uright end.
Definition uset_child (d : dir) : Z → Z → URB unit :=
  match d with L => set_uleft | R => set_uright end.
Definition uc_child (d : dir) (c : cell) : Z := match d with L => c_left c | R => c_right c end.

Section ops.
Context (s : util_state) (a : Z) (c : cell) (H : ushape s !! a = Some c).

Lemma wp_uleft Q : Q (c_left c) s → wp (uleft a) s Q.
Proof. by apply (wp_uread _ c_left _ _ _ _ H). Qed.
Lemma wp_uright Q : Q (c_right c) s → wp (uright a) s Q.
Proof. by apply (wp_uread _ c_right _ _ _ _ H). Qed.
Lemma wp_uchild d Q : Q (uc_child d c) s → wp (uget_child d a) s Q.
Proof. destruct d; [apply wp_uleft|apply wp_uright]. Qed.
Lemma wp_uparent Q : Q (c_par c) s → wp (uparent a) s Q.
Proof. by apply (wp_uread _ c_par _ _ _ _ H). Qed.
Lemma wp_ucolor Q : Q (c_col c) s → wp (ucolor a) s Q.
Proof. by apply (wp_uread _ c_col _ _ _ _ H). Qed.
Lemma wp_uisred Q : Q (c_col c =? 0) s → wp (util_rbt_isred a) s Q.
Proof. intros. apply wp_bind, wp_ucolor. by apply wp_ret. Qed.
Lemma wp_uisblack Q : Q (c_col c =? 1) s → wp (util_rbt_isblack a) s Q.
Proof. intros. apply wp_bind, wp_ucolor. by apply wp_ret. Qed.

Section upd.
Context (Q : unit → util_state → Prop).
Abbreviation upd g := (∀ s', ushape s' = alter g a (ushape s) → uroot s' = uroot s →
                         uframe [a] s s' → Q () s').

Lemma wp_uset_child d v : upd (set_c_child d v) → wp (uset_child d a v) s Q.
Proof. destruct d; by eapply wp_uupd. Qed.
Lemma wp_set_uleft v : upd (set_c_child L v) → wp (set_uleft a v) s Q.
Proof. apply (wp_uset_child L). Qed.
Lemma wp_set_uright v : upd (set_c_child R v) → wp (set_uright a v) s Q.
Proof. apply (wp_uset_child R). Qed.
Lemma wp_uset_parent p : upd (set_c_par p) → wp (set_uparent a p) s Q.
Proof. by eapply wp_uupd. Qed.
Lemma wp_uset_color x : upd (set_c_col x) → wp (set_ucolor a x) s Q.
Proof. by eapply wp_uupd. Qed.
End upd.
End ops.

Lemma wp_set_uroot v s (Q : unit → util_state → Prop) :
  (∀ s', ushape s' = ushape s → uroot s' = v → uframe [] s s' → Q () s') → wp (set_uroot v) s Q.
Proof. intros HQ. apply wp_bind, wp_get_env, wp_put_env. by apply HQ. Qed.

Lemma wp_get_uroot s (Q : Z → util_state → Prop) : Q (uroot s) s → wp get_uroot s Q.
Proof. intros. apply wp_fmap, wp_get_env. done. Qed.

(** ** Cells by direction *)

Lemma uc_child_mkcell d p c t s : uc_child d (mkcell d p c t s) = t.
Proof. by destruct d. Qed.
Lemma uc_child_opp_mkcell d p c t s : uc_child (opp d) (mkcell d p c t s) = s.
Proof. by destruct d. Qed.
Lemma uc_child_mkcell_opp d p c t s : uc_child d (mkcell (opp d) p c t s) = s.
Proof. by destruct d. Qed.
Lemma uc_par_mkcell d p c t s : c_par (mkcell d p c t s) = p.
Proof. by destruct d. Qed.
Lemma uc_col_mkcell d p c t s : c_col (mkcell d p c t s) = c.
Proof. by destruct d. Qed.
Lemma ufmap_some {A B} (f : A → B) x : f <$> Some x = Some (f x).
Proof. done. Qed.
Lemma uset_child_mkcell d q p c t s : set_c_child d q (mkcell d p c t s) = mkcell d p c q s.
Proof. by destruct d. Qed.
Lemma uset_child_opp_mkcell d q p c t s :
  set_c_child (opp d) q (mkcell d p c t s) = mkcell d p c t q.
Proof. by destruct d. Qed.
Lemma uset_child_mkcell_opp d q p c t s :
  set_c_child d q (mkcell (opp d) p c t s) = mkcell (opp d) p c t q.
Proof. by destruct d. Qed.
Lemma uset_par_mkcell d q p c t s : set_c_par q (mkcell d p c t s) = mkcell d q c t s.
Proof. by destruct d. Qed.
Lemma uset_col_mkcell d q p c t s : set_c_col q (mkcell d p c t s) = mkcell d p q t s.
Proof. by destruct d. Qed.
Lemma umkcell_opp d p c t s : mkcell (opp d) p c t s = mkcell d p c s t.
Proof. by destruct d. Qed.

Create Rewrite HintDb ucells.
#[export] Hint Rewrite @ufmap_some uset_child_mkcell uset_child_opp_mkcell
  uset_child_mkcell_opp uset_par_mkcell uset_col_mkcell umkcell_opp opp_opp : ucells.
#[export] Hint Rewrite uc_child_mkcell uc_child_opp_mkcell uc_child_mkcell_opp
  uc_par_mkcell uc_col_mkcell : ucells.

(** Solving for the cell at an address after some updates. *)
Ltac ulookup_cell :=
  repeat first
    [ match goal with H : ushape ?s !! ?a = Some _ |- context [ushape ?s !! ?a] => rewrite H end
    | match goal with H : ushape ?s = _ |- context [ushape ?s !! _] => rewrite H end
    | rewrite lookup_alter_eq
    | rewrite lookup_alter_ne by (done || congruence)
    | rewrite lookup_reparent_ne by (done || set_solver)
    | rewrite lookup_relink_ne by (done || set_solver) ];
  autorewrite with ucells; reflexivity.

(** One accessor of a node whose cell is known. *)
Ltac uwp_cell :=
  lazymatch goal with
  | |- wp (_ ≫= _) _ _ => apply wp_bind; uwp_cell
  | |- wp get_uroot _ _ => apply wp_get_uroot
  | |- wp (uget_child _ _) _ _ => eapply wp_uchild; [ulookup_cell|]
  | |- wp (uleft _) _ _ => eapply wp_uleft; [ulookup_cell|]
  | |- wp (uright _) _ _ => eapply wp_uright; [ulookup_cell|]
  | |- wp (uparent _) _ _ => eapply wp_uparent; [ulookup_cell|]
  | |- wp (ucolor _) _ _ => eapply wp_ucolor; [ulookup_cell|]
  | |- wp (util_rbt_isred _) _ _ => eapply wp_uisred; [ulookup_cell|]
  | |- wp (util_rbt_isblack _) _ _ => eapply wp_uisblack; [ulookup_cell|]
  | |- wp (uset_child _ _ _) _ _ => eapply wp_uset_child; [ulookup_cell|]
  | |- wp (set_uleft _ _) _ _ => eapply wp_set_uleft; [ulookup_cell|]
  | |- wp (set_uright _ _) _ _ => eapply wp_set_uright; [ulookup_cell|]
  | |- wp (set_uparent _ _) _ _ => eapply wp_uset_parent; [ulookup_cell|]
  | |- wp (set_ucolor _ _) _ _ => eapply wp_uset_color; [ulookup_cell|]
  | |- wp (util_rbt_black _) _ _ => eapply wp_uset_color; [ulookup_cell|]
  | |- wp (util_rbt_red _) _ _ => eapply wp_uset_color; [ulookup_cell|]
  end; autorewrite with ucells; cbn [c_par c_col c_left c_right].

(** ** Trees *)

Section tree.
Context (rbtree : Z).
Abbreviation nil := (NIL rbtree).

(** Node addresses: not the null pointer and not the sentinel. *)
Definition unode_addr (a : Z) : Prop := a ≠ 0 ∧ a ≠ nil.

(** The tree, with the parent pointer [top] in its root and [sp] in the
    sentinel, which is black. *)
Record utree (top sp : Z) (s : util_state) (T : tree) : Prop := {
  ut_tree : is_tree nil unode_addr (ushape s) top (uroot s) T;
  ut_sent : ∃ c, ushape s !! nil = Some c ∧ c_par c = sp ∧ c_col c = 1;
}.

Context (top sp : Z).

Lemma utree_nil_notin s k t : utree top sp s (plug k t) → nil ∉ addrs (plug k t).
Proof.
  intros [[_ _ _ Hok] _] Hn. rewrite Forall_forall in Hok. by destruct (Hok _ Hn).
Qed.

Lemma ushape_frame L s s' b : uframe L s s' → b ∉ L → ushape s' !! b = ushape s !! b.
Proof. intros [H _ _] Hb. unfold ushape. by rewrite !lookup_fmap, H. Qed.

(** A change inside the tree. *)
Lemma utree_intro s s' T T' :
  utree top sp s T → uframe (addrs T) s s' → addrs T' ≡ₚ addrs T →
  is_tree nil unode_addr (ushape s') top (uroot s') T' → utree top sp s' T'.
Proof.
  intros Hin Hf HT Ht'. split; [done|]. destruct (ut_sent _ _ _ _ Hin) as (c & Hc & ?).
  exists c. split; [|done]. rewrite <-Hc. eapply ushape_frame; [done|].
  apply (utree_nil_notin s [] T Hin).
Qed.

Lemma utree_lookup s k d c t a sb :
  utree top sp s (plug k (mkn d c t a sb)) →
  ushape s !! a = Some (mkcell d (cpar top k) (colZ c) (rootp nil t) (rootp nil sb)).
Proof. intros [H _]. by apply it_lookup in H. Qed.

Lemma utree_okp s k d c t a sb : utree top sp s (plug k (mkn d c t a sb)) → unode_addr a.
Proof. intros [H _]. by eapply it_okp. Qed.

Lemma utree_okp_rootp s k c l a r : utree top sp s (plug k (Node c l a r)) → unode_addr a.
Proof. exact (utree_okp s k L c l a r). Qed.

Lemma utree_frame s k t :
  utree top sp s (plug k t) →
  match k with
  | [] => True
  | f :: k' => unode_addr (f_addr f) ∧
      (ushape s !! f_addr f =
        Some (mkcell (f_dir f) (cpar top k') (colZ (f_col f)) (rootp nil t) (rootp nil (f_sib f)))) ∧
      (f_addr f ∉ addrs t) ∧ (t ≠ Leaf → rootp nil (f_sib f) ≠ rootp nil t)
  end.
Proof.
  intros H. destruct k as [|[d c a sb] k]; [done|]. simpl.
  split_and!.
  - by eapply (utree_okp s k d c t a sb).
  - by apply (utree_lookup s k d c t a sb) in H.
  - destruct H as [H _]. apply it_focus in H as (_ & _ & _ & _ & Hd & _).
    intros Ha. eapply Hd; [done|]. rewrite kaddrs_cons_perm. set_solver.
  - intros Ht Heq. destruct t as [|c' l b r]; [done|]. simpl in Heq.
    pose proof (utree_okp_rootp s (F d c a sb :: k) c' l b r H) as [_ Hb].
    destruct H as [H _]. apply it_focus in H as (_ & _ & _ & _ & Hd & _).
    destruct sb as [|? sl sa sr]; simpl in Heq; [congruence|]. subst sa.
    eapply (Hd b); [set_solver|]. rewrite kaddrs_cons_perm; simpl. set_solver.
Qed.

Lemma utree_size s T : utree top sp s T → (length (addrs T) ≤ size (mem s))%nat.
Proof.
  intros [[_ Hrep Hnd _] _]. rewrite <-size_dom, <-(size_list_to_set (C := gset Z)) by done.
  apply subseteq_size. intros a. rewrite elem_of_list_to_set, elem_of_dom. intros Ha.
  apply (rep_lookup _ _ _ _ a Hrep) in Ha as [c Hc].
  apply ushape_lookup in Hc as (n & ? & _). eauto.
Qed.

Lemma utree_not_root s f k t : utree top sp s (plug (f :: k) t) → rootp nil t ≠ uroot s.
Proof.
  intros Hin Heq.
  assert (krootp (rootp nil t) (f :: k) ∈ kaddrs (f :: k)) as Hk.
  { simpl. clear. revert f. induction k as [|g k IH]; intros f; rewrite kaddrs_cons_perm; simpl; [set_solver|].
    specialize (IH g). set_solver. }
  pose proof (utree_nil_notin s (f :: k) t Hin) as Hnil. rewrite addrs_plug_perm in Hnil.
  destruct Hin as [Hin _]. apply it_focus in Hin as (_ & _ & _ & _ & Hd & Hr).
  rewrite <-Hr, <-Heq in Hk. destruct t as [|c l a r].
  - apply Hnil. simpl. simpl in Hk. rewrite app_nil_r. exact Hk.
  - eapply (Hd a); [simpl; set_solver|exact Hk].
Qed.

(** ** Testing colours; the sentinel is black *)

Lemma utree_cell s k t :
  utree top sp s (plug k t) → ∃ c, ushape s !! rootp nil t = Some c ∧
    c_col c = (if is_red t then 0 else 1).
Proof.
  intros Hin. destruct t as [|c l a r].
  - destruct (ut_sent _ _ _ _ Hin) as (c & ? & _ & ?). by exists c.
  - apply (utree_lookup s k L c l a r) in Hin. eexists; split; [exact Hin|]. by destruct c.
Qed.

Lemma wp_utree_isred s k t (Q : bool → util_state → Prop) :
  utree top sp s (plug k t) → Q (is_red t) s → wp (util_rbt_isred (rootp nil t)) s Q.
Proof.
  intros (c & Hc & Hcol)%utree_cell HQ. eapply wp_uisred; [done|]. rewrite Hcol.
  by destruct (is_red t).
Qed.

Lemma wp_utree_isblack s k t (Q : bool → util_state → Prop) :
  utree top sp s (plug k t) → Q (negb (is_red t)) s → wp (util_rbt_isblack (rootp nil t)) s Q.
Proof.
  intros (c & Hc & Hcol)%utree_cell HQ. eapply wp_uisblack; [done|]. rewrite Hcol.
  by destruct (is_red t).
Qed.

(** ** Recolouring *)

Lemma wp_utree_color s k d c c' t a sb (Q : unit → util_state → Prop) :
  utree top sp s (plug k (mkn d c t a sb)) →
  (∀ s', utree top sp s' (plug k (mkn d c' t a sb)) →
     uframe (addrs (plug k (mkn d c t a sb))) s s' → Q () s') →
  wp (set_ucolor a (colZ c')) s Q.
Proof.
  intros Hin HQ. eapply wp_uset_color; [by eapply utree_lookup|].
  intros s' Hs Hr Hf.
  assert (uframe (addrs (plug k (mkn d c t a sb))) s s') as Hf'.
  { eapply uframe_mono; [done|]. intros b Hb. rewrite addrs_plug_perm, addrs_mkn_perm.
    clear -Hb. set_solver. }
  apply HQ; [|done]. eapply utree_intro; [exact Hin|done| |].
  - by rewrite !addrs_plug_perm, !addrs_mkn_perm.
  - rewrite Hs, Hr. eapply it_recolor, Hin.
Qed.

Lemma wp_utree_black s k d c t a sb (Q : unit → util_state → Prop) :
  utree top sp s (plug k (mkn d c t a sb)) →
  (∀ s', utree top sp s' (plug k (mkn d Black t a sb)) →
     uframe (addrs (plug k (mkn d c t a sb))) s s' → Q () s') →
  wp (util_rbt_black a) s Q.
Proof. exact (wp_utree_color s k d c Black t a sb Q). Qed.

Lemma wp_utree_red s k d c t a sb (Q : unit → util_state → Prop) :
  utree top sp s (plug k (mkn d c t a sb)) →
  (∀ s', utree top sp s' (plug k (mkn d Red t a sb)) →
     uframe (addrs (plug k (mkn d c t a sb))) s s' → Q () s') →
  wp (util_rbt_red a) s Q.
Proof. exact (wp_utree_color s k d c Red t a sb Q). Qed.

(** ** Relinking and rotations *)

(** The root, or the parent's pointer to [node], becomes [v]. *)
Definition urelink_code (node v root : Z) : URB unit :=
  if node =? root then set_uroot v
  else
    np ← uparent node;
    npl ← uleft np;
    np ← uparent node;
    if npl =? node then set_uleft np v else set_uright np v.

Lemma wp_urelink k node v s (Q : unit → util_state → Prop) :
  match k with
  | [] => uroot s = node
  | f :: _ => uroot s ≠ node ∧
      (∃ cn, ushape s !! node = Some cn ∧ c_par cn = f_addr f) ∧
      ∃ c, ushape s !! f_addr f = Some c ∧
        uc_child (f_dir f) c = node ∧ uc_child (opp (f_dir f)) c ≠ node
  end →
  (∀ s', ushape s' = relink k v (ushape s) →
     uroot s' = match k with [] => v | _ => uroot s end →
     uframe (match k with [] => [] | f :: _ => [f_addr f] end) s s' → Q () s') →
  wp (urelink_code node v (uroot s)) s Q.
Proof.
  intros Hk HQ. unfold urelink_code. destruct k as [|[d c' a sb] k]; simpl in *.
  { rewrite Hk, Z.eqb_refl. apply wp_set_uroot. auto. }
  destruct Hk as (Hr & (cn & Hn & Hpn) & c & Hc & Hch & Hopp).
  destruct (Z.eqb_spec node (uroot s)) as [|_]; [congruence|].
  uwp_cell. rewrite Hpn. uwp_cell. uwp_cell. rewrite Hpn.
  destruct d; simpl in *.
  - rewrite Hch, Z.eqb_refl. eapply wp_set_uleft; [exact Hc|]. auto.
  - destruct (Z.eqb_spec (c_left c) node) as [|_]; [done|].
    eapply wp_set_uright; [exact Hc|]. auto.
Qed.

Definition urotate (d : dir) : Z → URB unit :=
  match d with L => rbtree_left_rotate rbtree | R => rbtree_right_rotate rbtree end.

Definition urotate_end (d : dir) (node rclc : Z) : URB unit :=
  uset_child (opp d) node rclc;;
  when (negb (rclc =? nil)) (set_uparent rclc node).

Definition urotate_gen (d : dir) (node : Z) : URB unit :=
  rc ← uget_child (opp d) node;
  rclc ← uget_child d rc;
  np ← uparent node;
  set_uparent rc np;;
  root ← get_uroot;
  urelink_code node rc root;;
  match d with
  | L => set_uparent node rc;; uset_child d rc node;; urotate_end d node rclc
  | R => uset_child d rc node;; set_uparent node rc;; urotate_end d node rclc
  end.

Lemma urotate_eq d : urotate d = urotate_gen d.
Proof. by destruct d. Qed.

(** The two writes in the middle, in either order. *)
Lemma wp_urotate_mid d node rc s cn cr (K : URB unit) (Q : unit → util_state → Prop) :
  node ≠ rc → ushape s !! node = Some cn → ushape s !! rc = Some cr →
  (∀ s', ushape s' = alter (set_c_child d node) rc (alter (set_c_par rc) node (ushape s)) →
     uroot s' = uroot s → uframe [node; rc] s s' → wp K s' Q) →
  wp (match d with
      | L => set_uparent node rc;; uset_child d rc node;; K
      | R => uset_child d rc node;; set_uparent node rc;; K
      end) s Q.
Proof.
  intros Hne Hn Hr HQ. destruct d; simpl.
  - apply wp_bind. eapply wp_uset_parent; [done|]. intros s1 Hs1 Hr1 Hf1.
    apply wp_bind. eapply wp_set_uleft; [by rewrite Hs1, lookup_alter_ne|].
    intros s2 Hs2 Hr2 Hf2. apply HQ; [by rewrite Hs2, Hs1|congruence|]. transitivity s1.
    + eapply uframe_mono; [done|]. clear. set_solver.
    + eapply uframe_mono; [done|]. clear. set_solver.
  - apply wp_bind. eapply wp_set_uright; [done|]. intros s1 Hs1 Hr1 Hf1.
    apply wp_bind. eapply wp_uset_parent; [by rewrite Hs1, lookup_alter_ne|].
    intros s2 Hs2 Hr2 Hf2. apply HQ; [|congruence|].
    + rewrite Hs2, Hs1. by apply alter_alter_ne.
    + transitivity s1; (eapply uframe_mono; [done|]; clear; set_solver).
Qed.

Lemma wp_urotate d k c1 A x c2 B y C s (Q : unit → util_state → Prop) :
  utree top sp s (plug k (mkn d c1 A x (mkn d c2 B y C))) →
  (∀ s', utree top sp s' (plug k (mkn d c2 (mkn d c1 A x B) y C)) →
         uframe (addrs (plug k (mkn d c1 A x (mkn d c2 B y C)))) s s' → Q () s') →
  wp (urotate d x) s Q.
Proof.
  intros Hin HQ. rewrite urotate_eq. unfold urotate_gen.
  pose proof (utree_lookup s k d c1 _ x _ Hin) as Hx. rewrite rootp_mkn in Hx.
  assert (utree top sp s (plug (F (opp d) c1 x A :: k) (mkn d c2 B y C))) as Hiny.
  { simpl. unfold fill; simpl. by rewrite mkn_opp. }
  assert (utree top sp s (plug (F d c2 y C :: F (opp d) c1 x A :: k) B)) as HinB by exact Hiny.
  pose proof (utree_lookup _ _ _ _ _ _ _ Hiny) as Hy. simpl in Hy.
  pose proof (utree_frame _ _ _ Hin) as Hk.
  pose proof (ut_tree _ _ _ _ Hin) as Hit.
  pose proof (it_focus _ _ _ _ _ _ _ Hit) as (_ & Ht & Hnd & Hndk & Hd & Hroot).
  rewrite rootp_mkn in Hroot.
  rewrite !rep_mkn in Ht. destruct Ht as (_ & _ & _ & HB & _).
  rewrite !addrs_mkn_perm in Hnd. setoid_rewrite addrs_mkn_perm in Hd.
  setoid_rewrite addrs_mkn_perm in Hd.
  rewrite !NoDup_cons, NoDup_app, NoDup_cons, NoDup_app in Hnd.
  destruct Hnd as (Hnx & _ & HdA & Hny & _ & HdB & _).
  assert (x ≠ y) as Hxy by (clear -Hnx; set_solver).
  assert ((x ∉ addrs B) ∧ (y ∉ addrs B) ∧ (x ∉ kaddrs k) ∧ (y ∉ kaddrs k) ∧ (∀ b, b ∈ addrs B → b ∉ kaddrs k))
    as (HxB & HyB & Hxk & Hyk & HBk) by (clear -Hnx Hny Hd; set_solver).
  set (T0 := plug k _) in *.
  assert ([x; y] ++ addrs B ++ match k with [] => [] | f :: _ => [f_addr f] end
          ⊆ addrs T0) as Hsub.
  { intros b. unfold T0. rewrite addrs_plug_perm, !addrs_mkn_perm. clear.
    destruct k as [|f k']; [set_solver|]. rewrite kaddrs_cons_perm. set_solver. }
  assert (match k with [] => True | f :: _ => f_addr f ≠ x ∧ f_addr f ≠ y ∧ f_addr f ∉ addrs B end) as Hkf.
  { destruct k as [|f k']; [done|]. destruct Hk as (_ & _ & Hft & _).
    rewrite !addrs_mkn_perm in Hft. clear -Hft. set_solver. }
  uwp_cell. uwp_cell. uwp_cell. uwp_cell. intros s1 Hs1 Hr1 Hf1. uwp_cell.
  apply wp_bind. eapply (wp_urelink k x).
  { rewrite Hr1. destruct k as [|f k']; [exact Hroot|]. destruct Hk as (_ & Hk & _ & Hsib).
    destruct Hkf as (Hkx & Hky & _). split_and!.
    - pose proof (utree_not_root s f k' _ Hin) as Hnr. rewrite rootp_mkn in Hnr. congruence.
    - eexists. split; [ulookup_cell|]. by rewrite uc_par_mkcell.
    - eexists. split; [rewrite Hs1, lookup_alter_ne by congruence; exact Hk|].
      rewrite uc_child_mkcell, uc_child_opp_mkcell, rootp_mkn in *. split; [done|].
      apply Hsib. by destruct d. }
  intros s2 Hs2 Hr2 Hf2. eapply wp_urotate_mid; [exact Hxy|ulookup_cell|ulookup_cell|].
  intros s3 Hs3 Hr3 Hf3. unfold urotate_end. apply wp_bind.
  eapply wp_uset_child; [ulookup_cell|]. intros s4 Hs4 Hr4 Hf4.
  assert (∀ s5, ushape s5 = reparent B x (ushape s4) → uroot s5 = uroot s4 →
            uframe (addrs B) s4 s5 → Q () s5) as Hfin.
  { intros s5 Hs5 Hr5 Hf5.
    assert (uframe (addrs T0) s s5) as HF.
    { assert (∀ L u u', uframe L u u' → L ⊆ [x; y] ++ addrs B ++ match k with [] => [] | f :: _ => [f_addr f] end →
        uframe (addrs T0) u u') as Hm by (intros; eapply uframe_mono; [done|by transitivity ([x; y] ++ addrs B ++ match k with [] => [] | f :: _ => [f_addr f] end)]).
      clear Hsub. transitivity s1; [eapply Hm; [exact Hf1|clear; set_solver]|].
      transitivity s2; [eapply Hm; [exact Hf2|clear; destruct k; set_solver]|].
      transitivity s3; [eapply Hm; [exact Hf3|clear; set_solver]|].
      transitivity s4; [eapply Hm; [exact Hf4|clear; set_solver]|].
      eapply Hm; [exact Hf5|clear; set_solver]. }
    apply HQ; [|exact HF]. eapply utree_intro; [exact Hin|exact HF| |].
    - unfold T0. rewrite !addrs_plug_perm, !addrs_mkn_perm. clear. solve_Permutation.
    - assert (uroot s5 = krootp y k) as ->.
      { rewrite Hr5, Hr4, Hr3, Hr2, Hr1, Hroot. by destruct k. }
      eapply it_rotate; [exact Hit| | |].
      + rewrite Hs5, lookup_reparent_ne by done. ulookup_cell.
      + rewrite Hs5, lookup_reparent_ne by done. ulookup_cell.
      + intros a Hax Hay. rewrite Hs5, Hs4, Hs3, Hs2, Hs1.
        destruct (decide (a ∈ addrs B)) as [HaB|HaB].
        * rewrite (lookup_relink_ne _ k) by auto. apply reparent_congr.
          rewrite !lookup_alter_ne, lookup_relink_ne, lookup_alter_ne by auto. done.
        * rewrite lookup_reparent_ne, !lookup_alter_ne by auto.
          apply relink_congr. rewrite lookup_alter_ne, lookup_reparent_ne by auto. done. }
  apply wp_when; intros Hb.
  - destruct B as [|cB lB b rB]; simpl in *; [by rewrite Z.eqb_refl in Hb|].
    destruct HB as (HB & _). eapply wp_uset_parent; [|intros s5 Hs5 Hr5 Hf5; apply Hfin; [done..|]].
    + assert (b ≠ x ∧ b ≠ y) as [? ?] by (clear -HxB HyB; set_solver).
      rewrite Hs4, Hs3, Hs2, Hs1, !lookup_alter_ne, lookup_relink_ne, lookup_alter_ne; [exact HB|..];
        [congruence|apply HBk; clear; set_solver|congruence..].
    + eapply uframe_mono; [done|]. clear. set_solver.
  - destruct B as [|cB lB b rB]; simpl in *; [by apply Hfin|].
    assert (utree top sp s (plug (F d c2 y C :: F (opp d) c1 x A :: k) (Node cB lB b rB))) as HB' by exact HinB.
    apply utree_okp_rootp in HB' as [_ Hbn]. by destruct (Z.eqb_spec b nil).
Qed.
End tree.
