(* ===== verification/UtilRbInsert.v ===== *)
(** * libconhash: rbtree_insert_fixup computes [ins_fix] *)
From S2P Require Import Prelude PtrTree RbSpec UtilRbTree UtilRbFacts.

Ltac uaddrs_perm :=
  simpl plug; unfold fill; simpl f_dir; simpl f_col; simpl f_addr; simpl f_sib;
  rewrite ?addrs_plug_perm, ?addrs_mkn_perm, ?addrs_blacken, ?addrs_mkn_perm;
  rewrite ?addrs_plug_perm, ?addrs_mkn_perm;
  solve_Permutation.
Ltac uframe_by H :=
  first [exact H | eapply uframe_proper; [|done..|exact H]; uaddrs_perm].

Lemma uplug_sib d c a sb k t :
  plug (F d c a sb :: k) t = plug (F (opp d) c a t :: k) sb.
Proof. simpl. unfold fill; simpl. by rewrite mkn_opp. Qed.

Section insert.
Context (rbtree sp : Z).
Abbreviation nil := (NIL rbtree).
Abbreviation utree_in := (utree rbtree nil sp).

(** The half of a round for a parent on side [d]. *)
Definition uinsert_side (d : dir) (p node : Z) : URB (Z + unit) :=
  pp ← uparent p;
  u ← uget_child (opp d) pp;
  ured ← util_rbt_isred u;
  if (ured : bool) then
    util_rbt_black u;;
    util_rbt_black p;;
    pp ← uparent p;
    util_rbt_red pp;;
    node' ← uparent p;
    mret (inl node')
  else
    pc ← uget_child (opp d) p;
    '(node', p') ← (if (match d with L => node =? pc | R => pc =? node end) then
                      urotate rbtree d p;;
                      p' ← uparent p;
                      mret (p, p')
                    else mret (node, p));
    util_rbt_black p';;
    pp ← uparent p';
    util_rbt_red pp;;
    pp ← uparent p';
    urotate rbtree (opp d) pp;;
    mret (inl node').

Lemma insert_fixup_round_sides node :
  insert_fixup_round rbtree node =
  (np ← uparent node;
   red ← util_rbt_isred np;
   if negb red then mret (inr ()) else
   p ← uparent node;
   pp ← uparent p;
   ppl ← uleft pp;
   if p =? ppl then uinsert_side L p node else uinsert_side R p node).
Proof. reflexivity. Qed.

(** A red uncle: the colours move up. *)
Lemma uinsert_recolor s d1 d2 c2 p s1 g u k t (Q : Z + unit → util_state → Prop) :
  utree_in s (plug (F d1 Red p s1 :: F d2 c2 g u :: k) t) → is_red u = true →
  (∀ s', utree_in s' (plug k (mkn d2 Red (mkn d1 Black t p s1) g (blacken u))) →
         uframe (addrs (plug (F d1 Red p s1 :: F d2 c2 g u :: k) t)) s s' →
         Q (inl g) s') →
  wp (uinsert_side d2 p (rootp nil t)) s Q.
Proof.
  intros Hin Hu HQ. unfold uinsert_side.
  pose proof (utree_lookup _ _ _ _ (F d2 c2 g u :: k) d1 Red t p s1 Hin) as Hp. simpl in Hp.
  pose proof (utree_lookup _ _ _ _ k d2 c2 (mkn d1 Red t p s1) g u Hin) as Hg.
  rewrite rootp_mkn in Hg. uwp_cell. uwp_cell. apply wp_bind.
  assert (utree_in s (plug (F (opp d2) c2 g (mkn d1 Red t p s1) :: k) u)) as Hinu
    by (rewrite <-uplug_sib; exact Hin).
  eapply (wp_utree_isred rbtree nil sp s _ u); [exact Hinu|].
  rewrite Hu. destruct u as [|[] ul ua ur]; try done. simpl rootp.
  set (A := addrs _) in *. apply wp_bind.
  eapply (wp_utree_black _ _ _ _ (F (opp d2) c2 g (mkn d1 Red t p s1) :: k) L Red ul ua ur); [exact Hinu|].
  rewrite <-!uplug_sib. intros s2 Hin2 Hf2. apply wp_bind.
  eapply (wp_utree_black _ _ _ _ (F d2 c2 g (Node Black ul ua ur) :: k) d1 Red t p s1); [exact Hin2|].
  intros s3 Hin3 Hf3.
  pose proof (utree_lookup _ _ _ _ (F d2 c2 g (Node Black ul ua ur) :: k) d1 Black t p s1 Hin3) as Hp3.
  simpl in Hp3. uwp_cell. apply wp_bind.
  eapply (wp_utree_red _ _ _ _ k d2 c2 (mkn d1 Black t p s1) g (Node Black ul ua ur)); [exact Hin3|].
  intros s4 Hin4 Hf4.
  pose proof (utree_lookup _ _ _ _ (F d2 Red g (Node Black ul ua ur) :: k) d1 Black t p s1 Hin4) as Hp4.
  simpl in Hp4. uwp_cell. apply wp_ret. apply HQ; [exact Hin4|].
  unfold A. etransitivity; [exact Hf2|]. etransitivity.
  - eapply uframe_proper; [|done..|exact Hf3]. simpl. unfold fill; simpl.
    by rewrite !addrs_plug_perm, !addrs_mkn_perm.
  - eapply uframe_proper; [|done..|exact Hf4]. simpl. unfold fill; simpl.
    by rewrite !addrs_plug_perm, !addrs_mkn_perm.
Qed.

(** The last steps of the other case: [p] black, [g] red, rotate. *)
Lemma uinsert_rotate_up s d c2 p spl g u k t node (Q : Z + unit → util_state → Prop) :
  utree_in s (plug k (mkn d c2 (mkn d Red t p spl) g u)) →
  (∀ s', utree_in s' (plug k (mkn d Black t p (mkn d Red spl g u))) →
         uframe (addrs (plug k (mkn d c2 (mkn d Red t p spl) g u))) s s' →
         Q (inl node) s') →
  wp (util_rbt_black p;; pp ← uparent p; util_rbt_red pp;; pp ← uparent p;
      urotate rbtree (opp d) pp;; mret (inl node)) s Q.
Proof.
  intros Hin HQ. apply wp_bind.
  eapply (wp_utree_black _ _ _ _ (F d c2 g u :: k) d Red t p spl); [exact Hin|].
  intros s1 Hin1 Hf1.
  pose proof (utree_lookup _ _ _ _ (F d c2 g u :: k) d Black t p spl Hin1) as Hp1. simpl in Hp1.
  uwp_cell. apply wp_bind.
  eapply (wp_utree_red _ _ _ _ k d c2 (mkn d Black t p spl) g u); [exact Hin1|].
  intros s2 Hin2 Hf2.
  pose proof (utree_lookup _ _ _ _ (F d Red g u :: k) d Black t p spl Hin2) as Hp2. simpl in Hp2.
  uwp_cell. apply wp_bind.
  eapply (wp_urotate rbtree nil sp (opp d) k Red u g Black spl p t); [by rewrite !mkn_opp|].
  rewrite !mkn_opp. intros s3 Hin3 Hf3. apply wp_ret. apply HQ; [done|].
  etransitivity; [exact Hf1|]. etransitivity.
  - eapply uframe_proper; [|done..|exact Hf2].
    by rewrite !addrs_plug_perm, !addrs_mkn_perm.
  - eapply uframe_proper; [|done..|exact Hf3].
    simpl. unfold fill; simpl. by rewrite !addrs_plug_perm, !addrs_mkn_perm.
Qed.

(** What a round leaves: the next focus, on the way to the same final tree. *)
Definition uinsert_inv (T : tree) (n : nat) (node : Z) (s : util_state) : Prop :=
  ∃ k t bh, node = rootp nil t ∧ utree_in s (plug k t) ∧ kok Black bh k ∧ rb Red bh t ∧
            ins_fix k t = T ∧ (length k < n)%nat.

Lemma uinsert_side_ok s d1 d2 p s1 g u k t bh n (Q : Z + unit → util_state → Prop) :
  utree_in s (plug (F d1 Red p s1 :: F d2 Black g u :: k) t) →
  kok Black bh (F d1 Red p s1 :: F d2 Black g u :: k) → rb Red bh t →
  (2 + length k < n)%nat →
  (∀ node s', uinsert_inv (ins_fix (F d1 Red p s1 :: F d2 Black g u :: k) t) (n - 1) node s' →
     uframe (addrs (plug (F d1 Red p s1 :: F d2 Black g u :: k) t)) s s' →
     Q (inl node) s') →
  wp (uinsert_side d2 p (rootp nil t)) s Q.
Proof.
  intros Hin Hk Ht Hn HQ.
  inversion Hk as [|? ? ? ? ? Hs1 Hk1|]; subst. inversion Hk1 as [| |? cu ? ? ? ? ? Hu Hk2]; subst.
  destruct (is_red u) eqn:Eu.
  { eapply uinsert_recolor; [done|done|]. intros s' Hin' Hf'. apply HQ; [|done].
    eexists k, _, (S bh). split_and!; [by rewrite rootp_mkn|exact Hin'|done| | |lia].
    - destruct u as [|[] ul ua ur]; try done. inversion Hu; subst.
      apply rb_mkn_red; simpl; eauto with rb.
    - simpl. by rewrite Eu. }
  assert (rb Black bh u) as HuB by (inversion Hu; subst; done || eauto with rb).
  unfold uinsert_side.
  pose proof (utree_lookup _ _ _ _ k d2 Black (mkn d1 Red t p s1) g u Hin) as Hg.
  pose proof (utree_lookup _ _ _ _ (F d2 Black g u :: k) d1 Red t p s1 Hin) as Hp.
  rewrite rootp_mkn in Hg. simpl cpar in Hp. uwp_cell. uwp_cell.
  apply wp_bind. eapply (wp_utree_isred rbtree nil sp s (F (opp d2) Black g (mkn d1 Red t p s1) :: k) u).
  { rewrite <-uplug_sib. exact Hin. }
  rewrite Eu. uwp_cell.
  assert (ins_fix (F d1 Red p s1 :: F d2 Black g u :: k) t =
          if decide (d1 = d2) then blacken (plug k (mkn d2 Black t p (mkn d2 Red s1 g u)))
          else match t with
               | Leaf => blacken (plug (F d1 Red p s1 :: F d2 Black g u :: k) t)
               | Node _ _ n _ =>
                   blacken (plug k (mkn d2 Black (mkn d2 Red s1 p (child d2 t)) n
                                      (mkn d2 Red (child d1 t) g u)))
               end) as Hfix by (simpl; by rewrite Eu).
  rewrite Hfix in HQ. clear Hfix.
  assert (∀ x q y, rb Red bh x → rb Red bh y → kok Black bh (F d2 Black q y :: k)) as Hkok
    by eauto with rb.
  assert (∀ x y, match d2 with L => x =? y | R => y =? x end = (x =? y)) as Htest.
  { intros x y. destruct d2; [done|apply Z.eqb_sym]. }
  rewrite Htest.
  destruct (decide (d1 = d2)) as [->|Hd].
  - autorewrite with ucells.
    pose proof (utree_frame _ _ _ _ _ _ Hin) as (_ & _ & _ & Hne); simpl in Hne.
    assert (t ≠ Leaf) as Htl by (by inversion Ht).
    destruct (Z.eqb_spec (rootp nil t) (rootp nil s1)) as [|_]; [by destruct (Hne Htl)|].
    apply wp_bind, wp_ret. eapply uinsert_rotate_up; [exact Hin|].
    intros s' Hin' Hf'. apply HQ; [|done].
    exists (F d2 Black p (mkn d2 Red s1 g u) :: k), t, bh.
    split_and!; [done|done| |done|done|simpl; lia]. eauto with rb.
  - assert (d1 = opp d2) as -> by (by destruct d1, d2).
    autorewrite with ucells. rewrite Z.eqb_refl.
    inversion Ht as [|tl tn tr ? Htl Htr|]; subst.
    rewrite (node_mkn d2) in Hin. simpl plug in Hin. unfold fill in Hin at 2; simpl in Hin.
    rewrite mkn_opp in Hin.
    apply wp_bind, wp_bind. eapply (wp_urotate rbtree nil sp d2 (F d2 Black g u :: k)); [exact Hin|].
    intros s1' Hin1 Hf1.
    pose proof (utree_lookup _ _ _ _ (F d2 Red tn (child (opp d2) (Node Red tl tn tr)) :: F d2 Black g u :: k) d2 Red
      s1 p (child d2 (Node Red tl tn tr)) Hin1) as Hp1. simpl cpar in Hp1.
    uwp_cell. apply wp_ret. simpl rootp.
    eapply uinsert_rotate_up; [exact Hin1|].
    intros s' Hin' Hf'. apply HQ.
    + exists (F d2 Black tn (mkn d2 Red (child (opp d2) (Node Red tl tn tr)) g u) :: k),
        (mkn d2 Red s1 p (child d2 (Node Red tl tn tr))), bh.
      assert (rb Black bh (child d2 (Node Red tl tn tr)) ∧
              rb Black bh (child (opp d2) (Node Red tl tn tr))) as [??] by (destruct d2; eauto).
      split_and!; [by rewrite rootp_mkn|exact Hin'| | |done|simpl; lia]; eauto with rb.
    + rewrite (node_mkn d2 Red tl tn tr). simpl. unfold fill; simpl. rewrite mkn_opp.
      etransitivity; [exact Hf1|]. eapply uframe_proper; [|done..|exact Hf'].
      unfold fill; simpl. rewrite !addrs_plug_perm, !addrs_mkn_perm.
      solve_Permutation.
Qed.

Lemma insert_fixup_round_ok T n node s :
  uinsert_inv T n node s →
  wp (insert_fixup_round rbtree node) s (λ r s',
    uframe (addrs T) s s' ∧
    match r with
    | inl node' => ∃ n', (n' < n)%nat ∧ uinsert_inv T n' node' s'
    | inr _ => ∃ T', utree_in s' T' ∧ T' ≠ Leaf ∧ blacken T' = T
    end).
Proof.
  intros (k & t & bh & -> & Hin & Hk & Ht & HT & Hn).
  rewrite insert_fixup_round_sides.
  inversion Ht as [|tl ta tr ? Htl Htr|]; subst t bh.
  pose proof (utree_lookup _ _ _ _ k L Red tl ta tr Hin) as Hta. simpl in Hta.
  simpl rootp. uwp_cell. simpl. apply wp_bind.
  destruct k as [|[d1 [] p s1] k].
  1: destruct (ut_sent _ _ _ _ _ Hin) as (cs & Hcs & _ & Hcol);
     eapply wp_uisred; [exact Hcs|rewrite Hcol].
  3: pose proof (utree_lookup _ _ _ _ k d1 Black (Node Red tl ta tr) p s1 Hin) as Hp;
     simpl cpar; uwp_cell.
  1,3: cbn; apply wp_ret; split; [done|]; eexists; split_and!; [exact Hin| |done].
  { done. }
  { intros Heq. apply (f_equal (length ∘ addrs)) in Heq. simpl in Heq.
    rewrite addrs_plug_perm, length_app in Heq. unfold fill in Heq; simpl in Heq.
    rewrite addrs_mkn_perm in Heq. simpl in Heq. lia. }
  inversion Hk as [|? ? ? ? ? Hs1 Hk1|]; subst.
  inversion Hk1 as [| |? cu d2 g u ? k2 Hu Hk2]; subst.
  pose proof (utree_lookup _ _ _ _ (F d2 Black g u :: k2) d1 Red (Node Red tl ta tr) p s1 Hin) as Hp.
  pose proof (utree_lookup _ _ _ _ k2 d2 Black (mkn d1 Red (Node Red tl ta tr) p s1) g u Hin) as Hg.
  rewrite rootp_mkn in Hg. cbn [cpar f_addr] in *. uwp_cell. cbn [negb Z.eqb colZ]. uwp_cell.
  uwp_cell. uwp_cell.
  pose proof (utree_frame _ _ _ s (F d2 Black g u :: k2) (mkn d1 Red (Node Red tl ta tr) p s1) Hin)
    as (_ & _ & _ & Hne). simpl in Hne. rewrite rootp_mkn in Hne.
  match goal with |- wp (if ?b then _ else _) _ _ =>
    replace b with (bool_decide (d2 = L))
  end; cycle 1.
  { destruct d2; simpl; [by rewrite Z.eqb_refl|].
    destruct (Z.eqb_spec p (rootp nil u)); [|done]. subst p. destruct Hne; by destruct d1. }
  assert (∀ Q : Z + unit → util_state → Prop,
    wp (if bool_decide (d2 = L) then uinsert_side L p ta else uinsert_side R p ta) s Q ↔
    wp (uinsert_side d2 p ta) s Q) as -> by (by destruct d2).
  eapply (uinsert_side_ok s d1 d2 p s1 g u k2 (Node Red tl ta tr)) with (n := n);
    [done..|simpl in Hn; lia|].
  intros node s' Hinv Hf. split.
  - rewrite <-(addrs_ins_fix (F d1 Red p s1 :: F d2 Black g u :: k2) (Node Red tl ta tr)) in Hf.
    exact Hf.
  - exists (n - 1)%nat. split; [simpl in Hn; lia|done].
Qed.

Lemma insert_fixup_ins_fix s k t bh :
  utree_in s (plug k t) → kok Black bh k → rb Red bh t →
  wp (rbtree_insert_fixup rbtree (rootp nil t)) s (λ _ s',
    utree_in s' (ins_fix k t) ∧ uframe (addrs (plug k t)) s s').
Proof.
  intros Hin Hk Ht. unfold rbtree_insert_fixup. apply wp_bind. unfold urounds.
  apply wp_bind, wp_get, wp_ret. apply wp_bind.
  set (T := ins_fix k t).
  eapply wp_mono.
  { eapply (wp_loop (λ n node s', uinsert_inv T n node s' ∧ uframe (addrs T) s s')
              _ (λ _ s', uframe (addrs T) s s' ∧
                         ∃ T', utree_in s' T' ∧ T' ≠ Leaf ∧ blacken T' = T))
      with (n := S (length k)).
    - intros n node s1 [Hinv Hf]. eapply wp_mono; [by apply insert_fixup_round_ok|].
      intros [node'|[]] s2 [Hf2 H].
      + destruct H as (n' & ? & ?). exists n'. split_and!; [done..|]. by transitivity s1.
      + split; [by transitivity s1|done].
    - split; [|done]. exists k, t, bh. split_and!; auto.
    - pose proof (utree_size _ _ _ _ _ Hin) as Hsz.
      rewrite addrs_plug_perm, length_app in Hsz. assert (length k ≤ length (kaddrs k))%nat; [|lia].
      clear. induction k as [|f k IH]; simpl; [lia|]. rewrite kaddrs_cons_perm. simpl.
      rewrite length_app. lia. }
  intros _ s' (Hf & T' & Hin' & Hne & HT). apply wp_bind, wp_get_uroot.
  assert (addrs (plug k t) = addrs T) as -> by (unfold T; by rewrite addrs_ins_fix).
  destruct T' as [|c l a r]; [done|]. pose proof (it_root _ _ _ _ _ _ (ut_tree _ _ _ _ _ Hin')) as Hroot.
  simpl in Hroot. rewrite Hroot.
  eapply (wp_utree_black _ _ _ _ [] L c l a r); [exact Hin'|]. intros s2 Hin2 Hf2.
  split; [by rewrite <-HT|]. transitivity s'; [done|].
  rewrite <-HT. simpl in *. exact Hf2.
Qed.
End insert.
