(* ===== verification/UtilRbDelete.v ===== *)
(** * libconhash: rbtree_delete_fixup computes [del_fix]

    The loop reads the parent of the node in focus, which may be the sentinel:
    its parent field holds the parent of the hole. *)
From S2P Require Import Prelude PtrTree RbSpec UtilRbTree UtilRbFacts UtilRbInsert.

Section delete.
Context (rbtree top sp : Z).
Abbreviation nil := (NIL rbtree).
Abbreviation utree_in := (utree rbtree top sp).

(** ** One half of a round; [d] is the side [node] is on *)

Definition udel_tail (d : dir) (node w : Z) : URB (Z + Z) :=
  np ← uparent node;
  npc ← ucolor np;
  set_ucolor w npc;;
  np ← uparent node;
  util_rbt_black np;;
  wf ← uget_child (opp d) w;
  util_rbt_black wf;;
  np ← uparent node;
  urotate rbtree d np;;
  root ← get_uroot;
  mret (inl root).

Definition udel_bal (d : dir) (node w : Z) : URB (Z + Z) :=
  wl ← uleft w;
  wlb ← util_rbt_isblack wl;
  wrb ← (if (wlb : bool) then wr ← uright w; util_rbt_isblack wr else mret false);
  if (wlb && wrb : bool) then
    util_rbt_red w;;
    node' ← uparent node;
    mret (inl node')
  else
    wf ← uget_child (opp d) w;
    wfb ← util_rbt_isblack wf;
    w' ← (if (wfb : bool) then
            wn ← uget_child d w;
            util_rbt_black wn;;
            util_rbt_red w;;
            urotate rbtree (opp d) w;;
            np ← uparent node;
            uget_child (opp d) np
          else mret w);
    udel_tail d node w'.

Definition udel_side (d : dir) (node : Z) : URB (Z + Z) :=
  np ← uparent node;
  w0 ← uget_child (opp d) np;
  wred ← util_rbt_isred w0;
  w ← (if (wred : bool) then
         util_rbt_black w0;;
         np ← uparent node;
         util_rbt_red np;;
         np ← uparent node;
         urotate rbtree d np;;
         np ← uparent node;
         uget_child (opp d) np
       else mret w0);
  udel_bal d node w.

Lemma delete_fixup_round_sides node :
  delete_fixup_round rbtree node =
  (root ← get_uroot;
   black ← (if negb (node =? root) then util_rbt_isblack node else mret false);
   if negb black then mret (inr node) else
   np ← uparent node;
   npl ← uleft np;
   if node =? npl then udel_side L node else udel_side R node).
Proof. reflexivity. Qed.

Lemma wp_focus_parent s d c p sb k t (Q : Z → util_state → Prop) :
  utree_in s (plug (F d c p sb :: k) t) → (t = Leaf → sp = p) → Q p s →
  wp (uparent (rootp nil t)) s Q.
Proof.
  intros Hin Hsp HQ. destruct t as [|ct l a r].
  - destruct (ut_sent _ _ _ _ _ Hin) as (cs & Hcs & Hpar & _).
    eapply wp_uparent; [exact Hcs|]. by rewrite Hpar, Hsp.
  - eapply wp_uparent; [exact (utree_lookup _ _ _ _ (F d c p sb :: k) L ct l a r Hin)|]. done.
Qed.

Section round.
Context (d : dir) (c : color) (p : Z) (k : ctx) (t : tree) (Hsp : t = Leaf → sp = p).

Lemma wp_par s c' sb (Q : Z → util_state → Prop) :
  utree_in s (plug k (mkn d c' t p sb)) → Q p s → wp (uparent (rootp nil t)) s Q.
Proof. intros Hin HQ. eapply (wp_focus_parent s d c' p sb k t); [exact Hin|exact Hsp|exact HQ]. Qed.

(** The far nephew is red: the rotation finishes the job. *)
Lemma udel_tail_ok s sn sa sf (Q : Z + Z → util_state → Prop) :
  utree_in s (plug k (mkn d c t p (mkn d Black sn sa sf))) → is_red sf = true →
  (∀ s', utree_in s' (plug k (mkn d c (mkn d Black t p sn) sa (blacken sf))) →
     uframe (addrs (plug k (mkn d c t p (mkn d Black sn sa sf)))) s s' →
     Q (inl (uroot s')) s') →
  wp (udel_tail d (rootp nil t) sa) s Q.
Proof.
  intros Hin Hsf HQ. unfold udel_tail.
  pose proof (utree_lookup _ _ _ _ k d c t p _ Hin) as Hp.
  apply wp_bind. eapply wp_par; [exact Hin|]. uwp_cell. apply wp_bind.
  eapply (wp_utree_color _ _ _ _ (F (opp d) c p t :: k) d Black c sn sa sf).
  { rewrite <-uplug_sib. exact Hin. }
  rewrite <-!uplug_sib. intros s1 Hin1 Hf1. apply wp_bind.
  eapply wp_par; [exact Hin1|]. apply wp_bind.
  eapply (wp_utree_black _ _ _ _ k d c t p); [exact Hin1|]. intros s2 Hin2 Hf2.
  assert (utree_in s2 (plug (F (opp d) Black p t :: k) (mkn d c sn sa sf))) as Hin2'.
  { by rewrite <-uplug_sib. }
  pose proof (utree_lookup _ _ _ _ _ _ _ _ _ _ Hin2') as Hsa. uwp_cell.
  destruct sf as [|[] fl fa fr]; try done. apply wp_bind.
  eapply (wp_utree_black _ _ _ _ (F (opp d) c sa sn :: F (opp d) Black p t :: k) L Red fl fa fr).
  { rewrite <-uplug_sib. exact Hin2'. }
  rewrite <-!uplug_sib. intros s3 Hin3 Hf3.
  assert (utree_in s3 (plug k (mkn d Black t p (mkn d c sn sa (Node Black fl fa fr))))) as Hin3'.
  { simpl in Hin3. unfold fill in Hin3; simpl in Hin3. by rewrite mkn_opp in Hin3. }
  apply wp_bind. eapply wp_par; [exact Hin3'|]. apply wp_bind.
  eapply (wp_urotate rbtree top sp d k Black t p c sn sa (Node Black fl fa fr)); [exact Hin3'|].
  intros s4 Hin4 Hf4. apply wp_bind, wp_get_uroot, wp_ret. apply HQ; [exact Hin4|].
  change (Node Red fl fa fr) with (mkn L Red fl fa fr) in *.
  change (Node Black fl fa fr) with (mkn L Black fl fa fr) in *.
  etransitivity; [uframe_by Hf1|]. etransitivity; [uframe_by Hf2|].
  etransitivity; [|uframe_by Hf4]. uframe_by Hf3.
Qed.

(** Reading the nephews' colours, left one first. *)
Lemma wp_unephews {X} s sc sn sa sf (A B : URB X) Q :
  utree_in s (plug k (mkn d c t p (mkn d sc sn sa sf))) →
  wp (if negb (is_red sn) && negb (is_red sf) then A else B) s Q →
  wp (wl ← uleft sa;
      wlb ← util_rbt_isblack wl;
      wrb ← (if (wlb : bool) then wr ← uright sa; util_rbt_isblack wr else mret false);
      if (wlb && wrb : bool) then A else B) s Q.
Proof.
  intros Hin HQ.
  assert (∃ tl tr, mkn d sc sn sa sf = Node sc tl sa tr ∧
    (negb (is_red tl) && negb (is_red tr)) = (negb (is_red sn) && negb (is_red sf)))
    as (tl & tr & E & Eb).
  { destruct d; simpl; do 2 eexists; split; [done|done|done|]. by rewrite andb_comm. }
  rewrite E in Hin. rewrite <-Eb in HQ. clear E Eb.
  assert (utree_in s (plug (F (opp d) c p t :: k) (Node sc tl sa tr))) as Hin'.
  { by rewrite <-uplug_sib. }
  pose proof (utree_lookup _ _ _ _ _ L sc tl sa tr Hin') as Hsa. simpl in Hsa.
  uwp_cell. apply wp_bind.
  eapply (wp_utree_isblack _ _ _ _ (F L sc sa tr :: F (opp d) c p t :: k)); [exact Hin'|].
  apply wp_bind. destruct (negb (is_red tl)); simpl in *; [|by apply wp_ret].
  uwp_cell. eapply (wp_utree_isblack _ _ _ _ (F R sc sa tl :: F (opp d) c p t :: k)); [exact Hin'|].
  done.
Qed.

Lemma udel_bal_ok s sn sa sf (Q : Z + Z → util_state → Prop) :
  utree_in s (plug k (mkn d c t p (mkn d Black sn sa sf))) →
  (∀ s', uframe (addrs (plug k (mkn d c t p (mkn d Black sn sa sf)))) s s' →
     match del_bal d c p (mkn d Black sn sa sf) t with
     | inl t' => utree_in s' (plug k t') → Q (inl (uroot s')) s'
     | inr t' => utree_in s' (plug k t') → rootp nil t' = p → t' ≠ Leaf → Q (inl p) s'
     end) →
  wp (udel_bal d (rootp nil t) sa) s Q.
Proof.
  intros Hin HQ. unfold udel_bal.
  assert (del_bal d c p (mkn d Black sn sa sf) t =
    if is_red sf then inl (mkn d c (mkn d Black t p sn) sa (blacken sf))
    else if is_red sn then
      match sn with
      | Leaf => inr (mkn d c t p (mkn d Black sn sa sf))
      | Node _ _ na _ =>
          inl (mkn d c (mkn d Black t p (child d sn)) na
                 (mkn d Black (child (opp d) sn) sa sf))
      end
    else inr (mkn d c t p (mkn d Red sn sa sf))) as Hdb by (by destruct d).
  rewrite Hdb in HQ. clear Hdb.
  assert (utree_in s (plug (F (opp d) c p t :: k) (mkn d Black sn sa sf))) as Hin'.
  { by rewrite <-uplug_sib. }
  pose proof (utree_lookup _ _ _ _ _ _ _ _ _ _ Hin') as Hsa.
  eapply wp_unephews; [exact Hin|].
  destruct (is_red sf) eqn:Ef; [|destruct (is_red sn) eqn:En]; simpl.
  - rewrite andb_false_r. uwp_cell. apply wp_bind.
    eapply (wp_utree_isblack _ _ _ _ (F (opp d) Black sa sn :: F (opp d) c p t :: k)).
    { rewrite <-uplug_sib. exact Hin'. }
    rewrite Ef. apply wp_bind, wp_ret. eapply udel_tail_ok; [done..|].
    intros s' Hin2 Hf2. by apply HQ.
  - uwp_cell. apply wp_bind.
    eapply (wp_utree_isblack _ _ _ _ (F (opp d) Black sa sn :: F (opp d) c p t :: k)).
    { rewrite <-uplug_sib. exact Hin'. }
    rewrite Ef. apply wp_bind. cbn [negb]. uwp_cell.
    destruct sn as [|[] nl na nr]; try done. rewrite (node_mkn d) in Hin'.
    set (nn := child d (Node Red nl na nr)) in *.
    set (nf := child (opp d) (Node Red nl na nr)) in *.
    apply wp_bind.
    eapply (wp_utree_black _ _ _ _ (F d Black sa sf :: F (opp d) c p t :: k) d Red nn na nf);
      [exact Hin'|].
    intros s1 Hin1 Hf1. apply wp_bind.
    eapply (wp_utree_red _ _ _ _ (F (opp d) c p t :: k) d Black _ sa sf); [exact Hin1|].
    intros s2 Hin2 Hf2. apply wp_bind.
    eapply (wp_urotate rbtree top sp (opp d) (F (opp d) c p t :: k) Red sf sa Black nf na nn).
    { by rewrite !mkn_opp. }
    rewrite !mkn_opp, <-!uplug_sib. intros s3 Hin3 Hf3.
    pose proof (utree_lookup _ _ _ _ k d c t p (mkn d Black nn na (mkn d Red nf sa sf)) Hin3) as Hp3.
    rewrite rootp_mkn in Hp3.
    apply wp_bind. eapply wp_par; [exact Hin3|]. uwp_cell.
    eapply udel_tail_ok; [exact Hin3|by destruct d|].
    rewrite blacken_mkn. intros s4 Hin4 Hf4. apply HQ; [|exact Hin4].
    rewrite (node_mkn d). fold nn nf.
    etransitivity; [uframe_by Hf1|]. etransitivity; [uframe_by Hf2|].
    etransitivity; [uframe_by Hf3|uframe_by Hf4].
  - apply wp_bind. eapply (wp_utree_red _ _ _ _ (F (opp d) c p t :: k) d Black sn sa sf); [exact Hin'|].
    rewrite <-!uplug_sib. intros s1 Hin1 Hf1.
    apply wp_bind. eapply wp_par; [exact Hin1|].
    apply wp_ret. apply HQ; [exact Hf1|exact Hin1|apply rootp_mkn|by destruct d].
Qed.
End round.

(** ** The loop *)

(** The subtree in focus hangs in the hole, the sentinel included. *)
Definition hangs (k : ctx) (t : tree) : Prop := t = Leaf → k ≠ [] → sp = cpar top k.

Definition udel_inv (T : tree) (n : nat) (node : Z) (s : util_state) : Prop :=
  ∃ k t, node = rootp nil t ∧ utree_in s (plug k t) ∧ hangs k t ∧
    ((k = [] ∧ blacken t = T) ∨
     (del_fix k t = T ∧ (is_red t = true ∨ ∃ bh, kok Black (S bh) k ∧ rb Black bh t))) ∧
    (length k + (if is_red t then 0 else 1) ≤ n)%nat.

Definition udel_done (T : tree) (x : Z) (s : util_state) : Prop :=
  ∃ k t, x = rootp nil t ∧ utree_in s (plug k t) ∧ plug k (blacken t) = T.

Definition udel_post (T : tree) (n : nat) (s0 : util_state) (r : Z + Z) (s : util_state) : Prop :=
  uframe (addrs T) s0 s ∧
  match r with
  | inl l => ∃ n', (n' < n)%nat ∧ udel_inv T n' l s
  | inr x => udel_done T x s
  end.

Lemma udel_inv_root T n s k t :
  (1 ≤ n)%nat → utree_in s (plug k t) → blacken (plug k t) = T → udel_inv T n (uroot s) s.
Proof.
  intros Hn Hin HT. exists [], (plug k t). split_and!; [|exact Hin|by intros ??|by left|].
  - exact (it_root _ _ _ _ _ _ (ut_tree _ _ _ _ _ Hin)).
  - simpl. destruct (is_red (plug k t)); lia.
Qed.

(** A black sibling. *)
Lemma udel_bal_post d c p sn sa sf k t bh T n s0 s :
  (t = Leaf → sp = p) →
  utree_in s (plug k (mkn d c t p (mkn d Black sn sa sf))) →
  rb Black (S bh) (mkn d Black sn sa sf) → rb Black bh t →
  (c = Black → kok Black (S (S bh)) k) →
  match del_bal d c p (mkn d Black sn sa sf) t with
  | inl t' => blacken (plug k t') = T
  | inr t' => del_fix k t' = T
  end →
  uframe (addrs T) s0 s → (1 ≤ n)%nat →
  (length k + (match c with Red => 0 | Black => 1 end) ≤ n)%nat →
  wp (udel_bal d (rootp nil t) sa) s (udel_post T (S n) s0).
Proof.
  intros Hsp Hin Hsb Ht Hk HT Hf0 Hn1 Hn.
  pose proof (del_bal_rb d c p _ t bh Black Hsb Ht) as Hrb.
  pose proof (addrs_del_bal d c p (mkn d Black sn sa sf) t) as Haddr.
  eapply (udel_bal_ok d c p k t Hsp); [exact Hin|]. intros s' Hf.
  assert (addrs (plug k (mkn d c t p (mkn d Black sn sa sf))) = addrs T) as HA.
  { destruct (del_bal d c p _ t) as [t'|t']; subst T;
      rewrite ?addrs_blacken, ?addrs_del_fix; by apply addrs_plug_cong. }
  rewrite HA in Hf. clear HA.
  destruct (del_bal d c p (mkn d Black sn sa sf) t) as [t'|t'].
  - intros Hin'. split; [by transitivity s|]. exists n. split; [lia|].
    by eapply udel_inv_root.
  - intros Hin' Hroot Hne. split; [by transitivity s|]. specialize (Hrb eq_refl).
    exists n. split; [lia|]. exists k, t'. rewrite Hroot. split_and!; [done|done|by intros ?| |].
    + right. split; [done|]. destruct c; [by left; destruct Hrb|]. right. exists (S bh). auto.
    + destruct c; [destruct Hrb as [_ ->]; lia|]. destruct (is_red t'); lia.
Qed.

Lemma urb_black_mkn d n t : rb Black (S n) t → ∃ sn sa sf, t = mkn d Black sn sa sf.
Proof.
  inversion 1 as [| |? ? l a r]; subst. destruct d; [by exists l, a, r|by exists r, a, l].
Qed.

Lemma udel_side_ok d c p sb k t bh T n s :
  (t = Leaf → sp = p) →
  utree_in s (plug (F d c p sb :: k) t) → kok Black (S bh) (F d c p sb :: k) →
  rb Black bh t → del_fix (F d c p sb :: k) t = T → (length k + 1 ≤ n)%nat →
  wp (udel_side d (rootp nil t)) s (udel_post T (S n) s).
Proof.
  intros Hsp Hin Hk Ht HT Hn. unfold udel_side.
  assert (is_red t = false) as Er by (by inversion Ht).
  pose proof (utree_lookup _ _ _ _ k d c t p sb Hin) as Hp.
  apply wp_bind. eapply wp_par; [exact Hsp|exact Hin|]. uwp_cell.
  assert (∀ sn sa sf, sb = mkn d Black sn sa sf →
    (c = Black → kok Black (S (S bh)) k) → rb Black (S bh) sb →
    wp (wred ← util_rbt_isred (rootp nil sb);
        w ← (if (wred : bool) then
               util_rbt_black (rootp nil sb);;
               np ← uparent (rootp nil t);
               util_rbt_red np;;
               np ← uparent (rootp nil t);
               urotate rbtree d np;;
               np ← uparent (rootp nil t);
               uget_child (opp d) np
             else mret (rootp nil sb));
        udel_bal d (rootp nil t) w) s (udel_post T (S n) s)) as Hblack.
  { intros sn sa sf -> Hkb Hsb. rewrite rootp_mkn.
    assert (utree_in s (plug (F (opp d) c p t :: k) (mkn d Black sn sa sf))) as Hin'.
    { by rewrite <-uplug_sib. }
    pose proof (utree_lookup _ _ _ _ _ _ _ _ _ _ Hin') as Hsa. uwp_cell.
    apply wp_bind, wp_ret.
    eapply (udel_bal_post d c p sn sa sf k t bh); [done|exact Hin|done|done|done| |done|lia|].
    - rewrite del_fix_black in HT by done. by destruct (del_bal d c p (mkn d Black sn sa sf) t).
    - destruct c; lia. }
  inversion Hk as [|? ? ? ? ? Hsb Hk'|? cs ? ? ? ? ? Hsb Hk']; subst.
  - destruct (urb_black_mkn d _ _ Hsb) as (sn & sa & sf & ->). by eapply Hblack.
  - destruct cs; [clear Hblack|].
    + inversion Hsb as [|sl sa sr ? Hsl Hsr|]; subst. rewrite (node_mkn d) in Hin, Hsb |- *.
      set (sn := child d (Node Red sl sa sr)) in *.
      set (sf := child (opp d) (Node Red sl sa sr)) in *.
      assert (rb Black (S bh) sn) as Hsn by (subst sn; by destruct d).
      destruct (urb_black_mkn d _ _ Hsn) as (nn & na & nf & E). rewrite E in *.
      rewrite rootp_mkn.
      assert (utree_in s (plug (F (opp d) Black p t :: k) (mkn d Red (mkn d Black nn na nf) sa sf)))
        as Hin' by (by rewrite <-uplug_sib).
      pose proof (utree_lookup _ _ _ _ _ _ _ _ _ _ Hin') as Hsa. uwp_cell. cbn match.
      apply wp_bind, wp_bind.
      eapply (wp_utree_black _ _ _ _ (F (opp d) Black p t :: k) d Red); [exact Hin'|].
      rewrite <-!uplug_sib. intros s1 Hin1 Hf1. apply wp_bind.
      eapply (wp_par d p k t Hsp); [exact Hin1|]. apply wp_bind.
      eapply (wp_utree_red _ _ _ _ k d Black t p); [exact Hin1|]. intros s2 Hin2 Hf2.
      apply wp_bind. eapply (wp_par d p k t Hsp); [exact Hin2|].
      apply wp_bind. eapply (wp_urotate rbtree top sp d k Red t p Black _ sa sf); [exact Hin2|].
      intros s3 Hin3 Hf3.
      pose proof (utree_lookup _ _ _ _ (F d Black sa sf :: k) d Red t p (mkn d Black nn na nf) Hin3)
        as Hp3. rewrite rootp_mkn in Hp3.
      apply wp_bind. eapply (wp_par d p (F d Black sa sf :: k) t Hsp); [exact Hin3|]. uwp_cell.
      eapply (udel_bal_post d Red p nn na nf (F d Black sa sf :: k) t bh);
        [done|exact Hin3|done|done|done| | |lia|simpl; lia].
      * rewrite del_fix_sib_red by done.
        pose proof (del_bal_rb d Red p _ t bh Black Hsn Ht) as Hrb.
        destruct (del_bal d Red p _ t); [done|]. destruct (Hrb eq_refl) as [_ Hr].
        by rewrite del_fix_red.
      * rewrite addrs_del_fix.
        etransitivity; [uframe_by Hf1|]. etransitivity; [uframe_by Hf2|uframe_by Hf3].
    + destruct (urb_black_mkn d _ _ Hsb) as (sn & sa & sf & ->). by eapply Hblack.
Qed.

Lemma delete_fixup_round_ok T n l s :
  udel_inv T n l s → wp (delete_fixup_round rbtree l) s (udel_post T n s).
Proof.
  intros (k & t & -> & Hin & Hh & Hok & Hn). rewrite delete_fixup_round_sides.
  apply wp_bind, wp_get_uroot.
  destruct k as [|[d c p sb] k].
  { rewrite (it_root _ _ _ _ _ _ (ut_tree _ _ _ _ _ Hin)). simpl plug. rewrite Z.eqb_refl.
    apply wp_bind, wp_ret. cbn. apply wp_ret. split; [done|]. exists [], t.
    split_and!; [done|done|]. destruct Hok as [[_ <-]|[<- [Er|(bh & Hk & Ht)]]]; [done|..].
    - by rewrite del_fix_red.
    - simpl. assert (is_red t = false) as -> by (by inversion Ht). by eapply rbtree_black_id. }
  destruct (Z.eqb_spec (rootp nil t) (uroot s)) as [E|_].
  { by destruct (utree_not_root _ _ _ _ _ _ _ Hin). }
  simpl negb. cbn match. apply wp_bind. eapply wp_utree_isblack; [exact Hin|].
  destruct Hok as [[? _]|[HT Hok]]; [done|].
  destruct (is_red t) eqn:Er; simpl negb; cbn match.
  { apply wp_ret. split; [done|]. exists (F d c p sb :: k), t. split_and!; [done..|].
    by rewrite <-HT, del_fix_red. }
  destruct Hok as [|(bh & Hk & Ht)]; [done|].
  assert (t = Leaf → sp = p) as Hsp by (intros E; by apply Hh).
  apply wp_bind. eapply (wp_focus_parent s d c p sb k t); [exact Hin|done|].
  pose proof (utree_lookup _ _ _ _ k d c t p sb Hin) as Hp. uwp_cell.
  match goal with |- wp (if ?b then _ else _) _ _ =>
    replace b with (bool_decide (d = L))
  end; cycle 1.
  { destruct d; simpl; [by rewrite Z.eqb_refl|].
    destruct (Z.eqb_spec (rootp nil t) (rootp nil sb)) as [E|]; [|done]. exfalso.
    assert (utree_in s (plug (F (opp R) c p t :: k) sb)) as Hin' by (by rewrite <-uplug_sib).
    pose proof (utree_frame _ _ _ _ _ _ Hin') as (_ & _ & _ & Hne); simpl in Hne.
    revert E. apply Hne. intros ->.
    inversion Hk as [|? ? ? ? ? Hsb|? ? ? ? ? ? ? Hsb]; inversion Hsb. }
  destruct n as [|n]; [simpl in Hn; lia|].
  assert (wp (udel_side d (rootp nil t)) s (udel_post T (S n) s)) as Hw; [|by destruct d].
  eapply udel_side_ok; [exact Hsp|exact Hin|done|done|done|simpl in Hn; lia].
Qed.

(** [rbtree_delete_fixup(rbtree, node)] for a hole that is one black node short. *)
Lemma delete_fixup_del_fix s k t bh c :
  utree_in s (plug k t) → hangs k t → kok Black (S bh) k → rb c bh t →
  wp (rbtree_delete_fixup rbtree (rootp nil t)) s (λ _ s',
    utree_in s' (del_fix k t) ∧ (∀ b, b ∉ nil :: addrs (plug k t) → mem s' !! b = mem s !! b) ∧
    upayload s' = upayload s ∧ ut_size (env s') = ut_size (env s)).
Proof.
  intros Hin Hh Hk Ht. unfold rbtree_delete_fixup. apply wp_bind. unfold urounds.
  apply wp_bind, wp_get, wp_ret. apply wp_bind. set (T := del_fix k t).
  rewrite <-(addrs_del_fix k t). fold T. eapply wp_mono.
  { eapply (wp_loop (λ n l s', udel_inv T n l s' ∧ uframe (addrs T) s s')
              _ (λ x s', uframe (addrs T) s s' ∧ udel_done T x s'))
      with (n := S (length k)).
    - intros n l s1 [Hinv Hf]. eapply wp_mono; [by apply delete_fixup_round_ok|].
      intros [l'|x] s2 [Hf2 H].
      + destruct H as (n' & ? & ?). exists n'. split_and!; [done..|]. by transitivity s1.
      + split; [by transitivity s1|done].
    - split; [|done]. exists k, t. split_and!; [done..| |destruct (is_red t); lia].
      right. split; [done|]. destruct (is_red t) eqn:Er; [by left|right].
      exists bh. split; [done|]. inversion Ht; subst; done || eauto with rb.
    - pose proof (utree_size _ _ _ _ _ Hin) as Hsz.
      rewrite addrs_plug_perm, length_app in Hsz. assert (length k ≤ length (kaddrs k))%nat; [|lia].
      clear. induction k as [|f k IH]; simpl; [lia|]. rewrite kaddrs_cons_perm. simpl.
      rewrite length_app. lia. }
  intros x s' (Hf & k' & t' & -> & Hin' & HT).
  assert (addrs (plug k' t') = addrs T) as HA.
  { rewrite <-HT. apply addrs_plug_cong. by rewrite addrs_blacken. }
  destruct t' as [|c' l a r]; simpl.
  - destruct (ut_sent _ _ _ _ _ Hin') as (cs & Hcs & Hpar & Hcol).
    eapply wp_uset_color; [exact Hcs|]. intros s2 Hs2 Hr2 [Hm2 Hp2 Hz2].
    destruct Hf as [Hm Hp Hz]. split_and!; [|intros b Hb; rewrite Hm2, Hm; [done|clear -Hb; set_solver..]|congruence..].
    rewrite <-HT. simpl. split.
    + rewrite Hr2, Hs2. eapply is_tree_frame; [exact (ut_tree _ _ _ _ _ Hin')|].
      intros b Hb. apply lookup_alter_ne. intros <-. by apply utree_nil_notin in Hin'.
    + exists (set_c_col 1 cs). rewrite Hs2, lookup_alter_eq, Hcs. done.
  - eapply (wp_utree_black _ _ _ _ k' L c' l a r); [exact Hin'|]. intros s2 Hin2 Hf2.
    assert (uframe (addrs T) s s2) as [Hm Hp Hz].
    { transitivity s'; [done|]. by rewrite <-HA. }
    split_and!; [by rewrite <-HT| |done..]. intros b Hb. apply Hm. clear -Hb. set_solver.
Qed.
End delete.
