(* ===== verification/UtilRbUnlink.v ===== *)
(** * libconhash: util_rbtree_delete computes [erase_at]

    The choice of the node to take out, the relinking around it, and the whole of
    [util_rbtree_delete]. *)
From S2P Require Import Prelude PtrTree RbSpec UtilRbTree UtilRbFacts UtilRbInsert UtilRbDelete.

(** ** Walking down one side *)

Definition uend_loop (d : dir) (node sentinel : Z) : URB Z :=
  if node =? sentinel then mret 0 else
  fuel ← urounds;
  loop fuel (λ node, l ← uget_child d node;
                     mret (if negb (l =? sentinel) then inl l else inr node)) node.

Lemma uend_loop_dir d :
  uend_loop d = match d with L => util_rbsubtree_min | R => util_rbsubtree_max end.
Proof. by destruct d. Qed.

Lemma wp_uend_loop tp top sp d s k t k' t' (Q : Z → util_state → Prop) :
  utree tp top sp s (plug k t) → t ≠ Leaf → spine d t k = (k', t') →
  Q (rootp (NIL tp) t') s → wp (uend_loop d (rootp (NIL tp) t) (NIL tp)) s Q.
Proof.
  intros Hin Ht Hsp HQ. unfold uend_loop.
  destruct (Z.eqb_spec (rootp (NIL tp) t) (NIL tp)) as [E|_].
  { destruct t as [|c l a r]; [done|]. apply utree_okp_rootp in Hin as [_ ?]. done. }
  apply wp_bind. unfold urounds. apply wp_bind, wp_get, wp_ret.
  eapply (wp_loop (λ n x s', s' = s ∧ ∃ k0 t0, x = rootp (NIL tp) t0 ∧ utree tp top sp s (plug k0 t0) ∧
            t0 ≠ Leaf ∧ spine d t0 k0 = (k', t') ∧ (length (addrs t0) ≤ n)%nat))
    with (n := length (addrs t)).
  2: { split; [done|]. exists k, t. auto. }
  2: { pose proof (utree_size _ _ _ _ _ Hin) as Hs.
       rewrite addrs_plug_perm, length_app in Hs. lia. }
  clear k t Hin Ht Hsp. intros n x s' (-> & k & t & -> & Hin & Ht & Hsp & Hn).
  destruct t as [|c l a r]; [done|]. rewrite (node_mkn d) in *.
  generalize dependent (child (opp d) (Node c l a r)); intros sb.
  generalize dependent (child d (Node c l a r)); intros t Hin Ht Hsp Hn.
  pose proof (utree_lookup _ _ _ _ k d c t a sb Hin) as Ha. rewrite rootp_mkn. uwp_cell.
  apply wp_ret. rewrite spine_mkn in Hsp. rewrite addrs_mkn_perm in Hn. simpl in Hn.
  destruct t as [|ct lt at_ rt].
  - injection Hsp as <- <-. simpl. rewrite Z.eqb_refl. simpl. by rewrite rootp_mkn in HQ.
  - assert (utree tp top sp s (plug (F d c a sb :: k) (Node ct lt at_ rt))) as Hin' by exact Hin.
    destruct (utree_okp_rootp _ _ _ _ _ _ _ _ _ Hin') as [_ Hnn].
    simpl. destruct (Z.eqb_spec at_ (NIL tp)) as [|_]; [done|]. simpl.
    rewrite length_app in Hn.
    exists (length (addrs (Node ct lt at_ rt))). split; [simpl; rewrite length_app; simpl; simpl in Hn; rewrite ?length_app in Hn; simpl in Hn; lia|]. split; [done|].
    eexists _, (Node ct lt at_ rt). eauto 10.
Qed.

Section unlink.
Context (tp top sp : Z).
Abbreviation nil := (NIL tp).

(** ** The steps *)

(** [subst->parent = p], where [subst] may be the sentinel. *)
Lemma wp_subst_parent s k t p (Q : unit → util_state → Prop) :
  utree tp top sp s (plug k t) →
  (∀ s', (∀ x, x ≠ nil → ushape s' !! x = reparent t p (ushape s) !! x) →
     (∃ c, ushape s' !! nil = Some c ∧ c_par c = (if decide (t = Leaf) then p else sp) ∧ c_col c = 1) →
     uroot s' = uroot s → uframe [rootp nil t] s s' → Q () s') →
  wp (set_uparent (rootp nil t) p) s Q.
Proof.
  intros Hin HQ. destruct (ut_sent _ _ _ _ _ Hin) as (cs & Hcs & Hpar & Hcol).
  destruct (utree_cell _ _ _ _ _ _ Hin) as (ct & Hct & _).
  eapply wp_uset_parent; [exact Hct|]. intros s' Hs' Hr' Hf'. apply HQ; [..|done|done].
  - intros x Hx. rewrite Hs'. destruct t as [|c l a r]; simpl; [|done]. by rewrite lookup_alter_ne.
  - rewrite Hs'. destruct t as [|c l a r]; simpl in *.
    + rewrite lookup_alter_eq, Hcs. by eexists.
    + exists cs. rewrite lookup_alter_ne; [done|].
      intros ->. by apply utree_okp_rootp in Hin as [_ ?].
Qed.

Lemma wp_clear_node a s (Q : unit → util_state → Prop) :
  is_Some (ushape s !! a) →
  (∀ s', (∀ x, x ≠ a → ushape s' !! x = ushape s !! x) → uroot s' = uroot s →
     uframe [a] s s' → Q () s') →
  wp (rbt_clear_node a) s Q.
Proof.
  intros [c Hc] HQ. unfold rbt_clear_node. uwp_cell. intros s1 Hs1 Hr1 Hf1.
  uwp_cell. intros s2 Hs2 Hr2 Hf2. uwp_cell. intros s3 Hs3 Hr3 Hf3. apply HQ; [|congruence|].
  - intros x Hx. by rewrite Hs3, Hs2, Hs1, !lookup_alter_ne.
  - etransitivity; [exact Hf1|]. by etransitivity.
Qed.

(** The code from the removal of [temp] on. *)
Definition delete_tail (node temp subst : Z) : URB unit :=
  isblack ← util_rbt_isblack temp;
  tp' ← uparent temp;
  (if tp' =? node then set_uparent subst temp
   else tp' ← uparent temp; set_uparent subst tp');;
  tp' ← uparent temp;
  tpl ← uleft tp';
  tp' ← uparent temp;
  (if temp =? tpl then set_uleft tp' subst else set_uright tp' subst);;
  when (negb (temp =? node)) (delete_replace tp node temp);;
  rbt_clear_node node;;
  when (isblack : bool) (rbtree_delete_fixup tp subst).

Lemma util_rbtree_delete_tail node :
  util_rbtree_delete tp node =
  (if (tp =? 0) || (node =? 0) || (node =? nil) then mret () else
   sz ← get_usize;
   set_usize (uint (sz - 1));;
   '(temp, subst) ← delete_pos tp node;
   root ← get_uroot;
   if temp =? root then
     set_uroot subst;;
     util_rbt_black subst;;
     rbt_clear_node temp
   else delete_tail node temp subst).
Proof. reflexivity. Qed.

(** What is left when a node of [T] has been taken out: [t] in the hole of [k]. *)
Definition uunlinked (s : util_state) (T : tree) (k : ctx) (t : tree) (s' : util_state) : Prop :=
  ∃ sp', utree tp top sp' s' (plug k t) ∧ hangs top sp' k t ∧
    (∀ b, b ∉ nil :: addrs T → mem s' !! b = mem s !! b) ∧
    upayload s' = upayload s ∧ ut_size (env s') = ut_size (env s).

(** ** A node with at most one child, not the root *)

Lemma wp_delete_tail_one s f k d c t a (Q : unit → util_state → Prop) :
  utree tp top sp s (plug (f :: k) (mkn d c t a Leaf)) →
  (∀ s', uunlinked s (plug (f :: k) (mkn d c t a Leaf)) (f :: k) t s' →
     wp (when (colZ c =? 1) (rbtree_delete_fixup tp (rootp nil t))) s' Q) →
  wp (delete_tail a a (rootp nil t)) s Q.
Proof.
  intros Hin HQ. unfold delete_tail.
  pose proof (utree_lookup _ _ _ _ (f :: k) d c t a Leaf Hin) as Ha. simpl cpar in Ha.
  pose proof (utree_frame _ _ _ _ _ _ Hin) as (Hfo & Hf & Hft & Hsib).
  rewrite addrs_mkn_perm in Hft. simpl in Hft. rewrite app_nil_r in Hft.
  rewrite rootp_mkn in Hf, Hsib. destruct Hfo as [_ Hfn].
  assert (f_addr f ≠ a) as Hfa by (clear -Hft; set_solver).
  assert (utree tp top sp s (plug (F d c a Leaf :: f :: k) t)) as Hint by exact Hin.
  pose proof (ut_tree _ _ _ _ _ Hin) as Hit.
  pose proof (it_focus _ _ _ _ _ _ _ Hit) as (_ & Hrep & Hnd & _ & Hd & Hroot).
  rewrite rootp_mkn in Hroot. rewrite rep_mkn in Hrep. destruct Hrep as (_ & Hrep & _).
  rewrite addrs_mkn_perm in Hnd. simpl in Hnd. rewrite app_nil_r in Hnd. apply NoDup_cons in Hnd as [Hat Hnd].
  setoid_rewrite addrs_mkn_perm in Hd. simpl in Hd. rewrite app_nil_r in Hd.
  pose proof (utree_okp _ _ _ _ _ _ _ _ _ _ Hin) as [_ Han].
  uwp_cell. uwp_cell. destruct (Z.eqb_spec (f_addr f) a) as [|_]; [done|].
  apply wp_bind. uwp_cell. eapply (wp_subst_parent s _ t); [exact Hint|].
  intros s1 Hs1 Hsent1 Hr1 Hf1.
  assert (ushape s1 !! a = ushape s !! a) as Ha1.
  { rewrite Hs1, lookup_reparent_ne; done. }
  assert (ushape s1 !! f_addr f = ushape s !! f_addr f) as Hf1'.
  { rewrite Hs1, lookup_reparent_ne; [done|clear -Hft; set_solver|done]. }
  rewrite Ha in Ha1. rewrite Hf in Hf1'. uwp_cell. uwp_cell. uwp_cell.
  apply wp_bind.
  assert (∀ s2, ushape s2 = alter (set_c_child (f_dir f) (rootp nil t)) (f_addr f) (ushape s1) →
    uroot s2 = uroot s1 → uframe [f_addr f] s1 s2 →
    wp (when (negb (a =? a)) (delete_replace tp a a);; rbt_clear_node a;;
        when (colZ c =? 1) (rbtree_delete_fixup tp (rootp nil t))) s2 Q) as Hrest.
  { intros s2 Hs2 Hr2 Hf2. rewrite Z.eqb_refl. apply wp_bind, wp_ret.
    apply wp_bind. eapply wp_clear_node.
    { rewrite Hs2, lookup_alter_ne, Ha1 by done. eauto. }
    intros s3 Hs3 Hr3 Hf3. apply HQ.
    destruct Hsent1 as (cs & Hcs & Hpar & Hcol).
    exists (if decide (t = Leaf) then f_addr f else sp). split_and!.
    - split.
      + rewrite Hr3, Hr2, Hr1, Hroot.
        assert (Forall (unode_addr tp) (addrs t)) as Hokt.
        { destruct Hit as [_ _ _ Hok]. rewrite addrs_plug_perm, addrs_mkn_perm, Forall_app, Forall_cons in Hok.
          destruct Hok as (_ & _ & Hok). simpl in Hok. by rewrite app_nil_r in Hok. }
        pose proof (it_refocus _ _ _ _ _ (f :: k) _ t _ Hit Hrep Hnd) as Hit'.
        eapply is_tree_frame; [apply Hit'; [set_solver|done]|].
        assert (a ∉ kaddrs (f :: k)) as Hak by (apply Hd; left).
        intros x Hx. rewrite addrs_plug_perm, elem_of_app in Hx.
        assert (x ≠ nil ∧ x ≠ a) as [Hxn Hxa].
        { split; intros ->.
          - apply (utree_nil_notin _ _ _ _ _ _ Hin). rewrite addrs_plug_perm, addrs_mkn_perm.
            clear -Hx. set_solver.
          - tauto. }
        rewrite Hs3, Hs2 by done. simpl. apply alter_congr. by apply Hs1.
      + exists cs. split_and!; [|done..].
        rewrite Hs3, Hs2, lookup_alter_ne by done. done.
    - intros E _. by rewrite decide_True.
    - intros b Hb. rewrite addrs_plug_perm, addrs_mkn_perm, kaddrs_cons_perm in Hb. simpl in Hb.
      rewrite (uf_mem _ _ _ Hf3), (uf_mem _ _ _ Hf2), (uf_mem _ _ _ Hf1); [done|..].
      + destruct t; simpl in *; clear -Hb; set_solver.
      + clear -Hb. set_solver.
      + clear -Hb. set_solver.
    - rewrite (uf_pay _ _ _ Hf3), (uf_pay _ _ _ Hf2), (uf_pay _ _ _ Hf1). done.
    - rewrite (uf_size _ _ _ Hf3), (uf_size _ _ _ Hf2), (uf_size _ _ _ Hf1). done. }
  assert ((a =? c_left (mkcell (f_dir f) (cpar top k) (colZ (f_col f)) a (rootp nil (f_sib f))))
          = bool_decide (f_dir f = L)) as ->.
  { destruct (f_dir f); simpl; [by rewrite Z.eqb_refl|].
    destruct (Z.eqb_spec a (rootp nil (f_sib f))) as [E|]; [|done]. exfalso. symmetry in E. revert E.
    apply Hsib. by destruct d. }
  destruct (f_dir f) eqn:Ed; simpl.
  - eapply wp_set_uleft; [exact Hf1'|]. exact Hrest.
  - eapply wp_set_uright; [exact Hf1'|]. exact Hrest.
Qed.

(** ** A node with two children *)

Section two.
Context (s : util_state) (k ky : ctx) (c cy : color) (l ry : tree) (a y : Z).
Context (Hin : utree tp top sp s (plug (ky ++ F R c a l :: k) (Node cy Leaf y ry))).
Context (Hleft : Forall (λ f, f_dir f = L) ky) (Hl : l ≠ Leaf).

Abbreviation h := (ushape s).

Lemma utwo_nodup : NoDup (kaddrs k ++ addrs l ++ kaddrs ky ++ a :: y :: addrs ry).
Proof. eapply it_two_nodup, Hin. Qed.

(** [nil] is no node of the tree. *)
Lemma utwo_nil : nil ∉ kaddrs k ++ addrs l ++ kaddrs ky ++ a :: y :: addrs ry.
Proof.
  pose proof (utree_nil_notin _ _ _ _ _ _ Hin) as Hn.
  rewrite addrs_plug_perm, kaddrs_app_perm, kaddrs_cons_perm in Hn. simpl in Hn.
  clear -Hn. set_solver.
Qed.

(** The state when [subst] hangs in the place of [temp]. *)
Record utaken (s2 : util_state) : Prop := {
  uk_rest x : x ≠ nil → x ≠ y → x ≠ a →
    ushape s2 !! x = relink ky (rootp nil ry) (reparent ry (cpar y ky) h) !! x;
  uk_a : ushape s2 !! a = Some (Cell (cpar top k) (colZ c) (rootp nil l) (rootp nil (plug ky ry)));
  uk_y : ushape s2 !! y = h !! y;
  uk_sent : ∃ cs, ushape s2 !! nil = Some cs ∧
    c_par cs = (if decide (ry = Leaf) then cpar y ky else sp) ∧ c_col cs = 1;
  uk_root : uroot s2 = uroot s;
  uk_frame : uframe (nil :: a :: kaddrs ky ++ addrs ry) s s2;
}.

Lemma wp_take (K : URB unit) (Q : unit → util_state → Prop) :
  (∀ s2, utaken s2 → wp K s2 Q) →
  wp (tp' ← uparent y;
      (if tp' =? a then set_uparent (rootp nil ry) y
       else tp' ← uparent y; set_uparent (rootp nil ry) tp');;
      tp' ← uparent y;
      tpl ← uleft tp';
      tp' ← uparent y;
      (if y =? tpl then set_uleft tp' (rootp nil ry) else set_uright tp' (rootp nil ry));; K) s Q.
Proof.
  intros HQ. pose proof utwo_nodup as Hnd. pose proof utwo_nil as Hnil.
  pose proof (utree_lookup _ _ _ _ (ky ++ F R c a l :: k) L cy Leaf y ry Hin) as Hy.
  assert (ushape s !! a = Some (Cell (cpar top k) (colZ c) (rootp nil l) (krootp y ky))) as Ha.
  { pose proof Hin as H. rewrite plug_app in H.
    apply (utree_lookup _ _ _ _ k R c) in H. by rewrite rootp_plug in H. }
  rewrite cpar_app in Hy. simpl in Hy.
  assert (utree tp top sp s (plug (F R cy y Leaf :: ky ++ F R c a l :: k) ry)) as Hinry by exact Hin.
  rewrite NoDup_app in Hnd. destruct Hnd as (_ & HdK & Hnd). rewrite NoDup_app in Hnd.
  destruct Hnd as (_ & HdL & Hnd). rewrite NoDup_app, !NoDup_cons in Hnd.
  destruct Hnd as (Hnky & Hdy & Haa & Hyr & Hnry).
  assert (a ≠ y ∧ (a ∉ addrs ry) ∧ a ≠ nil ∧ y ≠ nil) as (Hay & Har & Han & Hyn)
    by (clear -Haa Hnil; set_solver).
  uwp_cell. apply wp_bind.
  assert (∀ s1, (∀ x, x ≠ nil → ushape s1 !! x = reparent ry (cpar y ky) (ushape s) !! x) →
     (∃ cs, ushape s1 !! nil = Some cs ∧ c_par cs = (if decide (ry = Leaf) then cpar y ky else sp) ∧ c_col cs = 1) →
     uroot s1 = uroot s → uframe [rootp nil ry] s s1 →
     wp (tp' ← uparent y;
         tpl ← uleft tp';
         tp' ← uparent y;
         (if y =? tpl then set_uleft tp' (rootp nil ry) else set_uright tp' (rootp nil ry));; K) s1 Q) as Hrest.
  { intros s1 Hs1 Hsent Hr1 Hf1.
    assert (ushape s1 !! y = ushape s !! y) as Hy1 by (rewrite Hs1, lookup_reparent_ne by done; done).
    assert (ushape s1 !! a = ushape s !! a) as Ha1 by (rewrite Hs1, lookup_reparent_ne by done; done).
    assert (∀ b, b ∈ rootp nil ry :: [] → b ∈ nil :: addrs ry) as Hry.
    { destruct ry; simpl; clear; set_solver. }
    pose proof Hy1 as Hy1'. rewrite Hy in Hy1'. pose proof Ha1 as Ha1'. rewrite Ha in Ha1'.
    uwp_cell.
    destruct ky as [|[d cf f sf] ky'] eqn:Eky; simpl cpar in *; simpl krootp in *.
    - uwp_cell. uwp_cell. destruct (Z.eqb_spec y (rootp nil l)) as [E|_].
      { exfalso. destruct l as [|cl ll al rl]; [done|]. simpl in E. subst al.
        eapply (HdL y); [simpl; clear; set_solver|clear; set_solver]. }
      apply wp_bind. eapply wp_set_uright; [exact Ha1'|]. intros s2 Hs2 Hr2 Hf2. apply HQ. split; rewrite ?Eky.
      + intros x Hxn Hxy Hxa. simpl. by rewrite Hs2, lookup_alter_ne, Hs1 by done.
      + rewrite Hs2, lookup_alter_eq, Ha1'. done.
      + by rewrite Hs2, lookup_alter_ne.
      + rewrite Hs2, lookup_alter_ne; [done|]. done.
      + congruence.
      + transitivity s1; (eapply uframe_mono; [done|]; intros b Hb).
        * apply Hry in Hb. clear -Hb. set_solver.
        * clear -Hb. set_solver.
    - apply Forall_cons in Hleft as [Hd _]. simpl in Hd. subst d.
      setoid_rewrite kaddrs_cons_perm in HdK. setoid_rewrite kaddrs_cons_perm in HdL.
      setoid_rewrite kaddrs_cons_perm in Hdy. rewrite kaddrs_cons_perm in Hnil. simpl in *.
      assert (f ≠ a ∧ f ≠ y ∧ f ≠ nil ∧ f ∉ addrs ry) as (Hfa & Hfy & Hfn & Hfr).
      { clear -Hdy Hnil. set_solver. }
      assert (utree tp top sp s (plug (ky' ++ F R c a l :: k) (mkn L cf (Node cy Leaf y ry) f sf))) as Hinf by exact Hin.
      pose proof (utree_lookup _ _ _ _ _ _ _ _ _ _ Hinf) as Hf. simpl in Hf.
      assert (ushape s1 !! f = ushape s !! f) as Hf1'.
      { rewrite Hs1, lookup_reparent_ne by done. done. }
      rewrite Hf in Hf1'. uwp_cell. uwp_cell. rewrite Z.eqb_refl.
      apply wp_bind. eapply wp_set_uleft; [exact Hf1'|]. intros s2 Hs2 Hr2 Hf2. apply HQ. split; rewrite ?Eky.
      + intros x Hxn Hxy Hxa. rewrite Hs2. simpl. apply alter_congr. by apply Hs1.
      + rewrite Hs2, lookup_alter_ne, Ha1' by done. do 3 f_equal. simpl.
        rewrite rootp_plug. unfold fill. simpl. done.
      + by rewrite Hs2, lookup_alter_ne.
      + rewrite Hs2, lookup_alter_ne by done. done.
      + congruence.
      + transitivity s1; (eapply uframe_mono; [done|]; intros b Hb); rewrite kaddrs_cons_perm; simpl.
        * apply Hry in Hb. clear -Hb. set_solver.
        * clear -Hb. set_solver. }
  destruct (decide (ky = [])) as [Hk0|Hk0].
  - rewrite Hk0. simpl cpar. rewrite Z.eqb_refl.
    eapply (wp_subst_parent s _ ry); [exact Hinry|]. intros s1 Hs1 Hsent Hr1 Hf1.
    apply Hrest; [|by rewrite Hk0|done|done]. intros x Hx. rewrite Hk0. by apply Hs1.
  - assert (cpar a ky = cpar y ky ∧ cpar a ky ≠ a) as [Hc Hca].
    { destruct ky as [|f ky']; [done|]. split; [done|]. simpl. intros E.
      setoid_rewrite kaddrs_cons_perm in Hdy. simpl in Hdy. clear -E Hdy. set_solver. }
    destruct (Z.eqb_spec (cpar a ky) a) as [|_]; [done|]. uwp_cell. rewrite Hc.
    eapply (wp_subst_parent s _ ry); [exact Hinry|]. exact Hrest.
Qed.

Lemma relink_some k' q (g : shapes) x : is_Some (g !! x) → is_Some (relink k' q g !! x).
Proof. intros [c' Hc']. destruct k'; simpl; [eauto|]. by apply lookup_alter_is_Some. Qed.
Lemma reparent_some t q (g : shapes) x : is_Some (g !! x) → is_Some (reparent t q g !! x).
Proof. intros [c' Hc']. destruct t; simpl; [eauto|]. by apply lookup_alter_is_Some. Qed.

(** [if (q != null) q->parent = y] for the root [q] of a subtree. *)
Lemma wp_reparent_u B s1 (Q : unit → util_state → Prop) (m : URB unit) :
  match B with Leaf => True | Node _ _ b _ => b ≠ nil ∧ is_Some (ushape s1 !! b) end →
  (∀ Q', wp (set_uparent (rootp nil B) y) s1 Q' → wp m s1 Q') →
  (∀ s', ushape s' = reparent B y (ushape s1) → uroot s' = uroot s1 →
         uframe (addrs B) s1 s' → Q () s') →
  wp (when (negb (rootp nil B =? nil)) m) s1 Q.
Proof.
  intros HB Hm HQ. apply wp_when.
  - intros Hb. apply Hm. destruct B as [|cb lb b rb']; simpl in *; [by rewrite Z.eqb_refl in Hb|].
    destruct HB as (_ & cb' & HB). eapply wp_uset_parent; [exact HB|].
    intros s' Hs' He' Hf'. apply HQ; [done..|]. eapply uframe_mono; [done|]. clear. set_solver.
  - intros Hb. destruct B as [|cb lb b rb']; simpl in *; [by apply HQ|].
    destruct HB as (Hb0 & _). destruct (Z.eqb_spec b nil); done.
Qed.

Lemma wp_replace_clear s2 (K : URB unit) (Q : unit → util_state → Prop) :
  utaken s2 →
  (∀ s', uunlinked s (plug (ky ++ F R c a l :: k) (Node cy Leaf y ry)) (ky ++ F R c y l :: k) ry s' →
     wp K s' Q) →
  wp (when (negb (y =? a)) (delete_replace tp a y);; rbt_clear_node a;; K) s2 Q.
Proof.
  intros [Hrest Ha2 Hy2 Hsent Hroot2 Hf2] HQ.
  pose proof utwo_nodup as Hnd. pose proof utwo_nil as Hnil.
  rewrite NoDup_app in Hnd. destruct Hnd as (_ & HdK & Hnd). rewrite NoDup_app in Hnd.
  destruct Hnd as (_ & HdL & Hnd). rewrite NoDup_app, !NoDup_cons in Hnd.
  destruct Hnd as (Hnky & Hdy & Haa & Hyr & Hnry).
  assert (a ≠ y ∧ (a ∉ addrs ry) ∧ a ≠ nil ∧ y ≠ nil ∧ (a ∉ kaddrs k) ∧ (y ∉ kaddrs k) ∧ (a ∉ addrs l) ∧ y ∉ addrs l)
    as (Hay & Har & Han & Hyn & Hak & Hyk & Hal & Hyl) by (clear -Haa Hnil HdK HdL; set_solver).
  assert ((y ∉ kaddrs ky) ∧ a ∉ kaddrs ky) as [Hyky Haky] by (clear -Hdy; set_solver).
  pose proof (utree_lookup _ _ _ _ (ky ++ F R c a l :: k) L cy Leaf y ry Hin) as Hy. simpl in Hy.
  rewrite <-Hy2 in Hy. clear Hy2.
  assert (utree tp top sp s (plug k (Node c l a (plug ky (Node cy Leaf y ry))))) as Hink.
  { pose proof Hin as H. by rewrite plug_app in H. }
  pose proof (ut_tree _ _ _ _ _ Hink) as Hit.
  pose proof (it_root _ _ _ _ _ _ Hit) as Hroot. rewrite rootp_plug in Hroot. simpl in Hroot.
  pose proof (it_rep _ _ _ _ _ _ Hit) as Hrep.
  assert (∀ x, x ∈ kaddrs k ++ addrs l ++ kaddrs ky ++ addrs ry → x ≠ nil ∧ x ≠ y ∧ x ≠ a ∧
            is_Some (ushape s !! x) ∧ is_Some (ushape s2 !! x)) as Hlive.
  { intros x Hx. assert (x ≠ nil ∧ x ≠ y ∧ x ≠ a) as (Hxn & Hxy & Hxa).
    { clear -Hx Hnil HdK HdL Hdy Haa Hyr. set_solver. }
    assert (is_Some (ushape s !! x)) as Hsx.
    { eapply rep_lookup; [exact Hrep|]. rewrite addrs_plug_perm. simpl. rewrite addrs_plug_perm. simpl.
      clear -Hx. set_solver. }
    split_and!; try done. rewrite Hrest by done. by apply relink_some, reparent_some. }
  assert (∀ x, x ∈ kaddrs k ++ addrs l → ushape s2 !! x = ushape s !! x) as Hout.
  { intros x Hx. destruct (Hlive x) as (Hxn & Hxy & Hxa & _); [clear -Hx; set_solver|].
    rewrite Hrest, lookup_relink_ne, lookup_reparent_ne; [done|..]; try done;
      clear -Hx HdK HdL; set_solver. }
  destruct (Z.eqb_spec y a) as [|_]; [congruence|]. simpl. apply wp_bind. unfold delete_replace.
  uwp_cell. uwp_cell. intros s3 Hs3 Hr3 Hf3. uwp_cell. apply wp_bind.
  eapply (wp_urelink k a).
  { rewrite Hr3, Hroot2. destruct k as [|f k']; [exact Hroot|].
    pose proof (utree_frame _ _ _ _ _ _ Hink) as (_ & Hf & _ & Hsib).
    assert (f_addr f ∈ kaddrs (f :: k') ++ addrs l) as Hfin
      by (rewrite kaddrs_cons_perm; simpl; clear; set_solver).
    destruct (Hlive (f_addr f)) as (_ & Hfy & _); [clear -Hfin; set_solver|].
    split_and!.
    - pose proof (utree_not_root _ _ _ _ _ _ _ Hink) as Hnr. simpl in Hnr. congruence.
    - eexists. split; [rewrite Hs3, lookup_alter_ne, Ha2 by done; done|done].
    - eexists. split; [rewrite Hs3, lookup_alter_ne, (Hout _ Hfin) by done; exact Hf|].
      rewrite uc_child_mkcell, uc_child_opp_mkcell. split; [done|]. by apply Hsib. }
  intros s4 Hs4 Hr4 Hf4.
  assert (ushape s4 !! a = ushape s2 !! a) as Ha4.
  { rewrite Hs4, lookup_relink_ne, Hs3, lookup_alter_ne by done. done. }
  assert (ushape s4 !! y = Some (Cell (cpar top k) (colZ cy) nil (rootp nil ry))) as Hy4.
  { rewrite Hs4, lookup_relink_ne, Hs3, lookup_alter_eq, Hy by done. done. }
  rewrite Ha2 in Ha4.
  uwp_cell. uwp_cell. intros s5 Hs5 Hr5 Hf5. uwp_cell. uwp_cell. intros s6 Hs6 Hr6 Hf6.
  assert (ushape s6 !! y = Some (Cell (cpar top k) (colZ cy) (rootp nil l) (rootp nil (plug ky ry)))) as Hy6.
  { rewrite Hs6, lookup_alter_eq, Hs5, lookup_alter_eq, Hy4. done. }
  assert (∀ x, x ∈ addrs l ++ kaddrs ky ++ addrs ry → ushape s6 !! x = ushape s2 !! x) as H6.
  { intros x Hx. destruct (Hlive x) as (Hxn & Hxy & Hxa & _); [clear -Hx; set_solver|].
    rewrite Hs6, Hs5, !lookup_alter_ne, Hs4, lookup_relink_ne, Hs3, lookup_alter_ne; try done.
    clear -Hx HdK. set_solver. }
  uwp_cell. apply wp_bind. eapply (wp_reparent_u l).
  { destruct l as [|cl ll al rl]; [done|]. simpl in H6.
    destruct (Hlive al) as (? & ? & ? & _ & ?); [simpl; clear; set_solver|]. split; [done|].
    rewrite H6; [done|]. clear. set_solver. }
  { intros Q' HQ'. uwp_cell. exact HQ'. }
  intros s7 Hs7 Hr7 Hf7.
  assert (ushape s7 !! y = ushape s6 !! y) as Hy7 by (rewrite Hs7, lookup_reparent_ne; done).
  rewrite Hy6 in Hy7.
  assert (∀ x, x ∈ addrs (plug ky ry) ↔ x ∈ kaddrs ky ++ addrs ry) as HR.
  { intros x. by rewrite addrs_plug_perm. }
  uwp_cell. apply wp_bind. eapply (wp_reparent_u (plug ky ry)).
  { destruct (plug ky ry) as [|cr lr ar rr]; [done|].
    assert (ar ∈ kaddrs ky ++ addrs ry) as Hrr by (apply HR; simpl; clear; set_solver).
    destruct (Hlive ar) as (? & ? & ? & _ & ?); [clear -Hrr; set_solver|]. split; [done|].
    rewrite Hs7, lookup_reparent_ne, H6; [done|..]; clear -Hrr HdL; set_solver. }
  { intros Q' HQ'. uwp_cell. exact HQ'. }
  intros s8 Hs8 Hr8 Hf8.
  assert ((y ∉ addrs (plug ky ry)) ∧ a ∉ addrs (plug ky ry)) as [HyR HaR].
  { rewrite !HR. clear -Hyky Haky Hyr Har. set_solver. }
  assert (ushape s8 !! y = ushape s7 !! y) as Hy8 by (rewrite Hs8, lookup_reparent_ne; done).
  rewrite Hy7 in Hy8.
  assert (ushape s8 !! a = ushape s2 !! a) as Ha8.
  { rewrite Hs8, lookup_reparent_ne, Hs7, lookup_reparent_ne, Hs6, Hs5, !lookup_alter_ne, Ha4 by done. done. }
  rewrite Ha2 in Ha8.
  uwp_cell. uwp_cell. intros s9 Hs9 Hr9 Hf9. apply wp_bind. eapply wp_clear_node.
  { rewrite Hs9, lookup_alter_ne, Ha8 by done. eauto. }
  intros s10 Hs10 Hr10 Hf10. apply HQ. clear HQ.
  destruct Hsent as (cs & Hcs & Hpar & Hcol).
  exists (if decide (ry = Leaf) then cpar y ky else sp). split_and!.
  - split.
    + replace (uroot s10) with (krootp y k).
      * eapply it_two_replace; [exact (ut_tree _ _ _ _ _ Hin)|..].
        -- rewrite Hs10, Hs9, lookup_alter_eq, Hy8 by done. done.
        -- intros x Hx. destruct (Hlive x) as (Hxn & Hxy & Hxa & _); [clear -Hx; set_solver|].
           rewrite Hs10, Hs9, lookup_alter_ne, Hs8, lookup_reparent_ne, Hs7, lookup_reparent_ne,
             Hs6, Hs5, !lookup_alter_ne, Hs4; try done.
           ++ apply relink_congr. rewrite Hs3, lookup_alter_ne by done. apply Hout. clear -Hx. set_solver.
           ++ clear -Hx HdK. set_solver.
           ++ rewrite HR. clear -Hx HdK. set_solver.
        -- intros x Hx. destruct (Hlive x) as (Hxn & Hxy & Hxa & _); [clear -Hx; set_solver|].
           rewrite Hs10, Hs9, lookup_alter_ne, Hs8, lookup_reparent_ne, Hs7; try done.
           ++ apply reparent_congr. rewrite H6; [apply Hout|]; clear -Hx; set_solver.
           ++ rewrite HR. clear -Hx HdL. set_solver.
        -- intros x Hx. destruct (Hlive x) as (Hxn & Hxy & Hxa & _); [clear -Hx; set_solver|].
           rewrite Hs10, Hs9, lookup_alter_ne, Hs8; try done. apply reparent_congr.
           rewrite Hs7, lookup_reparent_ne, H6; [by apply Hrest|..]; clear -Hx HdL; set_solver.
      * rewrite Hr10, Hr9, Hr8, Hr7, Hr6, Hr5, Hr4. destruct k; [done|]. simpl in *. congruence.
    + exists cs. split_and!; [|done..].
      rewrite Hs10, Hs9, lookup_alter_ne, Hs8, lookup_reparent_ne, Hs7, lookup_reparent_ne,
        Hs6, Hs5, !lookup_alter_ne, Hs4, lookup_relink_ne, Hs3, lookup_alter_ne; try done;
        rewrite ?HR; clear -Hnil; set_solver.
  - intros E _. rewrite decide_True by done. by rewrite cpar_app.
  - assert (∀ X u u' b, uframe X u u' → b ∉ X → mem u' !! b = mem u !! b) as Hm
      by (intros X u u' b [H _ _] Hb; by apply H).
    intros b Hb. rewrite addrs_plug_perm, kaddrs_app_perm, kaddrs_cons_perm in Hb. simpl in Hb.
    rewrite (Hm _ _ _ b Hf10), (Hm _ _ _ b Hf9), (Hm _ _ _ b Hf8), (Hm _ _ _ b Hf7), (Hm _ _ _ b Hf6),
      (Hm _ _ _ b Hf5), (Hm _ _ _ b Hf4), (Hm _ _ _ b Hf3), (Hm _ _ _ b Hf2); [done|..];
      rewrite ?HR; try (clear -Hb; set_solver).
    destruct k as [|f k']; [clear; set_solver|]. rewrite kaddrs_cons_perm in Hb. clear -Hb. set_solver.
  - rewrite (uf_pay _ _ _ Hf10), (uf_pay _ _ _ Hf9), (uf_pay _ _ _ Hf8), (uf_pay _ _ _ Hf7),
      (uf_pay _ _ _ Hf6), (uf_pay _ _ _ Hf5), (uf_pay _ _ _ Hf4), (uf_pay _ _ _ Hf3). apply Hf2.
  - rewrite (uf_size _ _ _ Hf10), (uf_size _ _ _ Hf9), (uf_size _ _ _ Hf8), (uf_size _ _ _ Hf7),
      (uf_size _ _ _ Hf6), (uf_size _ _ _ Hf5), (uf_size _ _ _ Hf4), (uf_size _ _ _ Hf3). apply Hf2.
Qed.
End two.
End unlink.

(** ** The whole of [util_rbtree_delete] *)

(** The parent pointer in the root afterwards: the C code does not reset it when
    the root with a single child is deleted. *)
Definition top_after (top : Z) (k : ctx) (l : tree) (a : Z) (r : tree) : Z :=
  match k, l, r with
  | [], Leaf, Node _ _ _ _ | [], Node _ _ _ _, Leaf => a
  | _, _, _ => top
  end.

(** The result of deleting [a]: a tree, and nothing else has changed but the
    sentinel's links. *)
Definition deleted (tp top : Z) (s : util_state) (k : ctx) (c : color) (l : tree) (a : Z) (r : tree)
    (s' : util_state) : Prop :=
  (∃ sp', utree tp (top_after top k l a r) sp' s' (erase_at k c l a r)) ∧
  (∀ b, b ∉ NIL tp :: addrs (plug k (Node c l a r)) → mem s' !! b = mem s !! b) ∧
  upayload s' = upayload s ∧ ut_size (env s') = uint (ut_size (env s) - 1).

Section whole.
Context (tp top : Z) (Htp : tp ≠ 0).

(** The root has at most one child: it is red or there is none. *)
Lemma wp_delete_root sp s c l a r t (Q : unit → util_state → Prop) :
  utree tp top sp s (Node c l a r) → (l = Leaf ∧ t = r ∨ r = Leaf ∧ t = l) →
  (∀ s', utree tp (match t with Leaf => top | _ => a end) sp s' (blacken t) →
     (∀ b, b ∉ NIL tp :: addrs (Node c l a r) → mem s' !! b = mem s !! b) →
     upayload s' = upayload s → ut_size (env s') = ut_size (env s) → Q () s') →
  wp (set_uroot (rootp (NIL tp) t);; util_rbt_black (rootp (NIL tp) t);; rbt_clear_node a) s Q.
Proof.
  intros Hin Ht HQ.
  assert (∃ d, Node c l a r = mkn d c t a Leaf) as [d Ed].
  { destruct Ht as [[-> ->]|[-> ->]]; [by exists R|by exists L]. }
  rewrite Ed in *. clear Ed Ht.
  pose proof (utree_lookup _ _ _ s [] d c t a Leaf Hin) as Ha.
  pose proof (ut_tree _ _ _ _ _ Hin) as [Hroot Hrep Hnd Hok].
  rewrite rep_mkn in Hrep. destruct Hrep as (_ & Hrep & _).
  rewrite addrs_mkn_perm in Hnd, Hok. simpl in Hnd, Hok. rewrite app_nil_r in Hnd, Hok.
  apply NoDup_cons in Hnd as [Hat Hnd]. apply Forall_cons in Hok as [[_ Han] Hok].
  destruct (ut_sent _ _ _ _ _ Hin) as (cs & Hcs & Hpar & Hcol).
  assert (is_Some (ushape s !! rootp (NIL tp) t)) as [ct Hct].
  { destruct t as [|ct lt at_ rt]; simpl; [eauto|]. destruct Hrep as (? & _). eauto. }
  apply wp_bind, wp_set_uroot. intros s1 Hs1 Hr1 Hf1.
  apply wp_bind. eapply wp_uset_color; [rewrite Hs1; exact Hct|]. intros s2 Hs2 Hr2 Hf2.
  assert (rootp (NIL tp) t ≠ a) as Hta.
  { destruct t; simpl; [congruence|]. simpl in Hat. clear -Hat. set_solver. }
  eapply wp_clear_node; [rewrite Hs2, lookup_alter_ne, Hs1, Ha by done; eauto|].
  intros s3 Hs3 Hr3 Hf3. apply HQ.
  - split.
    + rewrite Hr3, Hr2, Hr1. split.
      * by rewrite rootp_blacken.
      * destruct t as [|ct' lt at_ rt]; [done|]. simpl in Hrep, Hat, Hnd, Hta, Hs2.
        rewrite NoDup_app, NoDup_cons in Hnd. destruct Hnd as (_ & Hlt & Hrt & _).
        destruct Hrep as (Hc & Hl & Hr).
        simpl. split_and!.
        -- rewrite Hs3, Hs2, lookup_alter_eq, Hs1, Hc by done. done.
        -- eapply rep_frame; [exact Hl|]. intros b Hb.
           rewrite Hs3, Hs2, lookup_alter_ne, Hs1; [done|..]; clear -Hb Hlt Hat; set_solver.
        -- eapply rep_frame; [exact Hr|]. intros b Hb.
           rewrite Hs3, Hs2, lookup_alter_ne, Hs1; [done|..]; clear -Hb Hrt Hat; set_solver.
      * by rewrite addrs_blacken.
      * by rewrite addrs_blacken.
    + destruct t as [|ct' lt at_ rt]; simpl in *.
      * exists (set_c_col 1 cs). split_and!; [|done..]. rewrite Hs3, Hs2, lookup_alter_eq, Hs1, Hcs by done. done.
      * exists cs. split_and!; [|done..].
        rewrite Hs3, Hs2, lookup_alter_ne, Hs1; [done| |done]. intros ->.
        rewrite Forall_app, Forall_cons in Hok. by destruct Hok as (_ & [_ ?] & _).
  - intros b Hb. rewrite addrs_mkn_perm in Hb. simpl in Hb. rewrite app_nil_r in Hb.
    rewrite (uf_mem _ _ _ Hf3), (uf_mem _ _ _ Hf2), (uf_mem _ _ _ Hf1); [done|..];
      destruct t; simpl in *; clear -Hb; set_solver.
  - rewrite (uf_pay _ _ _ Hf3), (uf_pay _ _ _ Hf2). apply Hf1.
  - rewrite (uf_size _ _ _ Hf3), (uf_size _ _ _ Hf2). apply Hf1.
Qed.

(** The rebalancing after [temp] has been taken out. *)
Lemma wp_delete_finish s T k c t s1 :
  splice_ok k c t → (∀ b, b ∈ addrs (plug k t) → b ∈ addrs T) → uunlinked tp top s T k t s1 →
  wp (when (colZ c =? 1) (rbtree_delete_fixup tp (rootp (NIL tp) t))) s1 (λ _ s',
    (∃ sp', utree tp top sp' s' (splice k c t)) ∧
    (∀ b, b ∉ NIL tp :: addrs T → mem s' !! b = mem s !! b) ∧
    upayload s' = upayload s ∧ ut_size (env s') = ut_size (env s)).
Proof.
  intros (n & Hk & Ht) Hsub (sp' & Hin & Hh & Hm & Hp & Hz). destruct c; simpl.
  - apply wp_ret. split_and!; [by exists sp'|done..].
  - destruct Ht as (m & ct & -> & Ht). eapply wp_mono; [by eapply delete_fixup_del_fix|].
    intros [] s2 (Hin2 & Hm2 & Hp2 & Hz2). split_and!; [by exists sp'| |congruence..].
    intros b Hb. rewrite Hm2; [by apply Hm|]. clear -Hb Hsub. set_solver.
Qed.

Lemma wp_util_delete sp s k c l a r :
  utree tp top sp s (plug k (Node c l a r)) → rbtree (plug k (Node c l a r)) →
  wp (util_rbtree_delete tp a) s (λ _ s', deleted tp top s k c l a r s').
Proof.
  intros Hin Hrb. rewrite util_rbtree_delete_tail.
  destruct (utree_okp_rootp _ _ _ _ _ _ _ _ _ Hin) as [Ha0 Han].
  destruct (Z.eqb_spec tp 0) as [|_]; [done|]. destruct (Z.eqb_spec a 0) as [|_]; [done|].
  destruct (Z.eqb_spec a (NIL tp)) as [|_]; [done|]. simpl orb. cbn match.
  apply wp_bind. apply wp_fmap, wp_get_env. apply wp_bind. apply wp_bind, wp_get_env, wp_put_env.
  set (s0 := St _ _).
  assert (utree tp top sp s0 (plug k (Node c l a r))) as Hin0 by (by destruct Hin).
  assert (∀ s', (∃ sp', utree tp (top_after top k l a r) sp' s' (erase_at k c l a r)) ∧
    (∀ b, b ∉ NIL tp :: addrs (plug k (Node c l a r)) → mem s' !! b = mem s0 !! b) ∧
    upayload s' = upayload s0 ∧ ut_size (env s') = ut_size (env s0) →
    deleted tp top s k c l a r s') as Hpost by done.
  clearbody s0. clear Hin. rename Hin0 into Hin.
  destruct (unlink_at k c l a r) as [[k' c'] t] eqn:E.
  pose proof (unlink_at_ok _ _ _ _ _ _ _ _ Hrb E) as Hsp.
  assert (erase_at k c l a r = splice k' c' t) as Her by (unfold erase_at; by rewrite E).
  rewrite Her in Hpost. clear Her.
  pose proof (it_root _ _ _ _ _ _ (ut_tree _ _ _ _ _ Hin)) as Hroot.
  pose proof (utree_lookup _ _ _ _ k L c l a r Hin) as Ha. simpl in Ha.
  assert (∀ d t', (k', c', t) = (k, c, t') → Node c l a r = mkn d c t' a Leaf →
    (l = Leaf ∧ t' = r ∨ r = Leaf ∧ t' = l) →
    wp (root ← get_uroot;
        if a =? root then
          set_uroot (rootp (NIL tp) t');; util_rbt_black (rootp (NIL tp) t');; rbt_clear_node a
        else delete_tail tp a a (rootp (NIL tp) t')) s0 (λ _ s', deleted tp top s k c l a r s')) as Hone.
  { intros d t' [= -> -> ->] Ed Hlr. apply wp_bind, wp_get_uroot.
    destruct k as [|f k0].
    - rewrite Hroot. simpl. rewrite Z.eqb_refl. eapply wp_delete_root; [exact Hin|exact Hlr|].
      intros s' Hin' Hm Hp Hz. apply Hpost. split_and!; [|done..]. exists sp.
      assert (splice [] c t' = blacken t') as ->.
      { destruct Hsp as (n & Hk & Ht). destruct c; simpl; [by inversion Hk|].
        destruct Ht as (m & ct & -> & Ht). inversion Ht; subst; done. }
      destruct Hlr as [[-> ->]|[-> ->]]; simpl.
      + by destruct r.
      + by destruct l.
    - destruct (Z.eqb_spec a (uroot s0)) as [Ea|_].
      { destruct (utree_not_root _ _ _ _ _ _ _ Hin). simpl. done. }
      rewrite Ed in Hin. eapply wp_delete_tail_one; [exact Hin|].
      intros s' Hun. rewrite <-Ed in Hun. eapply wp_mono; [eapply wp_delete_finish; [exact Hsp| |exact Hun]|].
      + intros b. rewrite Ed, !addrs_plug_perm, addrs_mkn_perm. clear. set_solver.
      + intros u s''. exact (Hpost s''). }
  apply wp_bind. unfold delete_pos. uwp_cell.
  destruct l as [|cl ll al rl]; simpl rootp; simpl in E.
  { rewrite Z.eqb_refl. uwp_cell. apply wp_ret. injection E as <- <- <-.
    apply (Hone R r); [done|done|by left]. }
  assert (al ≠ NIL tp) as Haln.
  { pose proof (utree_okp_rootp _ _ _ s0 (F L c a r :: k) cl ll al rl Hin) as [_ ?]. done. }
  destruct (Z.eqb_spec al (NIL tp)) as [|_]; [done|]. uwp_cell.
  destruct r as [|cr rl' ra rr]; simpl rootp.
  { rewrite Z.eqb_refl. uwp_cell. apply wp_ret. injection E as <- <- <-.
    apply (Hone L (Node cl ll al rl)); [done|done|by right]. }
  clear Hone.
  assert (ra ≠ NIL tp) as Hran.
  { pose proof (utree_okp_rootp _ _ _ s0 (F R c a (Node cl ll al rl) :: k) cr rl' ra rr Hin) as [_ ?]. done. }
  destruct (Z.eqb_spec ra (NIL tp)) as [|_]; [done|]. uwp_cell. simpl rootp.
  destruct (leftmost cr rl' ra rr []) as [[[ky cy] y] ry] eqn:Hlm. injection E as <- <- <-.
  set (l := Node cl ll al rl) in *.
  pose proof (leftmost_left _ _ _ _ _ _ _ _ _ Hlm (Forall_nil_2 _)) as Hleft.
  assert (spine L (Node cr rl' ra rr) (F R c a l :: k) = (ky ++ F R c a l :: k, Node cy Leaf y ry)) as Hspn.
  { apply leftmost_spine. rewrite leftmost_app, Hlm. done. }
  pose proof (leftmost_plug _ _ _ _ _ _ _ _ _ Hlm) as Hpl. simpl in Hpl.
  assert (plug k (Node c l a (Node cr rl' ra rr)) = plug (ky ++ F R c a l :: k) (Node cy Leaf y ry)) as HT.
  { rewrite plug_app, <-Hpl. done. }
  assert (utree tp top sp s0 (plug (ky ++ F R c a l :: k) (Node cy Leaf y ry))) as Hin2 by (by rewrite <-HT).
  pose proof (utree_lookup _ _ _ _ (ky ++ F R c a l :: k) L cy Leaf y ry Hin2) as Hy. simpl in Hy.
  apply wp_bind. eapply (wp_uend_loop tp top sp L s0 (F R c a l :: k) (Node cr rl' ra rr)); [exact Hin|done|exact Hspn|].
  simpl rootp. uwp_cell. rewrite Z.eqb_refl. apply wp_bind. cbn [negb]. uwp_cell. apply wp_ret.
  apply wp_bind, wp_get_uroot.
  destruct (Z.eqb_spec y (uroot s0)) as [Ey|_].
  { exfalso. destruct ky as [|f ky']; exact (utree_not_root _ _ _ _ _ _ _ Hin2 Ey). }
  unfold delete_tail. uwp_cell.
  eapply wp_mono.
  { assert (cpar top (ky ++ F R c a l :: k) = cpar a ky) as Hcp by (by rewrite cpar_app).
    eapply (wp_take tp top sp s0 k ky c cy l ry a y Hin2 Hleft); [done|].
    intros s2 Htk. eapply (wp_replace_clear tp top sp s0 k ky c cy l ry a y Hin2); [done|exact Htk|].
    intros s3 Hun. rewrite <-HT in Hun.
    eapply wp_delete_finish; [exact Hsp| |exact Hun].
    intros b. rewrite HT, !addrs_plug_perm, !kaddrs_app_perm, !kaddrs_cons_perm. simpl. clear. set_solver. }
  intros u s'. intros H. apply Hpost. destruct H as [[sp' Hin'] H]. split; [|exact H]. exists sp'.
  subst l. by destruct k.
Qed.
End whole.
