(* ===== verification/UtilRbMap.v ===== *)
(** * libconhash: util_rbtree as an ordered map

    Insertion with its descent, search, lookup, the ends of the tree and the walk
    in order, on the sequence of the nodes in the order of their keys. *)
From stdpp Require Import sorting.
From S2P Require Import Prelude PtrTree RbSpec UtilRbTree UtilRbFacts UtilRbInsert UtilRbDelete UtilRbUnlink.

(** The key and the data pointer of a node. *)
Definition pkey (s : util_state) (a : Z) : Z := default 0 (fst <$> upayload s !! a).

(** The nodes [l] are in the order of their keys. *)
Definition usorted (key : Z → Z) (l : list Z) : Prop := StronglySorted (λ a b, key a ≤ key b) l.

(** The tree at [tp] holds the nodes [l], in order; [top] is the parent pointer in
    its root. *)
Definition uholds (tp top : Z) (s : util_state) (l : list Z) : Prop :=
  ∃ T sp, utree tp top sp s T ∧ rbtree T ∧ addrs T = l ∧ usorted (pkey s) l.

Lemma usorted_split key l1 a l2 :
  usorted key (l1 ++ a :: l2) →
  Forall (λ x, key x ≤ key a) l1 ∧ Forall (λ x, key a ≤ key x) l2.
Proof.
  intros H. split.
  - apply Forall_forall. intros x Hx.
    apply (StronglySorted_app_1_elem_of (λ a b, key a ≤ key b) l1 (a :: l2)); [exact H|done|by left].
  - apply StronglySorted_app_1_r in H. by apply StronglySorted_inv in H as [_ ?].
Qed.

Lemma usorted_insert key l1 a l2 :
  usorted key (l1 ++ l2) → Forall (λ x, key x ≤ key a) l1 → Forall (λ x, key a ≤ key x) l2 →
  usorted key (l1 ++ a :: l2).
Proof.
  unfold usorted. induction l1 as [|x l1 IH]; simpl.
  - intros. by constructor.
  - intros [Hs Hx]%StronglySorted_inv [H1 H1']%Forall_cons H2. constructor; [by apply IH|].
    rewrite Forall_app, Forall_cons in *. split_and!; [tauto|done|tauto].
Qed.

Lemma usorted_mid key l1 a l2 : usorted key (l1 ++ a :: l2) → usorted key (l1 ++ l2).
Proof.
  unfold usorted. induction l1 as [|x l1 IH]; simpl; intros [Hs Hx]%StronglySorted_inv; [done|].
  constructor; [by apply IH|]. rewrite Forall_app, Forall_cons in *. tauto.
Qed.

(** ** Descending by key *)

Section hole.
Context (key : Z → Z) (i : Z).

Fixpoint hole (t : tree) (k : ctx) : ctx :=
  match t with
  | Leaf => k
  | Node c l a r => if i <? key a then hole l (F L c a r :: k) else hole r (F R c a l :: k)
  end.

Lemma hole_spec t k :
  usorted key (addrs (plug k t)) →
  Forall (λ x, key x ≤ i) (kbefore k) → Forall (λ x, i < key x) (kafter k) →
  plug (hole t k) Leaf = plug k t ∧
  Forall (λ x, key x ≤ i) (kbefore (hole t k)) ∧ Forall (λ x, i < key x) (kafter (hole t k)) ∧
  (t ≠ Leaf → hole t k ≠ []).
Proof.
  revert k. induction t as [|c l IHl a r IHr]; intros k Hs Hb Ha; simpl; [done|].
  pose proof Hs as Hs'. rewrite addrs_plug in Hs'. simpl in Hs'.
  rewrite <-(assoc_L (++)), (assoc_L (++) (kbefore k)) in Hs'. simpl in Hs'.
  apply usorted_split in Hs' as [H1 H2]. apply Forall_app in H1 as [_ H1].
  apply Forall_app in H2 as [H2 _].
  destruct (Z.ltb_spec i (key a)).
  - destruct (IHl (F L c a r :: k)) as (Hp & Hb' & Ha' & Hne); [exact Hs|done| |].
    { simpl. rewrite Forall_cons, Forall_app. split_and!; [done| |done].
      eapply Forall_impl; [exact H2|]. simpl. lia. }
    split_and!; [exact Hp|done|done|]. intros _. destruct l; [done|]. by apply Hne.
  - destruct (IHr (F R c a l :: k)) as (Hp & Hb' & Ha' & Hne); [exact Hs| |done|].
    { simpl. rewrite !Forall_app, Forall_singleton. split_and!; [done| |lia].
      eapply Forall_impl; [exact H1|]. simpl. lia. }
    split_and!; [exact Hp|done|done|]. intros _. destruct r; [done|]. by apply Hne.
Qed.
End hole.

Lemma pkey_lookup s a n : mem s !! a = Some n → pkey s a = u_key n.
Proof. intros H. unfold pkey, upayload. by rewrite lookup_fmap, H. Qed.

Lemma wp_ukey s a (Q : Z → util_state → Prop) :
  is_Some (mem s !! a) → Q (pkey s a) s → wp (ukey a) s Q.
Proof. intros [n Hn] HQ. eapply wp_fget; [done|]. by rewrite <-(pkey_lookup s a n Hn). Qed.

Lemma ushape_some s a c : ushape s !! a = Some c → is_Some (mem s !! a).
Proof. intros (n & ? & _)%ushape_lookup. eauto. Qed.

Section descend.
Context (tp top sp : Z) (s : util_state) (T : tree) (Hin : utree tp top sp s T).

Lemma wp_insert_descend node k' (Q : Z → util_state → Prop) :
  is_Some (mem s !! node) → hole (pkey s) (pkey s node) T [] = k' →
  Q (cpar 0 k') s → wp (insert_descend tp node (uroot s)) s Q.
Proof.
  intros Hnode Hh HQ. unfold insert_descend. apply wp_bind. unfold urounds.
  apply wp_bind, wp_get, wp_ret.
  eapply (wp_loop (λ n l s', s' = s ∧ ∃ k t, l = (rootp (NIL tp) t, cpar 0 k) ∧ plug k t = T ∧
            hole (pkey s) (pkey s node) t k = k' ∧ (length (addrs t) ≤ n)%nat))
    with (n := length (addrs T)).
  2: { split; [done|]. exists [], T. by rewrite <-(it_root _ _ _ _ _ _ (ut_tree _ _ _ _ _ Hin)). }
  2: { pose proof (utree_size _ _ _ _ _ Hin). lia. }
  intros n l s' (-> & k & t & -> & Hpl & Hh' & Hn).
  destruct t as [|c l a r]; simpl.
  { rewrite Z.eqb_refl. apply wp_ret. simpl in Hh'. rewrite Hh'. exact HQ. }
  rewrite <-Hpl in Hin. pose proof (utree_okp_rootp _ _ _ _ _ _ _ _ _ Hin) as [_ Hanil].
  destruct (Z.eqb_spec a (NIL tp)) as [|_]; [done|].
  pose proof (utree_lookup _ _ _ _ k L c l a r Hin) as Ha. simpl in Ha.
  apply wp_bind. eapply wp_ukey; [done|]. apply wp_bind. eapply wp_ukey; [by eapply ushape_some|].
  simpl in Hn, Hh'. rewrite length_app in Hn. simpl in Hn.
  destruct (Z.ltb_spec (pkey s node) (pkey s a)); uwp_cell; apply wp_ret.
  - exists (length (addrs l)). split; [lia|]. split; [done|]. by exists (F L c a r :: k), l.
  - exists (length (addrs r)). split; [lia|]. split; [done|]. by exists (F R c a l :: k), r.
Qed.
End descend.

(** ** Insertion *)

Lemma alter_const_comm (h : shapes) a c c' x :
  h !! a = Some c → (∀ g : cell → cell, g c = c' → alter g a h !! x = alter (λ _, c') a h !! x).
Proof. intros Ha g Hg. rewrite !lookup_alter. case_decide; [|done]. subst. by rewrite Ha. Qed.

(** The new node in the hole of [k], when its links have been written. *)
Lemma utree_link tp sp s s' k node :
  utree tp (NIL tp) sp s (plug k Leaf) → unode_addr tp node → node ∉ kaddrs k →
  ushape s' !! node = Some (Cell (cpar (NIL tp) k) 0 (NIL tp) (NIL tp)) →
  (∀ a, a ≠ node → ushape s' !! a = relink k node (ushape s) !! a) →
  uroot s' = krootp node k →
  utree tp (NIL tp) sp s' (plug k (Node Red Leaf node Leaf)).
Proof.
  intros Hin Hok Hn Hnode Hrest Hroot.
  set (h := <[node := Cell (cpar (NIL tp) k) 0 (NIL tp) (NIL tp)]> (ushape s)).
  assert (is_tree (NIL tp) (unode_addr tp) h (NIL tp) (uroot s) (plug k Leaf)) as Hit.
  { eapply is_tree_frame; [exact (ut_tree _ _ _ _ _ Hin)|]. intros a Ha. unfold h.
    rewrite lookup_insert_ne; [done|]. intros <-. rewrite addrs_plug_perm in Ha. simpl in Ha.
    by rewrite app_nil_r in Ha. }
  split.
  - rewrite Hroot. eapply is_tree_frame.
    + eapply (it_refocus _ _ h _ _ k Leaf (Node Red Leaf node Leaf)); [exact Hit|..].
      * unfold h. simpl. split_and!; [by rewrite lookup_insert_eq|done|done].
      * apply NoDup_singleton.
      * intros a Ha. simpl in Ha. assert (a = node) as -> by (clear -Ha; set_solver). done.
      * by apply Forall_singleton.
    + intros a _. simpl. destruct (decide (a = node)) as [->|Hne].
      * rewrite Hnode, lookup_relink_ne by done. unfold h. by rewrite lookup_alter_eq, lookup_insert_eq.
      * rewrite Hrest by done. apply relink_congr. unfold h.
        by rewrite lookup_alter_ne, lookup_insert_ne.
  - destruct (ut_sent _ _ _ _ _ Hin) as (c & Hc & ?). exists c. split; [|done].
    rewrite Hrest by (intros E; by destruct Hok as [_ []]). rewrite lookup_relink_ne; [done|].
    pose proof (utree_nil_notin _ _ _ _ k Leaf Hin) as Hnil. rewrite addrs_plug_perm in Hnil.
    simpl in Hnil. by rewrite app_nil_r in Hnil.
Qed.

(** From the parent pointer to the call of [rbtree_insert_fixup]. *)
Definition insert_links (rbtree node : Z) : URB unit :=
  set_uleft node (NIL rbtree);;
  set_uright node (NIL rbtree);;
  util_rbt_red node;;
  rbtree_insert_fixup rbtree node;;
  sz ← get_usize;
  set_usize (uint (sz + 1)).

Definition size_inc (s0 s : util_state) : Prop :=
  ut_size (env s) = uint (ut_size (env s0) + 1).

Lemma wp_insert_links tp sp s0 s k node cn :
  utree tp (NIL tp) sp s0 (plug k Leaf) → rbtree (plug k Leaf) → unode_addr tp node →
  node ∉ kaddrs k → ushape s !! node = Some cn → c_par cn = cpar (NIL tp) k →
  (∀ a, a ≠ node → ushape s !! a = relink k node (ushape s0) !! a) →
  uroot s = krootp node k → uframe (node :: kaddrs k) s0 s →
  wp (insert_links tp node) s (λ _ s',
    (∃ T, utree tp (NIL tp) sp s' T ∧ rbtree T ∧ addrs T = kbefore k ++ node :: kafter k) ∧
    (∀ b, b ∉ node :: kaddrs k → mem s' !! b = mem s0 !! b) ∧
    upayload s' = upayload s0 ∧ size_inc s0 s').
Proof.
  intros Hin Hrb Hok Hn Hnode Hpar Hrest Hroot Hf0. unfold insert_links.
  destruct cn as [pp pc pl pr]. simpl in Hpar. subst pp.
  uwp_cell. intros s1 Hs1 Hr1 Hf1. uwp_cell. intros s2 Hs2 Hr2 Hf2. uwp_cell. intros s3 Hs3 Hr3 Hf3.
  assert (utree tp (NIL tp) sp s3 (plug k (Node Red Leaf node Leaf))) as Hin3.
  { eapply utree_link; [exact Hin|done|done| | |congruence].
    - ulookup_cell.
    - intros a Ha. rewrite Hs3, Hs2, Hs1, !lookup_alter_ne by done. auto. }
  apply rb_plug_inv in Hrb as (c & n & Hk & Hleaf).
  assert (c = Black ∧ n = 0%nat) as [-> ->] by (by inversion Hleaf).
  apply wp_bind. eapply wp_mono.
  { eapply (insert_fixup_ins_fix _ _ _ k (Node Red Leaf node Leaf)); [exact Hin3|exact Hk|eauto with rb]. }
  intros _ s4 [Hin4 Hf4].
  assert (uframe (node :: kaddrs k) s0 s4) as HF.
  { assert (uframe (node :: kaddrs k) s3 s4) as Hf4'.
    { eapply uframe_mono; [exact Hf4|]. rewrite addrs_plug_perm. simpl. clear. set_solver. }
    etransitivity; [exact Hf0|]. etransitivity; [eapply uframe_mono; [exact Hf1|clear; set_solver]|].
    etransitivity; [eapply uframe_mono; [exact Hf2|clear; set_solver]|].
    etransitivity; [eapply uframe_mono; [exact Hf3|clear; set_solver]|done]. }
  apply wp_bind. apply wp_fmap, wp_get_env. apply wp_bind, wp_get_env, wp_put_env.
  destruct HF as [HFm HFp HFs]. split_and!; [|exact HFm|exact HFp|].
  - exists (ins_fix k (Node Red Leaf node Leaf)). split_and!.
    + destruct Hin4 as [H1 H2]. by split.
    + eapply ins_fix_rb; [exact Hk|eauto with rb].
    + by rewrite addrs_ins_fix, addrs_plug.
  - unfold size_inc. simpl. by rewrite HFs.
Qed.

Lemma wp_util_insert tp sp s T node :
  tp ≠ 0 → utree tp (NIL tp) sp s T → rbtree T → usorted (pkey s) (addrs T) →
  unode_addr tp node → is_Some (mem s !! node) → node ∉ addrs T →
  wp (util_rbtree_insert tp node) s (λ _ s',
    ∃ T' l1 l2, utree tp (NIL tp) sp s' T' ∧ rbtree T' ∧ addrs T = l1 ++ l2 ∧
      addrs T' = l1 ++ node :: l2 ∧ usorted (pkey s') (addrs T') ∧
      Forall (λ x, pkey s x ≤ pkey s node) l1 ∧ Forall (λ x, pkey s node < pkey s x) l2 ∧
      (∀ b, b ∉ node :: addrs T → mem s' !! b = mem s !! b) ∧
      upayload s' = upayload s ∧ size_inc s s').
Proof.
  intros Htp Hin Hrb Hs Hok [nn Hnn] HnT.
  destruct (hole_spec (pkey s) (pkey s node) T [] Hs) as (Hpl & Hb & Ha & Hne); [done..|].
  remember (hole (pkey s) (pkey s node) T []) as k eqn:Ehole. simpl in Hpl.
  assert (node ∉ kaddrs k) as Hnk.
  { intros Hk. apply HnT. rewrite <-Hpl, addrs_plug_perm. simpl. by rewrite app_nil_r. }
  assert (addrs T = kbefore k ++ kafter k) as HT by (rewrite <-Hpl; apply addrs_plug).
  assert (∀ s', (∃ T', utree tp (NIL tp) sp s' T' ∧ rbtree T' ∧ addrs T' = kbefore k ++ node :: kafter k) ∧
    (∀ b, b ∉ node :: kaddrs k → mem s' !! b = mem s !! b) ∧
    upayload s' = upayload s ∧ size_inc s s' → ∃ T' l1 l2, utree tp (NIL tp) sp s' T' ∧ rbtree T' ∧
      addrs T = l1 ++ l2 ∧ addrs T' = l1 ++ node :: l2 ∧ usorted (pkey s') (addrs T') ∧
      Forall (λ x, pkey s x ≤ pkey s node) l1 ∧ Forall (λ x, pkey s node < pkey s x) l2 ∧
      (∀ b, b ∉ node :: addrs T → mem s' !! b = mem s !! b) ∧
      upayload s' = upayload s ∧ size_inc s s') as Hpost.
  { intros s' ((T' & Hin' & Hrb' & HT') & Hm & Hp & Hsz).
    exists T', (kbefore k), (kafter k). split_and!; try done.
    - unfold usorted. assert (pkey s' = pkey s) as -> by (unfold pkey; by rewrite Hp).
      rewrite HT'. apply usorted_insert; [by rewrite <-HT|done|].
      eapply Forall_impl; [exact Ha|]. simpl. lia.
    - intros b Hb'. apply Hm. by rewrite HT in Hb'. }
  rewrite <-Hpl in Hin, Hrb. destruct Hok as [Hn0 Hnn0].
  assert (ushape s !! node = Some (ucell_of nn)) as Hcn by (unfold ushape; by rewrite lookup_fmap, Hnn).
  unfold util_rbtree_insert. destruct (Z.eqb_spec tp 0) as [|_]; [done|].
  destruct (Z.eqb_spec node 0) as [|_]; [done|]. destruct (Z.eqb_spec node (NIL tp)) as [|_]; [done|].
  simpl orb. cbn match. apply wp_bind, wp_get_uroot. apply wp_bind.
  pose proof (it_root _ _ _ _ _ _ (ut_tree _ _ _ _ _ Hin)) as Hroot. rewrite rootp_plug in Hroot.
  destruct (decide (T = Leaf)) as [HTl|HTl].
  - assert (k = []) as -> by (by rewrite Ehole, HTl). simpl in Hroot. rewrite Hroot, Z.eqb_refl.
    apply wp_bind, wp_set_uroot. intros s1 Hs1 Hr1 Hf1. uwp_cell. intros s2 Hs2 Hr2 Hf2.
    eapply wp_mono; [eapply (wp_insert_links tp sp s s2 [] node)|intros u; exact (Hpost)].
    + exact Hin.
    + done.
    + done.
    + exact Hnk.
    + ulookup_cell.
    + done.
    + intros a Ha'. rewrite Hs2, Hs1. simpl. by rewrite lookup_alter_ne.
    + simpl. congruence.
    + transitivity s1; (eapply uframe_mono; [done|clear; set_solver]).
  - specialize (Hne HTl). destruct k as [|[d c y sb] k']; [done|]. clear Hne.
    pose proof (utree_lookup _ _ _ _ k' d c Leaf y sb Hin) as Hy. simpl in Hy.
    assert (uroot s ≠ NIL tp) as Hrn.
    { intros E. destruct T as [|cT lT aT rT]; [done|].
      pose proof (it_root _ _ _ _ _ _ (ut_tree _ _ _ _ _ Hin)) as Hr. rewrite Hpl in Hr. simpl in Hr.
      rewrite Hpl in Hin. apply (utree_okp_rootp _ _ _ _ [] cT lT aT rT) in Hin as [_ ?]. congruence. }
    destruct (Z.eqb_spec (uroot s) (NIL tp)) as [|_]; [done|].
    apply wp_bind, wp_get_uroot. apply wp_bind.
    eapply (wp_insert_descend tp (NIL tp) sp s T); [by rewrite <-Hpl|eauto|by symmetry|]. simpl cpar.
    assert (y ≠ node) as Hyn.
    { intros ->. apply Hnk. rewrite kaddrs_cons_perm. simpl. clear. set_solver. }
    uwp_cell. intros s1 Hs1 Hr1 Hf1.
    assert (pkey s1 = pkey s) as Hk1 by (unfold pkey; by rewrite (uf_pay _ _ _ Hf1)).
    apply wp_bind. eapply wp_ukey; [eapply ushape_some; by rewrite Hs1, lookup_alter_eq, Hcn|].
    apply wp_bind. eapply wp_ukey; [eapply ushape_some; by rewrite Hs1, lookup_alter_ne|].
    rewrite Hk1.
    assert ((pkey s node <? pkey s y) = bool_decide (d = L)) as ->.
    { destruct d; simpl in Hb, Ha.
      - apply Forall_cons in Ha as [Ha _]. simpl. by apply Z.ltb_lt.
      - rewrite !Forall_app, Forall_singleton in Hb. destruct Hb as (_ & _ & Hb). simpl. by apply Z.ltb_ge. }
    assert (∀ s2, ushape s2 = alter (set_c_child d node) y (ushape s1) → uroot s2 = uroot s1 →
      uframe [y] s1 s2 → wp (insert_links tp node) s2 (λ _ s',
        ∃ T' l1 l2, utree tp (NIL tp) sp s' T' ∧ rbtree T' ∧
      addrs T = l1 ++ l2 ∧ addrs T' = l1 ++ node :: l2 ∧ usorted (pkey s') (addrs T') ∧
      Forall (λ x, pkey s x ≤ pkey s node) l1 ∧ Forall (λ x, pkey s node < pkey s x) l2 ∧
      (∀ b, b ∉ node :: addrs T → mem s' !! b = mem s !! b) ∧
      upayload s' = upayload s ∧ size_inc s s')) as Hw.
    { intros s2 Hs2 Hr2 Hf2.
      eapply wp_mono; [eapply (wp_insert_links tp sp s s2 (F d c y sb :: k') node)|intros u; exact (Hpost)].
      - exact Hin.
      - exact Hrb.
      - done.
      - exact Hnk.
      - rewrite Hs2, lookup_alter_ne, Hs1, lookup_alter_eq, Hcn by done. done.
      - done.
      - intros a Ha'. rewrite Hs2, Hs1. simpl. apply alter_congr. by rewrite lookup_alter_ne.
      - rewrite Hr2, Hr1, Hroot. done.
      - transitivity s1; (eapply uframe_mono; [done|]); [clear; set_solver|].
        rewrite kaddrs_cons_perm. simpl. clear. set_solver. }
    destruct d; simpl.
    + eapply wp_set_uleft; [by rewrite Hs1, lookup_alter_ne|]. exact Hw.
    + eapply wp_set_uright; [by rewrite Hs1, lookup_alter_ne|]. exact Hw.
Qed.

(** ** Positions in the sequence *)

Lemma tree_zipper T K pre a post :
  addrs T = pre ++ a :: post → ∃ k c l r,
    plug K T = plug k (Node c l a r) ∧ kbefore K ++ pre = kbefore k ++ addrs l ∧
    post ++ kafter K = addrs r ++ kafter k.
Proof.
  revert K pre post. induction T as [|c l IHl b r IHr]; intros K pre post; simpl.
  { by destruct pre. }
  assert (∀ pre post, pre = addrs l → a = b → post = addrs r → ∃ k c' l' r',
    plug K (Node c l b r) = plug k (Node c' l' a r') ∧ kbefore K ++ pre = kbefore k ++ addrs l' ∧
    post ++ kafter K = addrs r' ++ kafter k) as Hhere.
  { intros ? ? -> -> ->. by exists K, c, l, r. }
  intros H. apply app_eq_inv in H as [([|x m] & Hl & Hm)|([|x m] & Hp & Hm)].
  - injection Hm as ? ?. apply Hhere; [by rewrite app_nil_r in Hl|congruence..].
  - injection Hm as -> ->. destruct (IHl (F L c b r :: K) _ _ Hl) as (k & c' & l' & r' & H1 & H2 & H3).
    exists k, c', l', r'. split_and!; [done|done|]. rewrite <-H3. simpl. solve_app.
  - injection Hm as ? ?. apply Hhere; [by rewrite app_nil_r in Hp|congruence..].
  - injection Hm as -> Hr. destruct (IHr (F R c x l :: K) _ _ Hr) as (k & c' & l' & r' & H1 & H2 & H3).
    exists k, c', l', r'. split_and!; [done| |done]. rewrite <-H2, Hp. simpl. solve_app.
Qed.

(** ** Deletion *)

Lemma usorted_ext key key' l :
  (∀ a, key' a = key a) → usorted key l → usorted key' l.
Proof.
  intros Hk. unfold usorted. induction l as [|a l IH]; [constructor|].
  intros [Hs Ha]%StronglySorted_inv. constructor; [by apply IH|].
  eapply Forall_impl; [exact Ha|]. intros b. by rewrite !Hk.
Qed.

Lemma pkey_payload s s' a : upayload s' = upayload s → pkey s' a = pkey s a.
Proof. intros H. unfold pkey. by rewrite H. Qed.

Lemma wp_util_delete_at tp top s pre a post :
  tp ≠ 0 → uholds tp top s (pre ++ a :: post) →
  wp (util_rbtree_delete tp a) s (λ _ s',
    (∃ top', uholds tp top' s' (pre ++ post) ∧ (length (pre ++ post) ≠ 1%nat → top' = top)) ∧
    (∀ b, b ∉ NIL tp :: pre ++ a :: post → mem s' !! b = mem s !! b) ∧
    upayload s' = upayload s ∧ ut_size (env s') = uint (ut_size (env s) - 1)).
Proof.
  intros Htp (T & sp & Hin & Hrb & HT & Hs). rewrite <-HT.
  destruct (tree_zipper T [] pre a post HT) as (k & c & l & r & HTk & Hpre & Hpost).
  simpl in HTk, Hpre, Hpost. rewrite app_nil_r in Hpost. subst pre post. rewrite HTk in *.
  eapply wp_mono; [by eapply wp_util_delete|]. intros [] s' ((sp' & Hin') & Hm & Hp & Hz).
  split_and!; [|exact Hm|exact Hp|exact Hz].
  exists (top_after top k l a r). split.
  - exists (erase_at k c l a r), sp'. split_and!; [exact Hin'|by apply erase_at_rb| |].
    + rewrite addrs_erase_at. solve_app.
    + eapply usorted_ext; [intros; by apply pkey_payload|]. by eapply usorted_mid.
  - intros Hlen. destruct k as [|f k]; [|done].
    destruct Hrb as [n Hrb]. simpl in Hrb. destruct l as [|cl ll al rl], r as [|cr rl' ar rr]; try done.
    + exfalso. apply Hlen. simpl. inversion Hrb as [| |? ? ? ? ? ? Hl Hr]; subst. inversion Hl; subst.
      inversion Hr as [|? ? ? ? Ha Hb|]; subst. inversion Ha; inversion Hb; subst. done.
    + exfalso. apply Hlen. simpl. inversion Hrb as [| |? ? ? ? ? ? Hl Hr]; subst. inversion Hr; subst.
      inversion Hl as [|? ? ? ? Ha Hb|]; subst. inversion Ha; inversion Hb; subst. done.
Qed.

(** ** Search and lookup *)

Section query.
Context (tp top sp : Z) (s : util_state) (T : tree) (Hin : utree tp top sp s T).
Context (Hs : usorted (pkey s) (addrs T)).

Lemma utree_live a : a ∈ addrs T → is_Some (mem s !! a) ∧ unode_addr tp a.
Proof.
  intros Ha. destruct (ut_tree _ _ _ _ _ Hin) as [_ Hr _ Hok]. split.
  - apply (rep_lookup _ _ _ _ a Hr) in Ha as [c Hc]. by eapply ushape_some.
  - rewrite Forall_forall in Hok. auto.
Qed.

(** A node on the way of a walk from the root. *)
Lemma utree_at k c l a r :
  plug k (Node c l a r) = T → is_Some (mem s !! a) ∧ unode_addr tp a ∧
  (∀ d, ushape s !! a = Some (mkcell d (cpar top k) (colZ c)
     (rootp (NIL tp) (child d (Node c l a r))) (rootp (NIL tp) (child (opp d) (Node c l a r))))) ∧
  Forall (λ x, pkey s x ≤ pkey s a) (kbefore k ++ addrs l) ∧
  Forall (λ x, pkey s a ≤ pkey s x) (addrs r ++ kafter k).
Proof.
  intros Hpl. assert (a ∈ addrs T) as Ha.
  { rewrite <-Hpl, addrs_plug_perm. simpl. clear. set_solver. }
  destruct (utree_live a Ha) as [? ?].
  pose proof Hin as Hin'. pose proof Hs as Hs'. rewrite <-Hpl in Hin', Hs'.
  rewrite addrs_plug in Hs'. simpl in Hs'.
  rewrite <-(assoc_L (++)), (assoc_L (++) (kbefore k)) in Hs'. apply usorted_split in Hs' as [??].
  split_and!; [done|done|..|done|done].
  intros d. rewrite (node_mkn d c l a r) in Hin'. by apply utree_lookup in Hin'.
Qed.

Lemma wp_util_search (Htp : tp ≠ 0) key (Q : Z → util_state → Prop) :
  (∀ a, (a ∈ addrs T ∧ pkey s a = key) ∨ (a = 0 ∧ ∀ b, b ∈ addrs T → pkey s b ≠ key) → Q a s) →
  wp (util_rbtree_search tp key) s Q.
Proof.
  intros HQ. unfold util_rbtree_search. destruct (Z.eqb_spec tp 0) as [|_]; [done|].
  apply wp_bind, wp_get_uroot. apply wp_bind. unfold urounds. apply wp_bind, wp_get, wp_ret.
  eapply (wp_loop (λ n x s', s' = s ∧ ∃ k t, x = rootp (NIL tp) t ∧ plug k t = T ∧
      Forall (λ x, pkey s x < key) (kbefore k) ∧ Forall (λ x, key < pkey s x) (kafter k) ∧
      (length (addrs t) ≤ n)%nat)) with (n := length (addrs T)).
  2: { split; [done|]. exists [], T. rewrite (it_root _ _ _ _ _ _ (ut_tree _ _ _ _ _ Hin)).
       split_and!; [done|done|constructor|constructor|done]. }
  2: { pose proof (utree_size _ _ _ _ _ Hin). lia. }
  intros n x s' (-> & k & t & -> & Hpl & Hb & Ha & Hn).
  destruct t as [|c l a r]; simpl.
  { rewrite Z.eqb_refl. apply wp_ret, HQ. right. split; [done|]. intros b Hbt Hk.
    rewrite <-Hpl, addrs_plug in Hbt. simpl in Hbt. rewrite Forall_forall in Hb, Ha.
    apply elem_of_app in Hbt as [Hx|Hx]; [apply Hb in Hx|apply Ha in Hx]; lia. }
  destruct (utree_at k c l a r Hpl) as (Hlive & [_ Han] & Hc & Hle & Hge).
  apply Forall_app in Hle as [_ Hle]. apply Forall_app in Hge as [Hge _].
  pose proof (Hc L) as Hc'. simpl in Hc'.
  destruct (Z.eqb_spec a (NIL tp)) as [|_]; [done|]. apply wp_bind. apply wp_ukey; [done|].
  simpl in Hn. rewrite length_app in Hn. simpl in Hn.
  destruct (Z.ltb_spec key (pkey s a)).
  - uwp_cell. apply wp_ret. exists (length (addrs l)). split; [lia|]. split; [done|].
    exists (F L c a r :: k), l. split_and!; [done|done|done| |done]. simpl.
    rewrite Forall_cons, Forall_app. split_and!; [done| |done].
    eapply Forall_impl; [exact Hge|]. simpl. lia.
  - rewrite Z.gtb_ltb. destruct (Z.ltb_spec (pkey s a) key).
    + uwp_cell. apply wp_ret. exists (length (addrs r)). split; [lia|]. split; [done|].
      exists (F R c a l :: k), r. split_and!; [done|done| |done|done]. simpl.
      rewrite !Forall_app, Forall_singleton. split_and!; [done| |done].
      eapply Forall_impl; [exact Hle|]. simpl. lia.
    + destruct (Z.eqb_spec (pkey s a) key) as [E|]; [|lia]. apply wp_ret, HQ. left.
      split; [|done]. rewrite <-Hpl, addrs_plug_perm. simpl. clear. set_solver.
Qed.

(** The first node whose key is at least [key], or the first of all. *)
Definition successor_of (key a : Z) : Prop :=
  (∃ pre post, addrs T = pre ++ a :: post ∧ key ≤ pkey s a ∧ Forall (λ x, pkey s x < key) pre) ∨
  (∃ post, addrs T = a :: post ∧ Forall (λ x, pkey s x < key) (addrs T)) ∨
  (a = 0 ∧ addrs T = []).

Lemma wp_util_lookup (Htp : tp ≠ 0) key (Q : Z → util_state → Prop) :
  (∀ a, successor_of key a → Q a s) → wp (util_rbtree_lookup tp key) s Q.
Proof.
  intros HQ. unfold util_rbtree_lookup. destruct (Z.eqb_spec tp 0) as [|_]; [done|].
  pose proof (it_root _ _ _ _ _ _ (ut_tree _ _ _ _ _ Hin)) as Hroot.
  apply wp_bind. apply wp_bind, wp_get_uroot, wp_ret. rewrite Hroot.
  destruct (decide (T = Leaf)) as [HTl|HTl].
  { rewrite HTl. simpl. rewrite Z.eqb_refl. apply wp_ret, HQ. right. right. by rewrite HTl. }
  assert (rootp (NIL tp) T ≠ NIL tp) as Hrn.
  { destruct T as [|c l a r]; [done|]. by apply (utree_okp_rootp _ _ _ _ []) in Hin as [_ ?]. }
  destruct (Z.eqb_spec (rootp (NIL tp) T) (NIL tp)) as [|_]; [done|].
  apply wp_bind, wp_get_uroot. rewrite Hroot. apply wp_bind. unfold urounds.
  apply wp_bind, wp_get, wp_ret. apply wp_bind.
  eapply (wp_loop (λ n l s', s' = s ∧ ∃ k t, l = (rootp (NIL tp) t, default 0 (head (kafter k))) ∧ plug k t = T ∧
      Forall (λ x, pkey s x < key) (kbefore k) ∧ Forall (λ x, key ≤ pkey s x) (kafter k) ∧
      (length (addrs t) ≤ n)%nat)) with (n := length (addrs T)).
  2: { split; [done|]. exists [], T.
       split_and!; [done|done|constructor|constructor|done]. }
  2: { pose proof (utree_size _ _ _ _ _ Hin). lia. }
  intros n x s' (-> & k & t & -> & Hpl & Hb & Ha & Hn).
  destruct t as [|c l a r]; simpl.
  - rewrite Z.eqb_refl. apply wp_ret.
    assert (addrs T = kbefore k ++ kafter k) as HT by (rewrite <-Hpl; by rewrite addrs_plug).
    destruct (kafter k) as [|a post] eqn:Ek; simpl.
    + rewrite app_nil_r in HT.
      destruct (spine L T []) as [k' t'] eqn:Esp.
      unfold util_rbtree_min. apply wp_bind, wp_get_uroot. rewrite Hroot.
      eapply (wp_uend_loop tp top sp L s []); [exact Hin|done|exact Esp|].
      apply HQ. right. left.
      apply spine_spec in Esp as (Hp & (cc & aa & sb & ->) & Hkb); [|done]. simpl in Hp, Hkb.
      rewrite rootp_mkn. exists (addrs sb ++ kafter k'). rewrite HT at 2. split; [|exact Hb].
      rewrite Hp, addrs_plug, Hkb. simpl. done.
    + assert (a ∈ addrs T) as HaT by (rewrite HT; clear; set_solver).
      destruct (utree_live a HaT) as [_ [Ha0 _]].
      destruct (Z.eqb_spec a 0) as [|_]; [done|]. apply wp_ret, HQ. left.
      apply Forall_cons in Ha as [Ha _]. eauto.
  - destruct (utree_at k c l a r Hpl) as (Hlive & [_ Han] & Hc & Hle & Hge).
    apply Forall_app in Hle as [_ Hle]. apply Forall_app in Hge as [Hge _].
    pose proof (Hc L) as Hc'. simpl in Hc'.
    destruct (Z.eqb_spec a (NIL tp)) as [|_]; [done|]. apply wp_bind. apply wp_ukey; [done|].
    simpl in Hn. rewrite length_app in Hn. simpl in Hn.
    destruct (Z.leb_spec key (pkey s a)).
    + uwp_cell. apply wp_ret. exists (length (addrs l)). split; [lia|]. split; [done|].
      exists (F L c a r :: k), l. split_and!; [done|done|done| |done]. simpl.
      rewrite Forall_cons, Forall_app. split_and!; [done| |done].
      eapply Forall_impl; [exact Hge|]. simpl. lia.
    + rewrite Z.gtb_ltb. destruct (Z.ltb_spec (pkey s a) key); [|lia].
      uwp_cell. apply wp_ret. exists (length (addrs r)). split; [lia|]. split; [done|].
      exists (F R c a l :: k), r. split_and!; [done|done| |done|done]. simpl.
      rewrite !Forall_app, Forall_singleton. split_and!; [done| |done].
      eapply Forall_impl; [exact Hle|]. simpl. lia.
Qed.
End query.
