(* ===== verification/UtilRbProps.v ===== *)
(** * libconhash: what util_rbtree promises

    The contract of [util_rbtree.h] on the sequence of the nodes in the order of
    their keys, the walk, the checker and what it does not see, and the parent
    pointer that the removal of a root with one child leaves behind. *)
From S2P Require Import Prelude PtrTree RbSpec UtilRbTree UtilRbFacts UtilRbUnlink UtilRbMap.

(** ** The walk in order *)

Section travel.
Context {D : Type} (tp top sp : Z) (s : util_state) (opera : Z → D → URB D) (ns : list Z).
Context (I : list Z → D → util_state → Prop).
Context (Hop : ∀ seen a post d s', ns = seen ++ a :: post → ushape s' = ushape s → I seen d s' →
                 wp (opera a d) s' (λ d' s'', ushape s'' = ushape s ∧ I (seen ++ [a]) d' s'')).

Lemma wp_mid_travel fuel k c l a r seen post d s' :
  ns = seen ++ addrs (Node c l a r) ++ post → utree tp top sp s (plug k (Node c l a r)) → (length (addrs (Node c l a r)) ≤ fuel)%nat →
  ushape s' = ushape s → I seen d s' →
  wp (rbtree_mid_travel fuel a (NIL tp) opera d) s' (λ d' s'',
    ushape s'' = ushape s ∧ I (seen ++ addrs (Node c l a r)) d' s'').
Proof.
  revert k c l a r seen post d s'.
  induction fuel as [|fuel IH]; intros k c l a r seen post d s' Hns Hin Hlen Hs HI.
  { simpl in Hlen. rewrite length_app in Hlen. simpl in Hlen. lia. }
  simpl in Hlen. rewrite length_app in Hlen. simpl in Hlen.
  pose proof (utree_lookup _ _ _ _ k L c l a r Hin) as Hc. simpl in Hc. simpl.
  assert (∀ s0, ushape s0 = ushape s →
    ushape s0 !! a = Some (mkcell L (cpar top k) (colZ c) (rootp (NIL tp) l) (rootp (NIL tp) r))) as Hcell.
  { intros s0 ->. exact Hc. }
  apply wp_bind. eapply wp_uleft; [by apply Hcell|]. simpl. apply wp_bind.
  eapply (wp_mono _ _ (λ d' s'', ushape s'' = ushape s ∧ I (seen ++ addrs l) d' s'')).
  { destruct l as [|cl ll al rl]; simpl.
    - rewrite Z.eqb_refl. apply wp_ret. by rewrite app_nil_r.
    - pose proof (utree_okp_rootp _ _ _ _ (F L c a r :: k) cl ll al rl Hin) as [_ Hal].
      destruct (Z.eqb_spec al (NIL tp)) as [|_]; [done|].
      eapply (IH (F L c a r :: k) cl ll al rl seen (a :: addrs r ++ post)); [|exact Hin|lia|done|done].
      rewrite Hns. solve_app. }
  intros d1 s1 [Hs1 HI1]. apply wp_bind.
  eapply wp_mono; [apply (Hop (seen ++ addrs l) a (addrs r ++ post)); [rewrite Hns; solve_app|done|done]|].
  intros d2 s2 [Hs2 HI2]. apply wp_bind. eapply wp_uright; [by apply Hcell|]. simpl.
  destruct r as [|cr lr ar rr]; simpl.
  - rewrite Z.eqb_refl. apply wp_ret. split; [done|]. by rewrite (assoc_L (++)).
  - pose proof (utree_okp_rootp _ _ _ _ (F R c a l :: k) cr lr ar rr Hin) as [_ Har].
    destruct (Z.eqb_spec ar (NIL tp)) as [|_]; [done|].
    eapply wp_mono; [eapply (IH (F R c a l :: k) cr lr ar rr ((seen ++ addrs l) ++ [a]) post); [|exact Hin|lia|done|exact HI2]|].
    { rewrite Hns. solve_app. }
    intros d3 s3 [Hs3 HI3]. split; [done|]. revert HI3. simpl.
    by rewrite <-!(assoc_L (++)).
Qed.
End travel.

(** ** The checker *)

Section check.
Context (tp top sp : Z) (s : util_state) (T : tree) (Hin : utree tp top sp s T).
Context (Hs : usorted (pkey s) (addrs T)).

Lemma check_leaf check level cur :
  ck_fini check = 0 → ck_rbh check = 0 ∨ ck_rbh check = cur → 0 ≤ cur < 2 ^ 15 →
  ck_fini (check_rb_height check level cur) = 0 ∧ ck_rbh (check_rb_height check level cur) = cur.
Proof.
  intros Hf Hr Hc. unfold check_rb_height. simpl.
  assert ((if ck_rbh check =? 0 then short cur else ck_rbh check) = cur) as ->.
  { destruct (Z.eqb_spec (ck_rbh check) 0); [|lia].
    unfold short. rewrite Z.mod_small by lia. lia. }
  by rewrite Z.eqb_refl.
Qed.

(** What is known of the child [x] of [a] in direction [d]. *)
Lemma check_child k c l a r d cx lx x rx :
  plug k (Node c l a r) = T → child d (Node c l a r) = Node cx lx x rx →
  x ≠ NIL tp ∧ is_Some (mem s !! x) ∧ (∃ p q q', ushape s !! x = Some (Cell p (colZ cx) q q')) ∧
  match d with L => pkey s x ≤ pkey s a | R => pkey s a ≤ pkey s x end.
Proof.
  intros Hpl Hch.
  assert (x ∈ addrs (child d (Node c l a r))) as Hx.
  { rewrite Hch. simpl. clear. set_solver. }
  destruct (utree_at tp top sp s T Hin Hs k c l a r Hpl) as (_ & _ & _ & Hle & Hge).
  assert (∃ k', plug k' (Node cx lx x rx) = T) as [k' Hpl'].
  { exists (F d c a (child (opp d) (Node c l a r)) :: k). simpl. rewrite <-Hch, <-Hpl. by destruct d. }
  destruct (utree_at tp top sp s T Hin Hs k' cx lx x rx Hpl') as (Hl & [_ Hx0] & Hcell & _ & _).
  split_and!; [done|done| |].
  - pose proof (Hcell L) as Hc. simpl in Hc. eauto.
  - rewrite Forall_forall in Hle, Hge. destruct d; simpl in Hx; [apply Hle|apply Hge]; clear -Hx; set_solver.
Qed.

Lemma wp_check_subtree fuel k c l a r n check level cur :
  plug k (Node c l a r) = T → rb c n (Node c l a r) → (length (addrs (Node c l a r)) ≤ fuel)%nat →
  0 ≤ cur → cur + Z.of_nat n < 2 ^ 15 →
  ck_fini check = 0 → ck_rbh check = 0 ∨ ck_rbh check = cur + Z.of_nat n →
  wp (rbtree_check_subtree fuel (NIL tp) a check level cur) s (λ ck s',
    s' = s ∧ ck_fini ck = 0 ∧ ck_rbh ck = cur + Z.of_nat n).
Proof.
  revert k c l a r n check level cur.
  induction fuel as [|fuel IH]; intros k c l a r n check level cur Hpl Hrb Hlen Hcur Hn Hf Hr.
  { simpl in Hlen. rewrite length_app in Hlen. simpl in Hlen. lia. }
  simpl in Hlen. rewrite length_app in Hlen. simpl in Hlen.
  destruct (utree_at tp top sp s T Hin Hs k c l a r Hpl) as (Hlive & _ & Hcell & _ & _).
  specialize (Hcell L). simpl in Hcell. simpl. rewrite Hf. simpl.
  apply wp_bind. eapply wp_uisblack; [exact Hcell|]. apply wp_bind. eapply wp_uisred; [exact Hcell|].
  simpl c_col.
  assert (∃ cl cr m, rb cl m l ∧ rb cr m r ∧
    (if colZ c =? 1 then cur + 1 else cur) + Z.of_nat m = cur + Z.of_nat n ∧
    (c = Red → l = Leaf ∨ cl = Black) ∧ (c = Red → r = Leaf ∨ cr = Black)) as
      (cl & cr & m & Hl & Hrr & Hm & Hcl & Hcr).
  { inversion Hrb; subst; simpl.
    - exists Black, Black, n. split_and!; auto.
    - exists cl, cr, n0. split_and!; [done|done|lia|done|done]. }
  assert (negb (colZ c =? 1) && negb (colZ c =? 0) = false) as -> by (by destruct c).
  set (cur' := if colZ c =? 1 then cur + 1 else cur) in *.
  assert (0 ≤ cur') by (unfold cur'; destruct (colZ c =? 1); lia).
  apply wp_bind. eapply wp_uleft; [exact Hcell|]. simpl c_left.
  destruct l as [|cl' ll al rl].
  { simpl. rewrite Z.eqb_refl. apply wp_ret. inversion Hl; subst m. simpl in Hm.
    split; [done|]. rewrite <-Hm, Z.add_0_r. apply check_leaf; lia. }
  destruct (check_child k c _ a r L cl' ll al rl Hpl eq_refl) as (Hal & Hall & (p1 & q1 & q2 & Hcl1) & Hka).
  assert (cl = cl') as -> by (by inversion Hl). simpl rootp.
  destruct (Z.eqb_spec al (NIL tp)) as [|_]; [done|].
  apply wp_bind. eapply wp_uisred; [exact Hcell|]. apply wp_bind. eapply wp_uisred; [exact Hcl1|].
  simpl c_col.
  assert ((colZ c =? 0) && (colZ cl' =? 0) = false) as ->.
  { destruct c; [|done]. destruct Hcl as [|Hcl]; [done|done|]. by rewrite Hcl. }
  apply wp_bind. apply wp_ukey; [done|]. apply wp_bind. apply wp_ukey; [done|].
  destruct (Z.ltb_spec (pkey s a) (pkey s al)) as [|_]; [lia|].
  apply wp_bind. eapply wp_mono.
  { eapply (IH (F L c a r :: k) cl' ll al rl m check (level + 1) cur'); [exact Hpl|exact Hl| |done|lia|done|].
    - lia.
    - by rewrite Hm. }
  intros ck s' (-> & Hf1 & Hr1). rewrite Hm in Hr1.
  apply wp_bind. eapply wp_uright; [exact Hcell|]. simpl c_right.
  destruct r as [|cr' lr ar rr].
  { simpl. rewrite Z.eqb_refl. apply wp_ret. inversion Hrr; subst m. simpl in Hm.
    split; [done|]. rewrite <-Hm, Z.add_0_r. apply check_leaf; lia. }
  destruct (check_child k c _ a _ R cr' lr ar rr Hpl eq_refl) as (Har & Harl & (p2 & q3 & q4 & Hcr1) & Hkb).
  assert (cr = cr') as -> by (by inversion Hrr). simpl rootp.
  destruct (Z.eqb_spec ar (NIL tp)) as [|_]; [done|].
  apply wp_bind. eapply wp_uisred; [exact Hcell|]. apply wp_bind. eapply wp_uisred; [exact Hcr1|].
  simpl c_col.
  assert ((colZ c =? 0) && (colZ cr' =? 0) = false) as ->.
  { destruct c; [|done]. destruct Hcr as [|Hcr]; [done|done|]. by rewrite Hcr. }
  apply wp_bind. apply wp_ukey; [done|]. apply wp_bind. apply wp_ukey; [done|].
  rewrite Z.gtb_ltb. destruct (Z.ltb_spec (pkey s ar) (pkey s a)) as [|_]; [lia|].
  rewrite <-Hm. eapply (IH (F R c a _ :: k) cr' lr ar rr m ck (level + 1) cur'); [exact Hpl|exact Hrr| |done|lia|done|].
  - lia.
  - right. lia.
Qed.
End check.

(** ** The operations on the sequence of nodes *)

(** What the operations leave alone: the other nodes, and every key and datum. *)
Definition links_only (L : list Z) (s s' : util_state) : Prop :=
  (∀ b, b ∉ L → mem s' !! b = mem s !! b) ∧ upayload s' = upayload s.

Lemma wp_uholds_insert tp s l node :
  tp ≠ 0 → uholds tp (NIL tp) s l →
  unode_addr tp node → is_Some (mem s !! node) → node ∉ l →
  wp (util_rbtree_insert tp node) s (λ _ s', ∃ l1 l2, l = l1 ++ l2 ∧
    uholds tp (NIL tp) s' (l1 ++ node :: l2) ∧
    Forall (λ x, pkey s x ≤ pkey s node) l1 ∧ Forall (λ x, pkey s node < pkey s x) l2 ∧
    links_only (node :: l) s s' ∧ ut_size (env s') = uint (ut_size (env s) + 1)).
Proof.
  intros Htp (T & sp & Hin & Hrb & <- & Hs) Hok Hlive Hn.
  eapply wp_mono; [by eapply wp_util_insert|].
  intros _ s' (T' & l1 & l2 & Hin' & Hrb' & HT & HT' & Hs' & H1 & H2 & Hm & Hp & Hz).
  exists l1, l2. split_and!; [done| |done|done|by split|done].
  exists T', sp. by rewrite <-HT'.
Qed.

Lemma wp_uholds_search tp top s l key :
  tp ≠ 0 → uholds tp top s l →
  wp (util_rbtree_search tp key) s (λ a s', s' = s ∧
    ((a ∈ l ∧ pkey s a = key) ∨ (a = 0 ∧ ∀ b, b ∈ l → pkey s b ≠ key))).
Proof.
  intros Htp (T & sp & Hin & Hrb & <- & Hs).
  by eapply wp_util_search; [exact Hin|exact Hs|done|].
Qed.

Lemma wp_uholds_lookup tp top s l key :
  tp ≠ 0 → uholds tp top s l →
  wp (util_rbtree_lookup tp key) s (λ a s', s' = s ∧
    ((∃ pre post, l = pre ++ a :: post ∧ key ≤ pkey s a ∧ Forall (λ x, pkey s x < key) pre) ∨
     (∃ post, l = a :: post ∧ Forall (λ x, pkey s x < key) l) ∨
     (a = 0 ∧ l = []))).
Proof.
  intros Htp (T & sp & Hin & Hrb & <- & Hs).
  by eapply wp_util_lookup; [exact Hin|exact Hs|done|].
Qed.

Lemma wp_uholds_travel {D} tp top s l (opera : Z → D → URB D)
    (I : list Z → D → util_state → Prop) d :
  tp ≠ 0 → uholds tp top s l → I [] d s →
  (∀ seen a post d s', l = seen ++ a :: post → ushape s' = ushape s → I seen d s' →
     wp (opera a d) s' (λ d' s'', ushape s'' = ushape s ∧ I (seen ++ [a]) d' s'')) →
  wp (util_rbtree_mid_travel tp opera d) s (λ d' s', ushape s' = ushape s ∧ I l d' s').
Proof.
  intros Htp (T & sp & Hin & Hrb & <- & Hs) HI Hop. unfold util_rbtree_mid_travel.
  destruct (Z.eqb_spec tp 0) as [|_]; [done|].
  pose proof (it_root _ _ _ _ _ _ (ut_tree _ _ _ _ _ Hin)) as Hroot.
  apply wp_bind. apply wp_bind, wp_get_uroot, wp_ret. rewrite Hroot.
  destruct T as [|c l a r]; cbn [rootp].
  - rewrite Z.eqb_refl. by apply wp_ret.
  - pose proof (utree_okp_rootp _ _ _ _ [] c l a r Hin) as [_ Ha].
    destruct (Z.eqb_spec a (NIL tp)) as [|_]; [done|].
    apply wp_bind, wp_get_uroot. rewrite Hroot. apply wp_bind. unfold urounds.
    apply wp_bind, wp_get, wp_ret.
    apply (wp_mid_travel tp top sp s opera _ I Hop _ [] c l a r [] [] d s); [solve_app|exact Hin| |done|done].
    pose proof (utree_size _ _ _ _ _ Hin). lia.
Qed.

Lemma wp_uholds_delete tp top s pre a post :
  tp ≠ 0 → uholds tp top s (pre ++ a :: post) →
  wp (util_rbtree_delete tp a) s (λ _ s',
    (∃ top', uholds tp top' s' (pre ++ post) ∧ (length (pre ++ post) ≠ 1%nat → top' = top)) ∧
    links_only (NIL tp :: pre ++ a :: post) s s' ∧ ut_size (env s') = uint (ut_size (env s) - 1)).
Proof.
  intros Htp H. eapply wp_mono; [by apply wp_util_delete_at|].
  intros _ s' (? & ? & ? & ?). by split_and!.
Qed.

(** ** The contract *)

(** C18: [util_rbtree_insert] of a live node that is not in the tree terminates
    without undefined behaviour; the tree is a red-black tree again, the node
    sits behind every key that is at most its own and before every greater
    one, the size goes up by one in 32 bits, and no other node, key or datum
    changes. *)
Theorem util_rbtree_insert_spec tp s l node :
  tp ≠ 0 → uholds tp (NIL tp) s l →
  unode_addr tp node → is_Some (mem s !! node) → node ∉ l →
  wp (util_rbtree_insert tp node) s (λ _ s', ∃ l1 l2, l = l1 ++ l2 ∧
    uholds tp (NIL tp) s' (l1 ++ node :: l2) ∧
    Forall (λ x, pkey s x ≤ pkey s node) l1 ∧ Forall (λ x, pkey s node < pkey s x) l2 ∧
    links_only (node :: l) s s' ∧ ut_size (env s') = uint (ut_size (env s) + 1)).
Proof. apply wp_uholds_insert. Qed.

(** C19: [util_rbtree_delete] of any node of the tree terminates without undefined
    behaviour and leaves a red-black tree whose sequence has lost exactly that
    node; the parent pointer of the root is what it was unless a single node
    is left. *)
Theorem util_rbtree_delete_spec tp top s pre a post :
  tp ≠ 0 → uholds tp top s (pre ++ a :: post) →
  wp (util_rbtree_delete tp a) s (λ _ s',
    (∃ top', uholds tp top' s' (pre ++ post) ∧ (length (pre ++ post) ≠ 1%nat → top' = top)) ∧
    links_only (NIL tp :: pre ++ a :: post) s s' ∧ ut_size (env s') = uint (ut_size (env s) - 1)).
Proof. apply wp_uholds_delete. Qed.

(** [util_rbtree_search] terminates, changes nothing, and returns a node with
    the key, or the null pointer exactly when no node of the tree has it. *)
Theorem util_rbtree_search_spec tp top s l key :
  tp ≠ 0 → uholds tp top s l →
  wp (util_rbtree_search tp key) s (λ a s', s' = s ∧
    ((a ∈ l ∧ pkey s a = key) ∨ (a = 0 ∧ ∀ b, b ∈ l → pkey s b ≠ key))).
Proof. apply wp_uholds_search. Qed.

(** [util_rbtree_lookup] goes round the ring of keys: it returns the first node
    in order whose key is at least [key], the least node of all when every key
    is smaller, and the null pointer on the empty tree only. *)
Theorem util_rbtree_lookup_spec tp top s l key :
  tp ≠ 0 → uholds tp top s l →
  wp (util_rbtree_lookup tp key) s (λ a s', s' = s ∧
    ((∃ pre post, l = pre ++ a :: post ∧ key ≤ pkey s a ∧ Forall (λ x, pkey s x < key) pre) ∨
     (∃ post, l = a :: post ∧ Forall (λ x, pkey s x < key) l) ∨
     (a = 0 ∧ l = []))).
Proof. apply wp_uholds_lookup. Qed.

(** [util_rbtree_mid_travel] calls [opera] on every node exactly once, in the
    order of the keys, and hands the datum along, for any [opera] that keeps
    the links of the nodes. *)
Theorem util_rbtree_mid_travel_spec {D} tp top s l (opera : Z → D → URB D)
    (I : list Z → D → util_state → Prop) d :
  tp ≠ 0 → uholds tp top s l → I [] d s →
  (∀ seen a post d s', l = seen ++ a :: post → ushape s' = ushape s → I seen d s' →
     wp (opera a d) s' (λ d' s'', ushape s'' = ushape s ∧ I (seen ++ [a]) d' s'')) →
  wp (util_rbtree_mid_travel tp opera d) s (λ d' s', ushape s' = ushape s ∧ I l d' s').
Proof. apply wp_uholds_travel. Qed.

(** [util_rbtree_check] accepts every tree the operations build: it returns 0
    and, when the tree is not empty, the black height through [blackheight]. *)
Theorem util_rbtree_check_spec tp top sp s T n :
  utree tp top sp s T → usorted (pkey s) (addrs T) → rb Black n T →
  Z.of_nat (length (addrs T)) < 2 ^ 64 →
  wp (util_rbtree_check tp) s (λ r s', s' = s ∧
    ∃ maxd, r = (0, match T with Leaf => None | Node _ _ _ _ => Some (Z.of_nat n, maxd) end)).
Proof.
  intros Hin Hs Hrb Hlen. unfold util_rbtree_check.
  pose proof (it_root _ _ _ _ _ _ (ut_tree _ _ _ _ _ Hin)) as Hroot.
  apply wp_bind, wp_get_uroot. rewrite Hroot.
  destruct T as [|c l a r]; cbn [rootp].
  { rewrite Z.eqb_refl. apply wp_ret. split; [done|]. by exists 0. }
  pose proof (utree_okp_rootp _ _ _ _ [] c l a r Hin) as [_ Ha].
  destruct (Z.eqb_spec a (NIL tp)) as [|_]; [done|].
  pose proof (utree_lookup _ _ _ _ [] L c l a r Hin) as Hc.
  apply wp_bind. eapply wp_uisblack; [exact Hc|]. simpl c_col.
  assert (c = Black) as -> by (by inversion Hrb). cbn [colZ Z.eqb Pos.eqb negb].
  apply wp_bind. unfold urounds. apply wp_bind, wp_get, wp_ret. apply wp_bind.
  assert (Z.of_nat n < 2 ^ 15) as Hn.
  { pose proof (rb_size _ _ _ Hrb) as Hsz. apply inj_le in Hsz. rewrite Nat2Z.inj_pow in Hsz.
    assert (2 ^ Z.of_nat n < 2 ^ 65) as Hp by (change (2 ^ 65) with (2 ^ 64 * 2); lia).
    apply Z.pow_lt_mono_r_iff in Hp; lia. }
  eapply wp_mono.
  { eapply (wp_check_subtree tp top sp s _ Hin Hs _ [] Black l a r n); [done|exact Hrb| |done| |done|by left].
    - pose proof (utree_size _ _ _ _ _ Hin). lia.
    - lia. }
  intros ck s' (-> & Hf & Hr). apply wp_ret. split; [done|]. exists (ck_maxd ck). by rewrite Hf, Hr.
Qed.

(** [util_rbtree_check] also accepts what is no search tree and no red-black
    tree: below a black root without a left child it never looks at the right
    subtree, whatever is there. *)
Theorem util_rbtree_check_misses tp s root n :
  ut_root (env s) = root → root ≠ NIL tp → mem s !! root = Some n →
  u_color n = 1 → u_left n = NIL tp →
  wp (util_rbtree_check tp) s (λ r s', s' = s ∧ r = (0, Some (1, 1))).
Proof.
  intros Hr Hne Hm Hc Hl.
  assert (ushape s !! root = Some (Cell (u_parent n) 1 (NIL tp) (u_right n))) as Hcell.
  { unfold ushape. by rewrite lookup_fmap, Hm, <-Hc, <-Hl. }
  unfold util_rbtree_check. apply wp_bind, wp_get_uroot. unfold uroot. rewrite Hr.
  destruct (Z.eqb_spec root (NIL tp)) as [|_]; [done|].
  apply wp_bind. eapply wp_uisblack; [exact Hcell|]. cbn [c_col Z.eqb Pos.eqb negb].
  apply wp_bind. unfold urounds. apply wp_bind, wp_get, wp_ret. apply wp_bind. simpl.
  apply wp_bind. eapply wp_uisblack; [exact Hcell|]. apply wp_bind. eapply wp_uisred; [exact Hcell|].
  simpl. apply wp_bind. eapply wp_uleft; [exact Hcell|]. simpl. rewrite Z.eqb_refl.
  by repeat apply wp_ret.
Qed.

(** removing the root of a tree of two nodes leaves the address of the removed
    node in the parent pointer of the new root: the next fix-up that reads it
    reads an object that may have been freed. *)
Theorem util_rbtree_delete_dangles tp top s l :
  tp ≠ 0 → uholds tp top s l → length l = 2%nat →
  wp (util_rbtree_delete tp (ut_root (env s))) s (λ _ s',
    ∃ n, mem s' !! ut_root (env s') = Some n ∧ u_parent n = ut_root (env s) ∧
         ut_root (env s) ≠ NIL tp).
Proof.
  intros Htp (T & sp & Hin & Hrb & <- & Hs) Hlen.
  pose proof (it_root _ _ _ _ _ _ (ut_tree _ _ _ _ _ Hin)) as Hroot.
  change (ut_root (env s)) with (uroot s). rewrite Hroot.
  destruct T as [|c l a r]; [done|]. cbn [rootp].
  pose proof (utree_okp_rootp _ _ _ _ [] c l a r Hin) as [_ Ha].
  eapply wp_mono; [by apply (wp_util_delete tp top Htp sp s [] c l a r)|].
  intros _ s' ((sp' & Hin') & _).
  pose proof (addrs_erase_at [] c l a r) as HT. simpl in Hlen, HT.
  rewrite length_app in Hlen. simpl in Hlen. rewrite app_nil_r in HT.
  destruct (erase_at [] c l a r) as [|c' l' b r'] eqn:Her.
  { apply (f_equal length) in HT. simpl in HT. rewrite length_app in HT. lia. }
  assert (top_after top [] l a r = a) as Htop.
  { destruct l as [|cl ll al rl], r as [|cr rl' ar rr]; simpl in *; try done; try lia.
    rewrite !length_app in Hlen. simpl in Hlen. lia. }
  rewrite Htop in Hin'.
  pose proof (it_root _ _ _ _ _ _ (ut_tree _ _ _ _ _ Hin')) as Hroot'.
  pose proof (utree_lookup _ _ _ _ [] L c' l' b r' Hin') as Hc'.
  apply ushape_lookup in Hc' as (n & Hn & Hcell). exists n.
  change (ut_root (env s')) with (uroot s'). rewrite Hroot'. cbn [rootp].
  split_and!; [done| |done]. by injection Hcell.
Qed.

(** ** The contract on concrete trees *)

Definition udemo_tree : tree := Node Black (Node Red Leaf 200 Leaf) 100 (Node Red Leaf 300 Leaf).
Definition udemo : util_state :=
  St {[ 16 := UNode 0 0 0 0 1 0; 100 := UNode 20 16 300 200 1 0; 200 := UNode 10 100 16 16 0 0;
        300 := UNode 30 100 16 16 0 0; 400 := UNode 25 0 0 0 0 0 ]} (UTree 100 3).

Lemma udemo_in : utree 8 16 0 udemo udemo_tree.
Proof.
  split; [split|].
  - done.
  - by repeat split.
  - apply (bool_decide_unpack _). by vm_compute.
  - by repeat constructor.
  - by eexists.
Qed.

Lemma udemo_rb : rb Black 1 udemo_tree.
Proof. unfold udemo_tree. eauto with rb. Qed.

Lemma udemo_sorted : usorted (pkey udemo) [200; 100; 300].
Proof. repeat constructor; done. Qed.

Lemma udemo_holds : uholds 8 (NIL 8) udemo [200; 100; 300].
Proof.
  exists udemo_tree, 0. split_and!; [apply udemo_in|eexists; apply udemo_rb|done|apply udemo_sorted].
Qed.

(** Two nodes: 100 above 300. *)
Definition udemo2 : util_state :=
  St {[ 16 := UNode 0 0 0 0 1 0; 100 := UNode 20 16 300 16 1 0;
        300 := UNode 30 100 16 16 0 0 ]} (UTree 100 2).

Lemma udemo2_holds : uholds 8 (NIL 8) udemo2 [100; 300].
Proof.
  exists (Node Black Leaf 100 (Node Red Leaf 300 Leaf)), 0. split_and!.
  - split; [split|].
    + done.
    + by repeat split.
    + apply (bool_decide_unpack _). by vm_compute.
    + by repeat constructor.
    + by eexists.
  - exists 1%nat. eauto with rb.
  - done.
  - repeat constructor; done.
Qed.

Lemma util_rbtree_insert_spec_witness :
  wp (util_rbtree_insert 8 400) udemo (λ _ s', ∃ l1 l2, [200; 100; 300] = l1 ++ l2 ∧
    uholds 8 (NIL 8) s' (l1 ++ 400 :: l2) ∧
    Forall (λ x, pkey udemo x ≤ 25) l1 ∧ Forall (λ x, 25 < pkey udemo x) l2 ∧
    links_only [400; 200; 100; 300] udemo s' ∧ ut_size (env s') = 4).
Proof.
  apply (util_rbtree_insert_spec 8 udemo [200; 100; 300] 400).
  - done.
  - apply udemo_holds.
  - done.
  - by eexists.
  - apply (bool_decide_unpack _). by vm_compute.
Defined.

Lemma util_rbtree_delete_spec_witness :
  wp (util_rbtree_delete 8 100) udemo (λ _ s',
    (∃ top', uholds 8 top' s' [200; 300] ∧ (2%nat ≠ 1%nat → top' = NIL 8)) ∧
    links_only [16; 200; 100; 300] udemo s' ∧ ut_size (env s') = 2).
Proof. apply (util_rbtree_delete_spec 8 (NIL 8) udemo [200] 100 [300]); [done|apply udemo_holds]. Defined.

Lemma util_rbtree_search_spec_witness :
  wp (util_rbtree_search 8 30) udemo (λ a s', s' = udemo ∧
    ((a ∈ [200; 100; 300] ∧ pkey udemo a = 30) ∨
     (a = 0 ∧ ∀ b, b ∈ [200; 100; 300] → pkey udemo b ≠ 30))).
Proof. apply (util_rbtree_search_spec 8 (NIL 8)); [done|apply udemo_holds]. Defined.

Lemma util_rbtree_lookup_spec_witness :
  wp (util_rbtree_lookup 8 25) udemo (λ a s', s' = udemo ∧
    ((∃ pre post, [200; 100; 300] = pre ++ a :: post ∧ 25 ≤ pkey udemo a ∧
        Forall (λ x, pkey udemo x < 25) pre) ∨
     (∃ post, [200; 100; 300] = a :: post ∧ Forall (λ x, pkey udemo x < 25) [200; 100; 300]) ∨
     (a = 0 ∧ [200; 100; 300] = []))).
Proof. apply (util_rbtree_lookup_spec 8 (NIL 8)); [done|apply udemo_holds]. Defined.

(** A visitor that collects the nodes. *)
Lemma util_rbtree_mid_travel_spec_witness :
  wp (util_rbtree_mid_travel 8 (λ a (d : list Z), mret (d ++ [a])) []) udemo (λ d s',
    ushape s' = ushape udemo ∧ d = [200; 100; 300]).
Proof.
  apply (util_rbtree_mid_travel_spec 8 (NIL 8) udemo [200; 100; 300] _ (λ seen d _, d = seen)).
  - done.
  - apply udemo_holds.
  - done.
  - intros seen a post d s' _ Hs ->. by apply wp_ret.
Defined.

Lemma util_rbtree_check_spec_witness :
  wp (util_rbtree_check 8) udemo (λ r s', s' = udemo ∧ ∃ maxd, r = (0, Some (1, maxd))).
Proof.
  apply (util_rbtree_check_spec 8 16 0 udemo udemo_tree 1).
  - apply udemo_in.
  - apply udemo_sorted.
  - apply udemo_rb.
  - done.
Defined.

(** Not in the order of the keys, and a red node below a red one. *)
Definition bad_state : util_state :=
  St {[ 16 := UNode 0 0 0 0 1 0; 100 := UNode 20 16 300 16 1 0;
        300 := UNode 5 100 400 16 0 0; 400 := UNode 1 300 16 16 0 0 ]} (UTree 100 3).

Lemma util_rbtree_check_misses_witness :
  wp (util_rbtree_check 8) bad_state (λ r s', s' = bad_state ∧ r = (0, Some (1, 1))).
Proof. by apply (util_rbtree_check_misses 8 bad_state 100 (UNode 20 16 300 16 1 0)). Defined.

Lemma util_rbtree_delete_dangles_witness :
  wp (util_rbtree_delete 8 100) udemo2 (λ _ s',
    ∃ n, mem s' !! ut_root (env s') = Some n ∧ u_parent n = 100 ∧ 100 ≠ NIL 8).
Proof. apply (util_rbtree_delete_dangles 8 (NIL 8) udemo2 [100; 300]); [done|apply udemo2_holds|done]. Defined.

(** From an empty tree, through the operations alone, to a read of a freed node. *)
Definition fresh_unodes : util_state :=
  St {[ 16 := UNode 0 0 0 0 0 0; 100 := UNode 1 0 0 0 0 0; 200 := UNode 2 0 0 0 0 0;
        300 := UNode 3 0 0 0 0 0; 400 := UNode 4 0 0 0 0 0; 500 := UNode 5 0 0 0 0 0 ]} (UTree 0 0).

Example util_rbtree_use_after_free :
  (util_rbtree_init 8;; util_rbtree_insert 8 100;; util_rbtree_insert 8 200;;
   util_rbtree_delete 8 100;; free 100;;
   util_rbtree_insert 8 300;; util_rbtree_insert 8 400;; util_rbtree_insert 8 500) fresh_unodes = UB.
Proof. by vm_compute. Qed.

(** The same operations without the removal end well. *)
Example util_rbtree_no_removal :
  wp (util_rbtree_init 8;; util_rbtree_insert 8 100;; util_rbtree_insert 8 200;;
      util_rbtree_insert 8 300;; util_rbtree_insert 8 400;; util_rbtree_insert 8 500) fresh_unodes
    (λ _ s', ut_size (env s') = 5).
Proof. by vm_compute. Qed.
