(* ===== verification/Md5.v ===== *)
(** * libconhash: MD5

    [md5.c] and [conhash_md5_digest] of [conhash_util.c], on a little-endian
    machine, and the proof that they compute the function of RFC 1321: the
    compression function as one loop over 64 steps, the padding, and the digest
    of a message that is appended in any pieces. *)
From S2P Require Import Prelude.

(** ** The program *)

(** [md5_word_t] is a 32-bit unsigned integer, [md5_byte_t] a byte; both are
    written as integers, with [uint] where the arithmetic can leave the range. *)
Inductive reg := RA | RB | RC | RD.
Record regs := Regs { ra : Z; rb : Z; rc : Z; rd : Z }.

Record md5_state := Md5State {
  count0 : Z; count1 : Z;   (* message length in bits, lsw first *)
  abcd : regs;              (* digest buffer *)
  buf : list Z;             (* accumulate block *)
}.

Definition T_MASK : Z := uint (Z.lnot 0).

(** The constants T1 to T64. *)
Definition T_table : list Z :=
  [Z.lxor T_MASK 0x28955b87; Z.lxor T_MASK 0x173848a9;
   0x242070db; Z.lxor T_MASK 0x3e423111;
   Z.lxor T_MASK 0x0a83f050; 0x4787c62a;
   Z.lxor T_MASK 0x57cfb9ec; Z.lxor T_MASK 0x02b96afe;
   0x698098d8; Z.lxor T_MASK 0x74bb0850;
   Z.lxor T_MASK 0x0000a44e; Z.lxor T_MASK 0x76a32841;
   0x6b901122; Z.lxor T_MASK 0x02678e6c;
   Z.lxor T_MASK 0x5986bc71; 0x49b40821;
   Z.lxor T_MASK 0x09e1da9d; Z.lxor T_MASK 0x3fbf4cbf;
   0x265e5a51; Z.lxor T_MASK 0x16493855;
   Z.lxor T_MASK 0x29d0efa2; 0x02441453;
   Z.lxor T_MASK 0x275e197e; Z.lxor T_MASK 0x182c0437;
   0x21e1cde6; Z.lxor T_MASK 0x3cc8f829;
   Z.lxor T_MASK 0x0b2af278; 0x455a14ed;
   Z.lxor T_MASK 0x561c16fa; Z.lxor T_MASK 0x03105c07;
   0x676f02d9; Z.lxor T_MASK 0x72d5b375;
   Z.lxor T_MASK 0x0005c6bd; Z.lxor T_MASK 0x788e097e;
   0x6d9d6122; Z.lxor T_MASK 0x021ac7f3;
   Z.lxor T_MASK 0x5b4115bb; 0x4bdecfa9;
   Z.lxor T_MASK 0x0944b49f; Z.lxor T_MASK 0x4140438f;
   0x289b7ec6; Z.lxor T_MASK 0x155ed805;
   Z.lxor T_MASK 0x2b10cf7a; 0x04881d05;
   Z.lxor T_MASK 0x262b2fc6; Z.lxor T_MASK 0x1924661a;
   0x1fa27cf8; Z.lxor T_MASK 0x3b53a99a;
   Z.lxor T_MASK 0x0bd6ddbb; 0x432aff97;
   Z.lxor T_MASK 0x546bdc58; Z.lxor T_MASK 0x036c5fc6;
   0x655b59c3; Z.lxor T_MASK 0x70f3336d;
   Z.lxor T_MASK 0x00100b82; Z.lxor T_MASK 0x7a7ba22e;
   0x6fa87e4f; Z.lxor T_MASK 0x01d3191f;
   Z.lxor T_MASK 0x5cfebceb; 0x4e0811a1;
   Z.lxor T_MASK 0x08ac817d; Z.lxor T_MASK 0x42c50dca;
   0x2ad7d2bb; Z.lxor T_MASK 0x14792c6e].
Definition T (i : nat) : Z := nth (i - 1) T_table 0.

Definition ROTATE_LEFT (x n : Z) : Z := Z.lor (uint (Z.shiftl x n)) (Z.shiftr x (32 - n)).

Definition wnot (x : Z) : Z := uint (Z.lnot x).
Definition md5_F (x y z : Z) : Z := Z.lor (Z.land x y) (Z.land (wnot x) z).
Definition md5_G (x y z : Z) : Z := Z.lor (Z.land x z) (Z.land y (wnot z)).
Definition md5_H (x y z : Z) : Z := Z.lxor (Z.lxor x y) z.
Definition md5_I (x y z : Z) : Z := Z.lxor y (Z.lor x (wnot z)).

Definition get_reg (r : reg) (v : regs) : Z :=
  match r with RA => ra v | RB => rb v | RC => rc v | RD => rd v end.
Definition set_reg (r : reg) (x : Z) (v : regs) : regs :=
  match r with
  | RA => Regs x (rb v) (rc v) (rd v)
  | RB => Regs (ra v) x (rc v) (rd v)
  | RC => Regs (ra v) (rb v) x (rd v)
  | RD => Regs (ra v) (rb v) (rc v) x
  end.

(** One use [SET(a, b, c, d, k, s, Ti)] of the macro, with the variables it is
    given; [f] is the round's function. *)
Record set_op := Op { o_a : reg; o_b : reg; o_c : reg; o_d : reg; o_k : nat; o_s : Z; o_T : Z }.

Definition SET (f : Z → Z → Z → Z) (X : list Z) (v : regs) (o : set_op) : regs :=
  let t := uint (get_reg (o_a o) v
                 + f (get_reg (o_b o) v) (get_reg (o_c o) v) (get_reg (o_d o) v)
                 + nth (o_k o) X 0 + o_T o) in
  set_reg (o_a o) (uint (ROTATE_LEFT t (o_s o) + get_reg (o_b o) v)) v.

Definition round1_ops : list set_op :=
  [Op RA RB RC RD 0 7 (T 1);
   Op RD RA RB RC 1 12 (T 2);
   Op RC RD RA RB 2 17 (T 3);
   Op RB RC RD RA 3 22 (T 4);
   Op RA RB RC RD 4 7 (T 5);
   Op RD RA RB RC 5 12 (T 6);
   Op RC RD RA RB 6 17 (T 7);
   Op RB RC RD RA 7 22 (T 8);
   Op RA RB RC RD 8 7 (T 9);
   Op RD RA RB RC 9 12 (T 10);
   Op RC RD RA RB 10 17 (T 11);
   Op RB RC RD RA 11 22 (T 12);
   Op RA RB RC RD 12 7 (T 13);
   Op RD RA RB RC 13 12 (T 14);
   Op RC RD RA RB 14 17 (T 15);
   Op RB RC RD RA 15 22 (T 16)].
Definition round2_ops : list set_op :=
  [Op RA RB RC RD 1 5 (T 17);
   Op RD RA RB RC 6 9 (T 18);
   Op RC RD RA RB 11 14 (T 19);
   Op RB RC RD RA 0 20 (T 20);
   Op RA RB RC RD 5 5 (T 21);
   Op RD RA RB RC 10 9 (T 22);
   Op RC RD RA RB 15 14 (T 23);
   Op RB RC RD RA 4 20 (T 24);
   Op RA RB RC RD 9 5 (T 25);
   Op RD RA RB RC 14 9 (T 26);
   Op RC RD RA RB 3 14 (T 27);
   Op RB RC RD RA 8 20 (T 28);
   Op RA RB RC RD 13 5 (T 29);
   Op RD RA RB RC 2 9 (T 30);
   Op RC RD RA RB 7 14 (T 31);
   Op RB RC RD RA 12 20 (T 32)].
Definition round3_ops : list set_op :=
  [Op RA RB RC RD 5 4 (T 33);
   Op RD RA RB RC 8 11 (T 34);
   Op RC RD RA RB 11 16 (T 35);
   Op RB RC RD RA 14 23 (T 36);
   Op RA RB RC RD 1 4 (T 37);
   Op RD RA RB RC 4 11 (T 38);
   Op RC RD RA RB 7 16 (T 39);
   Op RB RC RD RA 10 23 (T 40);
   Op RA RB RC RD 13 4 (T 41);
   Op RD RA RB RC 0 11 (T 42);
   Op RC RD RA RB 3 16 (T 43);
   Op RB RC RD RA 6 23 (T 44);
   Op RA RB RC RD 9 4 (T 45);
   Op RD RA RB RC 12 11 (T 46);
   Op RC RD RA RB 15 16 (T 47);
   Op RB RC RD RA 2 23 (T 48)].
Definition round4_ops : list set_op :=
  [Op RA RB RC RD 0 6 (T 49);
   Op RD RA RB RC 7 10 (T 50);
   Op RC RD RA RB 14 15 (T 51);
   Op RB RC RD RA 5 21 (T 52);
   Op RA RB RC RD 12 6 (T 53);
   Op RD RA RB RC 3 10 (T 54);
   Op RC RD RA RB 10 15 (T 55);
   Op RB RC RD RA 1 21 (T 56);
   Op RA RB RC RD 8 6 (T 57);
   Op RD RA RB RC 15 10 (T 58);
   Op RC RD RA RB 6 15 (T 59);
   Op RB RC RD RA 13 21 (T 60);
   Op RA RB RC RD 4 6 (T 61);
   Op RD RA RB RC 11 10 (T 62);
   Op RC RD RA RB 2 15 (T 63);
   Op RB RC RD RA 9 21 (T 64)].

Definition round1 (X : list Z) (v : regs) : regs := foldl (SET md5_F X) v round1_ops.
Definition round2 (X : list Z) (v : regs) : regs := foldl (SET md5_G X) v round2_ops.
Definition round3 (X : list Z) (v : regs) : regs := foldl (SET md5_H X) v round3_ops.
Definition round4 (X : list Z) (v : regs) : regs := foldl (SET md5_I X) v round4_ops.

(** The 16 words of a block, as a little-endian machine reads them. *)
Definition word_at (data : list Z) (i : nat) : Z :=
  nth (4 * i) data 0 + Z.shiftl (nth (4 * i + 1) data 0) 8
  + Z.shiftl (nth (4 * i + 2) data 0) 16 + Z.shiftl (nth (4 * i + 3) data 0) 24.
Definition block_words (data : list Z) : list Z := word_at data <$> seq 0 16.

Definition md5_process (pms : md5_state) (data : list Z) : md5_state :=
  let X := block_words data in
  let v := round4 X (round3 X (round2 X (round1 X (abcd pms)))) in
  Md5State (count0 pms) (count1 pms)
    (Regs (uint (ra (abcd pms) + ra v)) (uint (rb (abcd pms) + rb v))
          (uint (rc (abcd pms) + rc v)) (uint (rd (abcd pms) + rd v)))
    (buf pms).

(** [md5_init] leaves the buffer as it was. *)
Definition md5_init (pms : md5_state) : md5_state :=
  Md5State 0 0
    (Regs 0x67452301 (Z.lxor T_MASK 0x10325476) (Z.lxor T_MASK 0x67452301) 0x10325476)
    (buf pms).

(** [memcpy(dst + off, src, n)] within the array [dst]. *)
Definition memcpy (dst : list Z) (off : Z) (src : list Z) (n : Z) : list Z :=
  take (Z.to_nat off) dst ++ take (Z.to_nat n) src ++ drop (Z.to_nat (off + n)) dst.
Definition set_buf (pms : md5_state) (b : list Z) : md5_state :=
  Md5State (count0 pms) (count1 pms) (abcd pms) b.

(** The loop over full blocks; [p] is the data that is left. *)
Fixpoint process_full (fuel : nat) (pms : md5_state) (p : list Z) (lft : Z) :
    md5_state * list Z * Z :=
  match fuel with
  | O => (pms, p, lft)
  | S fuel => if lft >=? 64 then process_full fuel (md5_process pms p) (drop 64 p) (lft - 64)
              else (pms, p, lft)
  end.

Definition md5_append (pms : md5_state) (data : list Z) (nbytes : Z) : md5_state :=
  let offset := Z.land (Z.shiftr (count0 pms) 3) 63 in
  let nbits := uint (Z.shiftl nbytes 3) in
  if nbytes <=? 0 then pms else
  let c1 := uint (count1 pms + Z.shiftr nbytes 29) in
  let c0 := uint (count0 pms + nbits) in
  let c1 := if c0 <? nbits then uint (c1 + 1) else c1 in
  let pms := Md5State c0 c1 (abcd pms) (buf pms) in
  let '(pms, p, lft, done) :=
    if negb (offset =? 0) then
      let copy := if offset + nbytes >? 64 then 64 - offset else nbytes in
      let pms := set_buf pms (memcpy (buf pms) offset data copy) in
      if offset + copy <? 64 then (pms, data, nbytes, true)
      else (md5_process pms (buf pms), drop (Z.to_nat copy) data, nbytes - copy, false)
    else (pms, data, nbytes, false) in
  if (done : bool) then pms else
  let '(pms, p, lft) := process_full (length data) pms p lft in
  if negb (lft =? 0) then set_buf pms (memcpy (buf pms) 0 p lft) else pms.

Definition md5_pad : list Z := 0x80 :: replicate 63 0.

Definition md5_finish (pms : md5_state) : md5_state * list Z :=
  let data := (λ i, Z.land (Z.shiftr (if decide (i < 4)%nat then count0 pms else count1 pms)
                                     (8 * (Z.of_nat i mod 4))) 255) <$> seq 0 8 in
  let pms := md5_append pms md5_pad
               (Z.land (uint (55 - Z.shiftr (count0 pms) 3)) 63 + 1) in
  let pms := md5_append pms data 8 in
  let reg i := match (i / 4)%nat with
               | O => ra (abcd pms) | 1%nat => rb (abcd pms) | 2%nat => rc (abcd pms)
               | _ => rd (abcd pms) end in
  (pms, (λ i, Z.land (Z.shiftr (reg i) (8 * (Z.of_nat i mod 4))) 255) <$> seq 0 16).

(** The state is a local variable of unspecified contents. *)
Definition conhash_md5_digest (md5state : md5_state) (instr : list Z) : list Z :=
  let st := md5_init md5state in
  let st := md5_append st instr (Z.of_nat (length instr)) in
  (md5_finish st).2.

(** ** The specification: RFC 1321 *)

(** T[i] of the RFC, the integer part of 4294967296 times abs(sin(i)). *)
Definition rfc_T : list Z :=
  [0xd76aa478; 0xe8c7b756; 0x242070db; 0xc1bdceee;
   0xf57c0faf; 0x4787c62a; 0xa8304613; 0xfd469501;
   0x698098d8; 0x8b44f7af; 0xffff5bb1; 0x895cd7be;
   0x6b901122; 0xfd987193; 0xa679438e; 0x49b40821;
   0xf61e2562; 0xc040b340; 0x265e5a51; 0xe9b6c7aa;
   0xd62f105d; 0x02441453; 0xd8a1e681; 0xe7d3fbc8;
   0x21e1cde6; 0xc33707d6; 0xf4d50d87; 0x455a14ed;
   0xa9e3e905; 0xfcefa3f8; 0x676f02d9; 0x8d2a4c8a;
   0xfffa3942; 0x8771f681; 0x6d9d6122; 0xfde5380c;
   0xa4beea44; 0x4bdecfa9; 0xf6bb4b60; 0xbebfbc70;
   0x289b7ec6; 0xeaa127fa; 0xd4ef3085; 0x04881d05;
   0xd9d4d039; 0xe6db99e5; 0x1fa27cf8; 0xc4ac5665;
   0xf4292244; 0x432aff97; 0xab9423a7; 0xfc93a039;
   0x655b59c3; 0x8f0ccc92; 0xffeff47d; 0x85845dd1;
   0x6fa87e4f; 0xfe2ce6e0; 0xa3014314; 0x4e0811a1;
   0xf7537e82; 0xbd3af235; 0x2ad7d2bb; 0xeb86d391].

Definition rfc_f (i : nat) : Z → Z → Z → Z :=
  match (i / 16)%nat with 0%nat => md5_F | 1%nat => md5_G | 2%nat => md5_H | _ => md5_I end.
Definition rfc_k (i : nat) : nat :=
  match (i / 16)%nat with
  | 0%nat => i
  | 1%nat => (5 * i + 1) mod 16
  | 2%nat => (3 * i + 5) mod 16
  | _ => (7 * i) mod 16
  end.
Definition rfc_s (i : nat) : Z :=
  nth (i mod 4) (match (i / 16)%nat with
                 | 0%nat => [7; 12; 17; 22]
                 | 1%nat => [5; 9; 14; 20]
                 | 2%nat => [4; 11; 16; 23]
                 | _ => [6; 10; 15; 21]
                 end) 0.

(** Rotation of a 32-bit word, arithmetically. *)
Definition rotl (x s : Z) : Z := (x * 2 ^ s) mod 2 ^ 32 + x / 2 ^ (32 - s).

(** Step [i]: the four registers move round, and one of them is new. *)
Definition rfc_step (X : list Z) (v : regs) (i : nat) : regs :=
  let t := (ra v + rfc_f i (rb v) (rc v) (rd v) + nth (rfc_k i) X 0 + nth i rfc_T 0) mod 2 ^ 32 in
  Regs (rd v) ((rb v + rotl t (rfc_s i)) mod 2 ^ 32) (rb v) (rc v).

Definition rfc_block (v : regs) (X : list Z) : regs :=
  let w := foldl (rfc_step X) v (seq 0 64) in
  Regs ((ra v + ra w) mod 2 ^ 32) ((rb v + rb w) mod 2 ^ 32)
       ((rc v + rc w) mod 2 ^ 32) ((rd v + rd w) mod 2 ^ 32).

(** [n] blocks of a message. *)
Fixpoint rfc_blocks (n : nat) (v : regs) (m : list Z) : regs :=
  match n with
  | O => v
  | S n => rfc_blocks n (rfc_block v (block_words (take 64 m))) (drop 64 m)
  end.

Definition le_bytes (n : nat) (x : Z) : list Z := (λ i, x / 256 ^ Z.of_nat i mod 256) <$> seq 0 n.

Definition rfc_init : regs := Regs 0x67452301 0xefcdab89 0x98badcfe 0x10325476.

(** The padded message: a 1 bit, zeros up to 56 bytes mod 64, the length in bits. *)
Definition rfc_pad (m : list Z) : list Z :=
  m ++ 0x80 :: replicate (Z.to_nat ((55 - Z.of_nat (length m)) mod 64)) 0
    ++ le_bytes 8 (8 * Z.of_nat (length m)).

Definition rfc_md5 (m : list Z) : list Z :=
  let v := rfc_blocks (length (rfc_pad m) / 64) rfc_init (rfc_pad m) in
  le_bytes 4 (ra v) ++ le_bytes 4 (rb v) ++ le_bytes 4 (rc v) ++ le_bytes 4 (rd v).

(** ** The compression function *)

Lemma rotate_disjoint x s :
  0 ≤ x < 2 ^ 32 → 0 < s < 32 → Z.land (uint (Z.shiftl x s)) (Z.shiftr x (32 - s)) = 0.
Proof.
  intros Hx Hs. apply Z.bits_inj'. intros i Hi. rewrite Z.bits_0, Z.land_spec.
  unfold uint, wrap. destruct (Z.ltb_spec i s).
  - rewrite Z.mod_pow2_bits_low by lia. by rewrite Z.shiftl_spec_low.
  - apply andb_false_iff. right. rewrite Z.shiftr_spec by lia.
    rewrite <-(Z.mod_small x (2 ^ 32)) by lia. apply Z.mod_pow2_bits_high. lia.
Qed.

Lemma ROTATE_LEFT_rotl x s :
  0 ≤ x < 2 ^ 32 → 0 < s < 32 → ROTATE_LEFT x s = rotl x s.
Proof.
  intros Hx Hs. pose proof (rotate_disjoint x s Hx Hs) as Hd. unfold ROTATE_LEFT, rotl.
  rewrite <-Z.lxor_lor, <-Z.add_nocarry_lxor by done. unfold uint, wrap.
  rewrite Z.shiftl_mul_pow2, Z.shiftr_div_pow2 by lia. done.
Qed.

(** The RFC's registers move round at each step; the program moves their names. *)
Definition rotr (v : regs) : regs := Regs (rd v) (ra v) (rb v) (rc v).
Definition view (p : nat) (v : regs) : regs :=
  match p with 0%nat => v | 1%nat => rotr v | 2%nat => rotr (rotr v) | _ => rotr (rotr (rotr v)) end.

Definition spec_op (i : nat) : set_op :=
  match (i mod 4)%nat with
  | 0%nat => Op RA RB RC RD (rfc_k i) (rfc_s i) (nth i rfc_T 0)
  | 1%nat => Op RD RA RB RC (rfc_k i) (rfc_s i) (nth i rfc_T 0)
  | 2%nat => Op RC RD RA RB (rfc_k i) (rfc_s i) (nth i rfc_T 0)
  | _ => Op RB RC RD RA (rfc_k i) (rfc_s i) (nth i rfc_T 0)
  end.

Lemma step_SET X v i :
  0 < rfc_s i < 32 →
  rfc_step X (view (i mod 4) v) i = view (S i mod 4) (SET (rfc_f i) X v (spec_op i)).
Proof.
  intros Hs. assert (∀ x, ROTATE_LEFT (uint x) (rfc_s i) = rotl (x mod 2 ^ 32) (rfc_s i)) as Hrot.
  { intros x. unfold uint, wrap. apply ROTATE_LEFT_rotl; [|done]. by apply Z.mod_pos_bound. }
  assert (i mod 4 < 4)%nat as Hi by (by apply Nat.mod_upper_bound).
  unfold spec_op, rfc_step, SET.
  replace (S i mod 4)%nat with (S (i mod 4) mod 4)%nat
    by (rewrite <-(Nat.add_1_r i), <-Nat.add_1_r; by rewrite Nat.Div0.add_mod_idemp_l).
  destruct (i mod 4)%nat as [|[|[|[|]]]]; [..|lia]; destruct v; simpl;
    rewrite Hrot; unfold rotr; simpl; unfold uint, wrap; by rewrite (Z.add_comm (rotl _ _)).
Qed.

Lemma round_ok f ops start X v :
  (start mod 4 = 0)%nat → ops = spec_op <$> seq start 16 →
  Forall (λ i, rfc_f i = f ∧ 0 < rfc_s i < 32) (seq start 16) →
  foldl (rfc_step X) v (seq start 16) = foldl (SET f X) v ops.
Proof.
  intros Hst -> Hall.
  assert (∀ n st v, Forall (λ i, rfc_f i = f ∧ 0 < rfc_s i < 32) (seq st n) →
    foldl (rfc_step X) (view (st mod 4) v) (seq st n) =
    view ((st + n) mod 4) (foldl (SET f X) v (spec_op <$> seq st n))) as H.
  { clear. intros n. induction n as [|n IH]; intros st v; [by rewrite Nat.add_0_r|].
    change (seq st (S n)) with (st :: seq (S st) n). rewrite fmap_cons. cbn [foldl].
    intros [[<- Hs] Hall]%Forall_cons. rewrite step_SET by done.
    rewrite IH by done. by rewrite Nat.add_succ_r. }
  specialize (H 16%nat start v Hall). rewrite Hst in H. cbn [view] in H. rewrite H.
  by rewrite Nat.Div0.add_mod, Hst.
Qed.

Lemma process_rfc pms data :
  abcd (md5_process pms data) = rfc_block (abcd pms) (block_words data).
Proof.
  set (X := block_words data). unfold rfc_block. set (w := foldl _ _ _).
  assert (w = round4 X (round3 X (round2 X (round1 X (abcd pms))))) as ->; [|reflexivity].
  unfold w. change (seq 0 64) with (seq 0 16 ++ seq 16 16 ++ seq 32 16 ++ seq 48 16).
  rewrite !foldl_app.
  rewrite (round_ok md5_F round1_ops 0); [|reflexivity..|by repeat constructor].
  rewrite (round_ok md5_G round2_ops 16); [|reflexivity..|by repeat constructor].
  rewrite (round_ok md5_H round3_ops 32); [|reflexivity..|by repeat constructor].
  rewrite (round_ok md5_I round4_ops 48); [|reflexivity..|by repeat constructor].
  unfold round4, round3, round2, round1. reflexivity.
Qed.

(** ** Blocks of a message *)

Lemma block_words_take data : block_words (take 64 data) = block_words data.
Proof.
  unfold block_words. apply list_fmap_ext. intros j i Hi.
  apply lookup_seq in Hi as [-> Hj].
  unfold word_at. rewrite !nth_firstn.
  by do 4 (match goal with |- context [(?a <? 64)%nat] => destruct (Nat.ltb_spec a 64); [|lia] end).
Qed.

Lemma rfc_blocks_prefix n v m m' :
  (64 * n ≤ length m)%nat → rfc_blocks n v (m ++ m') = rfc_blocks n v m.
Proof.
  revert v m. induction n as [|n IH]; intros v m Hm; cbn [rfc_blocks]; [done|].
  rewrite take_app_le, drop_app_le by lia. apply IH. rewrite length_drop. lia.
Qed.

Lemma rfc_blocks_app n1 n2 v m1 m2 :
  length m1 = (64 * n1)%nat →
  rfc_blocks (n1 + n2) v (m1 ++ m2) = rfc_blocks n2 (rfc_blocks n1 v m1) m2.
Proof.
  revert v m1. induction n1 as [|n1 IH]; intros v m1 Hm; cbn [rfc_blocks Nat.add].
  - by destruct m1.
  - rewrite take_app_le, drop_app_le by lia. rewrite IH; [done|]. rewrite length_drop. lia.
Qed.

Lemma process_full_ok fuel pms p n :
  (n < 64 * fuel + 64)%nat →
  ∃ pms', process_full fuel pms p (Z.of_nat n) = (pms', drop (64 * (n / 64)) p, Z.of_nat (n mod 64)) ∧
    abcd pms' = rfc_blocks (n / 64) (abcd pms) p ∧ count0 pms' = count0 pms ∧
    count1 pms' = count1 pms ∧ buf pms' = buf pms.
Proof.
  revert pms p n. induction fuel as [|fuel IH]; intros pms p n Hn; cbn [process_full].
  - rewrite Nat.div_small, Nat.mod_small by lia. exists pms. split_and!; done.
  - rewrite Z.geb_leb. destruct (Z.leb_spec 64 (Z.of_nat n)).
    + destruct (IH (md5_process pms p) (drop 64 p) (n - 64)%nat) as (pms' & H1 & H2 & H3 & H4 & H5); [lia|].
      exists pms'.
      assert (n = 64 + (n - 64))%nat as Hn64 by lia.
      assert (n / 64 = S ((n - 64) / 64))%nat as ->.
      { rewrite Hn64 at 1. change 64%nat with (1 * 64)%nat at 1. rewrite Nat.div_add_l by lia. lia. }
      assert (n mod 64 = (n - 64) mod 64)%nat as ->.
      { rewrite Hn64 at 1. change 64%nat with (1 * 64)%nat at 1. rewrite Nat.add_comm.
        apply Nat.Div0.mod_add. }
      replace (Z.of_nat n - 64) with (Z.of_nat (n - 64)) by lia. rewrite H1. split_and!; [|..|done|done|done].
      * rewrite drop_drop. do 2 f_equal. f_equal. lia.
      * rewrite H2. cbn [rfc_blocks]. by rewrite process_rfc, block_words_take.
    + rewrite Nat.div_small, Nat.mod_small by lia. exists pms. split_and!; done.
Qed.

(** [memcpy] into a buffer of 64 bytes. *)
Lemma memcpy_ok b o p n :
  length b = 64%nat → (o + n ≤ 64)%nat → (n ≤ length p)%nat →
  let b' := memcpy b (Z.of_nat o) p (Z.of_nat n) in
  length b' = 64%nat ∧ take (o + n) b' = take o b ++ take n p.
Proof.
  intros Hb Ho Hn. unfold memcpy. rewrite <-Nat2Z.inj_add, !Nat2Z.id. cbn zeta. split.
  - rewrite !length_app, !length_take, length_drop. lia.
  - rewrite (assoc_L (++)), take_app_le, take_ge; [done|..]; rewrite !length_app, !length_take; lia.
Qed.

(** ** The state represents the message so far *)

Record buffered (m : list Z) (pms : md5_state) : Prop := {
  bf_abcd : abcd pms = rfc_blocks (length m / 64) rfc_init m;
  bf_len : length (buf pms) = 64%nat;
  bf_buf : take (length m mod 64) (buf pms) = drop (64 * (length m / 64)) m;
}.

Record md5_rep (m : list Z) (pms : md5_state) : Prop := {
  mr_c0 : count0 pms = 8 * Z.of_nat (length m) mod 2 ^ 32;
  mr_c1 : count1 pms = 8 * Z.of_nat (length m) / 2 ^ 32 mod 2 ^ 32;
  mr_bf : buffered m pms;
}.

Definition append_rest (fuel : nat) (pms : md5_state) (p : list Z) (lft : Z) : md5_state :=
  let '(pms, p, lft) := process_full fuel pms p lft in
  if negb (lft =? 0) then set_buf pms (memcpy (buf pms) 0 p lft) else pms.

Lemma append_rest_ok fuel pms m q p n :
  length m = (64 * q)%nat → abcd pms = rfc_blocks q rfc_init m → length (buf pms) = 64%nat →
  (n ≤ length p)%nat → (n < 64 * fuel + 64)%nat →
  let pms' := append_rest fuel pms p (Z.of_nat n) in
  buffered (m ++ take n p) pms' ∧ count0 pms' = count0 pms ∧ count1 pms' = count1 pms.
Proof.
  intros Hm Habcd Hbuf Hn Hfuel. unfold append_rest.
  destruct (process_full_ok fuel pms p n Hfuel) as (pms' & -> & Ha & Hc0 & Hc1 & Hb).
  set (r := (n mod 64)%nat). set (j := (n / 64)%nat) in *.
  assert (n = 64 * j + r)%nat as Hnj by (by apply Nat.div_mod_eq).
  assert (r < 64)%nat as Hr by (by apply Nat.mod_upper_bound).
  assert (length (m ++ take n p) = 64 * (q + j) + r)%nat as Hlen.
  { rewrite length_app, length_take. lia. }
  assert ((64 * (q + j) + r) / 64 = q + j)%nat as Hdiv.
  { rewrite Nat.mul_comm, Nat.div_add_l, Nat.div_small by lia. lia. }
  assert ((64 * (q + j) + r) mod 64 = r)%nat as Hmod.
  { rewrite Nat.add_comm, Nat.mul_comm, Nat.Div0.mod_add, Nat.mod_small by lia. done. }
  assert (rfc_blocks (q + j) rfc_init (m ++ take n p) = abcd pms') as Hblocks.
  { rewrite rfc_blocks_app by done. rewrite Ha, Habcd.
    rewrite <-(take_drop n p) at 2. symmetry. apply rfc_blocks_prefix. rewrite length_take. lia. }
  assert (drop (64 * (q + j)) (m ++ take n p) = take r (drop (64 * j) p)) as Hdrop.
  { rewrite drop_app_ge by lia. replace (64 * (q + j) - length m)%nat with (64 * j)%nat by lia.
    rewrite skipn_firstn_comm. f_equal. lia. }
  destruct (memcpy_ok (buf pms') 0 (drop (64 * j) p) r) as [Hml Hmt];
    [by rewrite Hb|lia|rewrite length_drop; lia|].
  destruct (Z.eqb_spec (Z.of_nat r) 0) as [Hr0|Hr0]; cbn [negb].
  - split; [|done]. split; rewrite ?Hlen, ?Hdiv, ?Hmod; [done|by rewrite Hb|].
    rewrite Hdrop. assert (r = 0%nat) as -> by lia. done.
  - split; [|done]. split; rewrite ?Hlen, ?Hdiv, ?Hmod; cbn [abcd buf set_buf]; [done|done|].
    rewrite Hdrop. exact Hmt.
Qed.

(** The two count words are a 64-bit number. *)
Lemma count_add (x n : Z) :
  0 ≤ x → 0 ≤ n < 2 ^ 28 →
  let c0 := uint (8 * x mod 2 ^ 32 + uint (Z.shiftl n 3)) in
  let c1 := uint (8 * x / 2 ^ 32 mod 2 ^ 32 + Z.shiftr n 29) in
  c0 = 8 * (x + n) mod 2 ^ 32 ∧
  (if c0 <? uint (Z.shiftl n 3) then uint (c1 + 1) else c1) = 8 * (x + n) / 2 ^ 32 mod 2 ^ 32.
Proof.
  intros Hx Hn. cbn zeta. rewrite Z.shiftl_mul_pow2, Z.shiftr_div_pow2 by lia.
  rewrite (Z.div_small n) by lia. rewrite Z.add_0_r.
  unfold uint, wrap. rewrite (Z.mod_small (n * 2 ^ 3)) by lia.
  rewrite Z.mod_mod by lia.
  pose proof (Z.div_mod (8 * x) (2 ^ 32) ltac:(lia)) as Hdm.
  pose proof (Z.mod_pos_bound (8 * x) (2 ^ 32) ltac:(lia)) as Hmb.
  set (h := 8 * x / 2 ^ 32) in *. set (l := 8 * x mod 2 ^ 32) in *.
  assert (8 * (x + n) = (l + n * 2 ^ 3) + h * 2 ^ 32) as -> by lia.
  rewrite Z.mod_add, Z.div_add by lia. split; [done|].
  destruct (decide (l + n * 2 ^ 3 < 2 ^ 32)).
  - rewrite Z.mod_small, Z.div_small by lia. by destruct (Z.ltb_spec (l + n * 2 ^ 3) (n * 2 ^ 3)); [lia|].
  - assert ((l + n * 2 ^ 3) mod 2 ^ 32 = l + n * 2 ^ 3 - 2 ^ 32) as ->.
    { symmetry. apply Z.mod_unique_pos with 1; lia. }
    assert ((l + n * 2 ^ 3) / 2 ^ 32 = 1) as ->.
    { symmetry. apply Z.div_unique_pos with (l + n * 2 ^ 3 - 2 ^ 32); lia. }
    destruct (Z.ltb_spec (l + n * 2 ^ 3 - 2 ^ 32) (n * 2 ^ 3)); [|lia].
    rewrite Zplus_mod_idemp_l. f_equal. lia.
Qed.

(** The offset of the buffer, from the count. *)
Lemma count_offset (k : nat) :
  Z.land (Z.shiftr (8 * Z.of_nat k mod 2 ^ 32) 3) 63 = Z.of_nat (k mod 64).
Proof.
  change 63 with (Z.ones 6). rewrite Z.land_ones, Z.shiftr_div_pow2 by lia.
  rewrite Nat2Z.inj_mod. change (2 ^ 32) with (2 ^ 3 * 2 ^ 29). change 8 with (2 ^ 3).
  rewrite Z.mul_mod_distr_l, Z.mul_comm, Z.div_mul by lia.
  change (2 ^ 29) with (2 ^ 6 * 2 ^ 23). rewrite Z.rem_mul_r by lia.
  rewrite Z.mul_comm, Z.mod_add by lia. by rewrite Z.mod_mod by lia.
Qed.

Lemma div_mod_eq_64 n : n = (64 * (n / 64) + n mod 64)%nat.
Proof. apply Nat.div_mod_eq. Qed.

Lemma div_mod_64 q r : (r < 64)%nat → ((64 * q + r) / 64 = q)%nat ∧ ((64 * q + r) mod 64 = r)%nat.
Proof.
  intros. split.
  - rewrite Nat.mul_comm, Nat.div_add_l, Nat.div_small by lia. lia.
  - rewrite Nat.add_comm, Nat.mul_comm, Nat.Div0.mod_add, Nat.mod_small by lia. done.
Qed.

(** The data does not fill the buffer. *)
Lemma buffered_partial m pms p n :
  buffered m pms → (length m mod 64 + n < 64)%nat → (n ≤ length p)%nat →
  buffered (m ++ take n p)
    (set_buf pms (memcpy (buf pms) (Z.of_nat (length m mod 64)) p (Z.of_nat n))).
Proof.
  intros [Ha Hl Hb] Hlt Hn. set (o := (length m mod 64)%nat) in *.
  destruct (memcpy_ok (buf pms) o p n Hl) as [Hml Hmt]; [lia|done|].
  pose proof (div_mod_eq_64 (length m)) as Hdm. fold o in Hdm. set (q := (length m / 64)%nat) in *.
  assert (length (m ++ take n p) = 64 * q + (o + n))%nat as Hlen.
  { rewrite length_app, length_take. lia. }
  destruct (div_mod_64 q (o + n) ltac:(lia)) as [H1 H2].
  split; rewrite ?Hlen, ?H1, ?H2; cbn [abcd buf set_buf].
  - rewrite rfc_blocks_prefix by lia. done.
  - done.
  - rewrite Hmt, Hb, drop_app_le by lia. done.
Qed.

(** The data fills the buffer. *)
Lemma buffered_full m pms p n :
  buffered m pms → (length m mod 64 + n = 64)%nat → (n ≤ length p)%nat →
  let b := memcpy (buf pms) (Z.of_nat (length m mod 64)) p (Z.of_nat n) in
  rfc_block (abcd pms) (block_words b) =
    rfc_blocks (S (length m / 64)) rfc_init (m ++ take n p) ∧ length b = 64%nat.
Proof.
  intros [Ha Hl Hb] Hlt Hn b. set (o := (length m mod 64)%nat) in *.
  destruct (memcpy_ok (buf pms) o p n Hl) as [Hml Hmt]; [lia|done|]. fold b in Hml, Hmt.
  split; [|done].
  pose proof (div_mod_eq_64 (length m)) as Hdm. fold o in Hdm. set (q := (length m / 64)%nat) in *.
  rewrite <-(take_drop (64 * q) m) at 1. rewrite <-(assoc_L (++)).
  replace (S q) with (q + 1)%nat by lia. rewrite rfc_blocks_app by (rewrite length_take; lia).
  rewrite Ha. rewrite <-(take_drop (64 * q) m) at 1.
  rewrite rfc_blocks_prefix by (rewrite length_take; lia).
  cbn [rfc_blocks]. f_equal. rewrite block_words_take. f_equal.
  rewrite <-Hb, <-Hmt. symmetry. apply take_ge. lia.
Qed.

Lemma md5_append_rep m pms p n :
  md5_rep m pms → (n ≤ length p)%nat → Z.of_nat n < 2 ^ 28 →
  md5_rep (m ++ take n p) (md5_append pms p (Z.of_nat n)).
Proof.
  intros [Hc0 Hc1 Hbf] Hn Hlt.
  destruct (decide (n = 0)%nat) as [->|Hn0].
  { unfold md5_append. simpl. rewrite app_nil_r. done. }
  assert (Z.of_nat (length (m ++ take n p)) = Z.of_nat (length m) + Z.of_nat n) as Hlen.
  { rewrite length_app, length_take. lia. }
  destruct (count_add (Z.of_nat (length m)) (Z.of_nat n)) as [Hadd0 Hadd1]; [lia..|].
  rewrite <-Hc0 in Hadd0, Hadd1. rewrite <-Hc1 in Hadd1.
  assert (∀ pms', buffered (m ++ take n p) pms' →
    count0 pms' = uint (count0 pms + uint (Z.shiftl (Z.of_nat n) 3)) →
    count1 pms' = (let c1 := uint (count1 pms + Z.shiftr (Z.of_nat n) 29) in
       if uint (count0 pms + uint (Z.shiftl (Z.of_nat n) 3)) <? uint (Z.shiftl (Z.of_nat n) 3)
       then uint (c1 + 1) else c1) → md5_rep (m ++ take n p) pms') as Hrep.
  { intros pms' H H0 H1. split; [|..|done].
    - by rewrite H0, Hadd0, Hlen.
    - rewrite Hlen. etrans; [exact H1|exact Hadd1]. }
  unfold md5_append. rewrite Hc0, count_offset, <-Hc0.
  destruct (Z.leb_spec (Z.of_nat n) 0) as [|_]; [lia|].
  set (c0 := uint _) in Hrep |- *. cbv zeta in Hrep. cbv zeta. set (c1 := if c0 <? _ then _ else _) in Hrep |- *.
  set (pms1 := Md5State c0 c1 (abcd pms) (buf pms)).
  assert (buffered m pms1) as Hbf1 by (by destruct Hbf).
  set (o := (length m mod 64)%nat).
  assert (o < 64)%nat as Ho by (by apply Nat.mod_upper_bound).
  pose proof (div_mod_eq_64 (length m)) as Hdm. fold o in Hdm.
  destruct (Z.eqb_spec (Z.of_nat o) 0) as [Ho0|Ho0]; cbn [negb].
  - destruct (append_rest_ok (length p) pms1 m (length m / 64) p n) as (H & H0 & H1); [lia|exact (bf_abcd _ _ Hbf1)|exact (bf_len _ _ Hbf1)|lia..|].
    by apply Hrep.
  - rewrite Z.gtb_ltb. destruct (Z.ltb_spec 64 (Z.of_nat o + Z.of_nat n)).
    + replace (64 - Z.of_nat o) with (Z.of_nat (64 - o)) by lia.
      destruct (Z.ltb_spec (Z.of_nat o + Z.of_nat (64 - o)) 64) as [|_]; [lia|].
      destruct (buffered_full m pms1 p (64 - o) Hbf1) as [Hb1 Hb2]; [fold o; lia|lia|]. fold o in Hb1, Hb2.
      rewrite Nat2Z.id. replace (Z.of_nat n - Z.of_nat (64 - o)) with (Z.of_nat (n - (64 - o))) by lia.
      set (pms2 := md5_process _ _).
      destruct (append_rest_ok (length p) pms2 (m ++ take (64 - o) p) (S (length m / 64)) (drop (64 - o) p) (n - (64 - o)))
        as (H' & H0 & H1).
      * rewrite length_app, length_take. lia.
      * unfold pms2. by rewrite process_rfc.
      * done.
      * rewrite length_drop. lia.
      * lia.
      * rewrite <-(assoc_L (++)), take_take_drop in H'. replace (64 - o + (n - (64 - o)))%nat with n in H' by lia.
        by apply Hrep.
    + destruct (Z.ltb_spec (Z.of_nat o + Z.of_nat n) 64).
      * apply Hrep; [|done..]. apply buffered_partial; [done|lia..].
      * destruct (buffered_full m pms1 p n Hbf1) as [Hb1 Hb2]; [fold o; lia|lia|]. fold o in Hb1, Hb2.
        rewrite Nat2Z.id, Z.sub_diag. change 0 with (Z.of_nat 0).
        set (pms2 := md5_process _ _).
        destruct (append_rest_ok (length p) pms2 (m ++ take n p) (S (length m / 64)) (drop n p) 0)
          as (H' & H0' & H1').
        -- rewrite length_app, length_take. lia.
        -- unfold pms2. by rewrite process_rfc.
        -- done.
        -- lia.
        -- lia.
        -- simpl take in H'. rewrite app_nil_r in H'. by apply Hrep.
Qed.

(** ** Padding and the digest *)

Lemma byte_of x j : 0 ≤ j → Z.land (Z.shiftr x (8 * j)) 255 = x / 256 ^ j mod 256.
Proof.
  intros Hj. change 255 with (Z.ones 8). rewrite Z.land_ones, Z.shiftr_div_pow2 by lia.
  rewrite Z.pow_mul_r by lia. done.
Qed.

Lemma byte_low x j : 0 ≤ j < 4 → (x mod 2 ^ 32) / 256 ^ j mod 256 = x / 256 ^ j mod 256.
Proof.
  intros Hj. change 256 with (2 ^ 8). rewrite <-Z.pow_mul_r by lia.
  apply Z.bits_inj'. intros i Hi. destruct (decide (i < 8)).
  - rewrite !Z.mod_pow2_bits_low, !Z.div_pow2_bits, Z.mod_pow2_bits_low by lia. done.
  - rewrite !Z.mod_pow2_bits_high by lia. done.
Qed.

Lemma byte_high x j : 0 ≤ j → (x / 2 ^ 32) / 256 ^ j = x / 256 ^ (j + 4).
Proof.
  intros Hj. rewrite Z.div_div by (try apply Z.pow_pos_nonneg; lia). f_equal.
  change (2 ^ 32) with (256 ^ 4). by rewrite <-Z.pow_add_r, Z.add_comm by lia.
Qed.

Lemma length_bytes m pms :
  md5_rep m pms →
  (λ i, Z.land (Z.shiftr (if decide (i < 4)%nat then count0 pms else count1 pms)
                         (8 * (Z.of_nat i mod 4))) 255) <$> seq 0 8
  = le_bytes 8 (8 * Z.of_nat (length m)).
Proof.
  intros [Hc0 Hc1 _]. unfold le_bytes. apply list_fmap_ext. intros i ? Hi.
  apply lookup_seq in Hi as [-> Hi]. simpl in *.
  assert (0 ≤ Z.of_nat i mod 4 < 4) as Hm by (apply Z.mod_pos_bound; lia).
  rewrite byte_of by lia. rewrite Hc0, Hc1. case_decide.
  - rewrite (Z.mod_small (Z.of_nat i) 4) by lia. rewrite byte_low by lia. done.
  - assert (Z.of_nat i mod 4 = Z.of_nat i - 4) as ->.
    { symmetry. apply Z.mod_unique_pos with 1; lia. }
    rewrite byte_low, byte_high by lia. do 2 f_equal. f_equal. lia.
Qed.

Lemma pad_length m pms :
  md5_rep m pms →
  Z.land (uint (55 - Z.shiftr (count0 pms) 3)) 63 = (55 - Z.of_nat (length m)) mod 64.
Proof.
  intros [Hc0 _ _]. change 63 with (Z.ones 6). rewrite Z.land_ones by lia.
  unfold uint, wrap. change (2 ^ 32) with (2 ^ 6 * 2 ^ 26). rewrite Z.rem_mul_r by lia.
  rewrite (Z.mul_comm (2 ^ 6)), Z.mod_add, Z.mod_mod by lia.
  rewrite Hc0. change (2 ^ 6) with 64. rewrite Zminus_mod.
  assert (Z.shiftr (8 * Z.of_nat (length m) mod 2 ^ 32) 3 mod 64 = Z.of_nat (length m) mod 64) as ->.
  { pose proof (count_offset (length m)) as H. change 63 with (Z.ones 6) in H.
    rewrite Z.land_ones in H by lia. change (2 ^ 6) with 64 in H. by rewrite H, Nat2Z.inj_mod. }
  by rewrite <-Zminus_mod.
Qed.

Lemma le_bytes_length n x : length (le_bytes n x) = n.
Proof. unfold le_bytes. by rewrite length_fmap, length_seq. Qed.

Lemma md5_finish_rep m pms :
  md5_rep m pms → (md5_finish pms).2 =
    let v := rfc_blocks (length (rfc_pad m) / 64) rfc_init (rfc_pad m) in
    le_bytes 4 (ra v) ++ le_bytes 4 (rb v) ++ le_bytes 4 (rc v) ++ le_bytes 4 (rd v).
Proof.
  intros Hrep. unfold md5_finish. rewrite (length_bytes m pms Hrep), (pad_length m pms Hrep).
  set (z := (55 - Z.of_nat (length m)) mod 64).
  assert (0 ≤ z < 64) as Hz by (by apply Z.mod_pos_bound).
  assert (z + 1 = Z.of_nat (S (Z.to_nat z))) as -> by lia.
  assert (md5_rep (rfc_pad m) (md5_append (md5_append pms md5_pad (Z.of_nat (S (Z.to_nat z))))
            (le_bytes 8 (8 * Z.of_nat (length m))) 8)) as Hfin.
  { assert (md5_rep (m ++ 0x80 :: replicate (Z.to_nat z) 0)
              (md5_append pms md5_pad (Z.of_nat (S (Z.to_nat z))))) as H1.
    { replace (0x80 :: replicate (Z.to_nat z) 0) with (take (S (Z.to_nat z)) md5_pad).
      - apply md5_append_rep; [done| |lia]. unfold md5_pad. cbn [length].
        rewrite length_replicate. lia.
      - unfold md5_pad. cbn [take]. rewrite take_replicate.
        by rewrite Nat.min_l by lia. }
    apply (md5_append_rep _ _ (le_bytes 8 (8 * Z.of_nat (length m))) 8) in H1;
      [|by rewrite le_bytes_length|done].
    rewrite take_ge in H1 by (by rewrite le_bytes_length).
    unfold rfc_pad. fold z. rewrite <-(assoc_L (++)) in H1. exact H1. }
  set (fin := md5_append _ _ 8) in *. destruct (mr_bf _ _ Hfin) as [Ha _ _].
  cbv zeta. rewrite <-Ha. cbn [snd].
  change (seq 0 16) with (seq 0 4 ++ seq 4 4 ++ seq 8 4 ++ seq 12 4).
  unfold le_bytes. simpl seq. rewrite !fmap_app. simpl.
  by rewrite !byte_of by done.
Qed.

Lemma md5_init_rep pms : length (buf pms) = 64%nat → md5_rep [] (md5_init pms).
Proof. intros H. by split; [..|split]. Qed.

Lemma conhash_md5_digest_rfc pms m :
  length (buf pms) = 64%nat → Z.of_nat (length m) < 2 ^ 28 →
  conhash_md5_digest pms m = rfc_md5 m.
Proof.
  intros Hb Hm. unfold conhash_md5_digest. apply md5_finish_rep.
  rewrite <-(app_nil_l m) at 1. rewrite <-(take_ge m (length m)) at 1 by done.
  apply md5_append_rep; [by apply md5_init_rep|done|done].
Qed.

(** ** The contract *)

(** the compression function, written as 64 uses of a macro on named variables,
    is the loop of RFC 1321: index and shift tables, T from the sines, rotation
    as an arithmetic function. *)
Theorem md5_process_spec pms data :
  md5_process pms data =
    Md5State (count0 pms) (count1 pms) (rfc_block (abcd pms) (block_words data)) (buf pms).
Proof. rewrite <-process_rfc. done. Qed.

(** C23: a message that is appended in any number of pieces, each shorter than
    2^28 bytes, has the digest of RFC 1321: padding, length in bits and
    little-endian output. *)
Theorem md5_stream_spec pms pieces :
  length (buf pms) = 64%nat →
  Forall (λ p, Z.of_nat (length p) < 2 ^ 28) pieces →
  (md5_finish (foldl (λ st p, md5_append st p (Z.of_nat (length p))) (md5_init pms) pieces)).2
  = rfc_md5 (concat pieces).
Proof.
  intros Hb Hall. apply (md5_finish_rep (concat pieces)).
  assert (∀ ps m st, md5_rep m st → Forall (λ p, Z.of_nat (length p) < 2 ^ 28) ps →
    md5_rep (m ++ concat ps) (foldl (λ st p, md5_append st p (Z.of_nat (length p))) st ps)) as H.
  { clear. induction ps as [|p ps IH]; intros m st Hm Hps; simpl; [by rewrite app_nil_r|].
    apply Forall_cons in Hps as [Hp Hps]. rewrite (assoc_L (++)). apply IH; [|done].
    rewrite <-(take_ge p (length p)) at 1 by done. by apply md5_append_rep. }
  apply (H pieces [] (md5_init pms)); [by apply md5_init_rep|done].
Qed.

(** [conhash_md5_digest] of a string shorter than 2^28 bytes is its MD5
    digest, whatever its uninitialised local state holds. *)
Theorem conhash_md5_digest_spec pms m :
  length (buf pms) = 64%nat → Z.of_nat (length m) < 2 ^ 28 →
  conhash_md5_digest pms m = rfc_md5 m.
Proof. apply conhash_md5_digest_rfc. Qed.

Definition demo_md5 : md5_state := Md5State 1 2 (Regs 3 4 5 6) (replicate 64 7).

Lemma md5_stream_spec_witness :
  (md5_finish (foldl (λ st p, md5_append st p (Z.of_nat (length p))) (md5_init demo_md5)
     [[97]; [98; 99]])).2 = rfc_md5 [97; 98; 99].
Proof. apply (md5_stream_spec demo_md5 [[97]; [98; 99]]); [done|by repeat constructor]. Defined.

Lemma conhash_md5_digest_spec_witness :
  conhash_md5_digest demo_md5 [97; 98; 99] = rfc_md5 [97; 98; 99].
Proof. by apply (conhash_md5_digest_spec demo_md5 [97; 98; 99]). Defined.

(** The test suite of RFC 1321, A.5: the digests of the empty string and of abc. *)
Example rfc_md5_empty :
  rfc_md5 [] = [0xd4; 0x1d; 0x8c; 0xd9; 0x8f; 0x00; 0xb2; 0x04;
                0xe9; 0x80; 0x09; 0x98; 0xec; 0xf8; 0x42; 0x7e].
Proof. by vm_compute. Qed.
Example rfc_md5_abc :
  rfc_md5 [97; 98; 99] = [0x90; 0x01; 0x50; 0x98; 0x3c; 0xd2; 0x4f; 0xb0;
                          0xd6; 0x96; 0x3f; 0x7d; 0x28; 0xe1; 0x7f; 0x72].
Proof. by vm_compute. Qed.
