(* ===== verification/ConHash.v ===== *)
(** * libconhash: consistent hashing

    [conhash.c], [conhash_inter.c] and the rest of [conhash_util.c]: nodes and
    their replicas, the ring of virtual nodes in a [util_rbtree], the lookup of
    an object's node.  A C string is the list of its bytes without the
    terminator; [alloc] stands for [malloc] and [calloc], the [junk] values for
    what uninitialised objects hold. *)
From S2P Require Import Prelude Md5 UtilRbTree.

(** ** Data *)

Record node_s := Node_s { iden : list Z; replicas : Z; flag : Z }.
Record virtual_node_s := VNode { vn_hash : Z; vn_node : Z }.

(** [struct conhash_s] without the tree, which has the same address. *)
Record conhash_s := Conhash { ivnodes : Z; cb_hashfunc : option (list Z → Z) }.

(** The tree with its nodes, the virtual nodes, the caller's nodes, the instance. *)
Record conhash_state := CState {
  c_tree : util_state;
  c_vnode : gmap Z virtual_node_s;
  c_node : gmap Z node_s;
  c_inst : option (Z * conhash_s);
}.
Abbreviation CH := (M conhash_state).

Definition NODE_FLAG_INIT : Z := 1.
Definition NODE_FLAG_IN : Z := 2.

Definition tree_op {A} (m : URB A) : CH A := λ s,
  match m (c_tree s) with
  | Ok (a, t) => Ok (a, CState t (c_vnode s) (c_node s) (c_inst s))
  | UB => UB
  | NoFuel => NoFuel
  end.

Definition load_node (a : Z) : CH node_s := λ s,
  match c_node s !! a with Some n => Ok (n, s) | None => UB end.
Definition store_node (a : Z) (n : node_s) : CH unit := λ s,
  match c_node s !! a with
  | Some _ => Ok ((), CState (c_tree s) (c_vnode s) (<[a := n]> (c_node s)) (c_inst s))
  | None => UB
  end.
Definition load_vnode (a : Z) : CH virtual_node_s := λ s,
  match c_vnode s !! a with Some v => Ok (v, s) | None => UB end.
Definition store_vnode (a : Z) (v : virtual_node_s) : CH unit := λ s,
  match c_vnode s !! a with
  | Some _ => Ok ((), CState (c_tree s) (<[a := v]> (c_vnode s)) (c_node s) (c_inst s))
  | None => UB
  end.
Definition free_vnode (a : Z) : CH unit := λ s,
  if decide (a = 0) then Ok ((), s) else
  match c_vnode s !! a with
  | Some _ => Ok ((), CState (c_tree s) (delete a (c_vnode s)) (c_node s) (c_inst s))
  | None => UB
  end.

(** The fields of the instance at [conhash]. *)
Definition load_inst (conhash : Z) : CH conhash_s := λ s,
  match c_inst s with
  | Some (a, c) => if decide (a = conhash) then Ok (c, s) else UB
  | None => UB
  end.
Definition store_inst (conhash : Z) (c : conhash_s) : CH unit := λ s,
  match c_inst s with
  | Some (a, _) => if decide (a = conhash)
                   then Ok ((), CState (c_tree s) (c_vnode s) (c_node s) (Some (a, c))) else UB
  | None => UB
  end.
Definition get_ivnodes (conhash : Z) : CH Z := ivnodes <$> load_inst conhash.
Definition set_ivnodes (conhash v : Z) : CH unit :=
  c ← load_inst conhash; store_inst conhash (Conhash v (cb_hashfunc c)).
Definition call_hash (conhash : Z) (instr : list Z) : CH Z :=
  c ← load_inst conhash;
  match cb_hashfunc c with Some h => mret (h instr) | None => ub end.

(** ** Strings *)

(** What stands before the terminator, when there is one. *)
Fixpoint cstr (b : list Z) : option (list Z) :=
  match b with
  | [] => None
  | x :: b => if x =? 0 then Some [] else (x ::.) <$> cstr b
  end.

(** [strncpy(dst, src, n)]: pads with zeros, adds no terminator. *)
Definition strncpy (dst src : list Z) (n : nat) : list Z :=
  take n (src ++ replicate n 0) ++ drop n dst.

(** The decimal digits of a number below 10^10. *)
Fixpoint decimal (fuel : nat) (n : Z) : list Z :=
  match fuel with
  | O => []
  | S fuel => (if n <? 10 then [] else decimal fuel (n / 10)) ++ [48 + n mod 10]
  end.

(** [%03d] of a 32-bit argument. *)
Definition fmt_03d (v : Z) : list Z :=
  let i := if 2 ^ 31 <=? v then v - 2 ^ 32 else v in
  let sign := if i <? 0 then [45] else [] in
  let digits := decimal 10 (Z.abs i) in
  sign ++ replicate (3 - length sign - length digits) 48 ++ digits.

(** What [snprintf(buf, 127, %s-%03d, ...)] leaves in [buf]. *)
Definition node_string (name : list Z) (replica_idx : Z) : list Z :=
  take 126 (name ++ [45] ++ fmt_03d replica_idx).

Definition __conhash_node2string (node replica_idx : Z) : CH (list Z) :=
  nd ← load_node node;
  match cstr (iden nd) with
  | Some name => mret (node_string name replica_idx)
  | None => ub
  end.

(** ** The default hash function *)

Definition digest_word (digest : list Z) (i : nat) : Z :=
  Z.lor (Z.lor (Z.lor (Z.shiftl (Z.land (nth (i * 4 + 3) digest 0) 0xFF) 24)
                      (Z.shiftl (Z.land (nth (i * 4 + 2) digest 0) 0xFF) 16))
               (Z.shiftl (Z.land (nth (i * 4 + 1) digest 0) 0xFF) 8))
        (Z.land (nth (i * 4 + 0) digest 0) 0xFF).

Definition __conhash_hash_def (junk_md5 : md5_state) (instr : list Z) : Z :=
  let digest := conhash_md5_digest junk_md5 instr in
  foldl (λ hash i, hash + digest_word digest i) 0 (seq 0 4).

(** ** Virtual nodes *)

Section alloc.
Context (alloc : conhash_state → Z) (junk_rb : util_rbtree_node) (junk_vn : virtual_node_s).
Context (junk_md5 : md5_state).

Definition malloc_rbnode : CH Z := λ s,
  let a := alloc s in
  if decide (a = 0) then Ok (0, s)
  else Ok (a, CState (St (<[a := junk_rb]> (mem (c_tree s))) (env (c_tree s)))
                     (c_vnode s) (c_node s) (c_inst s)).

Definition malloc_vnode : CH Z := λ s,
  let a := alloc s in
  if decide (a = 0) then Ok (0, s)
  else Ok (a, CState (c_tree s) (<[a := junk_vn]> (c_vnode s)) (c_node s) (c_inst s)).

Definition set_ukey (a v : Z) : URB unit :=
  fset (λ n, UNode v (u_parent n) (u_right n) (u_left n) (u_color n) (u_data n)) a.
Definition set_udata (a v : Z) : URB unit :=
  fset (λ n, UNode (u_key n) (u_parent n) (u_right n) (u_left n) (u_color n) v) a.

Definition __conhash_get_rbnode (node hash : Z) : CH Z :=
  rbnode ← malloc_rbnode;
  if negb (rbnode =? 0) then
    tree_op (set_ukey rbnode hash);;
    d ← malloc_vnode;
    tree_op (set_udata rbnode d);;
    d ← tree_op (udata rbnode);
    if negb (d =? 0) then
      vnode ← tree_op (udata rbnode);
      v ← load_vnode vnode;
      store_vnode vnode (VNode hash (vn_node v));;
      v ← load_vnode vnode;
      store_vnode vnode (VNode (vn_hash v) node);;
      mret rbnode
    else
      tree_op (free rbnode);;
      mret 0
  else mret rbnode.

Definition __conhash_del_rbnode (rbnode : Z) : CH unit :=
  node ← tree_op (udata rbnode);
  free_vnode node;;
  tree_op (free rbnode).

(** [for(i = 0; i < node->replicas; i++)] *)
Definition for_replicas (node : Z) (body : Z → CH unit) : CH unit :=
  nd ← load_node node;
  loop (S (Z.to_nat (replicas nd))) (λ i,
    nd ← load_node node;
    if i <? replicas nd then body i;; mret (inl (uint (i + 1))) else mret (inr ())) 0.

Definition add_replica (conhash node i : Z) : CH unit :=
  buff ← __conhash_node2string node i;
  hash ← call_hash conhash buff;
  found ← tree_op (util_rbtree_search conhash hash);
  when (found =? 0)
    (rbnode ← __conhash_get_rbnode node hash;
     when (negb (rbnode =? 0))
       (tree_op (util_rbtree_insert conhash rbnode);;
        n ← get_ivnodes conhash;
        set_ivnodes conhash (uint (n + 1)))).

Definition __conhash_add_replicas (conhash node : Z) : CH unit :=
  for_replicas node (add_replica conhash node).

Definition del_replica (conhash node i : Z) : CH unit :=
  buff ← __conhash_node2string node i;
  hash ← call_hash conhash buff;
  rbnode ← tree_op (util_rbtree_search conhash hash);
  when (negb (rbnode =? 0))
    (d ← tree_op (udata rbnode);
     vnode ← load_vnode d;
     when ((vn_hash vnode =? hash) && (vn_node vnode =? node))
       (n ← get_ivnodes conhash;
        set_ivnodes conhash (uint (n - 1));;
        tree_op (util_rbtree_delete conhash rbnode);;
        __conhash_del_rbnode rbnode)).

Definition __conhash_del_replicas (conhash node : Z) : CH unit :=
  for_replicas node (del_replica conhash node).

(** ** The interface *)

(** [calloc(1, sizeof(struct conhash_s))]: the sentinel and the fields are zero. *)
Definition calloc_conhash : CH Z := λ s,
  let a := alloc s in
  if decide (a = 0) then Ok (0, s)
  else Ok (a, CState (St (<[NIL a := UNode 0 0 0 0 0 0]> (mem (c_tree s))) (UTree 0 0))
                     (c_vnode s) (c_node s) (Some (a, Conhash 0 None))).

Definition conhash_init (pfhash : option (list Z → Z)) : CH Z :=
  conhash ← calloc_conhash;
  if conhash =? 0 then mret 0 else
  c ← load_inst conhash;
  store_inst conhash (Conhash (ivnodes c)
    (Some (match pfhash with Some h => h | None => __conhash_hash_def junk_md5 end)));;
  tree_op (util_rbtree_init conhash);;
  mret conhash.

(** [free(conhash)]: the sentinel goes with the instance. *)
Definition free_conhash (conhash : Z) : CH unit := λ s,
  match c_inst s with
  | Some (a, _) => if decide (a = conhash)
      then Ok ((), CState (St (delete (NIL a) (mem (c_tree s))) (env (c_tree s)))
                          (c_vnode s) (c_node s) None) else UB
  | None => UB
  end.

Definition conhash_fini (conhash : Z) : CH unit :=
  when (negb (conhash =? 0))
    (fuel ← tree_op urounds;
     loop fuel (λ _,
       load_inst conhash;;
       empty ← tree_op (util_rbtree_isempty conhash);
       if (empty : bool) then mret (inr ()) else
       rbnode ← tree_op get_uroot;
       tree_op (util_rbtree_delete conhash rbnode);;
       __conhash_del_rbnode rbnode;;
       mret (inl ())) ();;
     free_conhash conhash).

Definition conhash_set_node (node : Z) (name : list Z) (replica : Z) : CH unit :=
  nd ← load_node node;
  store_node node (Node_s (strncpy (iden nd) name 63) replica NODE_FLAG_INIT).

Definition conhash_add_node (conhash node : Z) : CH Z :=
  if (conhash =? 0) || (node =? 0) then mret (-1) else
  nd ← load_node node;
  if (Z.land (flag nd) NODE_FLAG_INIT =? 0) || negb (Z.land (flag nd) NODE_FLAG_IN =? 0)
  then mret (-1) else
  store_node node (Node_s (iden nd) (replicas nd) (Z.lor (flag nd) NODE_FLAG_IN));;
  __conhash_add_replicas conhash node;;
  mret 0.

Definition conhash_del_node (conhash node : Z) : CH Z :=
  if (conhash =? 0) || (node =? 0) then mret (-1) else
  nd ← load_node node;
  if (Z.land (flag nd) NODE_FLAG_INIT =? 0) || (Z.land (flag nd) NODE_FLAG_IN =? 0)
  then mret (-1) else
  store_node node (Node_s (iden nd) (replicas nd) (Z.ldiff (flag nd) NODE_FLAG_IN));;
  __conhash_del_replicas conhash node;;
  mret 0.

(** The null pointer for an object is [None]. *)
Definition conhash_lookup (conhash : Z) (object : option (list Z)) : CH Z :=
  if conhash =? 0 then mret 0 else
  n ← get_ivnodes conhash;
  if n =? 0 then mret 0 else
  match object with
  | None => mret 0
  | Some object =>
      hash ← call_hash conhash object;
      rbnode ← tree_op (util_rbtree_lookup conhash hash);
      if negb (rbnode =? 0) then
        d ← tree_op (udata rbnode);
        vnode ← load_vnode d;
        mret (vn_node vnode)
      else mret 0
  end.

Definition conhash_get_vnodes_num (conhash : Z) : CH Z :=
  if conhash =? 0 then mret 0 else get_ivnodes conhash.
End alloc.

(** ** The keys of the ring *)

(** The array and the cursor of [struct __get_vnodes_s]. *)
Definition __get_vnodes (size : Z) (node : Z) (vnodes : list Z * Z) : URB (list Z * Z) :=
  let '(values, cur) := vnodes in
  if cur <? size then
    k ← ukey node;
    assert (cur <? Z.of_nat (length values));;
    mret (<[Z.to_nat cur := k]> values, cur + 1)
  else mret (values, cur).

(** The array at [values] before and after. *)
Definition conhash_get_vnodes (conhash : Z) (values : option (list Z)) (size : Z) : CH (option (list Z)) :=
  match values with
  | None => mret None
  | Some v =>
      if (conhash =? 0) || (size <=? 0) then mret (Some v) else
      r ← tree_op (util_rbtree_mid_travel conhash (__get_vnodes size) (v, 0));
      mret (Some (fst r))
  end.
