(* ===== verification/ConRing.v ===== *)
(** * libconhash: the abstract ring

    What consistent hashing promises, on a finite map from the hash values of
    the virtual nodes to their nodes: the claims of a node, their release, and
    the owner of a hash value. *)
From S2P Require Import Prelude.

Abbreviation ring := (gmap Z Z).

(** A node takes the place [k] unless it is taken, and gives it back if it is its. *)
Definition claim (node : Z) (R : ring) (k : Z) : ring :=
  match R !! k with Some _ => R | None => <[k := node]> R end.
Definition release (node : Z) (R : ring) (k : Z) : ring :=
  if decide (R !! k = Some node) then delete k R else R.

Definition claims (node : Z) (ks : list Z) (R : ring) : ring := foldl (claim node) R ks.
Definition releases (node : Z) (ks : list Z) (R : ring) : ring := foldl (release node) R ks.

(** The node of the first place at or after [key], round the ring. *)
Definition owner (R : ring) (key n : Z) : Prop :=
  (∃ k, R !! k = Some n ∧ key ≤ k ∧ ∀ k', key ≤ k' < k → R !! k' = None) ∨
  ((∀ k, is_Some (R !! k) → k < key) ∧ ∃ k, R !! k = Some n ∧ ∀ k', k' < k → R !! k' = None).

Section ring.
Context (node : Z).
Implicit Types (R : ring) (ks : list Z).

Lemma claim_lookup R k k' :
  claim node R k !! k' =
  match R !! k' with Some n => Some n | None => if decide (k' = k) then Some node else None end.
Proof.
  unfold claim. destruct (R !! k) as [m|] eqn:E.
  - destruct (R !! k') eqn:E'; [done|]. case_decide; [congruence|done].
  - rewrite lookup_insert. destruct (decide (k = k')) as [<-|Hne].
    + by rewrite E, decide_True.
    + rewrite decide_False by congruence. by destruct (R !! k').
Qed.

Lemma claims_lookup ks R k :
  claims node ks R !! k =
  match R !! k with Some n => Some n | None => if decide (k ∈ ks) then Some node else None end.
Proof.
  unfold claims. revert R. induction ks as [|k0 ks IH]; intros R; simpl.
  { by destruct (R !! k). }
  rewrite IH, claim_lookup. destruct (R !! k); [done|].
  repeat case_decide; set_solver.
Qed.

Lemma release_lookup R k k' :
  release node R k !! k' = if decide (k' = k ∧ R !! k' = Some node) then None else R !! k'.
Proof.
  unfold release. destruct (decide (R !! k = Some node)) as [E|E].
  - rewrite lookup_delete. case_decide; subst.
    + by rewrite decide_True.
    + rewrite decide_False; [done|]. intros [? _]; congruence.
  - rewrite decide_False; [done|]. intros [-> ?]. done.
Qed.

Lemma releases_lookup ks R k :
  releases node ks R !! k = if decide (k ∈ ks ∧ R !! k = Some node) then None else R !! k.
Proof.
  unfold releases. revert R. induction ks as [|k0 ks IH]; intros R; simpl.
  { done. }
  rewrite IH, release_lookup.
  repeat case_decide; set_solver.
Qed.

Lemma claims_subseteq ks R : R ⊆ claims node ks R.
Proof. apply map_subseteq_spec. intros k n H. by rewrite claims_lookup, H. Qed.

(** A node that owned nothing leaves the ring as it found it. *)
Lemma releases_claims ks R :
  (∀ k, R !! k ≠ Some node) → releases node ks (claims node ks R) = R.
Proof.
  intros HR. apply map_eq. intros k. rewrite releases_lookup, claims_lookup.
  destruct (R !! k) as [n|] eqn:E.
  - rewrite decide_False; [done|]. intros [_ [= ->]]. by apply (HR k).
  - repeat case_decide; naive_solver.
Qed.

Lemma claims_size ks R : (size (claims node ks R) ≤ size R + length ks)%nat.
Proof.
  unfold claims. revert R. induction ks as [|k ks IH]; intros R; simpl; [lia|].
  etrans; [apply IH|]. unfold claim. destruct (R !! k) eqn:E; [lia|].
  rewrite map_size_insert_None by done. lia.
Qed.

Lemma releases_subseteq ks R : releases node ks R ⊆ R.
Proof. apply map_subseteq_spec. intros k n. rewrite releases_lookup. by case_decide. Qed.

(** Even when some of the claims failed. *)
Lemma releases_claimed ks R R' :
  (∀ k, R !! k ≠ Some node) → R ⊆ R' → R' ⊆ claims node ks R → releases node ks R' = R.
Proof.
  intros HR H1 H2. apply map_eq. intros k. rewrite releases_lookup.
  destruct (R !! k) as [n|] eqn:E.
  - rewrite (lookup_weaken _ _ _ _ E H1), decide_False; [done|]. intros [_ [= ->]]. by apply (HR k).
  - destruct (R' !! k) as [n|] eqn:E'; [|by case_decide].
    apply (lookup_weaken _ _ _ _ E') in H2. rewrite claims_lookup, E in H2.
    rewrite decide_True; [done|]. case_decide; [|done]. split; [done|]. congruence.
Qed.

(** A new node takes objects over, but moves none between the others. *)
Lemma owner_claims ks R key n : owner (claims node ks R) key n → n = node ∨ owner R key n.
Proof.
  destruct (decide (n = node)) as [->|Hne]; [by left|].
  assert (∀ k, claims node ks R !! k = None → R !! k = None) as Hnone.
  { intros k. rewrite claims_lookup. by destruct (R !! k). }
  assert (∀ k, claims node ks R !! k = Some n → R !! k = Some n) as Hsome.
  { intros k. rewrite claims_lookup. destruct (R !! k); [done|]. case_decide; congruence. }
  intros [(k & Hk & Hle & Hgap)|(Hlt & k & Hk & Hgap)]; right.
  - left. exists k. split_and!; auto.
  - right. split; [|exists k; auto]. intros k' [m Hm]. apply Hlt. exists m.
    by rewrite claims_lookup, Hm.
Qed.

(** Without a node only its own objects move. *)
Lemma owner_releases ks R key n : owner R key n → n ≠ node → owner (releases node ks R) key n.
Proof.
  intros H Hne.
  assert (∀ k, R !! k = None → releases node ks R !! k = None) as Hnone.
  { intros k E. rewrite releases_lookup, E. by case_decide. }
  assert (∀ k, R !! k = Some n → releases node ks R !! k = Some n) as Hsome.
  { intros k E. rewrite releases_lookup, E. rewrite decide_False; [done|]. naive_solver. }
  destruct H as [(k & Hk & Hle & Hgap)|(Hlt & k & Hk & Hgap)]; [left|right].
  - exists k. split_and!; auto.
  - split; [|exists k; auto]. intros k'. rewrite releases_lookup. case_decide; [by intros []|auto].
Qed.

Lemma owner_functional R key n m : owner R key n → owner R key m → n = m.
Proof.
  assert (∀ (k1 k2 : Z) (P : Z → Prop), P k1 → P k2 →
    R !! k1 = Some n → R !! k2 = Some m →
    (∀ k', P k' → k' < k1 → R !! k' = None) → (∀ k', P k' → k' < k2 → R !! k' = None) → n = m) as H.
  { intros k1 k2 P P1 P2 H1 H2 G1 G2. destruct (Z.lt_trichotomy k1 k2) as [?|[->|?]].
    - rewrite (G2 k1) in H1 by done. done.
    - congruence.
    - rewrite (G1 k2) in H2 by done. done. }
  intros [(k1 & H1 & L1 & G1)|(L1 & k1 & H1 & G1)] [(k2 & H2 & L2 & G2)|(L2 & k2 & H2 & G2)].
  - apply (H k1 k2 (λ k, key ≤ k)); auto.
  - pose proof (L2 k1 ltac:(eauto)). lia.
  - pose proof (L1 k2 ltac:(eauto)). lia.
  - apply (H k1 k2 (λ _, True)); auto.
Qed.
End ring.
