(* ===== verification/ConHashFacts.v ===== *)
(** * libconhash: from the instance to the abstract ring

    The representation of a ring by a tree of virtual nodes, and one turn of
    the loops that add and remove replicas. *)
From stdpp Require Import sorting.
From S2P Require Import Prelude PtrTree RbSpec UtilRbTree UtilRbFacts UtilRbMap UtilRbProps ConHash ConRing.

(** ** Steps of the instance *)

Definition with_tree (t : util_state) (s : conhash_state) : conhash_state :=
  CState t (c_vnode s) (c_node s) (c_inst s).

Lemma with_tree_id s : with_tree (c_tree s) s = s.
Proof. by destruct s. Qed.

Lemma wp_tree_op {A} (m : URB A) s (Q : A → conhash_state → Prop) :
  wp m (c_tree s) (λ a t, Q a (with_tree t s)) → wp (tree_op m) s Q.
Proof. unfold wp, tree_op. destruct (m (c_tree s)) as [[a t]| |]; done. Qed.

Lemma wp_load_node a n s (Q : node_s → conhash_state → Prop) :
  c_node s !! a = Some n → Q n s → wp (load_node a) s Q.
Proof. intros H ?. unfold wp, load_node. by rewrite H. Qed.

Lemma wp_load_vnode a v s (Q : virtual_node_s → conhash_state → Prop) :
  c_vnode s !! a = Some v → Q v s → wp (load_vnode a) s Q.
Proof. intros H ?. unfold wp, load_vnode. by rewrite H. Qed.

Lemma wp_store_vnode a v v' s (Q : unit → conhash_state → Prop) :
  c_vnode s !! a = Some v' → Q () (CState (c_tree s) (<[a := v]> (c_vnode s)) (c_node s) (c_inst s)) →
  wp (store_vnode a v) s Q.
Proof. intros H ?. unfold wp, store_vnode. by rewrite H. Qed.

Lemma wp_free_vnode a v s (Q : unit → conhash_state → Prop) :
  a ≠ 0 → c_vnode s !! a = Some v → Q () (CState (c_tree s) (delete a (c_vnode s)) (c_node s) (c_inst s)) →
  wp (free_vnode a) s Q.
Proof. intros Ha H ?. unfold wp, free_vnode. rewrite decide_False by done. by rewrite H. Qed.

Lemma wp_load_inst a c s (Q : conhash_s → conhash_state → Prop) :
  c_inst s = Some (a, c) → Q c s → wp (load_inst a) s Q.
Proof. intros H ?. unfold wp, load_inst. rewrite H. by rewrite decide_True. Qed.

Lemma wp_store_inst a c c' s (Q : unit → conhash_state → Prop) :
  c_inst s = Some (a, c) → Q () (CState (c_tree s) (c_vnode s) (c_node s) (Some (a, c'))) →
  wp (store_inst a c') s Q.
Proof. intros H ?. unfold wp, store_inst. rewrite H. by rewrite decide_True. Qed.

(** ** The representation *)

(** A virtual node: its tree node, its datum, its hash and its node. *)
Record entry := Entry { e_rb : Z; e_vn : Z; e_key : Z; e_node : Z }.

Definition place (e : entry) : Z * Z := (e_key e, e_node e).

Record entry_ok (s : conhash_state) (e : entry) : Prop := {
  eo_pay : upayload (c_tree s) !! e_rb e = Some (e_key e, e_vn e);
  eo_vn : c_vnode s !! e_vn e = Some (VNode (e_key e) (e_node e));
  eo_live : e_vn e ≠ 0;
}.

Record ring_rep (conhash top : Z) (h : list Z → Z) (s : conhash_state) (E : list entry) (R : ring)
    : Prop := {
  rr_null : conhash ≠ 0;
  rr_inst : c_inst s = Some (conhash, Conhash (uint (Z.of_nat (size R))) (Some h));
  rr_tree : uholds conhash top (c_tree s) (e_rb <$> E);
  rr_entries : Forall (entry_ok s) E;
  rr_vns : NoDup (e_vn <$> E);
  rr_keys : NoDup (e_key <$> E);
  rr_ring : R = list_to_map (place <$> E);
}.

(** The instance at [conhash] holds the ring [R] under the hash function [h];
    [top] is the parent pointer of the tree's root. *)
Definition conhash_holds (conhash top : Z) (h : list Z → Z) (s : conhash_state) (R : ring) : Prop :=
  ∃ E, ring_rep conhash top h s E R.

(** What [malloc] and [calloc] are documented to give. *)
Definition alloc_fresh (alloc : conhash_state → Z) : Prop :=
  ∀ s, alloc s = 0 ∨ (mem (c_tree s) !! alloc s = None ∧ mem (c_tree s) !! NIL (alloc s) = None ∧
                      c_vnode s !! alloc s = None ∧ c_node s !! alloc s = None).

Lemma places_fst E : (place <$> E).*1 = e_key <$> E.
Proof. by rewrite <-list_fmap_compose. Qed.

Section rep.
Context (conhash top : Z) (h : list Z → Z).

Lemma rr_size s E R : ring_rep conhash top h s E R → size R = length E.
Proof.
  intros Hr. rewrite (rr_ring _ _ _ _ _ _ Hr).
  rewrite map_size_list_to_map, length_fmap; [done|]. rewrite places_fst. apply Hr.
Qed.

Lemma rr_lookup s E R k n :
  ring_rep conhash top h s E R → R !! k = Some n ↔ ∃ e, e ∈ E ∧ e_key e = k ∧ e_node e = n.
Proof.
  intros Hr. rewrite (rr_ring _ _ _ _ _ _ Hr), <-elem_of_list_to_map.
  - rewrite list_elem_of_fmap. unfold place. split.
    + intros (e & [= -> ->] & He). eauto.
    + intros (e & He & <- & <-). eauto.
  - rewrite places_fst. apply Hr.
Qed.

Lemma rr_key s E R e : ring_rep conhash top h s E R → e ∈ E → pkey (c_tree s) (e_rb e) = e_key e.
Proof.
  intros Hr He. pose proof (rr_entries _ _ _ _ _ _ Hr) as Hall. rewrite Forall_forall in Hall.
  unfold pkey. by rewrite (eo_pay _ _ (Hall e He)).
Qed.
End rep.

(** The tree does not depend on what is outside it. *)
Lemma uholds_frame tp top s s' l :
  uholds tp top s l → (∀ b, b ∈ NIL tp :: l → mem s' !! b = mem s !! b) →
  ut_root (env s') = ut_root (env s) → uholds tp top s' l.
Proof.
  intros (T & sp & Hin & Hrb & HT & Hs) Hm Hroot. subst l.
  assert (∀ b, b ∈ NIL tp :: addrs T → ushape s' !! b = ushape s !! b) as Hsh.
  { intros b Hb. unfold ushape. rewrite !lookup_fmap. by rewrite Hm. }
  exists T, sp. split_and!; [|done|done|].
  - destruct Hin as [Hit (c & Hc & Hcp)]. split.
    + unfold uroot. rewrite Hroot. eapply is_tree_frame; [exact Hit|].
      intros a Ha. apply Hsh. by right.
    + exists c. rewrite Hsh; [done|by left].
  - assert (∀ l, l ⊆ addrs T → usorted (pkey s) l → usorted (pkey s') l) as H; [|by apply H].
    assert (∀ b, b ∈ addrs T → pkey s' b = pkey s b) as Hk.
    { intros b Hb. unfold pkey, upayload. rewrite !lookup_fmap. rewrite Hm; [done|by right]. }
    clear -Hk. unfold usorted. induction l as [|a l IH]; intros Hl; [constructor|].
    intros [Hs Ha]%StronglySorted_inv. constructor; [apply IH; [set_solver|done]|].
    rewrite Forall_forall in *. intros b Hb. rewrite !Hk by set_solver. auto.
Qed.

Lemma uholds_live tp top s l a : uholds tp top s l → a ∈ NIL tp :: l → is_Some (mem s !! a).
Proof.
  intros (T & sp & Hin & _ & <- & _) [->|Ha]%elem_of_cons.
  - destruct (ut_sent _ _ _ _ _ Hin) as (c & Hc & _). by eapply ushape_some.
  - by eapply utree_live.
Qed.

Lemma upayload_lookup s a : upayload s !! a = (λ n, (u_key n, u_data n)) <$> mem s !! a.
Proof. apply lookup_fmap. Qed.

(** ** Virtual nodes *)

Section replicas.
Context (alloc : conhash_state → Z) (junk_rb : util_rbtree_node) (junk_vn : virtual_node_s).
Context (Halloc : alloc_fresh alloc).
Context (conhash : Z) (h : list Z → Z).

(** The state with the two objects of a virtual node. *)
Definition with_vnode (s : conhash_state) (r : Z) (n : util_rbtree_node) (v : virtual_node_s) : conhash_state :=
  CState (St (<[r := n]> (mem (c_tree s))) (env (c_tree s))) (<[u_data n := v]> (c_vnode s)) (c_node s) (c_inst s).

Lemma wp_malloc_rbnode s (Q : Z → conhash_state → Prop) :
  ((∃ s0, alloc s0 = 0) → Q 0 s) →
  (∀ a, a ≠ 0 → mem (c_tree s) !! a = None →
     Q a (CState (St (<[a := junk_rb]> (mem (c_tree s))) (env (c_tree s))) (c_vnode s) (c_node s) (c_inst s))) →
  wp (malloc_rbnode alloc junk_rb) s Q.
Proof.
  intros H0 H1. unfold wp, malloc_rbnode. destruct (decide (alloc s = 0)) as [Ha|Ha].
  - apply H0. eauto.
  - destruct (Halloc s) as [|(Hf & _)]; [done|]. by apply H1.
Qed.

Lemma wp_malloc_vnode s (Q : Z → conhash_state → Prop) :
  ((∃ s0, alloc s0 = 0) → Q 0 s) →
  (∀ a, a ≠ 0 → c_vnode s !! a = None →
     Q a (CState (c_tree s) (<[a := junk_vn]> (c_vnode s)) (c_node s) (c_inst s))) →
  wp (malloc_vnode alloc junk_vn) s Q.
Proof.
  intros H0 H1. unfold wp, malloc_vnode. destruct (decide (alloc s = 0)) as [Ha|Ha].
  - apply H0. eauto.
  - destruct (Halloc s) as [|(_ & _ & Hf & _)]; [done|]. by apply H1.
Qed.

Lemma wp_get_rbnode node hash s (Q : Z → conhash_state → Prop) :
  ((∃ s0, alloc s0 = 0) → Q 0 s) →
  (∀ r n, r ≠ 0 → mem (c_tree s) !! r = None → u_key n = hash → u_data n ≠ 0 →
     c_vnode s !! u_data n = None → Q r (with_vnode s r n (VNode hash node))) →
  wp (__conhash_get_rbnode alloc junk_rb junk_vn node hash) s Q.
Proof.
  intros H0 H1. destruct s as [[m e] vm nm i]. unfold __conhash_get_rbnode. apply wp_bind.
  apply wp_malloc_rbnode; [intros; by apply wp_ret, H0|]. intros r Hr Hf. simpl in Hf |- *.
  destruct (Z.eqb_spec r 0) as [|_]; [done|]. cbn [negb].
  apply wp_bind. apply wp_tree_op. eapply wp_fset; [simpl; by rewrite lookup_insert_eq|].
  cbn [with_tree c_tree c_vnode c_node c_inst mem env]. rewrite insert_insert_eq.
  apply wp_bind. apply wp_malloc_vnode.
  - intros Hoom. apply wp_bind, wp_tree_op.
    eapply wp_fset; [simpl; by rewrite lookup_insert_eq|].
    apply wp_bind, wp_tree_op. eapply wp_fget; [simpl; by rewrite lookup_insert_eq|].
    simpl. apply wp_bind, wp_tree_op. eapply wp_free; [done|simpl; by rewrite lookup_insert_eq|].
    apply wp_ret. unfold with_tree. simpl. rewrite !delete_insert_eq. rewrite delete_id by done. by apply H0.
  - intros d Hd Hfd. simpl in Hfd. apply wp_bind, wp_tree_op.
    eapply wp_fset; [simpl; by rewrite lookup_insert_eq|].
    apply wp_bind, wp_tree_op. eapply wp_fget; [simpl; by rewrite lookup_insert_eq|].
    simpl. destruct (Z.eqb_spec d 0) as [|_]; [done|]. cbn [negb].
    apply wp_bind, wp_tree_op. eapply wp_fget; [simpl; by rewrite lookup_insert_eq|]. simpl.
    apply wp_bind. eapply wp_load_vnode; [simpl; by rewrite lookup_insert_eq|].
    apply wp_bind. eapply wp_store_vnode; [simpl; by rewrite lookup_insert_eq|].
    apply wp_bind. eapply wp_load_vnode; [simpl; by rewrite lookup_insert_eq|].
    apply wp_bind. eapply wp_store_vnode; [simpl; by rewrite lookup_insert_eq|].
    apply wp_ret. unfold with_tree. simpl. rewrite !insert_insert_eq.
    eapply (H1 r (UNode hash _ _ _ _ d)); done.
Qed.

(** A ring with two more objects, which are not in the tree yet. *)
Lemma ring_rep_vnode top s E R r n v :
  ring_rep conhash top h s E R → mem (c_tree s) !! r = None → c_vnode s !! u_data n = None →
  ring_rep conhash top h (with_vnode s r n v) E R.
Proof.
  intros Hrep Hr Hd. destruct Hrep as [H1 H2 H3 H4 H5 H6 H7]. split; [done|done| | |done..].
  - eapply uholds_frame; [exact H3| |done]. intros b Hb. simpl. rewrite lookup_insert_ne; [done|].
    intros <-. pose proof (uholds_live _ _ _ _ _ H3 Hb) as [? ?]. congruence.
  - eapply Forall_impl; [exact H4|]. intros e [Hp Hv Hl]. split; [|simpl|done].
    + simpl. rewrite upayload_lookup in Hp |- *. simpl. rewrite lookup_insert_ne; [done|].
      intros E'. by rewrite <-E', Hr in Hp.
    + rewrite lookup_insert_ne; [done|]. intros E'. by rewrite E', Hv in Hd.
Qed.

Lemma uint_succ x : uint (uint x + 1) = uint (x + 1).
Proof. unfold uint, wrap. apply Zplus_mod_idemp_l. Qed.
Lemma uint_pred x : uint (uint x - 1) = uint (x - 1).
Proof. unfold uint, wrap. apply Zminus_mod_idemp_l. Qed.

Lemma wp_get_ivnodes c s (Q : Z → conhash_state → Prop) :
  c_inst s = Some (conhash, c) → Q (ivnodes c) s → wp (get_ivnodes conhash) s Q.
Proof. intros. apply wp_fmap. by eapply wp_load_inst. Qed.

Lemma wp_set_ivnodes c v s (Q : unit → conhash_state → Prop) :
  c_inst s = Some (conhash, c) →
  Q () (CState (c_tree s) (c_vnode s) (c_node s) (Some (conhash, Conhash v (cb_hashfunc c)))) →
  wp (set_ivnodes conhash v) s Q.
Proof. intros. apply wp_bind. eapply wp_load_inst; [done|]. by eapply wp_store_inst. Qed.

Lemma entry_ok_other s s' e :
  entry_ok s e → upayload (c_tree s') !! e_rb e = upayload (c_tree s) !! e_rb e →
  c_vnode s' !! e_vn e = c_vnode s !! e_vn e → entry_ok s' e.
Proof. intros [Hp Hv Hl] H1 H2. split; congruence. Qed.

(** The new virtual node goes into the tree and is counted. *)
Lemma wp_add_vnode s E R r n node :
  ring_rep conhash (NIL conhash) h s E R → r ≠ 0 → mem (c_tree s) !! r = None →
  u_data n ≠ 0 → c_vnode s !! u_data n = None → R !! u_key n = None →
  wp (tree_op (util_rbtree_insert conhash r);;
      i ← get_ivnodes conhash; set_ivnodes conhash (uint (i + 1)))
     (with_vnode s r n (VNode (u_key n) node)) (λ _ s',
    conhash_holds conhash (NIL conhash) h s' (<[u_key n := node]> R) ∧ c_node s' = c_node s).
Proof.
  intros Hrep Hr0 Hr Hd0 Hd HR. set (s1 := with_vnode _ _ _ _).
  assert (ring_rep conhash (NIL conhash) h s1 E R) as Hrep1 by (by apply ring_rep_vnode).
  pose proof (rr_tree _ _ _ _ _ _ Hrep) as Ht.
  assert (r ∉ NIL conhash :: (e_rb <$> E)) as Hfresh.
  { intros Hin. pose proof (uholds_live _ _ _ _ _ Ht Hin) as [? ?]. congruence. }
  apply not_elem_of_cons in Hfresh as [Hnil Hfresh].
  destruct Hrep1 as [H1 H2 H3 H4 H5 H6 H7].
  apply wp_bind, wp_tree_op. eapply wp_mono.
  { apply (wp_uholds_insert conhash (c_tree s1) (e_rb <$> E) r H1 H3); [done| |done].
    simpl. rewrite lookup_insert_eq. by eexists. }
  intros _ t (l1 & l2 & Hl & Ht' & _ & _ & [_ Hpay] & _).
  apply wp_bind. eapply wp_get_ivnodes; [exact H2|]. eapply wp_set_ivnodes; [exact H2|]. split; [|done].
  apply fmap_app_inv in Hl as (E1 & E2 & -> & -> & ->).
  set (e := Entry r (u_data n) (u_key n) node).
  assert (e_vn e ∉ e_vn <$> E1 ++ E2) as Hvn.
  { intros (e' & He & Hin)%list_elem_of_fmap. simpl in He.
    pose proof (rr_entries _ _ _ _ _ _ Hrep) as Hall. rewrite Forall_forall in Hall.
    destruct (Hall e' Hin) as [_ Hv _]. by rewrite <-He, Hd in Hv. }
  assert (e_key e ∉ e_key <$> E1 ++ E2) as Hk.
  { intros (e' & He & Hin)%list_elem_of_fmap. simpl in He.
    assert (R !! u_key n = Some (e_node e')) as ?; [|congruence].
    apply (rr_lookup _ _ _ _ _ _ _ _ Hrep). eauto. }
  exists (E1 ++ e :: E2). split.
  - done.
  - simpl. by rewrite uint_succ, map_size_insert_None, Nat2Z.inj_succ by done.
  - simpl. by rewrite fmap_app, fmap_cons.
  - rewrite <-Permutation_middle. constructor.
    + split; simpl; [|by rewrite lookup_insert_eq|done].
      rewrite Hpay, upayload_lookup. simpl. by rewrite lookup_insert_eq.
    + eapply Forall_impl; [exact H4|]. intros e' He'. eapply entry_ok_other; [exact He'| |done].
      simpl. by rewrite Hpay.
  - rewrite <-Permutation_middle. by constructor.
  - rewrite <-Permutation_middle. by constructor.
  - rewrite H7. change (<[u_key n := node]> (list_to_map (M := ring) (place <$> E1 ++ E2)))
      with (list_to_map (M := ring) (place <$> e :: E1 ++ E2)).
    apply list_to_map_proper.
    + rewrite places_fst. by constructor.
    + by rewrite <-Permutation_middle.
Qed.

(** Searching the ring for a place. *)
Lemma wp_ring_search top s E R k (Q : Z → conhash_state → Prop) :
  ring_rep conhash top h s E R →
  (∀ e, e ∈ E → e_rb e ≠ 0 → e_key e = k → R !! k = Some (e_node e) → Q (e_rb e) s) →
  (R !! k = None → Q 0 s) →
  wp (tree_op (util_rbtree_search conhash k)) s Q.
Proof.
  intros Hrep HS HN. apply wp_tree_op. eapply wp_mono.
  { apply (wp_uholds_search conhash top _ _ k (rr_null _ _ _ _ _ _ Hrep) (rr_tree _ _ _ _ _ _ Hrep)). }
  intros a t (-> & [[Hin Hk]|[-> Hno]]); destruct s as [t vn nd i]; unfold with_tree; simpl in *.
  - assert (a ≠ 0) as Ha.
    { destruct (rr_tree _ _ _ _ _ _ Hrep) as (T & sp & Hut & _ & HT & Hs). rewrite <-HT in Hin.
      eapply utree_live in Hin as [_ [? _]]; [done|exact Hut]. }
    apply list_elem_of_fmap in Hin as (e & -> & He).
    pose proof (rr_key _ _ _ _ _ _ _ Hrep He) as Hk'. simpl in Hk'. rewrite Hk' in Hk. apply HS; [done..|].
    apply (rr_lookup _ _ _ _ _ _ _ _ Hrep). eauto.
  - apply HN. destruct (R !! k) as [m|] eqn:E'; [|done].
    apply (rr_lookup _ _ _ _ _ _ _ _ Hrep) in E' as (e & He & Hk & _).
    exfalso. eapply Hno; [by apply list_elem_of_fmap_2, He|].
    rewrite <-Hk. exact (rr_key _ _ _ _ _ _ _ Hrep He).
Qed.

Lemma wp_node2string s node nd name i (Q : list Z → conhash_state → Prop) :
  c_node s !! node = Some nd → cstr (iden nd) = Some name → Q (node_string name i) s →
  wp (__conhash_node2string node i) s Q.
Proof.
  intros Hn Hc HQ. apply wp_bind. eapply wp_load_node; [done|]. rewrite Hc. by apply wp_ret.
Qed.

Lemma wp_call_hash top s E R x (Q : Z → conhash_state → Prop) :
  ring_rep conhash top h s E R → Q (h x) s → wp (call_hash conhash x) s Q.
Proof. intros Hr HQ. apply wp_bind. eapply wp_load_inst; [apply Hr|]. by apply wp_ret. Qed.

(** One turn of [__conhash_add_replicas]. *)
Lemma wp_add_replica s R node nd name i :
  conhash_holds conhash (NIL conhash) h s R → c_node s !! node = Some nd → cstr (iden nd) = Some name →
  wp (add_replica alloc junk_rb junk_vn conhash node i) s (λ _ s', ∃ R',
    conhash_holds conhash (NIL conhash) h s' R' ∧ c_node s' = c_node s ∧
    (R' = claim node R (h (node_string name i)) ∨ R' = R ∧ ∃ s0, alloc s0 = 0)).
Proof.
  intros [E Hrep] Hn Hc. unfold add_replica. apply wp_bind. eapply wp_node2string; [done..|].
  apply wp_bind. eapply wp_call_hash; [exact Hrep|]. apply wp_bind.
  unfold claim. eapply wp_ring_search; [exact Hrep|..].
  - intros e He He0 Hk HR. destruct (Z.eqb_spec (e_rb e) 0) as [|_]; [done|]. simpl. apply wp_ret.
    exists R. rewrite HR. split_and!; [by exists E|done|by left].
  - intros HR. rewrite HR. simpl. apply wp_bind. apply wp_get_rbnode.
    + intros Hoom. simpl. apply wp_ret. exists R. split_and!; [by exists E|done|by right].
    + intros r n Hr0 Hr Hkey Hd0 Hd. destruct (Z.eqb_spec r 0) as [|_]; [done|]. simpl.
      rewrite <-Hkey in HR |- *. eapply wp_mono; [by eapply wp_add_vnode|].
      intros _ s' [Hh Hns]. eexists. split_and!; [exact Hh|done|by left].
Qed.

(** The instance when it counts [n] virtual nodes. *)
Definition counting (n : nat) : option (Z * conhash_s) :=
  Some (conhash, Conhash (uint (Z.of_nat n)) (Some h)).
Definition with_inst (i : option (Z * conhash_s)) (s : conhash_state) : conhash_state :=
  CState (c_tree s) (c_vnode s) (c_node s) i.

Lemma with_inst_id i s : c_inst s = i → with_inst i s = s.
Proof. intros <-. by destruct s. Qed.

(** The virtual node leaves the tree and is freed, whatever the instance counts. *)
Lemma wp_del_vnode top s E1 e E2 R i :
  ring_rep conhash top h s (E1 ++ e :: E2) R →
  wp (tree_op (util_rbtree_delete conhash (e_rb e));; __conhash_del_rbnode (e_rb e))
     (with_inst i s) (λ _ s',
    (∃ top', ring_rep conhash top' h (with_inst (counting (length (E1 ++ E2))) s') (E1 ++ E2) (delete (e_key e) R) ∧
             (length (E1 ++ E2) ≠ 1%nat → top' = top)) ∧
    c_node s' = c_node s ∧ c_inst s' = i ∧ c_vnode s' = delete (e_vn e) (c_vnode s) ∧
    mem (c_tree s') !! e_rb e = None ∧
    ∀ b, b ∉ NIL conhash :: (e_rb <$> E1 ++ e :: E2) → mem (c_tree s') !! b = mem (c_tree s) !! b).
Proof.
  intros [H1 H2 H3 H4 H5 H6 H7].
  assert (entry_ok s e) as [Hp Hv Hl].
  { rewrite Forall_app, Forall_cons in H4. tauto. }
  assert (e_rb e ≠ 0 ∧ e_rb e ∉ NIL conhash :: (e_rb <$> E1 ++ E2)) as [He0 Hfr].
  { destruct H3 as (T & sp & Hut & _ & HT & Hs).
    assert (e_rb e ∈ addrs T) as Hin by (rewrite HT, fmap_app; clear; set_solver).
    eapply utree_live in Hin as [_ [? ?]]; [|exact Hut]. split; [done|].
    destruct (ut_tree _ _ _ _ _ Hut) as [_ _ Hnd _]. rewrite HT, fmap_app, fmap_cons in Hnd.
    rewrite <-Permutation_middle in Hnd. apply NoDup_cons in Hnd as [Hnd _].
    rewrite fmap_app. clear -Hnd H0. set_solver. }
  apply wp_bind, wp_tree_op. rewrite fmap_app, fmap_cons in H3. eapply wp_mono.
  { apply (wp_uholds_delete conhash top _ _ _ _ H1 H3). }
  intros _ t ((top' & Ht' & Htop) & [Hm Hpay] & _).
  assert (is_Some (mem t !! e_rb e)) as [x Hx].
  { rewrite upayload_lookup in Hp. apply fmap_Some in Hp as (y & Hy & _).
    assert (e_rb e ∈ dom (upayload t)) as Hd.
    { rewrite Hpay. unfold upayload. rewrite dom_fmap. by apply elem_of_dom_2 in Hy. }
    unfold upayload in Hd. rewrite dom_fmap in Hd. by apply elem_of_dom. }
  assert (u_data x = e_vn e) as Hxd.
  { rewrite <-Hpay, upayload_lookup, Hx in Hp. by injection Hp. }
  apply wp_bind, wp_tree_op. eapply wp_fget; [exact Hx|]. rewrite Hxd. apply wp_bind.
  eapply wp_free_vnode; [done|exact Hv|]. apply wp_tree_op. eapply wp_free; [done|exact Hx|].
  assert (NoDup (e_vn <$> e :: E1 ++ E2)) as Hnv.
  { by rewrite Permutation_middle. }
  apply NoDup_cons in Hnv as [Hnv1 Hnv2].
  assert (NoDup (e_key <$> e :: E1 ++ E2)) as Hnk.
  { by rewrite Permutation_middle. }
  apply NoDup_cons in Hnk as [Hnk1 Hnk2].
  assert (R = <[e_key e := e_node e]> (list_to_map (place <$> E1 ++ E2))) as HR.
  { rewrite H7. change (<[e_key e := e_node e]> (list_to_map (M := ring) (place <$> E1 ++ E2)))
      with (list_to_map (M := ring) (place <$> e :: E1 ++ E2)).
    apply list_to_map_proper.
    - by rewrite places_fst.
    - by rewrite <-Permutation_middle. }
  assert ((list_to_map (M := ring) (place <$> E1 ++ E2)) !! e_key e = None) as Hnone.
  { apply not_elem_of_list_to_map_1. by rewrite places_fst. }
  assert (delete (e_key e) R = list_to_map (place <$> E1 ++ E2)) as HdR.
  { by rewrite HR, delete_insert_eq, delete_id. }
  split_and!; [|done|done|done|simpl; by rewrite lookup_delete_eq|].
  - exists top'. split; [|by rewrite <-fmap_app, length_fmap in Htop]. split; [done| | | |done|done|done].
    + simpl. unfold counting. do 4 f_equal. rewrite HdR, map_size_list_to_map, length_fmap; [done|].
      by rewrite places_fst.
    + rewrite fmap_app. eapply uholds_frame; [exact Ht'| |done]. intros b Hb. simpl.
      rewrite lookup_delete_ne; [done|]. intros <-. by rewrite fmap_app in Hfr.
    + rewrite Forall_app, Forall_cons in H4. apply Forall_forall. intros e' He'.
      assert (entry_ok s e') as Hok.
      { rewrite !Forall_forall in H4. destruct H4 as (H4a & _ & H4b).
        apply elem_of_app in He' as [?|?]; [by apply H4a|by apply H4b]. }
      eapply entry_ok_other; [exact Hok| |].
      * simpl. rewrite <-Hpay, !upayload_lookup. simpl. rewrite lookup_delete_ne; [done|].
        intros E. apply Hfr. rewrite E. right. by apply list_elem_of_fmap_2.
      * simpl. rewrite lookup_delete_ne; [done|]. intros E. apply Hnv1. rewrite E.
        by apply list_elem_of_fmap_2.
  - intros b Hb. simpl. rewrite fmap_app, fmap_cons in Hb. rewrite lookup_delete_ne; [by apply Hm|].
    clear -Hb. set_solver.
Qed.

(** The ring in a state reached by removals: the parent pointer of the root may
    dangle when a single virtual node is left. *)
Definition ring_held (s : conhash_state) (R : ring) : Prop :=
  ∃ top, conhash_holds conhash top h s R ∧ (size R ≠ 1%nat → top = NIL conhash).

Lemma conhash_holds_empty top top' s R :
  conhash_holds conhash top h s R → size R = 0%nat → conhash_holds conhash top' h s R.
Proof.
  intros [E Hrep] Hz. exists E. pose proof (rr_size _ _ _ _ _ _ Hrep) as Hsz.
  destruct Hrep as [H1 H2 (T & sp & Hut & Hrb & HT & Hs) H4 H5 H6 H7]. split; [done|done| |done..].
  exists T, sp. split_and!; [|done..].
  rewrite Hz in Hsz. symmetry in Hsz. apply nil_length_inv in Hsz. subst E.
  destruct T as [|c l a r]; [|simpl in HT; by destruct (addrs l)].
  destruct Hut as [[H8 H9 H10 H11] Hsent]. by split.
Qed.

(** One turn of [__conhash_del_replicas]. *)
Lemma wp_del_replica s R node nd name i :
  ring_held s R → c_node s !! node = Some nd → cstr (iden nd) = Some name →
  wp (del_replica conhash node i) s (λ _ s',
    ring_held s' (release node R (h (node_string name i))) ∧ c_node s' = c_node s).
Proof.
  intros (top & [E Hrep] & Htop) Hn Hc. unfold del_replica. apply wp_bind.
  eapply wp_node2string; [done..|].
  apply wp_bind. eapply wp_call_hash; [exact Hrep|]. set (k := h _). apply wp_bind.
  assert (R !! k ≠ Some node → ring_held s (release node R k)) as Hsame.
  { intros HR. unfold release. rewrite decide_False by done. exists top. split; [by exists E|done]. }
  eapply wp_ring_search; [exact Hrep|..].
  2: { intros HR. simpl. apply wp_ret. split; [apply Hsame; congruence|done]. }
  intros e He He0 Hk HR. destruct (Z.eqb_spec (e_rb e) 0) as [|_]; [done|]. simpl.
  pose proof (rr_entries _ _ _ _ _ _ Hrep) as Hall. rewrite Forall_forall in Hall.
  destruct (Hall e He) as [Hp Hv Hl].
  rewrite upayload_lookup in Hp. apply fmap_Some in Hp as (x & Hx & [= Hx1 Hx2]).
  apply wp_bind, wp_tree_op. eapply wp_fget; [exact Hx|]. rewrite <-Hx2, with_tree_id.
  apply wp_bind. eapply wp_load_vnode; [exact Hv|]. simpl. rewrite Hk, Z.eqb_refl. simpl.
  destruct (Z.eqb_spec (e_node e) node) as [Hen|Hen]; simpl.
  2: { apply wp_ret. split; [|done]. apply Hsame. congruence. }
  apply wp_bind. eapply wp_get_ivnodes; [apply Hrep|]. apply wp_bind.
  eapply wp_set_ivnodes; [apply Hrep|]. simpl.
  pose proof (rr_size _ _ _ _ _ _ Hrep) as Hsz.
  apply list_elem_of_split in He as (E1 & E2 & ->).
  assert (length (E1 ++ e :: E2) = S (length (E1 ++ E2))) as Hlen.
  { rewrite !length_app. simpl. lia. }
  rewrite uint_pred, Hsz, Hlen. replace (Z.of_nat (S (length (E1 ++ E2))) - 1)
    with (Z.of_nat (length (E1 ++ E2))) by lia.
  eapply wp_mono; [by apply (wp_del_vnode top s E1 e E2 R (counting (length (E1 ++ E2))))|].
  intros _ s' ((top' & Hrep' & Htop') & Hns & Hi & _). split; [|done].
  rewrite with_inst_id in Hrep' by done.
  assert (release node R k = delete (e_key e) R) as ->.
  { unfold release. rewrite Hk, decide_True by congruence. done. }
  pose proof (rr_size _ _ _ _ _ _ Hrep') as Hsz'. unfold ring_held.
  destruct (decide (length (E1 ++ E2) = 0%nat)) as [Hz|Hz].
  - exists (NIL conhash). split; [|done]. eapply conhash_holds_empty; [by eexists|]. by rewrite Hsz'.
  - exists top'. split; [by eexists|]. intros H1. rewrite Htop' by congruence. apply Htop. lia.
Qed.

(** The loop over the replicas; [I i] holds before turn [i]. *)
Lemma wp_for_replicas (I : Z → conhash_state → Prop) node nd body s :
  c_node s !! node = Some nd → 0 ≤ replicas nd < 2 ^ 32 → I 0 s →
  (∀ i s', 0 ≤ i < replicas nd → c_node s' = c_node s → I i s' →
     wp (body i) s' (λ _ s'', c_node s'' = c_node s ∧ I (i + 1) s'')) →
  wp (for_replicas node body) s (λ _ s', c_node s' = c_node s ∧ I (replicas nd) s').
Proof.
  intros Hn Hr HI Hbody. unfold for_replicas. apply wp_bind. eapply wp_load_node; [done|].
  eapply (wp_loop (λ m i s', c_node s' = c_node s ∧ I i s' ∧ 0 ≤ i ≤ replicas nd ∧
            m = Z.to_nat (replicas nd - i))) with (n := Z.to_nat (replicas nd)).
  2: { split_and!; [done|done|lia..|f_equal; lia]. }
  2: { lia. }
  intros m i s' (Hns & HIs & Hi & ->). apply wp_bind. eapply wp_load_node; [by rewrite Hns|].
  destruct (Z.ltb_spec i (replicas nd)).
  - apply wp_bind. eapply wp_mono; [apply Hbody; [lia|done|done]|]. intros _ s'' [Hns' HI'].
    apply wp_ret. unfold uint. rewrite wrap_small by lia.
    exists (Z.to_nat (replicas nd - (i + 1))). split_and!; [lia|done|done|lia..|done].
  - apply wp_ret. assert (i = replicas nd) as -> by lia. done.
Qed.

(** The places of a node's replicas, in the order of the loop. *)
Definition replica_keys (name : list Z) (n : Z) : list Z := (λ i, h (node_string name i)) <$> seqZ 0 n.

Lemma replica_keys_succ name n :
  0 ≤ n → replica_keys name (n + 1) = replica_keys name n ++ [h (node_string name n)].
Proof.
  intros. unfold replica_keys. rewrite seqZ_app, fmap_app by lia. by rewrite Z.add_0_l.
Qed.

(** Every turn claims a place, or there was no memory. *)
Definition claimed (node : Z) (ks : list Z) (R R' : ring) : Prop :=
  R ⊆ R' ∧ R' ⊆ claims node ks R ∧ ((∀ s, alloc s ≠ 0) → R' = claims node ks R).

Lemma claimed_step node ks R R' R'' k :
  claimed node ks R R' → R'' = claim node R' k ∨ R'' = R' ∧ (∃ s0, alloc s0 = 0) →
  claimed node (ks ++ [k]) R R''.
Proof.
  intros (H1 & H2 & H3) Hstep. unfold claimed, claims. rewrite foldl_app. fold (claims node ks R).
  assert (∀ R0, R0 ⊆ claim node R0 k) as Hsub.
  { intros R0. apply (claims_subseteq node [k]). }
  assert (R' ⊆ R'') as H'.
  { destruct Hstep as [->|[-> _]]; [apply Hsub|done]. }
  split_and!.
  - by etrans.
  - simpl. destruct Hstep as [->|[-> _]]; [|etrans; [exact H2|apply Hsub]].
    apply map_subseteq_spec. intros k' n. rewrite !claim_lookup.
    destruct (R' !! k') as [m|] eqn:E; [intros [= ->]; by rewrite (lookup_weaken _ _ _ _ E H2)|].
    case_decide as Hk; [|done]. intros [= <-]. subst k'.
    destruct (claims node ks R !! k) as [m|] eqn:Ec; [|done]. rewrite claims_lookup in Ec.
    destruct (R !! k) as [m'|] eqn:ER; [|by case_decide].
    by rewrite (lookup_weaken _ _ _ _ ER H1) in E.
  - intros Hno. destruct Hstep as [->|[_ [s0 Hs0]]]; [by rewrite H3|]. by destruct (Hno s0).
Qed.

Lemma wp_add_replicas s R node nd name :
  conhash_holds conhash (NIL conhash) h s R → c_node s !! node = Some nd → cstr (iden nd) = Some name →
  0 ≤ replicas nd < 2 ^ 32 →
  wp (__conhash_add_replicas alloc junk_rb junk_vn conhash node) s (λ _ s', c_node s' = c_node s ∧
    ∃ R', conhash_holds conhash (NIL conhash) h s' R' ∧ claimed node (replica_keys name (replicas nd)) R R').
Proof.
  intros Hh Hn Hc Hr. eapply (wp_for_replicas (λ i s', ∃ R', conhash_holds conhash (NIL conhash) h s' R' ∧
    claimed node (replica_keys name i) R R')); [done|done|by exists R|].
  intros i s' Hi Hns (R' & Hh' & Hcl).
  eapply wp_mono; [eapply wp_add_replica; [exact Hh'|by rewrite Hns|done]|].
  intros _ s'' (R'' & Hh'' & Hns' & Hstep). split; [congruence|]. exists R''. split; [done|].
  rewrite replica_keys_succ by lia. by eapply claimed_step.
Qed.

Lemma wp_del_replicas s R node nd name :
  ring_held s R → c_node s !! node = Some nd → cstr (iden nd) = Some name →
  0 ≤ replicas nd < 2 ^ 32 →
  wp (__conhash_del_replicas conhash node) s (λ _ s', c_node s' = c_node s ∧
    ring_held s' (releases node (replica_keys name (replicas nd)) R)).
Proof.
  intros Hh Hn Hc Hr. eapply (wp_for_replicas (λ i s', ring_held s' (releases node (replica_keys name i) R)));
    [done|done|done|].
  intros i s' Hi Hns Hh'. eapply wp_mono; [eapply wp_del_replica; [exact Hh'|by rewrite Hns|done]|].
  intros _ s'' [Hh'' Hns']. split; [congruence|].
  rewrite replica_keys_succ by lia. unfold releases. by rewrite foldl_app.
Qed.
End replicas.
