(* ===== verification/ConHashProps.v ===== *)
(** * libconhash: what consistent hashing promises

    Nodes added and removed, the owner of an object, the keys in order, the
    life of an instance, and the default hash function. *)
From stdpp Require Import sorting.
From S2P Require Import Prelude PtrTree RbSpec UtilRbTree UtilRbFacts UtilRbMap UtilRbProps Md5.
From S2P Require Import ConHash ConRing ConHashFacts.

(** ** Nodes *)

(** The node at [a] may be added, respectively removed. *)
Definition addable (nd : node_s) : Prop :=
  Z.land (flag nd) NODE_FLAG_INIT ≠ 0 ∧ Z.land (flag nd) NODE_FLAG_IN = 0.
Definition removable (nd : node_s) : Prop :=
  Z.land (flag nd) NODE_FLAG_INIT ≠ 0 ∧ Z.land (flag nd) NODE_FLAG_IN ≠ 0.

Definition flag_in (nd : node_s) : node_s :=
  Node_s (iden nd) (replicas nd) (Z.lor (flag nd) NODE_FLAG_IN).
Definition flag_out (nd : node_s) : node_s :=
  Node_s (iden nd) (replicas nd) (Z.ldiff (flag nd) NODE_FLAG_IN).

Definition with_node (s : conhash_state) (a : Z) (nd : node_s) : conhash_state :=
  CState (c_tree s) (c_vnode s) (<[a := nd]> (c_node s)) (c_inst s).

Lemma wp_store_node a n n' s (Q : unit → conhash_state → Prop) :
  c_node s !! a = Some n' → Q () (with_node s a n) → wp (store_node a n) s Q.
Proof. intros H ?. unfold wp, store_node. by rewrite H. Qed.

Lemma holds_with_node conhash top h s R a nd :
  conhash_holds conhash top h s R → conhash_holds conhash top h (with_node s a nd) R.
Proof.
  intros [E [H1 H2 H3 H4 H5 H6 H7]]. exists E. split; try done.
  eapply Forall_impl; [exact H4|]. intros e He. by eapply entry_ok_other.
Qed.

Lemma wp_conhash_add alloc junk_rb junk_vn conhash h s R node nd name :
  alloc_fresh alloc → conhash_holds conhash (NIL conhash) h s R → node ≠ 0 →
  c_node s !! node = Some nd → addable nd → cstr (iden nd) = Some name → 0 ≤ replicas nd < 2 ^ 32 →
  wp (conhash_add_node alloc junk_rb junk_vn conhash node) s (λ r s', r = 0 ∧
    c_node s' = <[node := flag_in nd]> (c_node s) ∧
    ∃ R', conhash_holds conhash (NIL conhash) h s' R' ∧
          claimed alloc node (replica_keys h name (replicas nd)) R R').
Proof.
  intros Ha Hh Hnode Hn [Hf1 Hf2] Hc Hr. unfold conhash_add_node.
  assert (conhash ≠ 0) as Hch by (by destruct Hh as [E []]).
  destruct (Z.eqb_spec conhash 0) as [|_]; [done|]. destruct (Z.eqb_spec node 0) as [|_]; [done|].
  simpl orb. cbn match. apply wp_bind. eapply wp_load_node; [done|].
  rewrite Hf2. destruct (Z.eqb_spec (Z.land (flag nd) NODE_FLAG_INIT) 0) as [|_]; [done|]. simpl.
  apply wp_bind. eapply wp_store_node; [done|]. apply wp_bind. eapply wp_mono.
  { eapply (wp_add_replicas alloc junk_rb junk_vn Ha conhash h (with_node s node (flag_in nd)) R node (flag_in nd) name);
      [by apply holds_with_node|simpl; by rewrite lookup_insert_eq|done|done]. }
  intros _ s' [Hns HR]. apply wp_ret. by split_and!.
Qed.

Lemma wp_conhash_del conhash h s R node nd name :
  conhash ≠ 0 → ring_held conhash h s R → node ≠ 0 →
  c_node s !! node = Some nd → removable nd → cstr (iden nd) = Some name → 0 ≤ replicas nd < 2 ^ 32 →
  wp (conhash_del_node conhash node) s (λ r s', r = 0 ∧
    c_node s' = <[node := flag_out nd]> (c_node s) ∧
    ring_held conhash h s' (releases node (replica_keys h name (replicas nd)) R)).
Proof.
  intros Hch (top & Hh & Htop) Hnode Hn [Hf1 Hf2] Hc Hr. unfold conhash_del_node.
  destruct (Z.eqb_spec conhash 0) as [|_]; [done|]. destruct (Z.eqb_spec node 0) as [|_]; [done|].
  simpl orb. cbn match. apply wp_bind. eapply wp_load_node; [done|].
  destruct (Z.eqb_spec (Z.land (flag nd) NODE_FLAG_INIT) 0) as [|_]; [done|].
  destruct (Z.eqb_spec (Z.land (flag nd) NODE_FLAG_IN) 0) as [|_]; [done|]. simpl.
  apply wp_bind. eapply wp_store_node; [done|]. apply wp_bind. eapply wp_mono.
  { eapply (wp_del_replicas conhash h (with_node s node (flag_out nd)) R node (flag_out nd) name);
      [|simpl; by rewrite lookup_insert_eq|done|done].
    exists top. split; [by apply holds_with_node|done]. }
  intros _ s' [Hns HR]. apply wp_ret. by split_and!.
Qed.

(** ** The owner of an object *)

Section owner.
Context (conhash top : Z) (h : list Z → Z) (s : conhash_state) (E : list entry) (R : ring).
Context (Hrep : ring_rep conhash top h s E R).

(** What lies before a place stands before it. *)
Lemma rr_before E1 e E2 k :
  E = E1 ++ e :: E2 → is_Some (R !! k) → k < e_key e → ∃ e', e' ∈ E1 ∧ e_key e' = k.
Proof.
  intros HE [n Hk] Hlt. apply (rr_lookup _ _ _ _ _ _ _ _ Hrep) in Hk as (e' & He' & Hk & _).
  pose proof He' as Hin. rewrite HE in He'. apply elem_of_app in He' as [He'|He']; [eauto|]. exfalso.
  apply elem_of_cons in He' as [->|He']; [lia|].
  destruct (rr_tree _ _ _ _ _ _ Hrep) as (T & sp & _ & _ & _ & Hs).
  rewrite HE, fmap_app, fmap_cons in Hs. apply usorted_split in Hs as [_ Hge]. rewrite Forall_forall in Hge.
  specialize (Hge (e_rb e') ltac:(by apply list_elem_of_fmap_2)).
  rewrite !(rr_key _ _ _ _ _ _ _ Hrep) in Hge by (done || rewrite HE; clear; set_solver). lia.
Qed.

(** What [util_rbtree_lookup] finds is the place of the owner. *)
Lemma rr_owner k a :
  E ≠ [] →
  ((∃ pre post, e_rb <$> E = pre ++ a :: post ∧ k ≤ pkey (c_tree s) a ∧
      Forall (λ x, pkey (c_tree s) x < k) pre) ∨
   (∃ post, e_rb <$> E = a :: post ∧ Forall (λ x, pkey (c_tree s) x < k) (e_rb <$> E)) ∨
   (a = 0 ∧ e_rb <$> E = [])) →
  ∃ e, e ∈ E ∧ a = e_rb e ∧ owner R k (e_node e).
Proof.
  intros Hne [(pre & post & Hl & Hle & Hpre)|[(post & Hl & Hlt)|[_ Hl]]].
  - apply fmap_app_inv in Hl as (E1 & E2' & -> & Hl & HE).
    symmetry in Hl. apply fmap_cons_inv in Hl as (e & E2 & -> & -> & ->).
    assert (e ∈ E) as He by (rewrite HE; clear; set_solver).
    exists e. split_and!; [done|done|]. left. exists (e_key e). split_and!.
    + apply (rr_lookup _ _ _ _ _ _ _ _ Hrep). eauto.
    + by rewrite <-(rr_key _ _ _ _ _ _ _ Hrep He).
    + intros k' [Hk1 Hk2]. destruct (R !! k') as [n'|] eqn:HRk; [|done]. exfalso.
      destruct (rr_before _ _ _ k' HE ltac:(eauto) Hk2) as (e' & He' & Hke').
      rewrite Forall_forall in Hpre. specialize (Hpre (e_rb e') ltac:(by apply list_elem_of_fmap_2)).
      rewrite (rr_key _ _ _ _ _ _ _ Hrep) in Hpre by (rewrite HE; clear -He'; set_solver). lia.
  - pose proof Hl as Hl'. apply fmap_cons_inv in Hl' as (e & E2 & -> & -> & HE).
    assert (e ∈ E) as He by (rewrite HE; clear; set_solver).
    exists e. split_and!; [done|done|]. right. split.
    + intros k' [n' Hk']. apply (rr_lookup _ _ _ _ _ _ _ _ Hrep) in Hk' as (e' & He' & <- & _).
      rewrite Forall_forall in Hlt. specialize (Hlt (e_rb e') ltac:(by apply list_elem_of_fmap_2)).
      by rewrite (rr_key _ _ _ _ _ _ _ Hrep) in Hlt.
    + exists (e_key e). split; [apply (rr_lookup _ _ _ _ _ _ _ _ Hrep); eauto|].
      intros k' Hk'. destruct (R !! k') as [n'|] eqn:HRk; [|done].
      destruct (rr_before [] e E2 k' HE ltac:(eauto) Hk') as (e' & He' & _). by apply elem_of_nil in He'.
  - by apply fmap_nil_inv in Hl.
Qed.

Lemma rr_nonnull e : e ∈ E → e_rb e ≠ 0 ∧ e_rb e ≠ NIL conhash.
Proof.
  intros He. destruct (rr_tree _ _ _ _ _ _ Hrep) as (T & sp & Hut & _ & HT & Hs).
  assert (e_rb e ∈ addrs T) as Hin by (rewrite HT; by apply list_elem_of_fmap_2).
  by eapply utree_live in Hin as [_ [? ?]]; [|exact Hut].
Qed.

Lemma rr_entry e :
  e ∈ E → ∃ x, mem (c_tree s) !! e_rb e = Some x ∧ u_key x = e_key e ∧ u_data x = e_vn e ∧
    c_vnode s !! e_vn e = Some (VNode (e_key e) (e_node e)).
Proof.
  intros He. pose proof (rr_entries _ _ _ _ _ _ Hrep) as Hall. rewrite Forall_forall in Hall.
  destruct (Hall e He) as [Hp Hv Hl]. rewrite upayload_lookup in Hp.
  apply fmap_Some in Hp as (x & Hx & [= Hx1 Hx2]). eauto.
Qed.
End owner.

Lemma wp_conhash_lookup conhash top h s R object :
  conhash_holds conhash top h s R → Z.of_nat (size R) < 2 ^ 32 →
  wp (conhash_lookup conhash (Some object)) s (λ n s', s' = s ∧
    (R = ∅ ∧ n = 0 ∨ R ≠ ∅ ∧ owner R (h object) n)).
Proof.
  intros [E Hrep] Hsz. pose proof (rr_null _ _ _ _ _ _ Hrep) as Hch. unfold conhash_lookup.
  destruct (Z.eqb_spec conhash 0) as [|_]; [done|]. apply wp_bind.
  eapply wp_get_ivnodes; [apply Hrep|]. simpl. unfold uint. rewrite wrap_small by lia.
  destruct (Z.eqb_spec (Z.of_nat (size R)) 0) as [H0|H0].
  { apply wp_ret. split; [done|]. left. split; [apply map_size_empty_inv; lia|done]. }
  assert (R ≠ ∅) as HR by (intros ->; by rewrite map_size_empty in H0).
  apply wp_bind. eapply wp_call_hash; [exact Hrep|]. set (k := h object).
  apply wp_bind, wp_tree_op. eapply wp_mono.
  { apply (wp_uholds_lookup conhash top _ _ k Hch (rr_tree _ _ _ _ _ _ Hrep)). }
  intros a t (-> & Hcases). rewrite with_tree_id.
  apply (rr_owner _ _ _ _ _ _ Hrep) in Hcases as (e & He & -> & Hown).
  2: { intros ->. pose proof (rr_size _ _ _ _ _ _ Hrep) as Hs0. simpl in Hs0. lia. }
  destruct (rr_nonnull _ _ _ _ _ _ Hrep e He) as [He0 _].
  destruct (rr_entry _ _ _ _ _ _ Hrep e He) as (x & Hx & _ & Hd & Hv).
  destruct (Z.eqb_spec (e_rb e) 0) as [|_]; [done|]. simpl.
  apply wp_bind, wp_tree_op. eapply wp_fget; [exact Hx|]. rewrite Hd, with_tree_id.
  apply wp_bind. eapply wp_load_vnode; [exact Hv|]. apply wp_ret. split; [done|]. by right.
Qed.

(** ** The keys in order *)

Lemma rr_sorted conhash top h s E R :
  ring_rep conhash top h s E R → StronglySorted Z.lt (e_key <$> E).
Proof.
  intros Hrep. pose proof (rr_tree _ _ _ _ _ _ Hrep) as (T & sp & _ & _ & _ & Hs).
  pose proof (rr_keys _ _ _ _ _ _ Hrep) as Hnd.
  assert (∀ e, e ∈ E → pkey (c_tree s) (e_rb e) = e_key e) as Hk by (intros; by eapply rr_key).
  clear Hrep. induction E as [|e E IH]; [constructor|]. simpl in *.
  apply StronglySorted_inv in Hs as [Hs Hle]. apply NoDup_cons in Hnd as [Hnin Hnd].
  constructor; [apply IH; [done|done|intros; apply Hk; by right]|].
  rewrite Forall_fmap, Forall_forall in Hle |- *. intros e' He'. specialize (Hle e' He'). simpl in *.
  rewrite !Hk in Hle by (clear -He'; set_solver).
  assert (e_key e ≠ e_key e'); [|lia]. intros E'. apply Hnin. rewrite E'. by apply list_elem_of_fmap_2.
Qed.

Section get_vnodes.
Context (size : nat) (v : list Z) (key : Z → Z) (Hv : (size ≤ length v)%nat).

(** The array when the nodes [seen] have been visited. *)
Definition filled (seen : list Z) : list Z * Z :=
  let ks := take size (key <$> seen) in (ks ++ drop (length ks) v, Z.of_nat (length ks)).

Lemma wp_get_vnodes s seen a :
  key a = pkey s a → is_Some (mem s !! a) →
  wp (__get_vnodes (Z.of_nat size) a (filled seen)) s (λ d s', s' = s ∧ d = filled (seen ++ [a])).
Proof.
  intros Hk Hlive. unfold __get_vnodes, filled. rewrite fmap_app. simpl.
  set (ks := key <$> seen). rewrite length_take.
  destruct (Z.ltb_spec (Z.of_nat (size `min` length ks)) (Z.of_nat size)) as [Hlt|Hge].
  - assert (length ks < size)%nat as Hlen by lia.
    apply wp_bind, wp_ukey; [done|]. apply wp_bind, wp_assert.
    { apply Z.ltb_lt. rewrite length_app, length_take, length_drop. lia. }
    apply wp_ret. split; [done|]. rewrite Nat2Z.id, <-Hk.
    rewrite (take_ge ks) by lia. rewrite (take_ge (ks ++ [key a])) by (rewrite length_app; simpl; lia).
    rewrite length_app. simpl. rewrite Nat.min_r by lia. f_equal; [|lia].
    rewrite insert_app_r_alt, Nat.sub_diag, <-(assoc_L (++)) by done. f_equal.
    rewrite Nat.add_1_r. destruct (lookup_lt_is_Some_2 v (length ks)) as [x Hx]; [lia|].
    by rewrite (drop_S v x) by done.
  - assert (size ≤ length ks)%nat as Hlen by lia. apply wp_ret. split; [done|].
    rewrite take_app_le by done. by rewrite length_take.
Qed.
End get_vnodes.

Lemma wp_conhash_get_vnodes conhash top h s E R v size :
  ring_rep conhash top h s E R → 0 < size ≤ Z.of_nat (length v) →
  wp (conhash_get_vnodes conhash (Some v) size) s (λ r s', s' = s ∧
    let ks := take (Z.to_nat size) (e_key <$> E) in r = Some (ks ++ drop (length ks) v)).
Proof.
  intros Hrep Hsz. pose proof (rr_null _ _ _ _ _ _ Hrep) as Hch. unfold conhash_get_vnodes.
  destruct (Z.eqb_spec conhash 0) as [|_]; [done|]. destruct (Z.leb_spec size 0) as [|_]; [lia|].
  simpl orb. cbn match. remember (Z.to_nat size) as n eqn:En.
  assert (size = Z.of_nat n) as -> by lia. clear En.
  pose proof (rr_tree _ _ _ _ _ _ Hrep) as Ht.
  set (l := e_rb <$> E) in *. set (key := pkey (c_tree s)).
  apply wp_bind, wp_tree_op. eapply wp_mono.
  { apply (wp_uholds_travel conhash top (c_tree s) l _
             (λ seen d t, t = c_tree s ∧ d = filled n v key seen) (v, 0) Hch Ht).
    - split; [done|]. unfold filled. simpl. by rewrite take_nil.
    - intros seen a post d t Hl _ [-> ->]. eapply wp_mono.
      + apply wp_get_vnodes; [lia|done|]. eapply uholds_live; [exact Ht|].
        rewrite Hl. clear. set_solver.
      + by intros d' t' [-> ->]. }
  intros d t [_ [-> ->]]. apply wp_ret. rewrite with_tree_id. split; [done|].
  unfold filled. simpl. assert (key <$> l = e_key <$> E) as ->; [|done].
  unfold l. rewrite <-list_fmap_compose. apply list_fmap_ext. intros i e He. simpl.
  eapply rr_key; [exact Hrep|]. by eapply list_elem_of_lookup_2.
Qed.

(** ** The life of an instance *)

Lemma uholds_root tp top s l :
  uholds tp top s l → (l = [] ∧ uroot s = NIL tp) ∨ (uroot s ∈ l ∧ uroot s ≠ NIL tp).
Proof.
  intros (T & sp & Hut & _ & <- & _). pose proof (it_root _ _ _ _ _ _ (ut_tree _ _ _ _ _ Hut)) as Hr.
  destruct T as [|c l a r]; [by left|right]. rewrite Hr. cbn [rootp].
  split; [simpl; clear; set_solver|]. by eapply (utree_okp_rootp _ _ _ _ [] c l a r).
Qed.

Section fini.
Context (conhash : Z) (h : list Z → Z) (s0 : conhash_state) (E0 : list entry).
Context (Hnil : NIL conhash ∉ e_rb <$> E0).

(** The instance while [E] is left of the virtual nodes [E0]. *)
Record fini_inv (E : list entry) (s : conhash_state) : Prop := {
  fi_rep : ∃ top R, ring_rep conhash top h (with_inst (counting conhash h (length E)) s) E R;
  fi_inst : c_inst s = c_inst s0;
  fi_node : c_node s = c_node s0;
  fi_sub : E ⊆ E0;
  fi_mem : ∀ b, b ∉ NIL conhash :: (e_rb <$> E0) → mem (c_tree s) !! b = mem (c_tree s0) !! b;
  fi_dead : ∀ b, b ∈ e_rb <$> E0 → b ∉ e_rb <$> E → mem (c_tree s) !! b = None;
  fi_vmem : ∀ d, d ∉ e_vn <$> E0 → c_vnode s !! d = c_vnode s0 !! d;
  fi_vdead : ∀ d, d ∈ e_vn <$> E0 → d ∉ e_vn <$> E → c_vnode s !! d = None;
}.

Lemma wp_fini_round E1 e E2 s :
  fini_inv (E1 ++ e :: E2) s →
  wp (tree_op (util_rbtree_delete conhash (e_rb e));; __conhash_del_rbnode (e_rb e)) s
     (λ _ s', fini_inv (E1 ++ E2) s').
Proof.
  intros [(top & R & Hrep) Hi Hn Hsub Hm Hd Hvm Hvd].
  pose proof (wp_del_vnode conhash h top _ E1 e E2 R (c_inst s) Hrep) as Hw.
  assert (∀ i, with_inst (c_inst s) (with_inst i s) = s) as Hid by (by destruct s).
  rewrite Hid in Hw. eapply wp_mono; [exact Hw|]. clear Hw.
  intros [] s' ((top' & Hrep' & _) & Hn' & Hi' & Hv' & Hgone & Hm'). simpl in Hn', Hv', Hgone, Hm'.
  assert (E1 ++ E2 ⊆ E1 ++ e :: E2) as Hss by (clear; set_solver).
  assert ((e_rb <$> E1 ++ e :: E2) ⊆ (e_rb <$> E0)) as Hrbs.
  { intros b (x & -> & Hx)%list_elem_of_fmap. apply list_elem_of_fmap_2. by apply Hsub. }
  split.
  - eauto.
  - congruence.
  - congruence.
  - by etrans.
  - intros b Hb. rewrite Hm'; [by apply Hm|]. clear -Hb Hrbs. set_solver.
  - intros b Hb Hnb. destruct (decide (b = e_rb e)) as [->|Hne]; [done|].
    assert (b ∉ e_rb <$> E1 ++ e :: E2) as Hnb'.
    { revert Hnb. rewrite !fmap_app, fmap_cons. clear -Hne. set_solver. }
    rewrite Hm'; [by apply Hd|]. rewrite not_elem_of_cons. split; [|done].
    intros ->. done.
  - intros d Hd0. rewrite Hv'. rewrite lookup_delete_ne; [by apply Hvm|]. intros <-. apply Hd0.
    apply list_elem_of_fmap_2, Hsub. clear. set_solver.
  - intros d Hd0 Hnd. rewrite Hv'. destruct (decide (d = e_vn e)) as [->|Hne]; [by rewrite lookup_delete_eq|].
    rewrite lookup_delete_ne by done. apply Hvd; [done|].
    revert Hnd. rewrite !fmap_app, fmap_cons. clear -Hne. set_solver.
Qed.

Lemma wp_fini_loop fuel s :
  fini_inv E0 s → (∃ c, c_inst s0 = Some (conhash, c)) → (length E0 < fuel)%nat →
  wp (loop fuel (λ _ : unit,
       load_inst conhash;;
       empty ← tree_op (util_rbtree_isempty conhash);
       if (empty : bool) then mret (inr ()) else
       rbnode ← tree_op get_uroot;
       tree_op (util_rbtree_delete conhash rbnode);;
       __conhash_del_rbnode rbnode;;
       mret (inl ())) ()) s (λ _ s', fini_inv [] s').
Proof.
  intros H0 [c Hc] Hfuel.
  eapply (wp_loop (λ n _ s', ∃ E, fini_inv E s' ∧ n = length E)); [|by exists E0|done].
  intros n [] s' (E & Hinv & ->).
  pose proof (fi_rep _ _ Hinv) as (top & R & Hrep).
  pose proof (rr_tree _ _ _ _ _ _ Hrep) as Ht. simpl in Ht.
  apply wp_bind. eapply wp_load_inst; [rewrite (fi_inst _ _ Hinv); exact Hc|].
  apply wp_bind, wp_tree_op, wp_bind, wp_get_uroot, wp_ret. rewrite with_tree_id.
  destruct (uholds_root _ _ _ _ Ht) as [[Hl Hr]|[Hin Hr]].
  - rewrite Hr, Z.eqb_refl. apply wp_ret. apply fmap_nil_inv in Hl. by subst E.
  - destruct (Z.eqb_spec (uroot (c_tree s')) (NIL conhash)) as [|_]; [done|].
    apply wp_bind, wp_tree_op, wp_get_uroot. rewrite with_tree_id.
    apply list_elem_of_fmap in Hin as (e & -> & He).
    apply list_elem_of_split in He as (E1 & E2 & ->).
    apply wp_bind. eapply wp_mono; [exact (wp_bind_inv _ _ _ _ (wp_fini_round E1 e E2 s' Hinv))|].
    intros u1 s1 H1. apply wp_bind. eapply wp_mono; [exact H1|]. intros u2 s2 Hinv2. apply wp_ret.
    exists (length (E1 ++ E2)). split; [rewrite !length_app; simpl; lia|]. by exists (E1 ++ E2).
Qed.
End fini.

Lemma wp_conhash_fini conhash top h s E R :
  ring_rep conhash top h s E R →
  wp (conhash_fini conhash) s (λ _ s', c_inst s' = None ∧ c_node s' = c_node s ∧
    (∀ b, b ∈ NIL conhash :: (e_rb <$> E) → mem (c_tree s') !! b = None) ∧
    (∀ b, b ∉ NIL conhash :: (e_rb <$> E) → mem (c_tree s') !! b = mem (c_tree s) !! b) ∧
    (∀ d, d ∈ e_vn <$> E → c_vnode s' !! d = None) ∧
    (∀ d, d ∉ e_vn <$> E → c_vnode s' !! d = c_vnode s !! d)).
Proof.
  intros Hrep. pose proof (rr_null _ _ _ _ _ _ Hrep) as Hch. unfold conhash_fini.
  destruct (Z.eqb_spec conhash 0) as [|_]; [done|]. simpl.
  assert (NIL conhash ∉ e_rb <$> E) as Hnil.
  { intros (e & He & Hin)%list_elem_of_fmap. destruct (rr_nonnull _ _ _ _ _ _ Hrep e Hin). congruence. }
  assert (fini_inv conhash h s E E s) as Hinv.
  { split; try done. exists top, R. rewrite with_inst_id; [done|].
    rewrite (rr_inst _ _ _ _ _ _ Hrep). unfold counting. by rewrite (rr_size _ _ _ _ _ _ Hrep). }
  apply wp_bind, wp_tree_op. unfold urounds. apply wp_bind, wp_get, wp_ret. rewrite with_tree_id.
  apply wp_bind. eapply wp_mono.
  { eapply (wp_fini_loop conhash h s E Hnil); [exact Hinv|..].
    - eexists. apply Hrep.
    - destruct (rr_tree _ _ _ _ _ _ Hrep) as (T & sp & Hut & _ & HT & _).
      pose proof (utree_size _ _ _ _ _ Hut) as Hs. rewrite HT, length_fmap in Hs. lia. }
  intros _ s' [_ Hi Hn _ Hm Hd Hvm Hvd]. unfold wp, free_conhash.
  rewrite Hi, (rr_inst _ _ _ _ _ _ Hrep), decide_True by done. simpl. split_and!; [done|done|..].
  - intros b [->|Hb]%elem_of_cons; [by rewrite lookup_delete_eq|].
    rewrite lookup_delete_ne by (intros <-; done). apply Hd; [done|apply not_elem_of_nil].
  - intros b Hb. rewrite lookup_delete_ne; [by apply Hm|]. intros <-. apply Hb. apply list_elem_of_here.
  - intros d Hd0. apply Hvd; [done|apply not_elem_of_nil].
  - done.
Qed.

Definition hash_of (junk_md5 : md5_state) (pfhash : option (list Z → Z)) : list Z → Z :=
  match pfhash with Some h => h | None => __conhash_hash_def junk_md5 end.

Lemma wp_conhash_init alloc junk_md5 pfhash s :
  alloc_fresh alloc → c_inst s = None →
  wp (conhash_init alloc junk_md5 pfhash) s (λ a s', c_node s' = c_node s ∧
    (a = 0 ∧ s' = s ∧ alloc s = 0 ∨
     conhash_holds a (NIL a) (hash_of junk_md5 pfhash) s' ∅)).
Proof.
  intros Ha Hi. unfold conhash_init. apply wp_bind. unfold wp at 1, calloc_conhash.
  destruct (decide (alloc s = 0)) as [H0|H0].
  { rewrite Z.eqb_refl. apply wp_ret. split; [done|by left]. }
  destruct (Z.eqb_spec (alloc s) 0) as [|_]; [done|].
  apply wp_bind. eapply wp_load_inst; [done|]. apply wp_bind. eapply wp_store_inst; [done|].
  apply wp_bind, wp_tree_op. unfold util_rbtree_init. destruct (Z.eqb_spec (alloc s) 0) as [|_]; [done|].
  apply wp_bind. eapply wp_fset; [simpl; by rewrite lookup_insert_eq|].
  apply wp_bind, wp_set_uroot. intros t1 Hs1 Hr1 Hf1. apply wp_bind, wp_get_env, wp_put_env.
  apply wp_ret. split; [done|]. right. exists [].
  split; [done| | |constructor|constructor|constructor|done].
  - done.
  - exists Leaf, 0. split_and!; [|by exists 0%nat; constructor|done|constructor]. split.
    + split; [exact Hr1|done|constructor|constructor].
    + eexists. change (ushape (with_tree _ _).(c_tree)) with (ushape t1). rewrite Hs1. unfold ushape.
      rewrite lookup_fmap. simpl. rewrite lookup_insert_eq. split; [done|]. by split.
Qed.

(** ** The hash of a string *)

(** The registers of MD5 at the end of a message. *)
Definition rfc_final (m : list Z) : regs := rfc_blocks (length (rfc_pad m) / 64) rfc_init (rfc_pad m).

Lemma lor_shiftl_add x y n : 0 ≤ n → 0 ≤ y < 2 ^ n → Z.lor (Z.shiftl x n) y = x * 2 ^ n + y.
Proof.
  intros Hn Hy. rewrite <-Z.shiftl_mul_pow2 by done.
  assert (Z.land (Z.shiftl x n) y = 0) as Hl.
  { apply Z.bits_inj'. intros i Hi. rewrite Z.bits_0, Z.land_spec. destruct (Z.ltb_spec i n).
    - by rewrite Z.shiftl_spec_low.
    - apply andb_false_iff. right. rewrite <-(Z.mod_small y (2 ^ n)) by done.
      by apply Z.mod_pow2_bits_high. }
  rewrite (Z.add_nocarry_lxor _ _ Hl). symmetry. by apply Z.lxor_lor.
Qed.

Lemma lor_bytes b3 b2 b1 b0 :
  0 ≤ b2 < 256 → 0 ≤ b1 < 256 → 0 ≤ b0 < 256 →
  Z.lor (Z.lor (Z.lor (Z.shiftl b3 24) (Z.shiftl b2 16)) (Z.shiftl b1 8)) b0 =
  b3 * 2 ^ 24 + b2 * 2 ^ 16 + b1 * 2 ^ 8 + b0.
Proof.
  intros H2 H1 H0.
  rewrite <-!Z.lor_assoc, (lor_shiftl_add b1 b0) by lia.
  rewrite (lor_shiftl_add b2), (lor_shiftl_add b3) by lia. lia.
Qed.

Lemma word_of_bytes x :
  (x / 256 ^ 3 mod 256) * 2 ^ 24 + (x / 256 ^ 2 mod 256) * 2 ^ 16 + (x / 256 ^ 1 mod 256) * 2 ^ 8
    + x / 256 ^ 0 mod 256 = x mod 2 ^ 32.
Proof.
  change (2 ^ 32) with (256 * (256 * (256 * 256))). rewrite !Z.rem_mul_r by lia.
  change (256 ^ 0) with 1. change (256 ^ 1) with 256. change (256 ^ 2) with (256 * 256).
  change (256 ^ 3) with (256 * 256 * 256). rewrite <-!Z.div_div, Z.div_1_r by lia. lia.
Qed.

Lemma digest_word_le d1 x d2 i :
  length d1 = (i * 4)%nat → digest_word (d1 ++ le_bytes 4 x ++ d2) i = x mod 2 ^ 32.
Proof.
  intros Hl. unfold digest_word.
  assert (∀ j r, nth (i * 4 + j) (d1 ++ r) 0 = nth j r 0) as Hnth.
  { intros j r. rewrite app_nth2 by lia. f_equal. lia. }
  rewrite !Hnth.
  unfold le_bytes. cbn [seq fmap list_fmap app nth].
  assert (∀ y, Z.land (y mod 256) 0xFF = y mod 256) as Hland.
  { intros y. change 0xFF with (Z.ones 8). rewrite Z.land_ones by lia. change (2 ^ 8) with 256.
    by rewrite Z.mod_mod by lia. }
  rewrite !Hland, lor_bytes by (apply Z.mod_pos_bound; lia). apply word_of_bytes.
Qed.

Lemma digest_words a b c d :
  let D := le_bytes 4 a ++ le_bytes 4 b ++ le_bytes 4 c ++ le_bytes 4 d in
  digest_word D 0 = a mod 2 ^ 32 ∧ digest_word D 1 = b mod 2 ^ 32 ∧
  digest_word D 2 = c mod 2 ^ 32 ∧ digest_word D 3 = d mod 2 ^ 32.
Proof.
  cbv zeta. split_and!.
  - by apply (digest_word_le []).
  - by apply (digest_word_le (le_bytes 4 a)).
  - rewrite (assoc_L (++)). by apply digest_word_le.
  - rewrite !(assoc_L (++)), <-(app_nil_r (_ ++ le_bytes 4 d)), <-(assoc_L (++)). by apply digest_word_le.
Qed.

Lemma hash_def_sum junk m :
  length (buf junk) = 64%nat → Z.of_nat (length m) < 2 ^ 28 →
  __conhash_hash_def junk m =
    let v := rfc_final m in
    ra v mod 2 ^ 32 + rb v mod 2 ^ 32 + rc v mod 2 ^ 32 + rd v mod 2 ^ 32.
Proof.
  intros Hb Hm. unfold __conhash_hash_def. rewrite conhash_md5_digest_rfc by done.
  unfold rfc_md5. fold (rfc_final m). cbv zeta. set (v := rfc_final m).
  destruct (digest_words (ra v) (rb v) (rc v) (rd v)) as (H0 & H1 & H2 & H3).
  cbn [seq foldl]. rewrite H0, H1, H2, H3. lia.
Qed.

(** ** The contract *)

(** the default hash of a string is the sum of the four words of its MD5
    digest, a number that fits in a [long] of 64 bits whatever the digest. *)
Theorem conhash_hash_def_spec junk m :
  length (buf junk) = 64%nat → Z.of_nat (length m) < 2 ^ 28 →
  (__conhash_hash_def junk m =
    let v := rfc_final m in
    ra v mod 2 ^ 32 + rb v mod 2 ^ 32 + rc v mod 2 ^ 32 + rd v mod 2 ^ 32) ∧
  0 ≤ __conhash_hash_def junk m < 2 ^ 34.
Proof.
  intros Hb Hm. rewrite hash_def_sum by done. cbv zeta. split; [done|].
  assert (∀ x, 0 ≤ x mod 2 ^ 32 < 2 ^ 32) as H by (intros; by apply Z.mod_pos_bound).
  pose proof (H (ra (rfc_final m))). pose proof (H (rb (rfc_final m))).
  pose proof (H (rc (rfc_final m))). pose proof (H (rd (rfc_final m))). lia.
Qed.

(** C4: [conhash_add_node] refuses a node that is not initialised or already in,
    and changes nothing; otherwise every replica claims the place of its hash
    value when that is free, and all of them do as long as there is memory. *)
Theorem conhash_add_node_spec alloc junk_rb junk_vn conhash h s R node nd name :
  alloc_fresh alloc → conhash_holds conhash (NIL conhash) h s R → node ≠ 0 →
  c_node s !! node = Some nd → cstr (iden nd) = Some name → 0 ≤ replicas nd < 2 ^ 32 →
  (¬ addable nd → wp (conhash_add_node alloc junk_rb junk_vn conhash node) s (λ r s', r = -1 ∧ s' = s)) ∧
  (addable nd → wp (conhash_add_node alloc junk_rb junk_vn conhash node) s (λ r s', r = 0 ∧
    c_node s' = <[node := flag_in nd]> (c_node s) ∧
    ∃ R', conhash_holds conhash (NIL conhash) h s' R' ∧
          claimed alloc node (replica_keys h name (replicas nd)) R R')).
Proof.
  intros Ha Hh Hn0 Hn Hc Hr. split; [|intros; by apply wp_conhash_add].
  intros Hno. assert (conhash ≠ 0) as Hch by (by destruct Hh as [E []]). unfold conhash_add_node.
  destruct (Z.eqb_spec conhash 0) as [|_]; [done|]. destruct (Z.eqb_spec node 0) as [|_]; [done|].
  simpl orb. cbn match. apply wp_bind. eapply wp_load_node; [done|].
  unfold addable in Hno. destruct (Z.eqb_spec (Z.land (flag nd) NODE_FLAG_INIT) 0), (Z.eqb_spec (Z.land (flag nd) NODE_FLAG_IN) 0);
    simpl; (by apply wp_ret) || tauto.
Qed.

(** C20: [conhash_del_node] refuses a node that is not in; otherwise the node gives
    back the places its replicas hold, and only those. *)
Theorem conhash_del_node_spec conhash h s R node nd name :
  conhash ≠ 0 → ring_held conhash h s R → node ≠ 0 →
  c_node s !! node = Some nd → cstr (iden nd) = Some name → 0 ≤ replicas nd < 2 ^ 32 →
  (¬ removable nd → wp (conhash_del_node conhash node) s (λ r s', r = -1 ∧ s' = s)) ∧
  (removable nd → wp (conhash_del_node conhash node) s (λ r s', r = 0 ∧
    c_node s' = <[node := flag_out nd]> (c_node s) ∧
    ring_held conhash h s' (releases node (replica_keys h name (replicas nd)) R))).
Proof.
  intros Hch Hh Hn0 Hn Hc Hr. split; [|intros; by apply wp_conhash_del].
  intros Hno. unfold conhash_del_node.
  destruct (Z.eqb_spec conhash 0) as [|_]; [done|]. destruct (Z.eqb_spec node 0) as [|_]; [done|].
  simpl orb. cbn match. apply wp_bind. eapply wp_load_node; [done|].
  unfold removable in Hno. destruct (Z.eqb_spec (Z.land (flag nd) NODE_FLAG_INIT) 0), (Z.eqb_spec (Z.land (flag nd) NODE_FLAG_IN) 0);
    simpl; (by apply wp_ret) || tauto.
Qed.

(** C3: [conhash_lookup] returns the node of the first virtual node at or after the
    object's hash value, round the ring, and the null pointer only when the
    ring is empty. *)
Theorem conhash_lookup_spec conhash top h s R object :
  conhash_holds conhash top h s R → Z.of_nat (size R) < 2 ^ 32 →
  wp (conhash_lookup conhash (Some object)) s (λ n s', s' = s ∧
    (R = ∅ ∧ n = 0 ∨ R ≠ ∅ ∧ owner R (h object) n)).
Proof. apply wp_conhash_lookup. Qed.

(** C21: consistency: when a node joins, an object that moves moves to that node. *)
Theorem conhash_add_consistent alloc junk_rb junk_vn conhash h s R node nd name object :
  alloc_fresh alloc → conhash_holds conhash (NIL conhash) h s R → node ≠ 0 →
  c_node s !! node = Some nd → addable nd → cstr (iden nd) = Some name → 0 ≤ replicas nd →
  Z.of_nat (size R) + replicas nd < 2 ^ 32 → R ≠ ∅ →
  wp (conhash_add_node alloc junk_rb junk_vn conhash node;; conhash_lookup conhash (Some object)) s
    (λ n _, n = node ∨ owner R (h object) n).
Proof.
  intros Ha Hh Hn0 Hn Hadd Hc Hr Hsz HR. apply wp_bind.
  eapply wp_mono; [apply wp_conhash_add; [done..|lia]|].
  intros r s' (_ & _ & R' & Hh' & H1 & H2 & _).
  assert (size R' ≤ size R + Z.to_nat (replicas nd))%nat as Hsz'.
  { etrans; [by apply map_subseteq_size, H2|]. etrans; [apply claims_size|].
    unfold replica_keys. by rewrite length_fmap, length_seqZ. }
  eapply wp_mono; [eapply wp_conhash_lookup; [exact Hh'|lia]|].
  intros n _ [_ [[HR' _]|[_ Hown]]].
  - exfalso. apply HR, map_empty. intros k. rewrite HR' in H1.
    destruct (R !! k) eqn:E; [|done]. by apply (lookup_weaken _ _ _ _ E) in H1.
  - assert (R' = claims node (filter (λ k, is_Some (R' !! k)) (replica_keys h name (replicas nd))) R) as HR'.
    { apply map_eq. intros k. rewrite claims_lookup. destruct (R !! k) as [m|] eqn:E.
      - by apply (lookup_weaken _ _ _ _ E).
      - destruct (R' !! k) as [m|] eqn:E'.
        + pose proof (lookup_weaken _ _ _ _ E' H2) as Hm. rewrite claims_lookup, E in Hm.
          case_decide as Hk; [|done]. rewrite decide_True; [congruence|].
          rewrite list_elem_of_filter. split; [by eexists|done].
        + rewrite decide_False; [done|]. rewrite list_elem_of_filter, E'. by intros [[? ?] _]. }
    rewrite HR' in Hown. by apply owner_claims in Hown.
Qed.

(** consistency: when a node leaves, an object of another node stays where it
    was. *)
Theorem conhash_del_consistent conhash h s R node nd name object n :
  conhash ≠ 0 → ring_held conhash h s R → node ≠ 0 →
  c_node s !! node = Some nd → removable nd → cstr (iden nd) = Some name → 0 ≤ replicas nd < 2 ^ 32 →
  Z.of_nat (size R) < 2 ^ 32 → owner R (h object) n → n ≠ node →
  wp (conhash_del_node conhash node;; conhash_lookup conhash (Some object)) s (λ m _, m = n).
Proof.
  intros Hch Hh Hn0 Hn Hrm Hc Hr Hsz Hown Hne. apply wp_bind.
  eapply wp_mono; [by eapply wp_conhash_del|]. intros r s' (_ & _ & top & Hh' & _).
  set (ks := replica_keys _ _ _) in *.
  pose proof (map_subseteq_size _ _ (releases_subseteq node ks R)) as Hsz'.
  apply (owner_releases node ks) in Hown; [|done].
  eapply wp_mono; [eapply wp_conhash_lookup; [exact Hh'|lia]|].
  intros m _ [_ [[HR _]|[_ Hm]]].
  - rewrite HR in Hown. by destruct Hown as [(k & Hk & _)|(_ & k & Hk & _)].
  - by eapply owner_functional.
Qed.

(** C22: a node that joins and leaves again restores the ring, even when memory ran
    out for some of its replicas. *)
Theorem conhash_add_del_roundtrip alloc junk_rb junk_vn conhash h s R node nd name :
  alloc_fresh alloc → conhash_holds conhash (NIL conhash) h s R → node ≠ 0 →
  c_node s !! node = Some nd → addable nd → cstr (iden nd) = Some name → 0 ≤ replicas nd < 2 ^ 32 →
  (∀ k, R !! k ≠ Some node) →
  wp (conhash_add_node alloc junk_rb junk_vn conhash node;; conhash_del_node conhash node) s (λ r s',
    r = 0 ∧ ring_held conhash h s' R).
Proof.
  intros Ha Hh Hn0 Hn Hadd Hc Hr HR. apply wp_bind.
  assert (conhash ≠ 0) as Hch by (by destruct Hh as [E []]).
  eapply wp_mono; [by apply wp_conhash_add|]. intros r s' (_ & Hns & R' & Hh' & H1 & H2 & _).
  assert (removable (flag_in nd)) as Hrm.
  { destruct Hadd as [Hf _]. unfold removable, flag_in, NODE_FLAG_IN, NODE_FLAG_INIT in *. simpl.
    rewrite !Z.land_lor_distr_l. split.
    - rewrite Z.lor_0_r. exact Hf.
    - intros E. apply Z.lor_eq_0_iff in E as [_ E]. done. }
  eapply wp_mono.
  { eapply (wp_conhash_del conhash h s' R' node (flag_in nd) name Hch); [by exists (NIL conhash)|done| |done..].
    rewrite Hns. by rewrite lookup_insert_eq. }
  intros r' s'' (-> & _ & Hh''). split; [done|].
  rewrite (releases_claimed node (replica_keys h name (replicas (flag_in nd))) R R') in Hh''; done.
Qed.

(** [conhash_get_vnodes] stores the keys of the ring in ascending order, as
    many as there are and the array takes, and leaves the rest of it alone. *)
Theorem conhash_get_vnodes_spec conhash top h s R v n :
  conhash_holds conhash top h s R → 0 < n ≤ Z.of_nat (length v) →
  ∃ keys, StronglySorted Z.lt keys ∧ (∀ k, k ∈ keys ↔ is_Some (R !! k)) ∧
    wp (conhash_get_vnodes conhash (Some v) n) s (λ r s', s' = s ∧
      let ks := take (Z.to_nat n) keys in r = Some (ks ++ drop (length ks) v)).
Proof.
  intros [E Hrep] Hn. exists (e_key <$> E). split_and!; [by eapply rr_sorted| |by eapply wp_conhash_get_vnodes].
  intros k. rewrite list_elem_of_fmap. split.
  - intros (e & -> & He). exists (e_node e). apply (rr_lookup _ _ _ _ _ _ _ _ Hrep). eauto.
  - intros [m Hm]. apply (rr_lookup _ _ _ _ _ _ _ _ Hrep) in Hm as (e & He & <- & _). eauto.
Qed.

(** [conhash_fini] terminates without a double free and frees the instance,
    every tree node and every virtual node of the ring, and nothing else. *)
Theorem conhash_fini_spec conhash top h s E R :
  ring_rep conhash top h s E R →
  wp (conhash_fini conhash) s (λ _ s', c_inst s' = None ∧ c_node s' = c_node s ∧
    (∀ b, b ∈ NIL conhash :: (e_rb <$> E) → mem (c_tree s') !! b = None) ∧
    (∀ b, b ∉ NIL conhash :: (e_rb <$> E) → mem (c_tree s') !! b = mem (c_tree s) !! b) ∧
    (∀ d, d ∈ e_vn <$> E → c_vnode s' !! d = None) ∧
    (∀ d, d ∉ e_vn <$> E → c_vnode s' !! d = c_vnode s !! d)).
Proof. apply wp_conhash_fini. Qed.

(** ** The contract on a concrete ring *)

(** An allocator that never gives an address twice and never fails. *)
Definition ring_bump (s : conhash_state) : Z :=
  16 * (1 + foldr Z.max 0 (elements (dom (mem (c_tree s)) ∪ dom (c_vnode s) ∪ dom (c_node s)))).

Lemma ring_bump_fresh : alloc_fresh ring_bump.
Proof.
  intros s. right. unfold ring_bump.
  set (D := dom (mem (c_tree s)) ∪ dom (c_vnode s) ∪ dom (c_node s)).
  assert (∀ x, 16 * (1 + foldr Z.max 0 (elements D)) ≤ x → x ∉ D) as H.
  { intros x Hx Hin. apply elem_of_elements in Hin. pose proof (max_fold_le _ _ Hin).
    assert (∀ l, 0 ≤ foldr Z.max 0 l) as Hp by (induction l; simpl; lia). specialize (Hp (elements D)). lia. }
  set (a := 16 * _) in *. assert ((a ∉ D) ∧ (NIL a ∉ D)) as [Ha Hn] by (unfold NIL; split; apply H; lia).
  unfold D in Ha, Hn. rewrite !not_elem_of_union, !not_elem_of_dom in Ha, Hn. tauto.
Qed.

(** The sum of the bytes; three virtual nodes of the node at 5000. *)
Definition sum_hash (m : list Z) : Z := foldr Z.add 0 m.

Definition node_in : node_s := Node_s (66 :: replicate 63 0) 3 3.
Definition node_new : node_s := Node_s (65 :: replicate 63 0) 2 1.
Definition cdemo_nodes : gmap Z node_s := {[ 5000 := node_in; 6000 := node_new ]}.
Definition cdemo : conhash_state :=
  CState (St {[ 16 := UNode 0 0 0 0 1 0; 100 := UNode 20 16 300 200 1 1100;
                200 := UNode 10 100 16 16 0 1200; 300 := UNode 30 100 16 16 0 1300 ]} (UTree 100 3))
         {[ 1100 := VNode 20 5000; 1200 := VNode 10 5000; 1300 := VNode 30 5000 ]}
         cdemo_nodes (Some (8, Conhash 3 (Some sum_hash))).
Definition cdemo_entries : list entry :=
  [Entry 200 1200 10 5000; Entry 100 1100 20 5000; Entry 300 1300 30 5000].
Definition cdemo_ring : ring := {[ 10 := 5000; 20 := 5000; 30 := 5000 ]}.

Lemma cdemo_rep : ring_rep 8 (NIL 8) sum_hash cdemo cdemo_entries cdemo_ring.
Proof.
  split.
  - done.
  - by vm_compute.
  - exists udemo_tree, 0. split_and!.
    + split; [split|].
      * done.
      * by repeat split.
      * apply (bool_decide_unpack _). by vm_compute.
      * by repeat constructor.
      * by eexists.
    + exists 1%nat. apply udemo_rb.
    + done.
    + repeat constructor; by vm_compute.
  - repeat constructor; done.
  - apply (bool_decide_unpack _). by vm_compute.
  - apply (bool_decide_unpack _). by vm_compute.
  - by vm_compute.
Qed.

Lemma cdemo_holds : conhash_holds 8 (NIL 8) sum_hash cdemo cdemo_ring.
Proof. exists cdemo_entries. apply cdemo_rep. Qed.

Definition junk_unode : util_rbtree_node := UNode 7 7 7 7 7 7.

Lemma conhash_hash_def_spec_witness :
  __conhash_hash_def demo_md5 [97; 98; 99] = 0x98500190 + 0xb04fd23c + 0x7d3f96d6 + 0x727fe128.
Proof.
  destruct (conhash_hash_def_spec demo_md5 [97; 98; 99]) as [H _]; [done|done|]. rewrite H. by vm_compute.
Defined.

Lemma conhash_add_node_spec_witness :
  wp (conhash_add_node ring_bump junk_unode (VNode 7 7) 8 6000) cdemo (λ r s', r = 0 ∧
    c_node s' = <[6000 := flag_in node_new]> (c_node cdemo) ∧
    ∃ R', conhash_holds 8 (NIL 8) sum_hash s' R' ∧
          claimed ring_bump 6000 (replica_keys sum_hash [65] 2) cdemo_ring R').
Proof.
  destruct (conhash_add_node_spec ring_bump junk_unode (VNode 7 7) 8 sum_hash cdemo cdemo_ring 6000
    node_new [65]) as [_ H];
    [apply ring_bump_fresh|apply cdemo_holds|done|done|done|done|]. apply H. by split.
Defined.

Lemma conhash_del_node_spec_witness :
  wp (conhash_del_node 8 5000) cdemo (λ r s', r = 0 ∧
    c_node s' = <[5000 := flag_out node_in]> (c_node cdemo) ∧
    ring_held 8 sum_hash s' (releases 5000 (replica_keys sum_hash [66] 3) cdemo_ring)).
Proof.
  destruct (conhash_del_node_spec 8 sum_hash cdemo cdemo_ring 5000 node_in [66])
    as [_ H]; [done|exists (NIL 8); split; [apply cdemo_holds|done]|done|done|done|done|]. apply H. by split.
Defined.

Lemma conhash_lookup_spec_witness :
  wp (conhash_lookup 8 (Some [25])) cdemo (λ n s', s' = cdemo ∧
    (cdemo_ring = ∅ ∧ n = 0 ∨ cdemo_ring ≠ ∅ ∧ owner cdemo_ring 25 n)).
Proof. apply (conhash_lookup_spec 8 (NIL 8) sum_hash cdemo cdemo_ring [25]); [apply cdemo_holds|done]. Defined.

Lemma conhash_add_consistent_witness :
  wp (conhash_add_node ring_bump junk_unode (VNode 7 7) 8 6000;; conhash_lookup 8 (Some [25])) cdemo
    (λ n _, n = 6000 ∨ owner cdemo_ring 25 n).
Proof.
  apply (conhash_add_consistent ring_bump junk_unode (VNode 7 7) 8 sum_hash cdemo cdemo_ring 6000
    node_new [65] [25]);
    [apply ring_bump_fresh|apply cdemo_holds|done..].
Defined.

(** The place 10 is the one of the node at 6000. *)
Definition cdemo_other : conhash_state :=
  CState (c_tree cdemo) (<[1200 := VNode 10 6000]> (c_vnode cdemo)) (c_node cdemo) (c_inst cdemo).
Definition cdemo_other_ring : ring := {[ 10 := 6000; 20 := 5000; 30 := 5000 ]}.

Lemma cdemo_other_holds : conhash_holds 8 (NIL 8) sum_hash cdemo_other cdemo_other_ring.
Proof.
  exists [Entry 200 1200 10 6000; Entry 100 1100 20 5000; Entry 300 1300 30 5000].
  destruct cdemo_rep as [H1 H2 H3 H4 H5 H6 H7]. split; [done|done|done| |done|done|by vm_compute].
  repeat constructor; done.
Qed.

Lemma conhash_del_consistent_witness :
  wp (conhash_del_node 8 5000;; conhash_lookup 8 (Some [5])) cdemo_other (λ m _, m = 6000).
Proof.
  apply (conhash_del_consistent 8 sum_hash cdemo_other cdemo_other_ring 5000
    node_in [66] [5] 6000); try done.
  - exists (NIL 8). split; [apply cdemo_other_holds|done].
  - left. exists 10. split_and!; [done|by vm_compute|]. intros k Hk.
    unfold cdemo_other_ring. rewrite !lookup_insert_ne by (unfold sum_hash in Hk; simpl in Hk; lia).
    apply lookup_singleton_ne. unfold sum_hash in Hk; simpl in Hk; lia.
Defined.

Lemma conhash_add_del_roundtrip_witness :
  wp (conhash_add_node ring_bump junk_unode (VNode 7 7) 8 6000;; conhash_del_node 8 6000) cdemo (λ r s',
    r = 0 ∧ ring_held 8 sum_hash s' cdemo_ring).
Proof.
  apply (conhash_add_del_roundtrip ring_bump junk_unode (VNode 7 7) 8 sum_hash cdemo cdemo_ring 6000
    node_new [65]); [apply ring_bump_fresh|apply cdemo_holds|done..|].
  intros k Hk. apply elem_of_map_to_list in Hk. vm_compute in Hk.
  repeat (apply elem_of_cons in Hk as [[=]|Hk]). by apply elem_of_nil in Hk.
Defined.

Lemma conhash_get_vnodes_spec_witness :
  ∃ keys, StronglySorted Z.lt keys ∧ (∀ k, k ∈ keys ↔ is_Some (cdemo_ring !! k)) ∧
    wp (conhash_get_vnodes 8 (Some [1; 2; 3; 4]) 4) cdemo (λ r s', s' = cdemo ∧
      let ks := take 4 keys in r = Some (ks ++ drop (length ks) [1; 2; 3; 4])).
Proof. apply (conhash_get_vnodes_spec 8 (NIL 8) sum_hash cdemo cdemo_ring); [apply cdemo_holds|done]. Defined.

Lemma conhash_fini_spec_witness :
  wp (conhash_fini 8) cdemo (λ _ s', c_inst s' = None ∧ c_node s' = c_node cdemo ∧
    (∀ b, b ∈ [16; 200; 100; 300] → mem (c_tree s') !! b = None) ∧
    (∀ b, b ∉ [16; 200; 100; 300] → mem (c_tree s') !! b = mem (c_tree cdemo) !! b) ∧
    (∀ d, d ∈ [1200; 1100; 1300] → c_vnode s' !! d = None) ∧
    (∀ d, d ∉ [1200; 1100; 1300] → c_vnode s' !! d = c_vnode cdemo !! d)).
Proof. apply (conhash_fini_spec 8 (NIL 8) sum_hash cdemo cdemo_entries cdemo_ring cdemo_rep). Defined.

(** Joining and leaving while a single virtual node is left, through the interface
    alone: the next insertions read a virtual node that has been freed. *)
Definition two_nodes : conhash_state :=
  CState (St ∅ (UTree 0 0)) ∅
    {[ 5000 := Node_s (49 :: replicate 63 0) 1 1; 6000 := Node_s (50 :: replicate 63 0) 1 1;
       7000 := Node_s (51 :: replicate 63 0) 3 1 ]} None.

Example conhash_use_after_free :
  (c ← conhash_init ring_bump demo_md5 (Some sum_hash);
   conhash_add_node ring_bump junk_unode (VNode 7 7) c 5000;;
   conhash_add_node ring_bump junk_unode (VNode 7 7) c 6000;;
   conhash_del_node c 5000;;
   conhash_add_node ring_bump junk_unode (VNode 7 7) c 7000) two_nodes = UB.
Proof. by vm_compute. Qed.
