(* ===== verification/Context.v ===== *)
(** * mult_process_server: the pool of contexts

    [common.h] and [context.c]: the connections of a worker live in an array
    whose free entries are chained by their [next_idx].  A context is known by
    its index in the array; the fields that [malloc] leaves uninitialised hold
    what the parameter [junk] of [init_pool] gives. *)
From S2P Require Import Prelude.

(** ** Data *)

Definition MAX_CONNS_PER_WORKER : Z := 8192.
Definition MAX_BUFSIZE : Z := 2048.
Definition EVENTS_PER_BATCH : Z := 64.
Definition ACCEPT_PER_LISTEN_EVENT : Z := 1.
Definition MAX_LISTEN_ADDRESS : Z := 32.
Definition MAX_PROXY_ADDRESS : Z := 32.
Definition PROXY_BACKEND_EVENT : Z := 1.

Record worker_data := Worker_data {
  process : Z; trancnt : Z; trancnt_prev : Z; w_cpu_id : Z;
  polls_max : Z; polls_min : Z; polls_avg : Z; polls_cnt : Z; polls_sum : Z; polls_mpt : Z; polls_lst : Z;
  accept_cnt : Z; read_cnt : Z; write_cnt : Z;
}.

Record proxy_addr := Proxy_addr { param_port : Z; proxyip : Z }.
Record listen_addr := Listen_addr { l_param_port : Z; listenip : Z; listen_fd : Z }.

(** The functions that a context's [handler] may point to. *)
Inductive handler_t :=
  | process_accept_h | process_read_h | process_write_h
  | process_read_frontend_h | process_write_backend_h | process_read_backend_h | process_write_frontend_h
  | junk_h.
#[export] Instance handler_eq_dec : EqDecision handler_t.
Proof. solve_decision. Defined.

Record conn_context := Ctx {
  fd : Z; fd_added : Z; end_fd : Z; end_fd_added : Z; flags : Z; ep_fd : Z; cpu_id : Z;
  handler : handler_t; events : Z; data_len : Z; c_next_idx : Z; buf : list Z;
  pa_num : Z; pa : list proxy_addr; enable_proxy : Z;
}.

Definition set_fd (v : Z) (c : conn_context) : conn_context :=
  Ctx v (fd_added c) (end_fd c) (end_fd_added c) (flags c) (ep_fd c) (cpu_id c) (handler c) (events c) (data_len c) (c_next_idx c) (buf c) (pa_num c) (pa c) (enable_proxy c).
Definition set_fd_added (v : Z) (c : conn_context) : conn_context :=
  Ctx (fd c) v (end_fd c) (end_fd_added c) (flags c) (ep_fd c) (cpu_id c) (handler c) (events c) (data_len c) (c_next_idx c) (buf c) (pa_num c) (pa c) (enable_proxy c).
Definition set_end_fd (v : Z) (c : conn_context) : conn_context :=
  Ctx (fd c) (fd_added c) v (end_fd_added c) (flags c) (ep_fd c) (cpu_id c) (handler c) (events c) (data_len c) (c_next_idx c) (buf c) (pa_num c) (pa c) (enable_proxy c).
Definition set_end_fd_added (v : Z) (c : conn_context) : conn_context :=
  Ctx (fd c) (fd_added c) (end_fd c) v (flags c) (ep_fd c) (cpu_id c) (handler c) (events c) (data_len c) (c_next_idx c) (buf c) (pa_num c) (pa c) (enable_proxy c).
Definition set_flags (v : Z) (c : conn_context) : conn_context :=
  Ctx (fd c) (fd_added c) (end_fd c) (end_fd_added c) v (ep_fd c) (cpu_id c) (handler c) (events c) (data_len c) (c_next_idx c) (buf c) (pa_num c) (pa c) (enable_proxy c).
Definition set_ep_fd (v : Z) (c : conn_context) : conn_context :=
  Ctx (fd c) (fd_added c) (end_fd c) (end_fd_added c) (flags c) v (cpu_id c) (handler c) (events c) (data_len c) (c_next_idx c) (buf c) (pa_num c) (pa c) (enable_proxy c).
Definition set_cpu_id (v : Z) (c : conn_context) : conn_context :=
  Ctx (fd c) (fd_added c) (end_fd c) (end_fd_added c) (flags c) (ep_fd c) v (handler c) (events c) (data_len c) (c_next_idx c) (buf c) (pa_num c) (pa c) (enable_proxy c).
Definition set_handler (v : handler_t) (c : conn_context) : conn_context :=
  Ctx (fd c) (fd_added c) (end_fd c) (end_fd_added c) (flags c) (ep_fd c) (cpu_id c) v (events c) (data_len c) (c_next_idx c) (buf c) (pa_num c) (pa c) (enable_proxy c).
Definition set_events (v : Z) (c : conn_context) : conn_context :=
  Ctx (fd c) (fd_added c) (end_fd c) (end_fd_added c) (flags c) (ep_fd c) (cpu_id c) (handler c) v (data_len c) (c_next_idx c) (buf c) (pa_num c) (pa c) (enable_proxy c).
Definition set_data_len (v : Z) (c : conn_context) : conn_context :=
  Ctx (fd c) (fd_added c) (end_fd c) (end_fd_added c) (flags c) (ep_fd c) (cpu_id c) (handler c) (events c) v (c_next_idx c) (buf c) (pa_num c) (pa c) (enable_proxy c).
Definition set_next_idx (v : Z) (c : conn_context) : conn_context :=
  Ctx (fd c) (fd_added c) (end_fd c) (end_fd_added c) (flags c) (ep_fd c) (cpu_id c) (handler c) (events c) (data_len c) v (buf c) (pa_num c) (pa c) (enable_proxy c).
Definition set_buf (v : list Z) (c : conn_context) : conn_context :=
  Ctx (fd c) (fd_added c) (end_fd c) (end_fd_added c) (flags c) (ep_fd c) (cpu_id c) (handler c) (events c) (data_len c) (c_next_idx c) v (pa_num c) (pa c) (enable_proxy c).
Definition set_pa_num (v : Z) (c : conn_context) : conn_context :=
  Ctx (fd c) (fd_added c) (end_fd c) (end_fd_added c) (flags c) (ep_fd c) (cpu_id c) (handler c) (events c) (data_len c) (c_next_idx c) (buf c) v (pa c) (enable_proxy c).
Definition set_pa (v : list proxy_addr) (c : conn_context) : conn_context :=
  Ctx (fd c) (fd_added c) (end_fd c) (end_fd_added c) (flags c) (ep_fd c) (cpu_id c) (handler c) (events c) (data_len c) (c_next_idx c) (buf c) (pa_num c) v (enable_proxy c).
Definition set_enable_proxy (v : Z) (c : conn_context) : conn_context :=
  Ctx (fd c) (fd_added c) (end_fd c) (end_fd_added c) (flags c) (ep_fd c) (cpu_id c) (handler c) (events c) (data_len c) (c_next_idx c) (buf c) (pa_num c) (pa c) v.

Record context_pool := Pool { total : Z; allocated : Z; next_idx : Z; arr : list conn_context }.

(** ** The operations *)

Abbreviation PM := (M context_pool).

(** [pool->arr[i]]; an index out of the array is undefined behaviour. *)
Definition arr_get (p : context_pool) (i : Z) : option conn_context :=
  if decide (0 ≤ i) then arr p !! Z.to_nat i else None.
Definition arr_set (p : context_pool) (i : Z) (c : conn_context) : context_pool :=
  Pool (total p) (allocated p) (next_idx p) (<[Z.to_nat i := c]> (arr p)).

Definition ctx_load (i : Z) : PM conn_context := λ p,
  match arr_get p i with Some c => Ok (c, p) | None => UB end.
Definition ctx_update (i : Z) (f : conn_context → conn_context) : PM unit := λ p,
  match arr_get p i with Some c => Ok ((), arr_set p i (f c)) | None => UB end.

(** [malloc] gives [size] uninitialised contexts. *)
Definition init_pool (size : Z) (junk : list conn_context) : PM unit :=
  assert (size >? 0);;
  put (Pool size 0 0 junk);;
  loop (S (Z.to_nat size)) (λ i,
    if i <? size - 1 then ctx_update i (set_next_idx (i + 1));; mret (inl (i + 1)) else mret (inr ())) 0;;
  ctx_update (size - 1) (set_next_idx (-1)).

Definition alloc_context : PM Z :=
  p ← get;
  assert (allocated p <? total p);;
  put (Pool (total p) (allocated p + 1) (next_idx p) (arr p));;
  let ret := next_idx p in
  c ← ctx_load ret;
  modify (λ p, Pool (total p) (allocated p) (c_next_idx c) (arr p));;
  ctx_update ret (set_fd 0);;
  ctx_update ret (set_fd_added 0);;
  ctx_update ret (set_end_fd 0);;
  ctx_update ret (set_end_fd_added 0);;
  ctx_update ret (set_next_idx (-1));;
  mret ret.

Definition free_context (context : Z) : PM unit :=
  p ← get;
  assert (allocated p >? 0);;
  put (Pool (total p) (allocated p - 1) (next_idx p) (arr p));;
  ctx_update context (set_next_idx (next_idx p));;
  modify (λ p, Pool (total p) (allocated p) context (arr p)).

(** ** The free contexts *)

(** [F] is the chain of free contexts from [i] on. *)
Fixpoint chain (p : context_pool) (i : Z) (F : list Z) : Prop :=
  match F with
  | [] => i = -1
  | j :: F => i = j ∧ ∃ c, arr_get p j = Some c ∧ chain p (c_next_idx c) F
  end.

Record pool_rep (p : context_pool) (F : list Z) : Prop := {
  pr_chain : chain p (next_idx p) F;
  pr_nodup : NoDup F;
  pr_total : total p = Z.of_nat (length (arr p));
  pr_count : allocated p = total p - Z.of_nat (length F);
}.

Lemma arr_get_Some p i c :
  arr_get p i = Some c ↔ 0 ≤ i < Z.of_nat (length (arr p)) ∧ arr p !! Z.to_nat i = Some c.
Proof.
  unfold arr_get. case_decide as Hi.
  - split; [|by intros []]. intros H. split; [|done]. apply lookup_lt_Some in H. lia.
  - split; [done|]. intros [? _]. lia.
Qed.

Lemma arr_get_lt p i : 0 ≤ i < Z.of_nat (length (arr p)) → ∃ c, arr_get p i = Some c.
Proof.
  intros Hi. destruct (lookup_lt_is_Some_2 (arr p) (Z.to_nat i)) as [c Hc]; [lia|].
  exists c. by apply arr_get_Some.
Qed.

Lemma arr_get_set p i j c d :
  arr_get p i = Some d → arr_get (arr_set p i c) j = if decide (i = j) then Some c else arr_get p j.
Proof.
  intros [Hi Hd]%arr_get_Some. unfold arr_get, arr_set. simpl. repeat case_decide; subst; try done; try lia.
  - rewrite list_lookup_insert_eq by lia. done.
  - rewrite list_lookup_insert_ne by lia. done.
Qed.

Lemma chain_ext p q i F :
  (∀ j c, j ∈ F → arr_get p j = Some c → ∃ c', arr_get q j = Some c' ∧ c_next_idx c' = c_next_idx c) →
  chain p i F → chain q i F.
Proof.
  revert i. induction F as [|j F IH]; intros i H; simpl; [done|]. intros (-> & c & Hc & Hch). split; [done|].
  destruct (H j c) as (c' & Hc' & E); [left|done|]. exists c'. split; [done|]. rewrite E.
  apply IH; [|done]. intros j' c0 Hj'. apply H. by right.
Qed.

Lemma chain_get p i F j : chain p i F → j ∈ F → ∃ c, arr_get p j = Some c.
Proof.
  revert i. induction F as [|k F IH]; intros i Hc Hin; [by apply not_elem_of_nil in Hin|].
  destruct Hc as (-> & c & Hc & Hch). apply elem_of_cons in Hin as [->|Hin]; eauto.
Qed.

(** ** The contract of the pool *)

Lemma bounded_length (F : list Z) n : NoDup F → (∀ j, j ∈ F → 0 ≤ j < n) → Z.of_nat (length F) ≤ Z.max 0 n.
Proof.
  intros Hnd Hb. assert (F ⊆+ seqZ 0 n) as Hs.
  { apply NoDup_submseteq; [done|]. intros j Hj. apply elem_of_seqZ. specialize (Hb j Hj). lia. }
  apply submseteq_length in Hs. rewrite length_seqZ in Hs. lia.
Qed.

Lemma wp_ctx_load p i c (Q : conn_context → context_pool → Prop) :
  arr_get p i = Some c → Q c p → wp (ctx_load i) p Q.
Proof. intros Hc ?. unfold wp, ctx_load. by rewrite Hc. Qed.

Lemma wp_ctx_update p i c f (Q : unit → context_pool → Prop) :
  arr_get p i = Some c → Q () (arr_set p i (f c)) → wp (ctx_update i f) p Q.
Proof. intros Hc ?. unfold wp, ctx_update. by rewrite Hc. Qed.

Lemma wp_ctx_update2 {A} i f g (m : PM A) p (Q : A → context_pool → Prop) :
  wp (ctx_update i (λ c, g (f c));; m) p Q → wp (ctx_update i f;; ctx_update i g;; m) p Q.
Proof.
  unfold wp, mbind, M_bind, ctx_update. destruct (arr_get p i) as [c|] eqn:Hc; [|done].
  rewrite (arr_get_set _ _ _ _ _ Hc), decide_True by done.
  unfold arr_set. simpl. by rewrite list_insert_insert_eq.
Qed.

(** What is outside [i] is the same. *)
Definition same_but (i : Z) (p q : context_pool) : Prop :=
  total q = total p ∧ length (arr q) = length (arr p) ∧ ∀ j, j ≠ i → arr_get q j = arr_get p j.

#[export] Instance same_but_refl i : Reflexive (same_but i).
Proof. by split. Qed.
#[export] Instance same_but_trans i : Transitive (same_but i).
Proof.
  intros p q r (?&?&H1) (?&?&H2). split_and!; [congruence|congruence|].
  intros j Hj. by rewrite H2, H1.
Qed.

Lemma same_but_set p i c d : arr_get p i = Some d → same_but i p (arr_set p i c).
Proof.
  intros Hd. split_and!; [done|by apply length_insert|]. intros j Hj.
  rewrite (arr_get_set _ _ _ _ _ Hd). by rewrite decide_False.
Qed.

(** A context that is not free may be written. *)
Lemma pool_rep_same p q F i :
  pool_rep p F → i ∉ F → same_but i p q → next_idx q = next_idx p → allocated q = allocated p → pool_rep q F.
Proof.
  intros [Hc Hn Ht Ha] Hi (E1 & E2 & E3) E4 E5. split; [|done|congruence|congruence].
  rewrite E4. apply (chain_ext p); [|done]. intros j c Hj Hc'. exists c. rewrite E3; [done|]. by intros ->.
Qed.

(** The fields that [alloc_context] sets. *)
Definition fresh_ctx (c : conn_context) : conn_context :=
  set_next_idx (-1) (set_end_fd_added 0 (set_end_fd 0 (set_fd_added 0 (set_fd 0 c)))).

(** One allocation, whatever the chain is like. *)
Lemma wp_alloc_raw p i c (Q : Z → context_pool → Prop) :
  next_idx p = i → arr_get p i = Some c → allocated p < total p →
  (∀ q, arr_get q i = Some (fresh_ctx c) → same_but i p q → next_idx q = c_next_idx c →
     allocated q = allocated p + 1 → Q i q) →
  wp alloc_context p Q.
Proof.
  intros Hi Hc Ha HQ. apply wp_bind, wp_get, wp_bind, wp_assert; [by apply Z.ltb_lt|].
  apply wp_bind, wp_put. cbv zeta. rewrite Hi.
  apply wp_bind. eapply wp_ctx_load; [exact Hc|]. apply wp_bind, wp_modify.
  do 4 apply wp_ctx_update2. apply wp_bind. eapply wp_ctx_update; [exact Hc|]. apply wp_ret.
  match goal with |- Q i ?q => set (q1 := q) end. apply (HQ q1); [| |done|done].
  - unfold q1. rewrite (arr_get_set _ _ _ _ c); [by rewrite decide_True|exact Hc].
  - destruct (same_but_set p i (fresh_ctx c) c Hc) as (?&?&?). by split_and!.
Qed.

Lemma wp_alloc_context p i F (Q : Z → context_pool → Prop) :
  pool_rep p (i :: F) →
  (∀ q c, arr_get p i = Some c → arr_get q i = Some (fresh_ctx c) → same_but i p q → pool_rep q F → i ∉ F → Q i q) →
  wp alloc_context p Q.
Proof.
  intros [[Hi (c & Hc & Hch)] [Hni Hnd]%NoDup_cons Ht Ha] HQ. simpl in *.
  eapply wp_alloc_raw; [exact Hi|exact Hc|lia|]. intros q Hq Hs Hn Hal. apply (HQ q c); try done.
  destruct Hs as (E1 & E2 & E3). split; [|done|congruence|lia].
  rewrite Hn. apply (chain_ext p); [|exact Hch]. intros j d Hj Hd. exists d. rewrite E3; [done|]. by intros ->.
Qed.

Lemma alloc_context_full p : pool_rep p [] → alloc_context p = UB.
Proof.
  intros [_ _ Ht Ha]. simpl in Ha. unfold alloc_context, mbind, M_bind, get, assert.
  destruct (Z.ltb_spec (allocated p) (total p)); [lia|done].
Qed.

Lemma pool_rep_bound p F i c :
  pool_rep p F → i ∉ F → arr_get p i = Some c → Z.of_nat (length F) < total p.
Proof.
  intros [Hch Hn Ht _] Hi Hc. apply arr_get_Some in Hc as Hc'. destruct Hc' as [Hr _].
  assert (Z.of_nat (length (i :: F)) ≤ Z.max 0 (total p)); [|simpl in *; lia].
  apply bounded_length; [by apply NoDup_cons|]. intros j [->|Hj]%elem_of_cons; [lia|].
  destruct (chain_get _ _ _ _ Hch Hj) as [d [? _]%arr_get_Some]. lia.
Qed.

Lemma wp_free_context p i c F (Q : unit → context_pool → Prop) :
  pool_rep p F → i ∉ F → arr_get p i = Some c →
  (∀ q, arr_get q i = Some (set_next_idx (next_idx p) c) → same_but i p q → pool_rep q (i :: F) → Q () q) →
  wp (free_context i) p Q.
Proof.
  intros Hrep Hi Hc HQ. pose proof (pool_rep_bound _ _ _ _ Hrep Hi Hc). destruct Hrep as [Hch Hn Ht Ha].
  apply wp_bind, wp_get, wp_bind, wp_assert; [apply Z.gtb_lt; lia|].
  apply wp_bind, wp_put, wp_bind. eapply wp_ctx_update; [exact Hc|]. apply wp_modify.
  match goal with |- Q () ?q => set (q1 := q) end.
  assert (arr_get q1 i = Some (set_next_idx (next_idx p) c)) as Hq1.
  { unfold q1. assert (arr_get (arr_set p i (set_next_idx (next_idx p) c)) i = Some (set_next_idx (next_idx p) c)) as H1.
    { rewrite (arr_get_set _ _ _ _ c); [by rewrite decide_True|exact Hc]. } exact H1. }
  assert (same_but i p q1) as Hs.
  { destruct (same_but_set p i (set_next_idx (next_idx p) c) c Hc) as (?&?&?). by split_and!. }
  apply HQ; [done|done|]. split; [|by apply NoDup_cons|by destruct Hs as (->&->&_)|simpl; lia].
  split; [done|]. eexists. split; [exact Hq1|]. apply (chain_ext p); [|exact Hch].
  intros j d Hj Hd. exists d. split; [|done]. destruct Hs as (_&_&->); [done|]. by intros ->.
Qed.

(** The chain that [init_pool] makes. *)
Lemma chain_seq p n k :
  k + Z.of_nat n = Z.of_nat (length (arr p)) → 0 ≤ k →
  (∀ j, k ≤ j < Z.of_nat (length (arr p)) → ∃ c, arr_get p j = Some c ∧
     c_next_idx c = if decide (j = Z.of_nat (length (arr p)) - 1) then -1 else j + 1) →
  chain p (if decide (n = 0%nat) then -1 else k) (seqZ k (Z.of_nat n)).
Proof.
  revert k. induction n as [|n IH]; intros k Hn Hk Hc; [done|]. rewrite decide_False by done.
  rewrite seqZ_cons by lia. replace (Z.pred (Z.of_nat (S n))) with (Z.of_nat n) by lia.
  split; [done|]. destruct (Hc k) as (c & Hck & E); [lia|]. exists c. split; [done|].
  replace (c_next_idx c) with (if decide (n = 0%nat) then -1 else Z.succ k).
  - apply IH; [lia|lia|]. intros j Hj. apply Hc. lia.
  - rewrite E. repeat case_decide; lia.
Qed.

Lemma map_pa_set p i v d :
  arr_get p i = Some d → map pa (arr (arr_set p i (set_next_idx v d))) = map pa (arr p).
Proof.
  intros [_ Hd]%arr_get_Some. simpl. rewrite list_fmap_insert. apply list_insert_id.
  by rewrite list_lookup_fmap, Hd.
Qed.

Lemma wp_init_pool size junk p0 :
  0 < size → Z.of_nat (length junk) = size →
  wp (init_pool size junk) p0 (λ _ p, pool_rep p (seqZ 0 size) ∧ total p = size ∧ map pa (arr p) = map pa junk).
Proof.
  intros Hs Hj. apply wp_bind, wp_assert; [by apply Z.gtb_lt|]. apply wp_bind, wp_put, wp_bind.
  eapply (wp_loop (λ n i p, 0 ≤ i ≤ size - 1 ∧ n = Z.to_nat (size - 1 - i) ∧
    total p = size ∧ allocated p = 0 ∧ next_idx p = 0 ∧ map pa (arr p) = map pa junk ∧
    ∀ j, 0 ≤ j < i → ∃ c, arr_get p j = Some c ∧ c_next_idx c = j + 1)) with (n := Z.to_nat (size - 1));
    [|split_and!; try (done || lia)|lia].
  intros n i p (Hi & -> & Ht & Ha & Hn & Hm & Hc).
  assert (length (arr p) = length junk) as Hl by (rewrite <-(length_map pa (arr p)), Hm; apply length_map).
  destruct (arr_get_lt p i) as [d Hd]; [lia|].
  destruct (Z.ltb_spec i (size - 1)) as [Hlt|Hge].
  - apply wp_bind. eapply wp_ctx_update; [exact Hd|]. apply wp_ret. exists (Z.to_nat (size - 1 - (i + 1))).
    split; [lia|]. split_and!; try (done || lia); [by rewrite (map_pa_set _ _ _ _ Hd)|].
    intros j Hj'. rewrite (arr_get_set _ _ _ _ _ Hd). destruct (decide (i = j)) as [->|]; [by eexists|].
    apply Hc. lia.
  - apply wp_ret. assert (i = size - 1) as -> by lia. eapply wp_ctx_update; [exact Hd|].
    split; [|split; [done|by rewrite (map_pa_set _ _ _ _ Hd)]]. split; simpl.
    + rewrite Hn. pose proof (chain_seq (arr_set p (size - 1) (set_next_idx (-1) d)) (Z.to_nat size) 0) as H.
      rewrite decide_False in H by lia. rewrite Z2Nat.id in H by lia.
      simpl in H. rewrite length_insert in H. apply H; [lia|done|]. intros j Hj'.
      rewrite (arr_get_set _ _ _ _ _ Hd). destruct (decide (size - 1 = j)) as [<-|].
      * eexists. split; [done|]. rewrite decide_True by lia. done.
      * rewrite decide_False by lia. apply Hc. lia.
    + apply NoDup_seqZ.
    + rewrite length_insert. lia.
    + rewrite length_seqZ. lia.
Qed.
