(* ===== verification/Server.v ===== *)
(** * mult_process_server: the worker

    [conn_process.c], [web_server.c], [proxy_server.c] and the worker of
    [server.c]: the handlers of the connections, the event loop and the
    statistics.  The kernel is a parameter: [os] gives the result of a system
    call from the calls made so far, [os_data] the bytes of a [read],
    [os_errno] the error number, [os_events] the events of an [epoll_wait].
    The diagnostics ([print_d], [printf], [perror]) are left out. *)
From S2P Require Import Prelude Context.

(** ** System calls *)

Inductive epoll_op := EPOLL_CTL_ADD | EPOLL_CTL_DEL | EPOLL_CTL_MOD.

Inductive syscall :=
  | Accept (fd : Z)
  | Fcntl_getfl (fd : Z)
  | Fcntl_setfl (fd flags : Z)
  | Epoll_create (size : Z)
  | Epoll_ctl (ep : Z) (op : epoll_op) (fd events ptr : Z)
  | Epoll_wait (ep n : Z)
  | Close (fd : Z)
  | Read (fd n : Z)
  | Write (fd : Z) (data : list Z)
  | Socket
  | Setsockopt (fd option : Z)
  | Connect (fd port ip : Z)
  | Bind (fd port ip : Z)
  | Listen (fd backlog : Z)
  | Sched_setaffinity (cpu n : Z)
  | Sysconf_nprocessors
  | Setrlimit (resource limit : Z)
  | Sigwait
  | Fork
  | Getpid
  | Kill (pid : Z)
  | Exit (status : Z).

Definition EPOLLIN : Z := 1.
Definition EPOLLOUT : Z := 4.
Definition EPOLLERR : Z := 8.
Definition EPOLLHUP : Z := 16.
Definition O_NONBLOCK : Z := 2048.
Definition EINTR : Z := 4.
Definition EINPROGRESS : Z := 115.
Definition SO_REUSEADDR : Z := 2.
Definition SO_LINGER : Z := 13.

(** The port in the order of the network, on a little-endian machine. *)
Definition htons (port : Z) : Z := port mod 256 * 256 + port / 256 mod 256.

(** ** State *)

(** The calls with their results, the latest first. *)
Abbreviation trace := (list (syscall * Z)).

Record server := Server {
  pool : context_pool; wdata : list worker_data; last : Z; calls : trace;
}.
Abbreviation SM := (M server).

Definition set_pool (p : context_pool) (s : server) : server := Server p (wdata s) (last s) (calls s).
Definition set_wdata (w : list worker_data) (s : server) : server := Server (pool s) w (last s) (calls s).
Definition set_last (v : Z) (s : server) : server := Server (pool s) (wdata s) v (calls s).
Definition set_calls (t : trace) (s : server) : server := Server (pool s) (wdata s) (last s) t.

Definition in_pool {A} (m : PM A) : SM A := λ s,
  match m (pool s) with
  | Ok (a, p) => Ok (a, set_pool p s)
  | UB => UB
  | NoFuel => NoFuel
  end.
Definition ctx_get {A} (ctx : Z) (f : conn_context → A) : SM A := f <$> in_pool (ctx_load ctx).
Definition ctx_set (ctx : Z) (f : conn_context → conn_context) : SM unit := in_pool (ctx_update ctx f).

(** [wdata[i]] within the array of the workers. *)
Definition wdata_get (i : Z) : SM worker_data := λ s,
  if decide (0 ≤ i) then match wdata s !! Z.to_nat i with Some w => Ok (w, s) | None => UB end else UB.
Definition wdata_set (i : Z) (f : worker_data → worker_data) : SM unit :=
  w ← wdata_get i; modify (λ s, set_wdata (<[Z.to_nat i := f w]> (wdata s)) s).

Definition add_trancnt (w : worker_data) : worker_data :=
  Worker_data (process w) (ulong (trancnt w + 1)) (trancnt_prev w) (w_cpu_id w) (polls_max w) (polls_min w) (polls_avg w) (polls_cnt w) (polls_sum w) (polls_mpt w) (polls_lst w) (accept_cnt w) (read_cnt w) (write_cnt w).
Definition add_accept_cnt (w : worker_data) : worker_data :=
  Worker_data (process w) (trancnt w) (trancnt_prev w) (w_cpu_id w) (polls_max w) (polls_min w) (polls_avg w) (polls_cnt w) (polls_sum w) (polls_mpt w) (polls_lst w) (ulong (accept_cnt w + 1)) (read_cnt w) (write_cnt w).
Definition add_read_cnt (w : worker_data) : worker_data :=
  Worker_data (process w) (trancnt w) (trancnt_prev w) (w_cpu_id w) (polls_max w) (polls_min w) (polls_avg w) (polls_cnt w) (polls_sum w) (polls_mpt w) (polls_lst w) (accept_cnt w) (ulong (read_cnt w + 1)) (write_cnt w).
Definition add_write_cnt (w : worker_data) : worker_data :=
  Worker_data (process w) (trancnt w) (trancnt_prev w) (w_cpu_id w) (polls_max w) (polls_min w) (polls_avg w) (polls_cnt w) (polls_sum w) (polls_mpt w) (polls_lst w) (accept_cnt w) (read_cnt w) (ulong (write_cnt w + 1)).
Definition set_polls_min (v : Z) (w : worker_data) : worker_data :=
  Worker_data (process w) (trancnt w) (trancnt_prev w) (w_cpu_id w) (polls_max w) v (polls_avg w) (polls_cnt w) (polls_sum w) (polls_mpt w) (polls_lst w) (accept_cnt w) (read_cnt w) (write_cnt w).

(** The statistics of one [epoll_wait] that gave [num_events], an [int] that
    is compared with and added to [uint64_t]. *)
Definition count_poll (num_events : Z) (w : worker_data) : worker_data :=
  let n := ulong num_events in
  let mpt := if num_events =? 0 then ulong (polls_mpt w + 1) else polls_mpt w in
  let min := if num_events =? 0 then polls_min w else if n <? polls_min w then n else polls_min w in
  let max := if n >? polls_max w then n else polls_max w in
  let sum := ulong (polls_sum w + n) in
  let cnt := ulong (polls_cnt w + 1) in
  Worker_data (process w) (trancnt w) (trancnt_prev w) (w_cpu_id w) max min (sum / cnt) cnt sum mpt n
    (accept_cnt w) (read_cnt w) (write_cnt w).

Section server.
Context (os : trace → syscall → Z) (os_data : trace → syscall → list Z).
Context (os_errno : trace → Z) (os_events : trace → list (Z * Z)).

Definition sys (c : syscall) : SM Z := λ s,
  let r := os (calls s) c in Ok (r, set_calls ((c, r) :: calls s) s).

(** [read] into the buffer of a context. *)
Definition sys_read (ctx fd : Z) : SM Z :=
  data ← gets (λ s, os_data (calls s) (Read fd MAX_BUFSIZE));
  ret ← sys (Read fd MAX_BUFSIZE);
  when (ret >? 0) (ctx_set ctx (λ c, set_buf (take (Z.to_nat ret) data ++ drop (Z.to_nat ret) (buf c)) c));;
  mret ret.

(** ** conn_process.c *)

Definition process_close (ctx : Z) : SM unit :=
  ep_fd ← ctx_get ctx ep_fd;
  fd ← ctx_get ctx fd;
  end_fd ← ctx_get ctx end_fd;
  fd_added ← ctx_get ctx fd_added;
  when (negb (fd_added =? 0)) (sys (Epoll_ctl ep_fd EPOLL_CTL_DEL fd (Z.lor EPOLLHUP EPOLLERR) ctx);; mret ());;
  sys (Close fd);;
  when (negb (end_fd =? 0))
    (end_fd_added ← ctx_get ctx end_fd_added;
     when (negb (end_fd_added =? 0)) (sys (Epoll_ctl ep_fd EPOLL_CTL_DEL end_fd (Z.lor EPOLLHUP EPOLLERR) ctx);; mret ());;
     sys (Close end_fd);; mret ()).

(** The label [free_back] of every handler. *)
Definition free_back (ctx : Z) : SM unit :=
  process_close ctx;; in_pool (free_context ctx).

(** The loop that accepts; [None] is the jump to [back]. *)
Definition accept_loop (listen_fd cpu_id : Z) : SM (option Z) :=
  loop (S (Z.to_nat ACCEPT_PER_LISTEN_EVENT)) (λ '(i, client_fd),
    if i <? ACCEPT_PER_LISTEN_EVENT then
      client_fd ← sys (Accept listen_fd);
      if client_fd <? 0 then wdata_set cpu_id add_accept_cnt;; mret (inr None) else
      flags ← sys (Fcntl_getfl client_fd);
      sys (Fcntl_setfl client_fd (Z.lor flags O_NONBLOCK));;
      mret (inl (i + 1, client_fd))
    else mret (inr (Some client_fd))) (0, 0).

(** [client_ctx->pa[i] = listen_ctx->pa[i]] for every back end. *)
Definition copy_pa (src dst n : Z) : SM unit :=
  loop (S (Z.to_nat n)) (λ i,
    if i <? n then
      pa_s ← ctx_get src pa; pa_d ← ctx_get dst pa;
      assert (i <? MAX_PROXY_ADDRESS);;
      match pa_s !! Z.to_nat i, pa_d !! Z.to_nat i with
      | Some a, Some _ => ctx_set dst (λ c, set_pa (<[Z.to_nat i := a]> (pa c)) c);; mret (inl (i + 1))
      | _, _ => ub
      end
    else mret (inr ())) 0.

Definition process_accept (listen_ctx : Z) : SM unit :=
  events ← ctx_get listen_ctx events;
  cpu ← ctx_get listen_ctx cpu_id;
  listen_fd ← ctx_get listen_ctx fd;
  if negb (Z.land events (Z.lor EPOLLHUP EPOLLERR) =? 0) then mret () else
  r ← accept_loop listen_fd cpu;
  match r with
  | None => mret ()
  | Some client_fd =>
      client_ctx ← in_pool alloc_context;
      ctx_set client_ctx (set_fd client_fd);;
      proxy ← ctx_get listen_ctx enable_proxy;
      (if negb (proxy =? 0) then
         ctx_set client_ctx (set_handler process_read_frontend_h);;
         ctx_set client_ctx (set_enable_proxy proxy);;
         n ← ctx_get listen_ctx pa_num;
         ctx_set client_ctx (set_pa_num n);;
         copy_pa listen_ctx client_ctx n
       else ctx_set client_ctx (set_handler process_read_h));;
      ctx_set client_ctx (set_cpu_id cpu);;
      ep ← ctx_get listen_ctx ep_fd;
      ctx_set client_ctx (set_ep_fd ep);;
      ret ← sys (Epoll_ctl ep EPOLL_CTL_ADD client_fd (Z.lor (Z.lor EPOLLIN EPOLLHUP) EPOLLERR) client_ctx);
      if ret <? 0 then free_back client_ctx else
      ctx_set client_ctx (set_fd_added 1)
  end.

(** ** web_server.c *)

Definition crlf : list Z := [13; 10].
Definition bytes (s : string) : list Z := (λ c, Z.of_nat (Ascii.nat_of_ascii c)) <$> String.list_ascii_of_string s.
Definition http_200 : list Z :=
  bytes "HTTP/1.0 200 OK" ++ crlf ++ bytes "Cache-Control: no-cache" ++ crlf ++
  bytes "Connection: close" ++ crlf ++ bytes "Content-Type: text/html" ++ crlf ++ crlf ++
  bytes "<html><body><h1>200 OK</h1>" ++ [10] ++ bytes "Everything is fine." ++ [10] ++ bytes "</body></html>" ++ [10].

Definition process_write (ctx : Z) : SM unit :=
  events ← ctx_get ctx events;
  cpu ← ctx_get ctx cpu_id;
  ep_fd ← ctx_get ctx ep_fd;
  fd ← ctx_get ctx fd;
  if negb (Z.land events (Z.lor EPOLLHUP EPOLLERR) =? 0) then free_back ctx else
  ret ← sys (Write fd http_200);
  if ret <? 0 then wdata_set cpu add_write_cnt;; free_back ctx else
  wdata_set cpu add_trancnt;;
  ctx_set ctx (set_handler process_read_h);;
  ret ← sys (Epoll_ctl ep_fd EPOLL_CTL_MOD fd (Z.lor (Z.lor EPOLLIN EPOLLHUP) EPOLLERR) ctx);
  if ret <? 0 then free_back ctx else mret ().

Definition process_read (ctx : Z) : SM unit :=
  events ← ctx_get ctx events;
  cpu ← ctx_get ctx cpu_id;
  ep_fd ← ctx_get ctx ep_fd;
  fd ← ctx_get ctx fd;
  if negb (Z.land events EPOLLHUP =? 0) then free_back ctx else
  if negb (Z.land events EPOLLERR =? 0) then free_back ctx else
  ret ← sys_read ctx fd;
  if ret <? 0 then wdata_set cpu add_read_cnt;; free_back ctx else
  if ret =? 0 then free_back ctx else
  ctx_set ctx (set_data_len ret);;
  ctx_set ctx (set_handler process_write_h);;
  ret ← sys (Epoll_ctl ep_fd EPOLL_CTL_MOD fd (Z.lor (Z.lor EPOLLOUT EPOLLHUP) EPOLLERR) ctx);
  if ret <? 0 then free_back ctx else mret ().

(** ** proxy_server.c *)

(** The port and the address of the next back end; [last] is a static variable. *)
Definition select_backend (ctx : Z) : SM (Z * Z) :=
  l ← gets last;
  pas ← ctx_get ctx pa;
  assert (l <? MAX_PROXY_ADDRESS);;
  match pas !! Z.to_nat l with
  | None => ub
  | Some a =>
      modify (set_last (l + 1));;
      n ← ctx_get ctx pa_num;
      when (l + 1 =? n) (modify (set_last 0));;
      mret (htons (param_port a), proxyip a)
  end.

Definition process_read_frontend (ctx : Z) : SM unit :=
  events ← ctx_get ctx events;
  cpu ← ctx_get ctx cpu_id;
  ep_fd ← ctx_get ctx ep_fd;
  front_fd ← ctx_get ctx fd;
  if negb (Z.land events (Z.lor EPOLLHUP EPOLLERR) =? 0) then free_back ctx else
  ret ← sys_read ctx front_fd;
  if ret <? 0 then wdata_set cpu add_read_cnt;; free_back ctx else
  ctx_set ctx (set_data_len ret);;
  ret ← sys (Epoll_ctl ep_fd EPOLL_CTL_MOD front_fd (Z.lor EPOLLHUP EPOLLERR) ctx);
  if ret <? 0 then free_back ctx else
  ret ← sys Socket;
  if ret <? 0 then free_back ctx else
  let end_fd := ret in
  ctx_set ctx (set_end_fd end_fd);;
  flags ← sys (Fcntl_getfl ret);
  sys (Fcntl_setfl ret (Z.lor flags O_NONBLOCK));;
  ret ← sys (Setsockopt end_fd SO_LINGER);
  if ret <? 0 then free_back ctx else
  '(port, ip) ← select_backend ctx;
  ret ← sys (Connect end_fd port ip);
  err ← gets (λ s, os_errno (calls s));
  if (ret <? 0) && negb (err =? EINPROGRESS) then free_back ctx else
  ctx_set ctx (set_handler process_write_backend_h);;
  ctx_set ctx (λ c, set_flags (Z.lor (Context.flags c) PROXY_BACKEND_EVENT) c);;
  ret ← sys (Epoll_ctl ep_fd EPOLL_CTL_ADD end_fd (Z.lor (Z.lor EPOLLOUT EPOLLHUP) EPOLLERR) ctx);
  if ret <? 0 then free_back ctx else
  ctx_set ctx (set_end_fd_added 1).

Definition process_write_backend (ctx : Z) : SM unit :=
  events ← ctx_get ctx events;
  ep_fd ← ctx_get ctx ep_fd;
  end_fd ← ctx_get ctx end_fd;
  buf ← ctx_get ctx buf;
  data_len ← ctx_get ctx data_len;
  if negb (Z.land events (Z.lor EPOLLHUP EPOLLERR) =? 0) then free_back ctx else
  flags ← ctx_get ctx flags;
  if Z.land flags PROXY_BACKEND_EVENT =? 0 then free_back ctx else
  ret ← sys (Write end_fd (take (Z.to_nat data_len) buf));
  if ret <? 0 then free_back ctx else
  ctx_set ctx (set_handler process_read_backend_h);;
  ctx_set ctx (λ c, set_flags (Z.lor (Context.flags c) PROXY_BACKEND_EVENT) c);;
  ret ← sys (Epoll_ctl ep_fd EPOLL_CTL_MOD end_fd (Z.lor (Z.lor EPOLLIN EPOLLHUP) EPOLLERR) ctx);
  if ret <? 0 then free_back ctx else mret ().

Definition process_read_backend (ctx : Z) : SM unit :=
  cpu ← ctx_get ctx cpu_id;
  ep_fd ← ctx_get ctx ep_fd;
  end_fd ← ctx_get ctx end_fd;
  front_fd ← ctx_get ctx fd;
  flags ← ctx_get ctx flags;
  if Z.land flags PROXY_BACKEND_EVENT =? 0 then free_back ctx else
  ret ← sys_read ctx end_fd;
  if ret <? 0 then wdata_set cpu add_read_cnt;; free_back ctx else
  ctx_set ctx (set_handler process_write_frontend_h);;
  ctx_set ctx (λ c, set_flags (Z.land (Context.flags c) (Z.lnot PROXY_BACKEND_EVENT)) c);;
  ctx_set ctx (set_data_len ret);;
  ret ← sys (Epoll_ctl ep_fd EPOLL_CTL_MOD front_fd (Z.lor (Z.lor EPOLLOUT EPOLLHUP) EPOLLERR) ctx);
  if ret <? 0 then free_back ctx else
  ret ← sys (Epoll_ctl ep_fd EPOLL_CTL_MOD end_fd (Z.lor EPOLLHUP EPOLLERR) ctx);
  if ret <? 0 then free_back ctx else mret ().

Definition process_write_frontend (ctx : Z) : SM unit :=
  cpu ← ctx_get ctx cpu_id;
  front_fd ← ctx_get ctx fd;
  buf ← ctx_get ctx buf;
  data_len ← ctx_get ctx data_len;
  flags ← ctx_get ctx flags;
  if negb (Z.land flags PROXY_BACKEND_EVENT =? 0) then free_back ctx else
  ret ← sys (Write front_fd (take (Z.to_nat data_len) buf));
  if ret <? 0 then free_back ctx else
  wdata_set cpu add_trancnt;;
  free_back ctx.

(** ** The worker *)

(** [ctx->handler(ctx, wdata)]. *)
Definition call_handler (h : handler_t) (ctx : Z) : SM unit :=
  match h with
  | process_accept_h => process_accept ctx
  | process_read_h => process_read ctx
  | process_write_h => process_write ctx
  | process_read_frontend_h => process_read_frontend ctx
  | process_write_backend_h => process_write_backend ctx
  | process_read_backend_h => process_read_backend ctx
  | process_write_frontend_h => process_write_frontend ctx
  | junk_h => ub
  end.

(** One event of a batch: its mask and its context. *)
Definition process_event (e : Z * Z) : SM unit :=
  let '(mask, ctx) := e in
  ctx_set ctx (set_events mask);;
  h ← ctx_get ctx handler;
  call_handler h ctx.

Fixpoint process_events (evts : list (Z * Z)) : SM unit :=
  match evts with
  | [] => mret ()
  | e :: evts => process_event e;; process_events evts
  end.

(** One round of [while (1)]. *)
Definition epoll_round (ep_fd cpu : Z) : SM unit :=
  evts ← gets (λ s, os_events (calls s));
  num_events ← sys (Epoll_wait ep_fd EVENTS_PER_BATCH);
  err ← gets (λ s, os_errno (calls s));
  if (num_events <? 0) && (err =? EINTR) then mret () else
  wdata_set cpu (count_poll num_events);;
  assert (num_events <=? Z.of_nat (length evts));;
  process_events (take (Z.to_nat num_events) evts).

(** The first [n] rounds of a loop that never ends. *)
Fixpoint epoll_rounds (n : nat) (ep_fd cpu : Z) : SM unit :=
  match n with
  | O => mret ()
  | S n => epoll_round ep_fd cpu;; epoll_rounds n ep_fd cpu
  end.

(** The contexts of the sockets that listen: false when [epoll_ctl] fails and
    the worker exits. *)
Fixpoint listen_contexts (la : list listen_addr) (cpu ep_fd proxy n : Z) (pas : list proxy_addr) : SM bool :=
  match la with
  | [] => mret true
  | a :: la =>
      ctx ← in_pool alloc_context;
      ctx_set ctx (set_fd (listen_fd a));;
      ctx_set ctx (set_handler process_accept_h);;
      ctx_set ctx (set_cpu_id cpu);;
      ctx_set ctx (set_ep_fd ep_fd);;
      ctx_set ctx (set_enable_proxy proxy);;
      when (negb (proxy =? 0))
        (ctx_set ctx (set_pa_num n);;
         assert (n <=? MAX_PROXY_ADDRESS);;
         ctx_set ctx (λ c, set_pa (take (Z.to_nat n) pas ++ drop (Z.to_nat n) (pa c)) c));;
      ret ← sys (Epoll_ctl ep_fd EPOLL_CTL_ADD (listen_fd a) (Z.lor (Z.lor EPOLLIN EPOLLHUP) EPOLLERR) ctx);
      if ret <? 0 then mret false else listen_contexts la cpu ep_fd proxy n pas
  end.

(** ** server.c: processes *)

Definition get_cpu_num : SM Z := sys Sysconf_nprocessors.

Definition bind_process_cpu (cpu : Z) : SM Z :=
  n ← get_cpu_num;
  if (cpu <? 0) || (cpu >=? n) then mret (-1) else sys (Sched_setaffinity cpu n).

(** The signal goes to every process that has announced itself. *)
(** [wdata] is null, and has no records here, until [init_processes] has made it. *)
Definition stop_processes (num_workers : Z) : SM unit :=
  l ← gets wdata;
  when (negb (length l =? 0)%nat) (loop (S (Z.to_nat num_workers)) (λ i,
    if i <? num_workers then
      w ← wdata_get i;
      when (negb (process w =? 0)) (sys (Kill (process w));; mret ());;
      mret (inl (i + 1))
    else mret (inr ())) 0).

Definition stop_workers (process_mode num_workers : Z) : SM unit :=
  when (negb (process_mode =? 0)) (stop_processes num_workers).

Definition exit_cleanup (process_mode num_workers : Z) : SM unit :=
  stop_workers process_mode num_workers;; sys (Exit 1);; mret ().

(** What the command line sets and the processes share. *)
Record globals := Globals {
  g_process_mode : Z; g_num_workers : Z; g_start_cpu : Z;
  g_la : list listen_addr; g_enable_proxy : Z; g_pa_num : Z; g_pa : list proxy_addr;
}.

(** The worker with the record [i]: false when it exits, else after [rounds]
    rounds of its loop.  Its statistics are [wdata[cpu_id]], not [wdata[i]]. *)
Definition process_clients (g : globals) (junk : list conn_context) (i : Z) (rounds : nat) : SM bool :=
  mydata ← wdata_get i;
  ret ← bind_process_cpu (w_cpu_id mydata);
  if ret <? 0 then exit_cleanup (g_process_mode g) (g_num_workers g);; mret false else
  in_pool (init_pool MAX_CONNS_PER_WORKER junk);;
  ep_fd ← sys (Epoll_create MAX_CONNS_PER_WORKER);
  if ep_fd <? 0 then exit_cleanup (g_process_mode g) (g_num_workers g);; mret false else
  ok ← listen_contexts (g_la g) (w_cpu_id mydata) ep_fd (g_enable_proxy g) (g_pa_num g) (g_pa g);
  if negb (ok : bool) then exit_cleanup (g_process_mode g) (g_num_workers g);; mret false else
  wdata_set (w_cpu_id mydata) (set_polls_min EVENTS_PER_BATCH);;
  epoll_rounds rounds ep_fd (w_cpu_id mydata);;
  mret true.

(** What [init_processes] comes back as: the parent, the child with its record,
    or a parent that exits. *)
Inductive role := Parent | Child (i : Z) | Exited.

Definition zero_worker : worker_data := Worker_data 0 0 0 0 0 0 0 0 0 0 0 0 0 0.
Definition set_worker (cpu : Z) (w : worker_data) : worker_data :=
  Worker_data (process w) 0 (trancnt_prev w) cpu (polls_max w) (polls_min w) (polls_avg w) (polls_cnt w) (polls_sum w) (polls_mpt w) (polls_lst w) (accept_cnt w) (read_cnt w) (write_cnt w).
Definition set_process (pid : Z) (w : worker_data) : worker_data :=
  Worker_data pid (trancnt w) (trancnt_prev w) (w_cpu_id w) (polls_max w) (polls_min w) (polls_avg w) (polls_cnt w) (polls_sum w) (polls_mpt w) (polls_lst w) (accept_cnt w) (read_cnt w) (write_cnt w).

Definition init_processes (g : globals) : SM role :=
  modify (set_wdata (replicate (Z.to_nat (g_num_workers g)) zero_worker));;
  loop (S (Z.to_nat (g_num_workers g))) (λ i,
    if i <? g_num_workers g then
      wdata_set i (set_worker (i + g_start_cpu g));;
      pid ← sys Fork;
      if pid <? 0 then exit_cleanup (g_process_mode g) (g_num_workers g);; mret (inr Exited)
      else if pid =? 0 then
        self ← sys Getpid;
        wdata_set i (set_process self);;
        mret (inr (Child i))
      else mret (inl (i + 1))
    else mret (inr Parent)) 0.

(** One socket that listens; [None] when the program exits. *)
Definition init_single_server (g : globals) (ip port : Z) : SM (option Z) :=
  serverfd ← sys Socket;
  if serverfd =? -1 then exit_cleanup (g_process_mode g) (g_num_workers g);; mret None else
  flags ← sys (Fcntl_getfl serverfd);
  sys (Fcntl_setfl serverfd (Z.lor flags O_NONBLOCK));;
  ret ← sys (Setsockopt serverfd SO_REUSEADDR);
  if ret =? -1 then exit_cleanup (g_process_mode g) (g_num_workers g);; mret None else
  ret ← sys (Bind serverfd (htons (port mod 2 ^ 16)) ip);
  if ret =? -1 then exit_cleanup (g_process_mode g) (g_num_workers g);; mret None else
  ret ← sys (Listen serverfd 8192);
  if negb (ret =? 0) then exit_cleanup (g_process_mode g) (g_num_workers g);; mret None else
  mret (Some serverfd).

Fixpoint init_listeners (g : globals) (la : list listen_addr) : SM (option (list listen_addr)) :=
  match la with
  | [] => mret (Some [])
  | a :: la =>
      r ← init_single_server g (listenip a) (l_param_port a);
      match r with
      | None => mret None
      | Some fd =>
          r ← init_listeners g la;
          mret (match r with None => None | Some l => Some (Listen_addr (l_param_port a) (listenip a) fd :: l) end)
      end
  end.

Definition RLIMIT_CORE : Z := 4.
Definition RLIMIT_NOFILE : Z := 7.
Definition RLIM_INFINITY : Z := 2 ^ 64 - 1.

(** The sockets, then the limits; the addresses with their descriptors. *)
Definition init_server (g : globals) : SM (option (list listen_addr)) :=
  r ← init_listeners g (g_la g);
  match r with
  | None => mret None
  | Some la =>
      ret ← sys (Setrlimit RLIMIT_CORE RLIM_INFINITY);
      if ret <? 0 then exit_cleanup (g_process_mode g) (g_num_workers g);; mret None else
      ret ← sys (Setrlimit RLIMIT_NOFILE MAX_CONNS_PER_WORKER);
      if ret <? 0 then exit_cleanup (g_process_mode g) (g_num_workers g);; mret None else
      mret (Some la)
  end.

(** ** server.c: statistics *)

Definition set_trancnt_prev (w : worker_data) : worker_data :=
  Worker_data (process w) (trancnt w) (trancnt w) (w_cpu_id w) (polls_max w) (polls_min w) (polls_avg w) (polls_cnt w) (polls_sum w) (polls_mpt w) (polls_lst w) (accept_cnt w) (read_cnt w) (write_cnt w).

(** The branch of [SIGALRM]: the requests since the last alarm. *)
Definition stats_alarm (num_workers : Z) : SM Z :=
  loop (S (Z.to_nat num_workers)) (λ '(i, sum),
    if i <? num_workers then
      w ← wdata_get i;
      wdata_set i set_trancnt_prev;;
      mret (inl (i + 1, ulong (sum + (trancnt w - trancnt_prev w))))
    else mret (inr sum)) (0, 0).

Definition SIGINT : Z := 2.
Definition SIGALRM : Z := 14.

(** The loop of [do_stats] for at most [n] signals: the figures printed, and
    whether the loop has ended. *)
Fixpoint do_stats (n : nat) (process_mode num_workers : Z) : SM (list Z * bool) :=
  match n with
  | O => mret ([], false)
  | S n =>
      signum ← sys Sigwait;
      if signum <? 0 then exit_cleanup process_mode num_workers;; mret ([], true) else
      if signum =? SIGALRM then
        t ← stats_alarm num_workers;
        '(out, fin) ← do_stats n process_mode num_workers;
        mret (t :: out, fin)
      else if signum =? SIGINT then stop_workers process_mode num_workers;; mret ([], true)
      else do_stats n process_mode num_workers
  end.
End server.
