(* ===== verification/ServerFacts.v ===== *)
(** * mult_process_server: descriptors, interest and ownership

    What the kernel promises, the invariant of a worker, and how each step of
    a handler moves it. *)
From S2P Require Import Prelude Context Server.

(** ** The kernel's view of a trace *)

(** The descriptors that are open. *)
Fixpoint open_fds (t : trace) : list Z :=
  match t with
  | [] => []
  | (c, r) :: t =>
      match c with
      | Accept _ | Socket => if decide (0 ≤ r) then r :: open_fds t else open_fds t
      | Close fd => filter (λ x, x ≠ fd) (open_fds t)
      | _ => open_fds t
      end
  end.

(** The descriptors that the epoll instance watches, with their contexts. *)
Fixpoint interest (t : trace) : list (Z * Z) :=
  match t with
  | [] => []
  | (c, r) :: t =>
      match c with
      | Epoll_ctl _ EPOLL_CTL_ADD fd _ ptr => if decide (0 ≤ r) then (fd, ptr) :: interest t else interest t
      | Epoll_ctl _ EPOLL_CTL_DEL fd _ _ => if decide (0 ≤ r) then filter (λ x, x.1 ≠ fd) (interest t) else interest t
      | Close fd => filter (λ x, x.1 ≠ fd) (interest t)
      | _ => interest t
      end
  end.

(** [accept] and [socket] give a descriptor that is not open, below the limit
    on open files and, the standard streams being open, not 0; [epoll_wait]
    gives one event per descriptor that is watched. *)
Record kernel (os : trace → syscall → Z) (os_events : trace → list (Z * Z)) : Prop := {
  k_accept : ∀ t fd, 0 ≤ os t (Accept fd) →
    0 < os t (Accept fd) < MAX_CONNS_PER_WORKER ∧ os t (Accept fd) ∉ open_fds t;
  k_socket : ∀ t, 0 ≤ os t Socket → 0 < os t Socket < MAX_CONNS_PER_WORKER ∧ os t Socket ∉ open_fds t;
  k_number : ∀ t ep, os t (Epoll_wait ep EVENTS_PER_BATCH) ≤ Z.of_nat (length (os_events t));
  k_events : ∀ t, ∃ fds, NoDup fds ∧ Forall2 (λ f e, (f, e.2) ∈ interest t) fds (os_events t);
}.

Lemma filter_ne (l : list Z) x : x ∉ l → filter (λ y, y ≠ x) l = l.
Proof.
  induction l as [|y l IH]; [done|]. intros [Hne Hn]%not_elem_of_cons.
  rewrite filter_cons_True by congruence. by rewrite IH.
Qed.

(** ** The invariant *)

(** The descriptors of a connection. *)
Definition ctx_fds (c : conn_context) : list Z :=
  fd c :: if decide (end_fd c = 0) then [] else [end_fd c].

Definition fds_at (p : context_pool) (i : Z) : list Z :=
  match arr_get p i with Some c => ctx_fds c | None => [] end.

(** A context between two events, in a worker with [W] records of statistics
    and [N] back ends. *)
Definition ctx_ok (W : nat) (N : Z) (c : conn_context) : Prop :=
  0 ≤ cpu_id c < Z.of_nat W ∧
  match handler c with
  | process_accept_h => end_fd c = 0 ∧ (enable_proxy c ≠ 0 → pa_num c = N ∧ 0 < N ≤ MAX_PROXY_ADDRESS)
  | process_read_h | process_write_h => end_fd c = 0
  | process_read_frontend_h => end_fd c = 0 ∧ pa_num c = N ∧ 0 < N ≤ MAX_PROXY_ADDRESS
  | process_write_backend_h | process_read_backend_h =>
      0 < N ∧ end_fd c ≠ 0 ∧ Z.land (flags c) PROXY_BACKEND_EVENT ≠ 0
  | process_write_frontend_h => 0 < N ∧ end_fd c ≠ 0 ∧ Z.land (flags c) PROXY_BACKEND_EVENT = 0
  | junk_h => False
  end.

(** Neither a descriptor is leaked nor shared: those that are open are the [L]
    of the worker and those of the live contexts [A], each once; what is
    watched belongs to a live context; [F] is the chain of the free ones. *)
Record server_inv (L : list Z) (W : nat) (N : Z) (s : server) (A F : list Z) : Prop := {
  si_pool : pool_rep (pool s) F;
  si_live : A ++ F ≡ₚ seqZ 0 (total (pool s));
  si_size : MAX_CONNS_PER_WORKER ≤ total (pool s);
  si_ctx : ∀ i, i ∈ A → ∃ c, arr_get (pool s) i = Some c ∧ ctx_ok W N c;
  si_pa : ∀ i c, arr_get (pool s) i = Some c → Z.of_nat (length (pa c)) = MAX_PROXY_ADDRESS;
  si_open : open_fds (calls s) ≡ₚ L ++ (A ≫= fds_at (pool s));
  si_nodup : NoDup (open_fds (calls s));
  si_range : ∀ f, f ∈ open_fds (calls s) → 0 < f < MAX_CONNS_PER_WORKER;
  si_watch : ∀ f i, (f, i) ∈ interest (calls s) → i ∈ A ∧ f ∈ fds_at (pool s) i;
  si_wdata : length (wdata s) = W;
  si_last : 0 ≤ last s < Z.max 1 N;
}.

(** ** A handler at work *)

(** The handler of context [i], whose value is [c] and whose descriptors are
    [O]; [A] are the other live contexts. *)
Record handling (L : list Z) (W : nat) (N : Z) (A F : list Z) (i : Z) (c : conn_context) (O : list Z) (s : server) : Prop := {
  ha_pool : pool_rep (pool s) F;
  ha_live : (i :: A) ++ F ≡ₚ seqZ 0 (total (pool s));
  ha_size : MAX_CONNS_PER_WORKER ≤ total (pool s);
  ha_at : arr_get (pool s) i = Some c;
  ha_ctx : ∀ j, j ∈ A → ∃ d, arr_get (pool s) j = Some d ∧ ctx_ok W N d;
  ha_pa : ∀ j d, arr_get (pool s) j = Some d → Z.of_nat (length (pa d)) = MAX_PROXY_ADDRESS;
  ha_open : open_fds (calls s) ≡ₚ L ++ O ++ (A ≫= fds_at (pool s));
  ha_nodup : NoDup (open_fds (calls s));
  ha_range : ∀ f, f ∈ open_fds (calls s) → 0 < f < MAX_CONNS_PER_WORKER;
  ha_watch : ∀ f j, (f, j) ∈ interest (calls s) →
    (j = i ∧ f ∈ O) ∨ (j ∈ A ∧ f ∈ fds_at (pool s) j);
  ha_wdata : length (wdata s) = W;
  ha_last : 0 ≤ last s < Z.max 1 N;
}.

Section handling.
Context (L : list Z) (W : nat) (N : Z) (A F : list Z) (i : Z).

Lemma handling_distinct c O s : handling L W N A F i c O s → (i ∉ A) ∧ (i ∉ F).
Proof.
  intros H. pose proof (ha_live _ _ _ _ _ _ _ _ _ H) as Hl.
  assert (NoDup ((i :: A) ++ F)) as Hnd by (rewrite Hl; apply NoDup_seqZ).
  simpl in Hnd. apply NoDup_cons in Hnd as [Hi _]. set_solver.
Qed.

Lemma handling_start s c A' :
  server_inv L W N s A' F → A' ≡ₚ i :: A → arr_get (pool s) i = Some c →
  handling L W N A F i c (ctx_fds c) s.
Proof.
  intros [] HA Hc. split; try done.
  - by rewrite <-HA.
  - intros j Hj. apply si_ctx0. rewrite HA. by right.
  - rewrite si_open0, HA. simpl. unfold fds_at at 1. by rewrite Hc.
  - intros f j Hf. destruct (si_watch0 f j Hf) as [Hj Hfj]. rewrite HA in Hj.
    apply elem_of_cons in Hj as [->|Hj]; [left|by right]. split; [done|].
    unfold fds_at in Hfj. by rewrite Hc in Hfj.
Qed.

Lemma handling_end s c :
  handling L W N A F i c (ctx_fds c) s → ctx_ok W N c → server_inv L W N s (i :: A) F.
Proof.
  intros H Hok. pose proof H as []. split; try done.
  - intros j [->|Hj]%elem_of_cons; [by exists c|by apply ha_ctx0].
  - rewrite ha_open0. simpl. unfold fds_at at 2. by rewrite ha_at0.
  - intros f j Hf. destruct (ha_watch0 f j Hf) as [[-> Hfj]|[Hj Hfj]].
    + split; [left|]. unfold fds_at. by rewrite ha_at0.
    + split; [by right|done].
Qed.

(** The other live contexts are where they were. *)
Lemma fds_same p q (B : list Z) :
  i ∉ B → same_but i p q → (B ≫= fds_at q) = (B ≫= fds_at p).
Proof.
  intros Hi (_ & _ & Hs). induction B as [|j B IH]; [done|]. rewrite !bind_cons.
  apply not_elem_of_cons in Hi as [Hne Hi]. rewrite IH by done. f_equal. unfold fds_at. by rewrite Hs.
Qed.

Lemma wp_ctx_get {B} (f : conn_context → B) c O s (Q : B → server → Prop) :
  handling L W N A F i c O s → Q (f c) s → wp (ctx_get i f) s Q.
Proof.
  intros H HQ. unfold ctx_get, in_pool, ctx_load. apply wp_fmap. unfold wp.
  rewrite (ha_at _ _ _ _ _ _ _ _ _ H). by destruct s.
Qed.

Lemma wp_ctx_set f c O s (Q : unit → server → Prop) :
  handling L W N A F i c O s → length (pa (f c)) = length (pa c) →
  (∀ s', handling L W N A F i (f c) O s' → calls s' = calls s ∧ same_but i (pool s) (pool s') → Q () s') →
  wp (ctx_set i f) s Q.
Proof.
  intros H Hpa HQ. destruct (handling_distinct _ _ _ H) as [HiA HiF]. pose proof H as [].
  unfold ctx_set, in_pool, ctx_update, wp. rewrite ha_at0.
  pose proof (same_but_set _ _ (f c) _ ha_at0) as Hs. apply HQ; [|done]. split; simpl; try done.
  - by apply (pool_rep_same (pool s) _ F i).
  - rewrite (arr_get_set _ _ _ _ _ ha_at0). by rewrite decide_True.
  - intros j Hj. destruct (ha_ctx0 j Hj) as (d & Hd & Hok). exists d. split; [|done].
    destruct Hs as (_ & _ & ->); [done|]. by intros ->.
  - intros j d. rewrite (arr_get_set _ _ _ _ _ ha_at0). case_decide as E; [|by apply ha_pa0].
    intros [= <-]. rewrite Hpa. by apply (ha_pa0 i).
  - by rewrite (fds_same (pool s)) by done.
  - intros g j Hg. destruct (ha_watch0 g j Hg) as [?|[Hj Hgj]]; [by left|right]. split; [done|].
    unfold fds_at in *. destruct Hs as (_ & _ & ->); [done|]. by intros ->.
Qed.

Lemma wp_wdata_set cpu f c O s (Q : unit → server → Prop) :
  handling L W N A F i c O s → 0 ≤ cpu < Z.of_nat W →
  (∀ s', handling L W N A F i c O s' → calls s' = calls s → Q () s') → wp (wdata_set cpu f) s Q.
Proof.
  intros H Hc HQ. pose proof H as []. destruct (lookup_lt_is_Some_2 (wdata s) (Z.to_nat cpu)) as [w Hw]; [lia|].
  apply wp_bind. unfold wp at 1, wdata_get. rewrite decide_True, Hw by lia. apply wp_modify. apply HQ; [|done].
  split; simpl; try done. by rewrite length_insert.
Qed.

Lemma handling_last c O s v :
  handling L W N A F i c O s → 0 ≤ v < Z.max 1 N → handling L W N A F i c O (set_last v s).
Proof. intros [] Hv. by split. Qed.

(** A call that neither opens nor closes nor watches. *)
Definition neutral (c : syscall) : Prop :=
  match c with
  | Accept _ | Socket | Close _ | Epoll_ctl _ EPOLL_CTL_ADD _ _ _ | Epoll_ctl _ EPOLL_CTL_DEL _ _ _ => False
  | _ => True
  end.

Lemma neutral_interest k r t : neutral k → interest ((k, r) :: t) = interest t.
Proof. by destruct k as [| | | |? []| | | | | | | | | | | | | | | | |]. Qed.

Section sys.
Context (os : trace → syscall → Z).

Lemma wp_sys_neutral k c O s (Q : Z → server → Prop) :
  handling L W N A F i c O s → neutral k →
  (∀ s', handling L W N A F i c O s' →
     calls s' = (k, os (calls s) k) :: calls s ∧ pool s' = pool s → Q (os (calls s) k) s') →
  wp (sys os k) s Q.
Proof.
  intros H Hk HQ. apply HQ; [|done]. pose proof H as [].
  assert (open_fds ((k, os (calls s) k) :: calls s) = open_fds (calls s) ∧
    interest ((k, os (calls s) k) :: calls s) = interest (calls s)) as [E1 E2].
  { destruct k as [| | | |? []| | | | | | | | | | | | | | | | |]; try done. }
  split; cbn [pool set_calls calls wdata last]; rewrite ?E1, ?E2; try done.
Qed.

Lemma wp_sys_close f c O O' s (Q : Z → server → Prop) :
  handling L W N A F i c O s → O ≡ₚ f :: O' → 
  (∀ s', handling L W N A F i c O' s' → Q (os (calls s) (Close f)) s') →
  wp (sys os (Close f)) s Q.
Proof.
  intros H HO HQ. apply HQ. pose proof H as [].
  assert (open_fds (calls s) ≡ₚ f :: (L ++ O' ++ (A ≫= fds_at (pool s)))) as Ho.
  { rewrite ha_open0, HO. simpl. symmetry. apply Permutation_middle. }
  pose proof ha_nodup0 as Hnd. rewrite Ho in Hnd. apply NoDup_cons in Hnd as [Hf _].
  assert (filter (λ x, x ≠ f) (open_fds (calls s)) ≡ₚ L ++ O' ++ (A ≫= fds_at (pool s))) as Hfil.
  { rewrite Ho, filter_cons_False by (by intros ?). by rewrite filter_ne. }
  split; cbn [pool set_calls calls wdata last open_fds interest]; try done.
  - by apply NoDup_filter.
  - intros g [_ Hg]%list_elem_of_filter. by apply ha_range0.
  - intros g j [Hne Hg]%list_elem_of_filter. simpl in Hne. destruct (ha_watch0 g j Hg) as [[-> Hgo]|?]; [|by right].
    left. split; [done|]. rewrite HO in Hgo. apply elem_of_cons in Hgo as [?|?]; [done|done].
Qed.

Lemma wp_sys_socket c O s os_events (Q : Z → server → Prop) :
  kernel os os_events → handling L W N A F i c O s →
  (∀ r s', r < 0 → handling L W N A F i c O s' → Q r s') →
  (∀ r s', 0 < r → handling L W N A F i c (r :: O) s' → Q r s') →
  wp (sys os Socket) s Q.
Proof.
  intros Hk H H0 H1. pose proof H as []. pose proof (k_socket _ _ Hk (calls s)) as Hs.
  unfold sys, wp. set (r := os (calls s) Socket) in *. destruct (decide (0 ≤ r)) as [Hr|Hr].
  - destruct Hs as [Hb Hn]; [done|]. apply H1; [lia|].
    split; cbn [pool set_calls calls wdata last open_fds interest]; rewrite ?decide_True by done; try done.
    + rewrite ha_open0. simpl. apply Permutation_middle.
    + by apply NoDup_cons.
    + intros f [->|Hf]%elem_of_cons; [done|by apply ha_range0].
    + intros f j Hf. destruct (ha_watch0 f j Hf) as [[? ?]|?]; [left|by right]. split; [done|by right].
  - apply H0; [lia|]. split; cbn [pool set_calls calls wdata last open_fds interest]; rewrite ?decide_False by done; done.
Qed.

(** The new connection is held by the context that listens for now. *)
Lemma wp_sys_accept c O s f os_events (Q : Z → server → Prop) :
  kernel os os_events → handling L W N A F i c O s →
  (∀ r s', r < 0 → handling L W N A F i c O s' → Q r s') →
  (∀ r s', 0 < r → handling L W N A F i c (r :: O) s' → (∀ k, (r, k) ∉ interest (calls s')) → Q r s') →
  wp (sys os (Accept f)) s Q.
Proof.
  intros Hk H H0 H1. pose proof H as []. pose proof (k_accept _ _ Hk (calls s) f) as Hs.
  unfold sys, wp. set (r := os (calls s) (Accept f)) in *. destruct (decide (0 ≤ r)) as [Hr|Hr].
  - destruct Hs as [Hb Hn]; [done|]. apply H1; [lia| |].
    2: { intros k Hin. apply Hn. cbn in Hin. rewrite ha_open0, !elem_of_app, list_elem_of_bind.
         destruct (ha_watch0 _ _ Hin) as [[_ ?]|[? ?]]; eauto 6. }
    split; cbn [pool set_calls calls wdata last open_fds interest]; rewrite ?decide_True by done; try done.
    + rewrite ha_open0. simpl. apply Permutation_middle.
    + by apply NoDup_cons.
    + intros g [->|Hg]%elem_of_cons; [done|by apply ha_range0].
    + intros g j Hg. destruct (ha_watch0 g j Hg) as [[? ?]|?]; [left|by right]. split; [done|by right].
  - apply H0; [lia|]. split; cbn [pool set_calls calls wdata last open_fds interest]; rewrite ?decide_False by done; done.
Qed.

Lemma wp_sys_add ep f ev c O s (Q : Z → server → Prop) :
  handling L W N A F i c O s → f ∈ O →
  (∀ r s', handling L W N A F i c O s' → pool s' = pool s → Q r s') →
  wp (sys os (Epoll_ctl ep EPOLL_CTL_ADD f ev i)) s Q.
Proof.
  intros H Hf HQ. apply HQ; [|done]. pose proof H as [].
  split; cbn [pool set_calls calls wdata last open_fds interest]; try done.
  intros g j. case_decide; [|by apply ha_watch0]. intros [[= -> ->]|Hg]%elem_of_cons; [by left|by apply ha_watch0].
Qed.

Lemma wp_sys_del ep f ev ptr c O s (Q : Z → server → Prop) :
  handling L W N A F i c O s →
  (∀ r s', handling L W N A F i c O s' → Q r s') →
  wp (sys os (Epoll_ctl ep EPOLL_CTL_DEL f ev ptr)) s Q.
Proof.
  intros H HQ. apply HQ. pose proof H as [].
  split; cbn [pool set_calls calls wdata last open_fds interest]; try done.
  intros g j Hg. apply ha_watch0. case_decide; [|done]. by apply list_elem_of_filter in Hg as [_ Hg].
Qed.
End sys.
End handling.
