(* ===== verification/ServerHandlers.v ===== *)
(** * mult_process_server: every handler keeps the invariant *)
From S2P Require Import Prelude Context Server ServerFacts.

Lemma wp_in_pool {A} (m : PM A) s (Q : A → server → Prop) :
  wp m (pool s) (λ a p, Q a (set_pool p s)) → wp (in_pool m) s Q.
Proof. unfold wp, in_pool. by destruct (m (pool s)) as [[a p]| |]. Qed.

Section handlers.
Context (os : trace → syscall → Z) (os_data : trace → syscall → list Z).
Context (os_errno : trace → Z) (os_events : trace → list (Z * Z)) (Hk : kernel os os_events).
Context (L : list Z) (W : nat) (N : Z).

Lemma handling_perm A F i c O O' s :
  handling L W N A F i c O s → O ≡ₚ O' → handling L W N A F i c O' s.
Proof.
  intros [] HO. split; try done; [by rewrite <-HO|]. intros f j Hf. rewrite <-HO. by apply ha_watch.
Qed.

(** Closing what the context holds and giving it back. *)
Lemma wp_process_close A F i c s (Q : unit → server → Prop) :
  handling L W N A F i c (ctx_fds c) s →
  (∀ s', handling L W N A F i c [] s' → Q () s') → wp (process_close os i) s Q.
Proof.
  intros H HQ. unfold process_close. do 4 (apply wp_bind; eapply wp_ctx_get; [exact H|]).
  assert (∀ (m : SM unit), (∀ s', handling L W N A F i c (ctx_fds c) s' → wp m s' Q) →
    wp (when (negb (fd_added c =? 0)) (sys os (Epoll_ctl (ep_fd c) EPOLL_CTL_DEL (fd c) (Z.lor EPOLLHUP EPOLLERR) i);; mret ());; m) s Q) as Hdel.
  { intros m Hm. apply wp_bind, wp_when; intros _; [|by apply Hm].
    apply wp_bind. eapply wp_sys_del; [exact H|]. intros r s' H'. apply wp_ret. by apply Hm. }
  apply Hdel. clear s H Hdel. intros s H. apply wp_bind. unfold ctx_fds in H. destruct (decide (end_fd c = 0)) as [E|E].
  - eapply (wp_sys_close _ _ _ _ _ _ _ _ _ _ []); [exact H|done|]. intros s' H'. rewrite E. cbn [negb Z.eqb when]. by apply HQ.
  - eapply (wp_sys_close _ _ _ _ _ _ _ _ _ _ [end_fd c]); [exact H|done|]. clear s H. intros s H.
    apply Z.eqb_neq in E as ->. cbn [negb when]. apply wp_bind. eapply wp_ctx_get; [exact H|].
    apply wp_bind, wp_when; intros _.
    + apply wp_bind. eapply wp_sys_del; [exact H|]. clear s H. intros r s H. apply wp_ret, wp_bind.
      eapply (wp_sys_close _ _ _ _ _ _ _ _ _ _ []); [exact H|done|]. intros s' H'. apply wp_ret. by apply HQ.
    + apply wp_bind. eapply (wp_sys_close _ _ _ _ _ _ _ _ _ _ []); [exact H|done|]. intros s' H'. apply wp_ret. by apply HQ.
Qed.

Lemma wp_free_back A F i c s :
  handling L W N A F i c (ctx_fds c) s → wp (free_back os i) s (λ _ s', server_inv L W N s' A (i :: F)).
Proof.
  intros H. apply wp_bind. eapply wp_process_close; [exact H|]. clear s H. intros s H.
  destruct (handling_distinct _ _ _ _ _ _ _ _ _ H) as [HiA HiF]. pose proof H as [].
  apply wp_in_pool. eapply wp_free_context; [exact ha_pool|done|exact ha_at|]. intros q Hq Hs Hrep.
  split; simpl; try done.
  - destruct Hs as (-> & _ & _). rewrite <-ha_live. symmetry. apply Permutation_middle.
  - by destruct Hs as (-> & _ & _).
  - intros j Hj. destruct Hs as (_ & _ & ->); [by apply ha_ctx|]. by intros ->.
  - intros j d. destruct (decide (j = i)) as [->|Hne].
    + rewrite Hq. intros [= <-]. exact (ha_pa i c ha_at).
    + destruct Hs as (_ & _ & ->); [|done]. by apply ha_pa.
  - by rewrite (fds_same i (pool s) q A HiA Hs).
  - intros f j Hf. destruct (ha_watch f j Hf) as [[_ ?%not_elem_of_nil]|[Hj Hfj]]; [done|].
    split; [done|]. unfold fds_at in *. destruct Hs as (_ & _ & ->); [done|]. by intros ->.
Qed.

(** What an event on [i] leaves: the other live contexts stay live. *)
Definition handled (A : list Z) (s' : server) : Prop :=
  ∃ A' F', server_inv L W N s' A' F' ∧ ∀ j, j ∈ A → j ∈ A'.

Lemma free_back_handled A F i c O s :
  handling L W N A F i c O s → O ≡ₚ ctx_fds c → wp (free_back os i) s (λ _ s', handled A s').
Proof.
  intros H HO. eapply wp_mono; [eapply wp_free_back; by eapply handling_perm|].
  intros [] s' Hs'. exists A, (i :: F). done.
Qed.

Lemma keep_handled A F i c O s :
  handling L W N A F i c O s → O ≡ₚ ctx_fds c → ctx_ok W N c → handled A s.
Proof.
  intros H HO Hok. exists (i :: A), F. split; [|by right].
  apply (handling_end L W N A F i s c); [by eapply handling_perm|done].
Qed.

(** [read] changes the buffer only. *)
Lemma wp_sys_read A F i c O f s (Q : Z → server → Prop) :
  handling L W N A F i c O s →
  (∀ r b s', handling L W N A F i (set_buf b c) O s' → Q r s') → wp (sys_read os os_data i f) s Q.
Proof.
  intros H HQ. unfold sys_read. apply wp_bind, wp_gets, wp_bind.
  eapply wp_sys_neutral; [exact H|done|]. intros s' H' _. apply wp_bind, wp_when; intros _.
  - eapply wp_ctx_set; [exact H'|done|]. intros s'' H'' _. apply wp_ret. eapply HQ. exact H''.
  - apply wp_ret. eapply (HQ _ (buf c)). by destruct c.
Qed.
End handlers.

(** The flag of a connected back end. *)
Lemma flag_set f : Z.land (Z.lor f PROXY_BACKEND_EVENT) PROXY_BACKEND_EVENT ≠ 0.
Proof.
  assert (Z.land (Z.lor f PROXY_BACKEND_EVENT) PROXY_BACKEND_EVENT = PROXY_BACKEND_EVENT) as ->; [|done].
  apply Z.bits_inj'. intros n _. rewrite Z.land_spec, Z.lor_spec. by destruct (Z.testbit f n), (Z.testbit _ n).
Qed.

Lemma flag_clear f : Z.land (Z.land f (Z.lnot PROXY_BACKEND_EVENT)) PROXY_BACKEND_EVENT = 0.
Proof.
  apply Z.bits_inj'. intros n Hn. rewrite !Z.land_spec, Z.lnot_spec, Z.bits_0 by done.
  by destruct (Z.testbit f n), (Z.testbit _ n).
Qed.

(** The steps of a handler: read a field, write one, count, call. *)
Ltac h_next := let s' := fresh "s" in let H := fresh "H" in intros s' H _.
Ltac h_get := apply wp_bind; eapply wp_ctx_get; [eassumption|].
Ltac h_set := apply wp_bind; eapply wp_ctx_set; [eassumption|simpl; reflexivity|]; h_next.
Ltac h_sys := apply wp_bind; eapply wp_sys_neutral; [eassumption|done|]; h_next.
Ltac h_count := apply wp_bind; eapply wp_wdata_set; [eassumption|done|]; h_next.
Ltac h_read := apply wp_bind; eapply wp_sys_read; [eassumption|];
  let r := fresh "r" in let b := fresh "b" in let s' := fresh "s" in let H := fresh "H" in intros r b s' H.
Ltac h_free := eapply free_back_handled; [eassumption|].
Ltac h_keep := eapply keep_handled; [eassumption| |].
Ltac h_if E := match goal with |- context [if ?b then _ else _] => destruct b eqn:E end.

Section handlers.
Context (os : trace → syscall → Z) (os_data : trace → syscall → list Z).
Context (os_errno : trace → Z) (os_events : trace → list (Z * Z)) (Hk : kernel os os_events).
Context (L : list Z) (W : nat) (N : Z).
Context (A F : list Z) (i : Z) (c : conn_context) (s : server).
Context (H : handling L W N A F i c (ctx_fds c) s) (Hok : ctx_ok W N c).

Lemma wp_process_read :
  handler c = process_read_h → wp (process_read os os_data i) s (λ _ s', handled L W N A s').
Proof.
  intros Hh. destruct Hok as [Hcpu Hp]. rewrite Hh in Hp. unfold process_read.
  do 4 h_get. h_if E1; [by h_free|]. h_if E2; [by h_free|]. h_read.
  h_if E3; [h_count; by h_free|]. h_if E4; [by h_free|]. do 2 h_set. h_sys.
  h_if E5; [by h_free|]. apply wp_ret. h_keep; [done|]. by split.
Qed.

Lemma wp_process_write :
  handler c = process_write_h → wp (process_write os i) s (λ _ s', handled L W N A s').
Proof.
  intros Hh. destruct Hok as [Hcpu Hp]. rewrite Hh in Hp. unfold process_write.
  do 4 h_get. h_if E1; [by h_free|]. h_sys. h_if E2; [h_count; by h_free|].
  h_count. h_set. h_sys. h_if E5; [by h_free|]. apply wp_ret. h_keep; [done|]. by split.
Qed.

Lemma wp_process_write_backend :
  handler c = process_write_backend_h → wp (process_write_backend os i) s (λ _ s', handled L W N A s').
Proof.
  intros Hh. destruct Hok as [Hcpu Hp]. rewrite Hh in Hp. unfold process_write_backend.
  do 5 h_get. h_if E1; [by h_free|]. h_get. h_if E2; [by h_free|]. h_sys. h_if E3; [by h_free|].
  do 2 h_set. h_sys. h_if E5; [by h_free|]. apply wp_ret. h_keep; [done|]. split; [done|].
  split_and!; [apply Hp|apply Hp|apply flag_set].
Qed.

Lemma wp_process_read_backend :
  handler c = process_read_backend_h → wp (process_read_backend os os_data i) s (λ _ s', handled L W N A s').
Proof.
  intros Hh. destruct Hok as [Hcpu Hp]. rewrite Hh in Hp. unfold process_read_backend.
  do 5 h_get. h_if E1; [by h_free|]. h_read. h_if E2; [h_count; by h_free|].
  do 3 h_set. h_sys. h_if E3; [by h_free|]. h_sys. h_if E5; [by h_free|].
  apply wp_ret. h_keep; [done|]. split; [done|]. split_and!; [apply Hp|apply Hp|apply flag_clear].
Qed.

Lemma wp_process_write_frontend :
  handler c = process_write_frontend_h → wp (process_write_frontend os i) s (λ _ s', handled L W N A s').
Proof.
  intros Hh. destruct Hok as [Hcpu Hp]. rewrite Hh in Hp. unfold process_write_frontend.
  do 5 h_get. h_if E1; [by h_free|]. h_sys. h_if E2; [by h_free|]. h_count. by h_free.
Qed.

(** The next back end is within the array, and the one after as well. *)
Lemma wp_select_backend s' O c' (Q : Z * Z → server → Prop) :
  handling L W N A F i c' O s' → pa_num c' = N → 0 < N ≤ MAX_PROXY_ADDRESS →
  (∀ r s'', handling L W N A F i c' O s'' → Q r s'') → wp (select_backend i) s' Q.
Proof.
  intros H' HN Hb HQ. unfold select_backend. apply wp_bind, wp_gets. h_get.
  pose proof (ha_last _ _ _ _ _ _ _ _ _ H') as Hl. apply wp_bind, wp_assert; [apply Z.ltb_lt; lia|].
  pose proof (ha_pa _ _ _ _ _ _ _ _ _ H' i c' (ha_at _ _ _ _ _ _ _ _ _ H')) as Hlen.
  destruct (lookup_lt_is_Some_2 (pa c') (Z.to_nat (last s'))) as [a Ha]; [lia|]. rewrite Ha.
  apply wp_bind, wp_modify, wp_bind. apply wp_fmap, wp_in_pool.
  eapply wp_ctx_load; [exact (ha_at _ _ _ _ _ _ _ _ _ H')|]. rewrite HN.
  apply wp_bind, wp_when; intros E%Z.eqb_eq || intros E%Z.eqb_neq.
  - apply wp_modify, wp_ret, HQ. by apply (handling_last _ _ _ _ _ _ _ _ s' 0 H'); lia.
  - apply wp_ret, HQ. apply (handling_last _ _ _ _ _ _ _ _ s' (last s' + 1) H'). lia.
Qed.

Lemma wp_process_read_frontend :
  handler c = process_read_frontend_h →
  wp (process_read_frontend os os_data os_errno i) s (λ _ s', handled L W N A s').
Proof.
  intros Hh. destruct Hok as [Hcpu Hp]. rewrite Hh in Hp. destruct Hp as (Hend & HN & Hb).
  assert (ctx_fds c = [fd c]) as Hfds by (unfold ctx_fds; by rewrite decide_True).
  unfold process_read_frontend.
  do 4 h_get. h_if E1; [by h_free|]. h_read. h_if E2; [h_count; by h_free|].
  h_set. h_sys. h_if E3; [by h_free|]. apply wp_bind.
  eapply wp_sys_socket; [exact Hk|eassumption|..].
  - intros r' s' Hr H'. apply Z.ltb_lt in Hr as ->. by h_free.
  - intros r' s' Hr H'. destruct (Z.ltb_spec r' 0) as [|_]; [lia|]. cbv zeta.
    assert (∀ c', fd c' = fd c → end_fd c' = r' → r' :: ctx_fds c ≡ₚ ctx_fds c') as Hnew.
    { intros c' E E'. rewrite Hfds. unfold ctx_fds. rewrite decide_False by lia. rewrite E, E'. apply perm_swap. }
    h_set. do 3 h_sys. h_if E4; [h_free; by apply Hnew|].
    apply wp_bind. eapply wp_select_backend; [eassumption|done|done|]. intros [port ip] sb Hb'.
    h_sys. apply wp_bind, wp_gets. h_if E5; [h_free; by apply Hnew|]. do 2 h_set.
    apply wp_bind. eapply wp_sys_add; [eassumption|by left|]. intros ra sa Ha _.
    h_if E6; [h_free; by apply Hnew|].
    eapply wp_ctx_set; [eassumption|done|]. intros sz Hz _. h_keep; [by apply Hnew|].
    split; [done|]. split_and!; [lia|simpl; lia|apply flag_set].
Qed.
End handlers.

(** ** A new connection *)

Section accept.
Context (os : trace → syscall → Z) (os_errno : trace → Z) (os_events : trace → list (Z * Z)).
Context (Hk : kernel os os_events) (L : list Z) (W : nat) (N : Z).

Lemma bind_fds_length A s :
  (∀ j, j ∈ A → ∃ d, arr_get (pool s) j = Some d ∧ ctx_ok W N d) →
  (length A ≤ length (A ≫= fds_at (pool s)))%nat.
Proof.
  induction A as [|j A IH]; intros Hc; [done|]. rewrite bind_cons, length_app. simpl.
  destruct (Hc j) as (d & Hd & _); [left|]. unfold fds_at at 1. rewrite Hd. simpl.
  assert (length A ≤ length (A ≫= fds_at (pool s)))%nat; [|lia]. apply IH. intros k Hk'. apply Hc. by right.
Qed.

(** The limit on open files leaves a free context for a new connection. *)
Lemma handling_room A F i c r O s :
  handling L W N A F i c (r :: O) s → O ≠ [] → ∃ j F', F = j :: F'.
Proof.
  intros H HO. pose proof H as []. pose proof (bind_fds_length A s ha_ctx) as Hlen.
  assert (Z.of_nat (length (open_fds (calls s))) ≤ Z.max 0 (MAX_CONNS_PER_WORKER - 1)) as Hmax.
  { rewrite <-(length_fmap (λ x, x - 1)). apply bounded_length.
    - apply NoDup_fmap_2_strong; [|done]. intros; lia.
    - intros j (x & -> & Hx)%list_elem_of_fmap. apply ha_range in Hx. lia. }
  rewrite (Permutation_length ha_open), !length_app in Hmax. simpl in Hmax.
  apply Permutation_length in ha_live. rewrite length_app, length_seqZ in ha_live. simpl in ha_live.
  unfold MAX_CONNS_PER_WORKER in *. destruct F as [|j F']; [|eauto].
  destruct O; [done|]. simpl in *. lia.
Qed.

(** The first free context takes the connection over. *)
Lemma wp_alloc_connection A F i c r s (Q : Z → server → Prop) :
  handling L W N A F i c (r :: ctx_fds c) s → ctx_ok W N c → (∀ k, (r, k) ∉ interest (calls s)) →
  (∀ j d F' s', handling L W N (i :: A) F' j (fresh_ctx d) [r] s' → arr_get (pool s') i = Some c → j ≠ i → Q j s') →
  wp (in_pool alloc_context) s Q.
Proof.
  intros H Hok Hr HQ. destruct (handling_room _ _ _ _ _ _ _ H) as (j & F' & ->); [done|].
  destruct (handling_distinct _ _ _ _ _ _ _ _ _ H) as [HiA HiF]. pose proof H as [].
  assert (j ≠ i ∧ (j ∉ A)) as [Hji HjA].
  { split; [intros ->; apply HiF; left|]. intros Hj.
    assert (NoDup ((i :: A) ++ j :: F')) as Hnd by (rewrite ha_live; apply NoDup_seqZ).
    apply NoDup_app in Hnd as (_ & Hd & _). apply (Hd j); [by right|left]. }
  apply wp_in_pool. eapply wp_alloc_context; [exact ha_pool|]. intros q d Hd Hq Hs Hrep HjF.
  assert (arr_get q i = Some c) as Hqi by (destruct Hs as (_ & _ & ->); [done|by intros ->]).
  assert (∀ k, k ∈ A → arr_get q k = arr_get (pool s) k) as HqA.
  { intros k Hk'. destruct Hs as (_ & _ & ->); [done|]. by intros ->. }
  assert (fds_at q i = ctx_fds c) as Hfi by (unfold fds_at; by rewrite Hqi).
  apply (HQ j d F'); [|done|done]. split; cbn [pool set_pool calls wdata last]; try done.
  - destruct Hs as (-> & _ & _). rewrite <-ha_live. cbn [app].
    rewrite <-Permutation_middle. apply perm_swap.
  - by destruct Hs as (-> & _ & _).
  - intros k [->|Hk']%elem_of_cons; [by exists c|]. rewrite HqA by done. by apply ha_ctx.
  - intros k e. destruct (decide (k = j)) as [->|Hne].
    + rewrite Hq. intros [= <-]. exact (ha_pa j d Hd).
    + destruct Hs as (_ & _ & ->); [|done]. by apply ha_pa.
  - rewrite ha_open, bind_cons, Hfi. rewrite (fds_same j (pool s) q A HjA Hs). done.
  - intros f k Hf. right. destruct (ha_watch f k Hf) as [[-> Hfk]|[Hk' Hfk]].
    + split; [left|]. rewrite Hfi. apply elem_of_cons in Hfk as [->|?]; [by apply Hr in Hf|done].
    + split; [by right|]. unfold fds_at. by rewrite HqA.
Qed.

Lemma wp_ctx_read {B} i (f : conn_context → B) c s (Q : B → server → Prop) :
  arr_get (pool s) i = Some c → Q (f c) s → wp (ctx_get i f) s Q.
Proof.
  intros Hc HQ. apply wp_fmap, wp_in_pool. eapply wp_ctx_load; [exact Hc|]. by destruct s.
Qed.

(** Work on [j], with the context [i] as it is. *)
Definition beside (i : Z) (c : conn_context) (A F : list Z) (j : Z) (d : conn_context) (O : list Z) (s : server) : Prop :=
  handling L W N A F j d O s ∧ arr_get (pool s) i = Some c ∧ j ≠ i.

Lemma wp_beside_set i c A F j d O f s (Q : unit → server → Prop) :
  beside i c A F j d O s → length (pa (f d)) = length (pa d) →
  (∀ s', beside i c A F j (f d) O s' → Q () s') → wp (ctx_set j f) s Q.
Proof.
  intros (H & Hi & Hne) Hl HQ. eapply wp_ctx_set; [exact H|done|]. intros s' H' [_ (_ & _ & Hs)].
  apply HQ. split_and!; [done| |done]. rewrite Hs; [done|]. congruence.
Qed.

Lemma wp_copy_pa i c A F j d O n s (Q : unit → server → Prop) :
  beside i c A F j d O s → 0 ≤ n ≤ MAX_PROXY_ADDRESS →
  (∀ s' l, beside i c A F j (set_pa l d) O s' → Q () s') → wp (copy_pa i j n) s Q.
Proof.
  intros Hb Hn HQ. unfold copy_pa.
  eapply (wp_loop (λ m k s', 0 ≤ k ≤ n ∧ m = Z.to_nat (n - k) ∧
    ∃ l, beside i c A F j (set_pa l d) O s')) with (n := Z.to_nat n); [|split_and!; [lia..|]|lia].
  2: { exists (pa d). by destruct d. }
  intros m k s' (Hk' & -> & l & Hb'). destruct (Z.ltb_spec k n).
  - pose proof Hb' as (H' & Hi & Hne). pose proof H' as [].
    apply wp_bind, (wp_ctx_read i _ c); [done|]. apply wp_bind. eapply wp_ctx_get; [exact H'|].
    apply wp_bind, wp_assert; [apply Z.ltb_lt; lia|].
    pose proof (ha_pa _ _ Hi) as Hl1. pose proof (ha_pa _ _ ha_at) as Hl2. simpl in Hl2.
    destruct (lookup_lt_is_Some_2 (pa c) (Z.to_nat k)) as [a Ha]; [lia|].
    destruct (lookup_lt_is_Some_2 l (Z.to_nat k)) as [b Hb0]; [lia|]. simpl. rewrite Ha, Hb0.
    apply wp_bind. eapply wp_beside_set; [exact Hb'|simpl; by rewrite length_insert|].
    intros s'' Hb''. apply wp_ret. exists (Z.to_nat (n - (k + 1))). split; [lia|].
    split_and!; [lia..|]. eexists. exact Hb''.
  - apply wp_ret. by eapply HQ.
Qed.

Lemma wp_accept_loop A F i c f cpu s (Q : option Z → server → Prop) :
  handling L W N A F i c (ctx_fds c) s → 0 ≤ cpu < Z.of_nat W →
  (∀ s', handling L W N A F i c (ctx_fds c) s' → Q None s') →
  (∀ r s', 0 < r → handling L W N A F i c (r :: ctx_fds c) s' → (∀ k, (r, k) ∉ interest (calls s')) → Q (Some r) s') →
  wp (accept_loop os f cpu) s Q.
Proof.
  intros H Hcpu HN HS. unfold accept_loop. change (S (Z.to_nat ACCEPT_PER_LISTEN_EVENT)) with 2%nat. cbn [loop].
  apply wp_bind. cbn [Z.ltb Z.compare ACCEPT_PER_LISTEN_EVENT]. apply wp_bind.
  eapply wp_sys_accept; [exact Hk|exact H|..].
  - intros r s' Hr H'. apply Z.ltb_lt in Hr as ->. apply wp_bind. eapply wp_wdata_set; [exact H'|done|].
    intros s'' H'' _. apply wp_ret, wp_ret. by apply HN.
  - intros r s' Hr H' Hw. destruct (Z.ltb_spec r 0) as [|_]; [lia|]. apply wp_bind.
    eapply wp_sys_neutral; [exact H'|done|]. intros s1 H1 [E1 _]. apply wp_bind.
    eapply wp_sys_neutral; [exact H1|done|]. intros s2 H2 [E2 _]. apply wp_ret, wp_bind.
    cbn [Z.add Z.ltb Z.compare Pos.compare Pos.compare_cont]. apply wp_ret, wp_ret. apply HS; [done|done|].
    intros k. rewrite E2, neutral_interest, E1, neutral_interest by done. apply Hw.
Qed.

Ltac b_set := apply wp_bind; eapply wp_beside_set; [eassumption|simpl; reflexivity|];
  let s' := fresh "s" in let H := fresh "B" in intros s' H.
Ltac b_get := match goal with B : beside ?i ?c _ _ _ _ _ ?s |- wp (ctx_get ?i _ ≫= _) ?s _ =>
  apply wp_bind, (wp_ctx_read i _ c); [apply B|] end.

(** The end of [process_accept]: the new connection is watched or closed. *)
Lemma wp_accept_end i c A F j d r s :
  beside i c A F j d [r] s → fd d = r → end_fd d = 0 →
  (∀ e v, ctx_ok W N (set_fd_added v (set_ep_fd e (set_cpu_id (cpu_id c) d)))) →
  wp (ctx_set j (set_cpu_id (cpu_id c));;
      ep ← ctx_get i ep_fd;
      ctx_set j (set_ep_fd ep);;
      ret ← sys os (Epoll_ctl ep EPOLL_CTL_ADD r (Z.lor (Z.lor EPOLLIN EPOLLHUP) EPOLLERR) j);
      if ret <? 0 then free_back os j else ctx_set j (set_fd_added 1)) s (λ _ s', handled L W N A s').
Proof.
  intros B Hfd Hefd Hd. assert (∀ e, [r] ≡ₚ ctx_fds (set_ep_fd e (set_cpu_id (cpu_id c) d))) as Hown.
  { intros e. unfold ctx_fds. simpl. by rewrite Hfd, Hefd. }
  b_set. b_get. b_set. apply wp_bind.
  match goal with B : beside _ _ _ _ _ (set_ep_fd _ _) _ ?s |- _ => destruct B as (HB & HiB & _) end.
  eapply wp_sys_add; [exact HB|by left|]. intros ret t3 G3 E3. h_if E2; [by h_free|].
  eapply wp_ctx_set; [exact G3|done|]. intros t4 G4 _. h_keep; [apply (Hown (ep_fd c))|apply Hd].
Qed.

Lemma wp_process_accept A F i c s :
  handling L W N A F i c (ctx_fds c) s → ctx_ok W N c → handler c = process_accept_h →
  wp (process_accept os i) s (λ _ s', handled L W N (i :: A) s').
Proof.
  intros H Hok Hh. pose proof Hok as [Hcpu Hp]. rewrite Hh in Hp. destruct Hp as [Hend Hproxy].
  unfold process_accept. do 3 h_get. h_if E1.
  { apply wp_ret. exists (i :: A), F. split; [|done]. by apply (handling_end L W N A F i s c). }
  apply wp_bind. eapply wp_accept_loop; [exact H|done|..].
  { intros s' H'. apply wp_ret. exists (i :: A), F. split; [|done]. by apply (handling_end L W N A F i s' c). }
  intros r s1 Hr H1 Hw. apply wp_bind. eapply wp_alloc_connection; [exact H1|done|done|].
  intros j d F' s2 H2 Hi Hne. assert (beside i c (i :: A) F' j (fresh_ctx d) [r] s2) as B by done.
  clear s1 H1 Hw H2 Hi. b_set. b_get. apply wp_bind. h_if E2.
  - apply negb_true_iff, Z.eqb_neq in E2. destruct (Hproxy E2) as [HN Hb].
    b_set. b_set. b_get. b_set.
    eapply (wp_copy_pa i c (i :: A) F' j); [eassumption|lia|]. intros t5 l B5.
    eapply wp_accept_end; [exact B5|done|done|]. intros e v. split; [done|]. simpl. split_and!; (done || lia).
  - eapply wp_beside_set; [eassumption|done|]. intros t5 B5. eapply wp_accept_end; [exact B5|done|done|].
    intros e v. by split.
Qed.
End accept.
