(* ===== verification/ServerProps.v ===== *)
(** * mult_process_server: the contract of a worker *)
From S2P Require Import Prelude Context Server ServerFacts ServerHandlers.

(** ** Events *)

Section events.
Context (os : trace → syscall → Z) (os_data : trace → syscall → list Z).
Context (os_errno : trace → Z) (os_events : trace → list (Z * Z)) (Hk : kernel os os_events).
Context (L : list Z) (W : nat) (N : Z).

Lemma wp_process_event s A F i mask :
  server_inv L W N s A F → i ∈ A →
  wp (process_event os os_data os_errno (mask, i)) s (λ _ s', ∃ A' F',
    server_inv L W N s' A' F' ∧ ∀ j, j ∈ A → j ≠ i → j ∈ A').
Proof.
  intros Hinv Hi. destruct (si_ctx _ _ _ _ _ _ Hinv i Hi) as (c & Hc & Hok).
  apply elem_of_Permutation in Hi as [A0 HA].
  pose proof (handling_start L W N A0 F i s c A Hinv HA Hc) as H.
  unfold process_event. apply wp_bind. eapply wp_ctx_set; [exact H|done|]. clear Hinv H Hc. intros s1 H _.
  apply wp_bind. eapply wp_ctx_get; [exact H|].
  assert (∀ s', handled L W N A0 s' ∨ handled L W N (i :: A0) s' → ∃ A' F',
    server_inv L W N s' A' F' ∧ ∀ j, j ∈ A → j ≠ i → j ∈ A') as Hdone.
  { intros s' Hor. assert (handled L W N A0 s') as (A' & F' & Hinv & Hsub).
    { destruct Hor as [?|(A' & F' & ? & Hsub)]; [done|]. exists A', F'. split; [done|]. intros j Hj. apply Hsub. by right. }
    exists A', F'. split; [done|]. intros j Hj Hne. apply Hsub. rewrite HA in Hj. by apply elem_of_cons in Hj as [?|?]. }
  change (ctx_ok W N (set_events mask c)) in Hok. change (ctx_fds c) with (ctx_fds (set_events mask c)) in H.
  simpl. destruct (handler c) eqn:Hh; simpl.
  - eapply wp_mono; [eapply wp_process_accept; [exact Hk|exact H|exact Hok|exact Hh]|]. intros [] s' ?. apply Hdone. by right.
  - eapply wp_mono; [eapply wp_process_read; [exact H|exact Hok|exact Hh]|]. intros [] s' ?. apply Hdone. by left.
  - eapply wp_mono; [eapply wp_process_write; [exact H|exact Hok|exact Hh]|]. intros [] s' ?. apply Hdone. by left.
  - eapply wp_mono; [eapply wp_process_read_frontend; [exact Hk|exact H|exact Hok|exact Hh]|]. intros [] s' ?. apply Hdone. by left.
  - eapply wp_mono; [eapply wp_process_write_backend; [exact H|exact Hok|exact Hh]|]. intros [] s' ?. apply Hdone. by left.
  - eapply wp_mono; [eapply wp_process_read_backend; [exact H|exact Hok|exact Hh]|]. intros [] s' ?. apply Hdone. by left.
  - eapply wp_mono; [eapply wp_process_write_frontend; [exact H|exact Hok|exact Hh]|]. intros [] s' ?. apply Hdone. by left.
  - destruct Hok as [_ Hbad]. simpl in Hbad. by rewrite Hh in Hbad.
Qed.

Lemma wp_process_events evts s A F :
  server_inv L W N s A F → NoDup evts.*2 → (∀ i, i ∈ evts.*2 → i ∈ A) →
  wp (process_events os os_data os_errno evts) s (λ _ s', ∃ A' F', server_inv L W N s' A' F').
Proof.
  revert s A F. induction evts as [|[mask i] evts IH]; intros s A F Hinv Hnd Hin; [apply wp_ret; eauto|].
  simpl in Hnd. apply NoDup_cons in Hnd as [Hi Hnd]. apply wp_bind.
  eapply wp_mono; [eapply wp_process_event; [exact Hinv|apply Hin; left]|].
  intros [] s' (A' & F' & Hinv' & Hsub). apply (IH s' A' F'); [done|done|].
  intros j Hj. apply Hsub; [apply Hin; by right|by intros ->].
Qed.

(** ** The loop of a web server *)

Lemma server_inv_neutral s A F k r :
  server_inv L W N s A F → neutral k → server_inv L W N (set_calls ((k, r) :: calls s) s) A F.
Proof.
  intros [] Hn. assert (open_fds ((k, r) :: calls s) = open_fds (calls s)) as E1.
  { by destruct k as [| | | |? []| | | | | | | | | | | | | | | | |]. }
  split; cbn [pool set_calls calls wdata last]; rewrite ?E1, ?neutral_interest by done; done.
Qed.

Lemma wp_wdata_inv s A F cpu f (Q : unit → server → Prop) :
  server_inv L W N s A F → 0 ≤ cpu < Z.of_nat W →
  (∀ s', server_inv L W N s' A F → Q () s') → wp (wdata_set cpu f) s Q.
Proof.
  intros [] Hc HQ. destruct (lookup_lt_is_Some_2 (wdata s) (Z.to_nat cpu)) as [w Hw]; [lia|].
  apply wp_bind. unfold wp at 1, wdata_get. rewrite decide_True, Hw by lia. apply wp_modify, HQ.
  split; simpl; try done. by rewrite length_insert.
Qed.

(** Without back ends a context has one descriptor. *)
Lemma web_fds s A F i c :
  server_inv L W N s A F → N ≤ 0 → i ∈ A → arr_get (pool s) i = Some c → ctx_fds c = [fd c].
Proof.
  intros Hinv HN Hi Hc. destruct (si_ctx _ _ _ _ _ _ Hinv i Hi) as (c' & Hc' & _ & Hok).
  rewrite Hc in Hc'. injection Hc' as <-. unfold ctx_fds. rewrite decide_True; [done|].
  destruct (handler c); first [apply Hok|destruct Hok; lia|done].
Qed.

(** So the events of a batch are for different contexts, all of them live. *)
Lemma web_events s A F :
  server_inv L W N s A F → N ≤ 0 →
  NoDup (os_events (calls s)).*2 ∧ ∀ i, i ∈ (os_events (calls s)).*2 → i ∈ A.
Proof.
  intros Hinv HN. destruct (k_events _ _ Hk (calls s)) as (fds & Hnd & Hall).
  set (g := λ i, match arr_get (pool s) i with Some c => fd c | None => 0 end).
  assert (∀ f i, (f, i) ∈ interest (calls s) → i ∈ A ∧ f = g i) as Hg.
  { intros f i Hf. destruct (si_watch _ _ _ _ _ _ Hinv f i Hf) as [Hi Hfi]. split; [done|].
    destruct (si_ctx _ _ _ _ _ _ Hinv i Hi) as (c & Hc & _). unfold fds_at in Hfi. unfold g. rewrite Hc in *.
    rewrite (web_fds s A F i c) in Hfi by done. by apply list_elem_of_singleton in Hfi. }
  assert (fds = g <$> (os_events (calls s)).*2 ∧ ∀ i, i ∈ (os_events (calls s)).*2 → i ∈ A) as [Hfds HA].
  { clear Hnd. induction Hall as [|f [m i] fds evs Hf Hall [-> IH]]; [by split; [|intros ? ?%not_elem_of_nil]|].
    simpl in *. destruct (Hg f i Hf) as [Hi ->]. split; [done|]. intros j [->|Hj]%elem_of_cons; auto. }
  split; [|done]. rewrite Hfds in Hnd. by apply NoDup_fmap_1 in Hnd.
Qed.

Lemma wp_epoll_round s A F ep cpu :
  server_inv L W N s A F → N ≤ 0 → 0 ≤ cpu < Z.of_nat W →
  wp (epoll_round os os_data os_errno os_events ep cpu) s (λ _ s', ∃ A' F', server_inv L W N s' A' F').
Proof.
  intros Hinv HN Hcpu. destruct (web_events s A F Hinv HN) as [Hnd HA]. unfold epoll_round.
  apply wp_bind, wp_gets, wp_bind. set (evts := os_events (calls s)) in *.
  pose proof (k_number _ _ Hk (calls s) ep) as Hnum. fold evts in Hnum.
  set (num := os (calls s) (Epoll_wait ep EVENTS_PER_BATCH)) in *.
  assert (server_inv L W N (set_calls ((Epoll_wait ep EVENTS_PER_BATCH, num) :: calls s) s) A F) as Hinv1
    by by apply server_inv_neutral.
  unfold wp at 1, sys. fold num. apply wp_bind, wp_gets.
  match goal with |- context [if ?b then _ else _] => destruct b end; [apply wp_ret; eauto|].
  apply wp_bind. eapply wp_wdata_inv; [exact Hinv1|done|]. intros s2 Hinv2.
  apply wp_bind, wp_assert; [by apply Z.leb_le|].
  eapply wp_process_events; [exact Hinv2|..].
  - rewrite fmap_take. eapply sublist_NoDup; [exact Hnd|apply sublist_take].
  - intros i Hi. apply HA. rewrite fmap_take in Hi. eapply elem_of_take in Hi as (k & Hk' & _).
    by eapply list_elem_of_lookup_2.
Qed.

Lemma wp_epoll_rounds n s A F ep cpu :
  server_inv L W N s A F → N ≤ 0 → 0 ≤ cpu < Z.of_nat W →
  wp (epoll_rounds os os_data os_errno os_events n ep cpu) s (λ _ s', ∃ A' F', server_inv L W N s' A' F').
Proof.
  revert s A F. induction n as [|n IH]; intros s A F Hinv HN Hcpu; [apply wp_ret; eauto|].
  apply wp_bind. eapply wp_mono; [by eapply wp_epoll_round|].
  intros [] s' (A' & F' & Hinv'). by eapply IH.
Qed.
End events.

(** ** The start of a worker *)

Section start.
Context (os : trace → syscall → Z) (os_data : trace → syscall → list Z).
Context (os_errno : trace → Z) (os_events : trace → list (Z * Z)) (Hk : kernel os os_events).

(** A free context takes a descriptor of the worker over. *)
Lemma wp_alloc_listener L W N s A j F f (Q : Z → server → Prop) :
  server_inv (f :: L) W N s A (j :: F) →
  (∀ d s', handling L W N A F j (fresh_ctx d) [f] s' → Q j s') → wp (in_pool alloc_context) s Q.
Proof.
  intros [] HQ. assert (j ∉ A) as HjA.
  { intros Hj. assert (NoDup (A ++ j :: F)) as Hnd by (rewrite si_live; apply NoDup_seqZ).
    apply NoDup_app in Hnd as (_ & Hd & _). apply (Hd j); [done|left]. }
  apply wp_in_pool. eapply wp_alloc_context; [exact si_pool|]. intros q d Hd Hq Hs Hrep HjF.
  assert (∀ k, k ∈ A → arr_get q k = arr_get (pool s) k) as HqA.
  { intros k Hk'. destruct Hs as (_ & _ & ->); [done|]. by intros ->. }
  apply (HQ d). split; cbn [pool set_pool calls wdata last]; try done.
  - destruct Hs as (-> & _ & _). rewrite <-si_live. apply Permutation_middle.
  - by destruct Hs as (-> & _ & _).
  - intros k Hk'. rewrite HqA by done. by apply si_ctx.
  - intros k e. destruct (decide (k = j)) as [->|Hne].
    + rewrite Hq. intros [= <-]. exact (si_pa j d Hd).
    + destruct Hs as (_ & _ & ->); [|done]. by apply si_pa.
  - rewrite si_open. rewrite (fds_same j (pool s) q A HjA Hs). cbn [app]. by rewrite Permutation_middle.
  - intros g k Hg. right. destruct (si_watch g k Hg) as [Hk' Hgk]. split; [done|].
    unfold fds_at. by rewrite HqA.
Qed.

Lemma wp_listen_contexts L W N la cpu ep proxy n pas s A F :
  server_inv (map listen_fd la ++ L) W N s A F → 0 ≤ cpu < Z.of_nat W → (length la ≤ length F)%nat →
  (proxy ≠ 0 → n = N ∧ 0 < N ≤ MAX_PROXY_ADDRESS ∧ Z.of_nat (length pas) = MAX_PROXY_ADDRESS) →
  wp (listen_contexts os la cpu ep proxy n pas) s (λ ok s', ok = true → ∃ A' F', server_inv L W N s' A' F').
Proof.
  revert s A F. induction la as [|a la IH]; intros s A F Hinv Hcpu Hlen Hp; [apply wp_ret; eauto|].
  destruct F as [|j F]; [simpl in Hlen; lia|]. simpl. apply wp_bind.
  eapply wp_alloc_listener; [exact Hinv|]. intros d s1 H1. do 5 h_set.
  assert (∀ c' s', handling (map listen_fd la ++ L) W N A F j c' [listen_fd a] s' →
    ctx_fds c' = [listen_fd a] → ctx_ok W N c' →
    wp (ret ← sys os (Epoll_ctl ep EPOLL_CTL_ADD (listen_fd a) (Z.lor (Z.lor EPOLLIN EPOLLHUP) EPOLLERR) j);
        if ret <? 0 then mret false else listen_contexts os la cpu ep proxy n pas) s'
      (λ ok s', ok = true → ∃ A' F', server_inv L W N s' A' F')) as Hrest.
  { intros c' s' H' Hfds Hok. apply wp_bind. eapply wp_sys_add; [exact H'|by left|]. intros r t2 G2 _.
    h_if E; [by apply wp_ret|]. rewrite <-Hfds in G2.
    apply (IH t2 (j :: A) F); [by apply (handling_end _ _ _ _ _ _ _ c')|done|simpl in Hlen; lia|done]. }
  apply wp_bind, wp_when; intros E.
  - apply negb_true_iff, Z.eqb_neq in E. destruct (Hp E) as (-> & HN & Hpas). h_set.
    apply wp_bind, wp_assert; [apply Z.leb_le; lia|].
    eapply wp_ctx_set; [eassumption| |].
    + match goal with H : handling _ _ _ _ _ j _ _ ?s' |- _ =>
        pose proof (ha_pa _ _ _ _ _ _ _ _ _ H j _ (ha_at _ _ _ _ _ _ _ _ _ H)) as Hl end.
      simpl in Hl |- *. rewrite length_app, length_take, length_drop. lia.
    + intros t3 G3 _. eapply Hrest; [exact G3|done|]. split; [done|]. simpl. by split_and!.
  - apply negb_false_iff, Z.eqb_eq in E as ->. eapply Hrest; [eassumption|done|].
    split; [done|]. simpl. by split.
Qed.

(** The records of the statistics are not touched on the way. *)
Definition keeps_wdata {A} (m : SM A) : Prop := ∀ s a s', m s = Ok (a, s') → wdata s' = wdata s.

Lemma kw_bind {A B} (m : SM A) (f : A → SM B) : keeps_wdata m → (∀ a, keeps_wdata (f a)) → keeps_wdata (m ≫= f).
Proof.
  intros Hm Hf s b s'. unfold mbind, M_bind. destruct (m s) as [[a s1]| |] eqn:E; [|done..].
  intros Hs. rewrite (Hf a _ _ _ Hs). by eapply Hm.
Qed.
Lemma kw_ret {A} (a : A) : keeps_wdata (mret a).
Proof. by intros s b s' [= _ <-]. Qed.
Lemma kw_sys c : keeps_wdata (sys os c).
Proof. by intros s b s' [= _ <-]. Qed.
Lemma kw_in_pool {A} (m : PM A) : keeps_wdata (in_pool m).
Proof. intros s a s'. unfold in_pool. destruct (m (pool s)) as [[b p]| |]; [|done..]. by intros [= _ <-]. Qed.
Lemma kw_when b (m : SM unit) : keeps_wdata m → keeps_wdata (when b m).
Proof. destruct b; [done|]. intros _. apply kw_ret. Qed.
Lemma kw_assert b : keeps_wdata (assert b).
Proof. destruct b; [apply kw_ret|done]. Qed.
Lemma kw_wdata_get i : keeps_wdata (wdata_get i).
Proof.
  intros s a s'. unfold wdata_get. case_decide; [|done]. destruct (wdata s !! Z.to_nat i); [|done]. by intros [= _ <-].
Qed.
Lemma wp_and_wdata {A} (m : SM A) s (Q : A → server → Prop) :
  wp m s Q → keeps_wdata m → wp m s (λ a s', Q a s' ∧ wdata s' = wdata s).
Proof. unfold wp. intros HQ Hk'. destruct (m s) as [[a s']| |] eqn:E; [|done..]. split; [done|by eapply Hk']. Qed.

Lemma kw_ctx_set i f : keeps_wdata (ctx_set i f).
Proof. apply kw_in_pool. Qed.
Create HintDb kw.
#[local] Hint Resolve kw_ret kw_sys kw_in_pool kw_ctx_set kw_when kw_assert kw_wdata_get kw_bind : kw.

Lemma kw_listen_contexts la cpu ep proxy n pas : keeps_wdata (listen_contexts os la cpu ep proxy n pas).
Proof.
  induction la as [|a la IH]; simpl; [apply kw_ret|].
  apply kw_bind; [by auto with kw|intros j]. do 5 (apply kw_bind; [by auto with kw|intros _]).
  apply kw_bind; [by auto 6 with kw|intros _]. apply kw_bind; [by auto with kw|intros r].
  destruct (r <? 0); [by auto with kw|done].
Qed.

Lemma kw_loop {S R} (body : S → SM (S + R)) fuel l :
  (∀ l, keeps_wdata (body l)) → keeps_wdata (loop fuel body l).
Proof.
  intros Hb. revert l. induction fuel as [|fuel IH]; intros l; [by intros s a s'|]. simpl.
  apply kw_bind; [apply Hb|]. intros [l'|r]; [apply IH|apply kw_ret].
Qed.

(** A worker whose processor is not the number of a record serves no round. *)
Lemma process_clients_stuck g junk i rounds s w s' :
  0 ≤ i → wdata s !! Z.to_nat i = Some w → Z.of_nat (length (wdata s)) ≤ w_cpu_id w →
  process_clients os os_data os_errno os_events g junk i rounds s ≠ Ok (true, s').
Proof.
  intros Hi Hw Hcpu. unfold process_clients, mbind, M_bind.
  assert (wdata_get i s = Ok (w, s)) as -> by (unfold wdata_get; by rewrite decide_True, Hw).
  destruct (bind_process_cpu os (w_cpu_id w) s) as [[r s1]| |] eqn:E1; [|done..].
  assert (wdata s1 = wdata s) as Hk1.
  { revert E1. apply kw_bind; [apply kw_sys|]. intros n. case_match; auto with kw. }
  destruct (r <? 0). { by destruct (exit_cleanup os _ _ s1) as [[[] ?]| |]. }
  destruct (in_pool (init_pool MAX_CONNS_PER_WORKER junk) s1) as [[[] s2]| |] eqn:E2; [|done..].
  pose proof (kw_in_pool _ _ _ _ E2) as Hk2. unfold sys at 1.
  case_match. { by destruct (exit_cleanup os _ _ _) as [[[] ?]| |]. }
  destruct (listen_contexts os _ _ _ _ _ _ _) as [[ok s3]| |] eqn:E3; [|done..].
  pose proof (kw_listen_contexts _ _ _ _ _ _ _ _ _ E3) as Hk3. simpl in Hk3.
  destruct ok; simpl; [|by destruct (exit_cleanup os _ _ s3) as [[[] ?]| |]].
  unfold wdata_set at 1, wdata_get, mbind, M_bind. rewrite decide_True by lia.
  rewrite Hk3, Hk2, Hk1. by rewrite lookup_ge_None_2 by lia.
Qed.

(** Only neutral calls have been made. *)
Definition calm (s s' : server) : Prop :=
  pool s' = pool s ∧ wdata s' = wdata s ∧ last s' = last s ∧
  open_fds (calls s') = open_fds (calls s) ∧ interest (calls s') = interest (calls s).

Lemma wp_calm k s0 s (Q : Z → server → Prop) :
  calm s0 s → neutral k → (∀ r s', calm s0 s' → Q r s') → wp (sys os k) s Q.
Proof.
  intros (E1 & E2 & E3 & E4 & E5) Hn HQ. apply HQ. split_and!; try done; [|by rewrite <-E5; apply neutral_interest].
  rewrite <-E4. by destruct k as [| | | |? []| | | | | | | | | | | | | | | | |].
Qed.

Lemma wp_exit_cleanup pm n s (Q : unit → server → Prop) :
  n ≤ Z.of_nat (length (wdata s)) → (∀ s', Q () s') → wp (exit_cleanup os pm n) s Q.
Proof.
  intros Hn HQ. apply wp_bind. unfold stop_workers. apply wp_when; [intros _|intros _; by apply HQ].
  unfold stop_processes. apply wp_bind, wp_gets, wp_when; [intros _|intros _; by apply HQ].
  eapply (wp_loop (λ m i s', 0 ≤ i ∧ m = Z.to_nat (n - i) ∧ wdata s' = wdata s))
    with (n := Z.to_nat n); [|split_and!; (done || lia)|lia].
  intros m i s' (Hi & -> & Hw). destruct (Z.ltb_spec i n); [|apply wp_ret; apply HQ].
  destruct (lookup_lt_is_Some_2 (wdata s') (Z.to_nat i)) as [w Hwi]; [rewrite Hw; lia|].
  apply wp_bind. unfold wp at 1, wdata_get. rewrite decide_True, Hwi by lia.
  assert (∀ s1, wdata s1 = wdata s' → (Z.to_nat (n - (i + 1)) < Z.to_nat (n - i))%nat ∧
    0 ≤ i + 1 ∧ Z.to_nat (n - (i + 1)) = Z.to_nat (n - (i + 1)) ∧ wdata s1 = wdata s) as Hnext.
  { intros s1 E. split_and!; (lia || congruence). }
  apply wp_bind, wp_when; intros _.
  - apply wp_bind, wp_ret, wp_ret. eexists. by apply Hnext.
  - apply wp_ret. eexists. by apply Hnext.
Qed.

(** A worker of a web server starts and serves any number of rounds. *)
Lemma wp_process_clients L g junk i rounds s w :
  0 ≤ i → wdata s !! Z.to_nat i = Some w → 0 ≤ w_cpu_id w < Z.of_nat (length (wdata s)) →
  g_enable_proxy g = 0 → Z.of_nat (length (g_la g)) ≤ MAX_LISTEN_ADDRESS → g_num_workers g ≤ Z.of_nat (length (wdata s)) →
  Z.of_nat (length junk) = MAX_CONNS_PER_WORKER → (∀ c, c ∈ junk → Z.of_nat (length (pa c)) = MAX_PROXY_ADDRESS) →
  open_fds (calls s) ≡ₚ map listen_fd (g_la g) ++ L → NoDup (open_fds (calls s)) →
  (∀ f, f ∈ open_fds (calls s) → 0 < f < MAX_CONNS_PER_WORKER) → interest (calls s) = [] → last s = 0 →
  wp (process_clients os os_data os_errno os_events g junk i rounds) s (λ ok s',
    ok = true → ∃ A F, server_inv L (length (wdata s)) 0 s' A F).
Proof.
  intros Hi Hw Hcpu Hproxy Hla Hnw Hjl Hjunk Hopen Hnd Hrange Hwatch Hlast.
  assert (∀ s', wdata s' = wdata s → wp (exit_cleanup os (g_process_mode g) (g_num_workers g);; mret false) s'
    (λ ok s', ok = true → ∃ A F, server_inv L (length (wdata s)) 0 s' A F)) as Hexit.
  { intros s' E. apply wp_bind, wp_exit_cleanup; [by rewrite E|]. intros s''. by apply wp_ret. }
  unfold process_clients. apply wp_bind. unfold wp at 1, wdata_get. rewrite decide_True, Hw by done.
  apply wp_bind. apply (wp_mono _ _ (λ _ s', calm s s')).
  { unfold bind_process_cpu. apply wp_bind. eapply (wp_calm _ s); [by split_and!|done|]. intros n s1 Hc1.
    h_if E; [by apply wp_ret|]. by apply (wp_calm _ s). }
  intros r s1 Hc1. h_if E1; [apply Hexit, Hc1|]. clear E1 r. apply wp_bind, wp_in_pool.
  eapply wp_mono; [apply wp_init_pool; [done|exact Hjl]|]. intros [] p (Hrep & Htot & Hpa).
  assert (calm (set_pool p s) (set_pool p s1)) as Hc2.
  { destruct Hc1 as (_ & E2 & E3 & E4 & E5). by split_and!. }
  apply wp_bind. eapply wp_calm; [exact Hc2|done|]. intros ep s2 Hc3.
  h_if E2; [apply Hexit, Hc3|]. destruct Hc3 as (P1 & P2 & P3 & P4 & P5). simpl in *.
  assert (server_inv (map listen_fd (g_la g) ++ L) (length (wdata s)) 0 s2 [] (seqZ 0 MAX_CONNS_PER_WORKER)) as Hinv.
  { split; rewrite ?P1, ?P2, ?P3, ?P4, ?P5; try done; simpl.
    - by rewrite Htot.
    - by rewrite Htot.
    - by intros j ?%not_elem_of_nil.
    - intros j c [_ Hj]%arr_get_Some. assert (pa c ∈ map pa junk) as (c' & -> & Hc')%list_elem_of_fmap; [|by apply Hjunk].
      rewrite <-Hpa. apply list_elem_of_fmap. exists c. split; [done|]. by eapply list_elem_of_lookup_2.
    - by rewrite app_nil_r.
    - rewrite Hwatch. by intros f j ?%not_elem_of_nil.
    - rewrite Hlast. lia. }
  assert (wdata s2 = wdata s) as Hw2 by congruence. clear P1 P2 P3 P4 P5 Hc1 Hc2. apply wp_bind.
  eapply wp_mono; [apply wp_and_wdata; [|apply kw_listen_contexts]|].
  { eapply (wp_listen_contexts L (length (wdata s)) 0); [exact Hinv|done| |by rewrite Hproxy].
    apply Nat2Z.inj_le. rewrite length_seqZ. unfold MAX_LISTEN_ADDRESS, MAX_CONNS_PER_WORKER in *. lia. }
  intros ok s3 [Hok Hw3]. rewrite Hw2 in Hw3. destruct ok; cbn [negb]; [|by apply Hexit].
  destruct (Hok eq_refl) as (A & F & Hinv3). apply wp_bind. eapply wp_wdata_inv; [exact Hinv3|done|].
  intros s4 Hinv4. apply wp_bind. eapply wp_mono; [by eapply wp_epoll_rounds|].
  intros [] s5 Hinv5. by apply wp_ret.
Qed.
End start.

(** ** What the invariant does not allow *)

Section broken.
Context (os : trace → syscall → Z) (os_data : trace → syscall → list Z) (os_errno : trace → Z).

(** [free_back] on whatever context. *)
Lemma wp_free_back_raw i c s (Q : unit → server → Prop) :
  arr_get (pool s) i = Some c → 0 < allocated (pool s) →
  (∀ s', arr_get (pool s') i = Some (set_next_idx (next_idx (pool s)) c) → next_idx (pool s') = i →
     allocated (pool s') = allocated (pool s) - 1 → total (pool s') = total (pool s) → Q () s') →
  wp (free_back os i) s Q.
Proof.
  intros Hc Ha HQ.
  assert (∀ k s1 (R : Z → server → Prop), pool s1 = pool s → (∀ r s2, pool s2 = pool s → R r s2) → wp (sys os k) s1 R) as Hsys.
  { intros k s1 R E HR. by apply HR. }
  assert (∀ {B} (f : conn_context → B) s1 (R : B → server → Prop), pool s1 = pool s → R (f c) s1 → wp (ctx_get i f) s1 R) as Hget.
  { intros B f s1 R E HR. apply (wp_ctx_read i f c); [by rewrite E|done]. }
  assert (wp (process_close os i) s (λ _ s', pool s' = pool s)) as Hclose.
  { unfold process_close. do 4 (apply wp_bind, Hget; [done|]). apply wp_bind.
    apply (wp_mono _ _ (λ _ s', pool s' = pool s)).
    { apply wp_when; [intros _|done]. by apply wp_bind, Hsys. }
    intros [] s1 E1. apply wp_bind, Hsys; [done|]. intros _ s2 E2. apply wp_when; [intros _|done].
    apply wp_bind, Hget; [done|]. apply wp_bind. apply (wp_mono _ _ (λ _ s', pool s' = pool s)).
    { apply wp_when; [intros _|done]. by apply wp_bind, Hsys. }
    intros [] s3 E3. by apply wp_bind, Hsys. }
  apply wp_bind. eapply wp_mono; [exact Hclose|]. intros [] s1 E1. apply wp_in_pool.
  apply wp_bind, wp_get, wp_bind, wp_assert; [rewrite E1; by apply Z.gtb_lt|].
  apply wp_bind, wp_put, wp_bind. eapply wp_ctx_update; [rewrite E1; exact Hc|]. apply wp_modify.
  apply HQ; simpl; rewrite ?E1; try done.
  assert (arr_get (arr_set (pool s) i (set_next_idx (next_idx (pool s)) c)) i = Some (set_next_idx (next_idx (pool s)) c)) as H1; [|exact H1].
  rewrite (arr_get_set _ _ _ _ c) by done. by rewrite decide_True.
Qed.

(** The event of an error on a context whose handler writes to the back end. *)
Lemma wp_error_event i mask c s (Q : unit → server → Prop) :
  arr_get (pool s) i = Some c → handler c = process_write_backend_h → 0 < allocated (pool s) →
  Z.land mask (Z.lor EPOLLHUP EPOLLERR) ≠ 0 →
  (∀ s', arr_get (pool s') i = Some (set_next_idx (next_idx (pool s)) (set_events mask c)) → next_idx (pool s') = i →
     allocated (pool s') = allocated (pool s) - 1 → total (pool s') = total (pool s) → Q () s') →
  wp (process_event os os_data os_errno (mask, i)) s Q.
Proof.
  intros Hc Hh Ha Hm HQ. unfold process_event. apply wp_bind, wp_in_pool.
  eapply wp_ctx_update; [exact Hc|]. set (s1 := set_pool (arr_set (pool s) i (set_events mask c)) s).
  assert (arr_get (pool s1) i = Some (set_events mask c)) as Hc1.
  { unfold s1. simpl. rewrite (arr_get_set _ _ _ _ c) by done. by rewrite decide_True. }
  apply wp_bind, (wp_ctx_read i _ (set_events mask c)); [exact Hc1|]. simpl. rewrite Hh. simpl.
  unfold process_write_backend. do 5 (apply wp_bind, (wp_ctx_read i _ (set_events mask c)); [exact Hc1|]).
  simpl. apply Z.eqb_neq in Hm as ->. simpl. eapply wp_free_back_raw; [exact Hc1|done|exact HQ].
Qed.

Lemma wp_double_event i m1 m2 c s :
  arr_get (pool s) i = Some c → handler c = process_write_backend_h → 2 ≤ allocated (pool s) ≤ total (pool s) →
  Z.land m1 (Z.lor EPOLLHUP EPOLLERR) ≠ 0 → Z.land m2 (Z.lor EPOLLHUP EPOLLERR) ≠ 0 →
  wp (process_events os os_data os_errno [(m1, i); (m2, i)];;
      a ← in_pool alloc_context; b ← in_pool alloc_context; mret (a, b)) s
    (λ '(a, b) s', a = i ∧ b = i ∧ in_pool alloc_context s' = UB).
Proof.
  intros Hc Hh Ha Hm1 Hm2. apply wp_bind, wp_bind.
  eapply wp_error_event; [exact Hc|done|lia|done|]. intros s1 Hc1 Hn1 Ha1 Ht1.
  apply wp_bind. eapply wp_error_event; [exact Hc1|done|lia|done|]. intros s2 Hc2 Hn2 Ha2 Ht2.
  rewrite Hn1 in Hc2. apply wp_ret, wp_bind, wp_in_pool.
  eapply wp_alloc_raw; [exact Hn2|exact Hc2|lia|]. intros q1 Hq1 (T1 & _ & _) Hn3 Ha3.
  apply wp_bind, wp_in_pool. eapply wp_alloc_raw; [exact Hn3|exact Hq1|simpl; lia|].
  intros q2 Hq2 (T2 & _ & _) Hn4 Ha4. apply wp_ret. split_and!; [done|done|].
  unfold in_pool, alloc_context, mbind, M_bind, get, assert, put, ctx_load. cbn [pool set_pool] in *.
  destruct (Z.ltb_spec (allocated q2) (total q2)); [|done]. simpl. rewrite Hn4. done.
Qed.

(** With no back ends the index of the next one only grows. *)
Lemma select_backend_step i c s l :
  arr_get (pool s) i = Some c → pa_num c = 0 → Z.of_nat (length (pa c)) = MAX_PROXY_ADDRESS →
  last s = l → 0 ≤ l < MAX_PROXY_ADDRESS →
  ∃ r, select_backend i s = Ok (r, set_last (l + 1) s).
Proof.
  intros Hc Hn Hpa Hl Hb. destruct (lookup_lt_is_Some_2 (pa c) (Z.to_nat l)) as [a Ha]; [lia|].
  exists (htons (param_port a), proxyip a).
  assert (wp (select_backend i) s (λ r s', r = (htons (param_port a), proxyip a) ∧ s' = set_last (l + 1) s)) as Hwp.
  { unfold select_backend. apply wp_bind, wp_gets. apply wp_bind, (wp_ctx_read i _ c); [done|].
    apply wp_bind, wp_assert; [apply Z.ltb_lt; lia|]. rewrite Hl, Ha. apply wp_bind, wp_modify.
    apply wp_bind, (wp_ctx_read i _ c); [done|]. rewrite Hn. destruct (Z.eqb_spec (l + 1) 0); [lia|]. done. }
  apply wp_ok in Hwp as (r & s' & -> & -> & ->). done.
Qed.

Lemma select_backend_end i c s :
  arr_get (pool s) i = Some c → last s = MAX_PROXY_ADDRESS → select_backend i s = UB.
Proof.
  intros Hc Hl. unfold select_backend, mbind, M_bind, gets, ctx_get, in_pool, ctx_load, fmap, M_fmap.
  by rewrite Hl, Hc.
Qed.

(** [n] connections one after the other. *)
Fixpoint select_many (n : nat) (i : Z) : SM unit :=
  match n with
  | O => mret ()
  | S n => _ ← select_backend i; select_many n i
  end.

Lemma select_many_runs i c s n l :
  arr_get (pool s) i = Some c → pa_num c = 0 → Z.of_nat (length (pa c)) = MAX_PROXY_ADDRESS →
  last s = l → 0 ≤ l → l + Z.of_nat n = MAX_PROXY_ADDRESS →
  ∃ s', select_many n i s = Ok ((), s') ∧ select_backend i s' = UB.
Proof.
  intros Hc Hn Hpa. revert s l Hc. induction n as [|n IH]; intros s l Hc Hl H0 Hsum.
  - exists s. split; [done|]. apply (select_backend_end i c); [done|lia].
  - destruct (select_backend_step i c s l) as [r Hr]; [done..|lia|]. simpl. unfold mbind, M_bind. rewrite Hr.
    apply (IH _ (l + 1)); [done|done|lia|lia].
Qed.
End broken.

(** ** Statistics *)

(** The requests of the records since their last figures. *)
Definition new_requests (ws : list worker_data) : Z :=
  foldr Z.add 0 (map (λ w, trancnt w - trancnt_prev w) ws).

Lemma new_requests_snoc ds w : new_requests (ds ++ [w]) = new_requests ds + (trancnt w - trancnt_prev w).
Proof. unfold new_requests. induction ds as [|d ds IH]; simpl in *; lia. Qed.

Lemma wp_stats_alarm s n :
  n = Z.of_nat (length (wdata s)) →
  wp (stats_alarm n) s (λ r s', r = ulong (new_requests (wdata s)) ∧
    s' = set_wdata (map set_trancnt_prev (wdata s)) s).
Proof.
  intros ->. unfold stats_alarm. set (n := length (wdata s)). rewrite Nat2Z.id.
  eapply (wp_loop (λ m '(i, sum) s', ∃ ds ts, wdata s = ds ++ ts ∧ i = Z.of_nat (length ds) ∧ m = length ts ∧
    sum = ulong (new_requests ds) ∧ s' = set_wdata (map set_trancnt_prev ds ++ ts) s)) with (n := n);
    [|exists [], (wdata s); split_and!; try done; by destruct s|lia].
  intros m [i sum] s' (ds & ts & Hw & -> & -> & -> & ->).
  assert (n = length ds + length ts)%nat as Hn by (unfold n; by rewrite Hw, length_app).
  destruct (Z.ltb_spec (Z.of_nat (length ds)) (Z.of_nat n)) as [Hlt|Hge].
  - destruct ts as [|w ts]; [simpl in Hn; lia|].
    assert ((map set_trancnt_prev ds ++ w :: ts) !! length ds = Some w) as Hlk.
    { rewrite lookup_app_r; rewrite length_map; [|done]. by rewrite Nat.sub_diag. }
    assert (wdata_get (Z.of_nat (length ds)) (set_wdata (map set_trancnt_prev ds ++ w :: ts) s) =
      Ok (w, set_wdata (map set_trancnt_prev ds ++ w :: ts) s)) as Hget.
    { unfold wdata_get. rewrite decide_True, Nat2Z.id by lia. simpl. by rewrite Hlk. }
    apply wp_bind. unfold wp at 1. rewrite Hget. apply wp_bind, wp_bind. unfold wp at 1. rewrite Hget.
    apply wp_modify, wp_ret. exists (length ts). split; [simpl; lia|].
    exists (ds ++ [w]), ts. split_and!.
    + by rewrite <-app_assoc.
    + rewrite length_app. simpl. lia.
    + done.
    + rewrite new_requests_snoc. unfold ulong, wrap. by rewrite Zplus_mod_idemp_l.
    + unfold set_wdata. simpl. f_equal. rewrite Nat2Z.id, map_app, <-app_assoc. simpl.
      rewrite insert_app_r_alt by (rewrite length_map; lia). by rewrite length_map, Nat.sub_diag.
  - apply wp_ret. destruct ts as [|w ts]; [|simpl in Hn; lia]. rewrite app_nil_r in *. by subst ds.
Qed.

(** ** The properties *)

(** The pool is a stack of free contexts: an allocation takes the first of the
    chain, with its descriptors reset, and leaves the others alone; giving it
    back restores the chain. *)
Theorem context_pool_roundtrip p i F :
  pool_rep p (i :: F) →
  wp (r ← alloc_context; free_context r;; mret r) p (λ r q, r = i ∧ pool_rep q (i :: F) ∧ same_but i p q ∧
    ∃ c, arr_get q i = Some c ∧ fd c = 0 ∧ fd_added c = 0 ∧ end_fd c = 0 ∧ end_fd_added c = 0).
Proof.
  intros Hrep. apply wp_bind. eapply wp_alloc_context; [exact Hrep|]. intros q c Hc Hq Hs Hrep' Hi.
  apply wp_bind. eapply wp_free_context; [exact Hrep'|done|exact Hq|]. intros q' Hq' Hs' Hrep''. apply wp_ret.
  split_and!; [done|done|by etrans|]. by eexists.
Qed.

(** C6: The handlers keep the invariant of a worker, for a batch of events on
    different live contexts, whatever the kernel answers: no assertion fails,
    no context is used after it was given back, and every descriptor that is
    open belongs to one live context. *)
Theorem process_events_invariant os os_data os_errno os_events L W N evts s A F :
  kernel os os_events → server_inv L W N s A F → NoDup evts.*2 → (∀ i, i ∈ evts.*2 → i ∈ A) →
  wp (process_events os os_data os_errno evts) s (λ _ s', ∃ A' F', server_inv L W N s' A' F').
Proof. intros Hk. by apply (wp_process_events os os_data os_errno os_events Hk). Qed.

(** C27: A worker of a web server, from the start of the process: it makes its pool
    and watches the listening sockets, then serves any number of rounds without
    an error, however many connections come, and never leaks a descriptor; or
    it exits because the kernel refused it something at the start. *)
Theorem worker_serves os os_data os_errno os_events L g junk i rounds s w :
  kernel os os_events →
  0 ≤ i → wdata s !! Z.to_nat i = Some w → 0 ≤ w_cpu_id w < Z.of_nat (length (wdata s)) →
  g_enable_proxy g = 0 → Z.of_nat (length (g_la g)) ≤ MAX_LISTEN_ADDRESS →
  g_num_workers g ≤ Z.of_nat (length (wdata s)) →
  Z.of_nat (length junk) = MAX_CONNS_PER_WORKER → (∀ c, c ∈ junk → Z.of_nat (length (pa c)) = MAX_PROXY_ADDRESS) →
  open_fds (calls s) ≡ₚ map listen_fd (g_la g) ++ L → NoDup (open_fds (calls s)) →
  (∀ f, f ∈ open_fds (calls s) → 0 < f < MAX_CONNS_PER_WORKER) → interest (calls s) = [] → last s = 0 →
  wp (process_clients os os_data os_errno os_events g junk i rounds) s (λ ok s',
    ok = true → ∃ A F, server_inv L (length (wdata s)) 0 s' A F).
Proof. intros Hk. by apply wp_process_clients. Qed.

(** Both sockets of a proxied connection are watched with the same context, so
    that a batch may hold two events on it.  When both report an error, the
    context is closed and given back twice: the next two connections get the
    same context, and the one after that indexes the pool with -1. *)
Theorem double_event_breaks os os_data os_errno i m1 m2 c s :
  arr_get (pool s) i = Some c → handler c = process_write_backend_h → 2 ≤ allocated (pool s) ≤ total (pool s) →
  Z.land m1 (Z.lor EPOLLHUP EPOLLERR) ≠ 0 → Z.land m2 (Z.lor EPOLLHUP EPOLLERR) ≠ 0 →
  wp (process_events os os_data os_errno [(m1, i); (m2, i)];;
      a ← in_pool alloc_context; b ← in_pool alloc_context; mret (a, b)) s
    (λ '(a, b) s', a = i ∧ b = i ∧ in_pool alloc_context s' = UB).
Proof. apply wp_double_event. Qed.

(** A worker counts in [wdata[cpu_id]], but there is one record per worker: a
    worker whose processor is not below the number of workers, as [-c] makes
    the last ones, does not get to its first round. *)
Theorem worker_off_by_start_cpu os os_data os_errno os_events g junk i rounds s w s' :
  0 ≤ i → wdata s !! Z.to_nat i = Some w → Z.of_nat (length (wdata s)) ≤ w_cpu_id w →
  process_clients os os_data os_errno os_events g junk i rounds s ≠ Ok (true, s').
Proof. apply process_clients_stuck. Qed.

(** A proxy without back ends ([-x] before something that is not an address)
    takes uninitialised addresses for 32 connections and reads past the array
    for the next. *)
Theorem select_backend_runs_off i c s :
  arr_get (pool s) i = Some c → pa_num c = 0 → Z.of_nat (length (pa c)) = MAX_PROXY_ADDRESS → last s = 0 →
  ∃ s', select_many 32 i s = Ok ((), s') ∧ select_backend i s' = UB.
Proof. intros Hc Hn Hpa Hl. by apply (select_many_runs i c s 32 0). Qed.

(** An alarm prints the requests that all workers together have served since
    the last alarm, modulo 2^64, and marks them as printed. *)
Theorem stats_alarm_spec s n :
  n = Z.of_nat (length (wdata s)) →
  wp (stats_alarm n) s (λ r s', r = ulong (new_requests (wdata s)) ∧
    s' = set_wdata (map set_trancnt_prev (wdata s)) s).
Proof. apply wp_stats_alarm. Qed.

(** ** Witnesses *)

(** A kernel that gives the next descriptor and one event at a time. *)
Definition demo_events (t : trace) : list (Z * Z) :=
  match interest t with [] => [] | (_, i) :: _ => [(EPOLLIN, i)] end.
Definition demo_os (t : trace) (c : syscall) : Z :=
  let next := 1 + foldr Z.max 0 (open_fds t) in
  match c with
  | Accept _ | Socket => if next <? MAX_CONNS_PER_WORKER then next else -1
  | Epoll_wait _ _ => Z.of_nat (length (demo_events t))
  | Sysconf_nprocessors => 4
  | _ => 0
  end.

Lemma demo_kernel : kernel demo_os demo_events.
Proof.
  assert (∀ t, let next := 1 + foldr Z.max 0 (open_fds t) in 0 < next ∧ next ∉ open_fds t) as Hnext.
  { intros t. cbv zeta. assert (0 ≤ foldr Z.max 0 (open_fds t)) as H0.
    { induction (open_fds t) as [|x l IH]; simpl; lia. }
    split; [lia|]. intros Hin%max_fold_le. lia. }
  split.
  - intros t fd. unfold demo_os. cbv zeta. destruct (Hnext t).
    destruct (Z.ltb_spec (1 + foldr Z.max 0 (open_fds t)) MAX_CONNS_PER_WORKER); [|lia]. intros _. done.
  - intros t. unfold demo_os. cbv zeta. destruct (Hnext t).
    destruct (Z.ltb_spec (1 + foldr Z.max 0 (open_fds t)) MAX_CONNS_PER_WORKER); [|lia]. intros _. done.
  - intros t ep. done.
  - intros t. unfold demo_events. destruct (interest t) as [|[f i] l].
    + exists []. by repeat constructor.
    + exists [f]. split; [apply NoDup_singleton|]. repeat constructor.
Qed.

Definition demo_data (t : trace) (c : syscall) : list Z := [71; 69; 84].
Definition demo_errno (t : trace) : Z := 0.
Definition demo_pa : list proxy_addr := replicate 32 (Proxy_addr 0 0).
Definition demo_junk : conn_context := Ctx 0 0 0 0 0 0 0 junk_h 0 0 0 [] 0 demo_pa 0.
Definition demo_listener : conn_context := Ctx 3 1 0 0 0 4 0 process_accept_h 0 0 (-1) [] 0 demo_pa 0.

(** A worker with one listening socket, in the context 0. *)
Definition demo_ctx (j : Z) : conn_context :=
  if decide (j = 0) then demo_listener else set_next_idx (if decide (j = 8191) then -1 else j + 1) demo_junk.
Definition demo_arr : list conn_context := demo_ctx <$> seqZ 0 8192.
Definition demo_pool : context_pool := Pool 8192 1 1 demo_arr.
Definition demo_server : server :=
  Server demo_pool [zero_worker] 0 [(Epoll_ctl 4 EPOLL_CTL_ADD 3 25 0, 0); (Socket, 3)].

Lemma demo_length : Z.of_nat (length demo_arr) = 8192.
Proof. unfold demo_arr. rewrite length_fmap, length_seqZ. lia. Qed.

Lemma demo_get j : 0 ≤ j < 8192 → arr_get demo_pool j = Some (demo_ctx j).
Proof.
  intros Hj. apply arr_get_Some. cbn [arr demo_pool]. rewrite demo_length. split; [lia|].
  unfold demo_arr. rewrite list_lookup_fmap. assert (seqZ 0 8192 !! Z.to_nat j = Some j) as ->; [|done].
  apply lookup_seqZ. lia.
Qed.
#[local] Opaque demo_arr.

Lemma demo_inv : server_inv [] 1 0 demo_server [0] (seqZ 1 8191).
Proof.
  split.
  - split; cbn [pool demo_server].
    + pose proof (chain_seq demo_pool (Z.to_nat 8191) 1) as H. rewrite decide_False in H by lia.
      rewrite Z2Nat.id in H by lia. cbn [arr demo_pool] in H. rewrite demo_length in H. apply H; [lia|lia|]. intros j Hj.
      exists (demo_ctx j). split; [apply demo_get; lia|]. unfold demo_ctx. rewrite decide_False by lia. simpl.
      repeat case_decide; lia.
    + apply NoDup_seqZ.
    + cbn [arr demo_pool total]. by rewrite demo_length.
    + rewrite length_seqZ. cbn [total allocated demo_pool]. lia.
  - cbn [pool demo_server total demo_pool app]. rewrite (seqZ_cons 0 8192) by lia. done.
  - done.
  - intros i ->%list_elem_of_singleton. exists demo_listener. split; [apply (demo_get 0); lia|].
    split; [done|]. split; [done|]. by intros [].
  - intros i c Hg. cbn [pool demo_server] in Hg. apply arr_get_Some in Hg as Hi. destruct Hi as [Hi _].
    cbn [arr demo_pool] in Hi. rewrite demo_length in Hi. rewrite demo_get in Hg by lia. injection Hg as <-. unfold demo_ctx. by case_decide.
  - cbn [pool demo_server app calls]. rewrite bind_cons. unfold fds_at. rewrite demo_get by lia. done.
  - simpl. apply NoDup_singleton.
  - intros f. simpl. intros ->%list_elem_of_singleton. done.
  - intros f i. simpl. intros [= -> ->]%list_elem_of_singleton. split; [left|].
    unfold fds_at. rewrite demo_get by lia. left.
  - done.
  - done.
Qed.

Lemma context_pool_roundtrip_witness :
  wp (r ← alloc_context; free_context r;; mret r) demo_pool (λ r q, r = 1 ∧ pool_rep q (1 :: seqZ 2 8190) ∧
    same_but 1 demo_pool q ∧
    ∃ c, arr_get q 1 = Some c ∧ fd c = 0 ∧ fd_added c = 0 ∧ end_fd c = 0 ∧ end_fd_added c = 0).
Proof.
  apply (context_pool_roundtrip demo_pool 1 (seqZ 2 8190)). pose proof (si_pool _ _ _ _ _ _ demo_inv) as H.
  rewrite (seqZ_cons 1 8191) in H by lia. exact H.
Defined.

Lemma process_events_invariant_witness :
  wp (process_events demo_os demo_data demo_errno [(EPOLLIN, 0)]) demo_server
    (λ _ s', ∃ A' F', server_inv [] 1 0 s' A' F').
Proof.
  apply (process_events_invariant demo_os demo_data demo_errno demo_events [] 1 0 [(EPOLLIN, 0)] demo_server [0]
    (seqZ 1 8191) demo_kernel demo_inv).
  - apply NoDup_singleton.
  - intros i Hi. exact Hi.
Defined.

Definition demo_globals : globals := Globals 1 1 0 [Listen_addr 80 0 3] 0 0 demo_pa.
Definition demo_start : server := Server (Pool 0 0 0 []) [zero_worker] 0 [(Socket, 3)].
Definition demo_mem : list conn_context := replicate (Z.to_nat 8192) demo_junk.

Lemma demo_mem_length : Z.of_nat (length demo_mem) = MAX_CONNS_PER_WORKER.
Proof. unfold demo_mem. rewrite length_replicate. unfold MAX_CONNS_PER_WORKER. lia. Qed.
Lemma demo_mem_pa c : c ∈ demo_mem → Z.of_nat (length (pa c)) = MAX_PROXY_ADDRESS.
Proof. by intros [-> _]%elem_of_replicate. Qed.

Lemma worker_serves_witness :
  wp (process_clients demo_os demo_data demo_errno demo_events demo_globals demo_mem 0 5) demo_start (λ ok s',
    ok = true → ∃ A F, server_inv [] (length (wdata demo_start)) 0 s' A F).
Proof.
  apply (worker_serves demo_os demo_data demo_errno demo_events [] demo_globals demo_mem 0 5 demo_start zero_worker demo_kernel).
  - lia.
  - reflexivity.
  - simpl. lia.
  - reflexivity.
  - simpl. unfold MAX_LISTEN_ADDRESS. lia.
  - simpl. lia.
  - exact demo_mem_length.
  - exact demo_mem_pa.
  - reflexivity.
  - apply NoDup_singleton.
  - simpl. intros f Hf%list_elem_of_singleton. subst f. unfold MAX_CONNS_PER_WORKER. lia.
  - reflexivity.
  - reflexivity.
Defined.

(** Two contexts in use; the second writes to its back end. *)
Definition demo_conn : conn_context := Ctx 5 1 6 1 1 4 0 process_write_backend_h 0 3 (-1) [1; 2; 3] 1 demo_pa 1.
Definition demo_proxy : server :=
  Server (Pool 3 2 2 [demo_listener; demo_conn; demo_junk]) [zero_worker] 0 [].

Lemma double_event_breaks_witness :
  wp (process_events demo_os demo_data demo_errno [(EPOLLHUP, 1); (EPOLLERR, 1)];;
      a ← in_pool alloc_context; b ← in_pool alloc_context; mret (a, b)) demo_proxy
    (λ '(a, b) s', a = 1 ∧ b = 1 ∧ in_pool alloc_context s' = UB).
Proof.
  apply (double_event_breaks demo_os demo_data demo_errno 1 EPOLLHUP EPOLLERR demo_conn demo_proxy).
  - reflexivity.
  - reflexivity.
  - simpl. lia.
  - discriminate.
  - discriminate.
Defined.

(** Two workers with [-c 1]: the second is bound to processor 2. *)
Definition demo_two : server :=
  Server (Pool 0 0 0 []) [set_worker 1 zero_worker; set_worker 2 zero_worker] 0 [].

Lemma worker_off_by_start_cpu_witness :
  process_clients demo_os demo_data demo_errno demo_events demo_globals demo_mem 1 5 demo_two ≠ Ok (true, demo_two).
Proof.
  apply (worker_off_by_start_cpu demo_os demo_data demo_errno demo_events demo_globals demo_mem 1 5 demo_two
    (set_worker 2 zero_worker) demo_two).
  - lia.
  - reflexivity.
  - simpl. lia.
Defined.

Lemma select_backend_runs_off_witness :
  ∃ s', select_many 32 0 demo_proxy = Ok ((), s') ∧ select_backend 0 s' = UB.
Proof. by apply (select_backend_runs_off 0 demo_listener demo_proxy). Defined.

Lemma stats_alarm_spec_witness :
  wp (stats_alarm 2) demo_two (λ r s', r = ulong (new_requests (wdata demo_two)) ∧
    s' = set_wdata (map set_trancnt_prev (wdata demo_two)) demo_two).
Proof. by apply (stats_alarm_spec demo_two 2). Defined.
