(* ===== verification/ServerMain.v ===== *)
(** * mult_process_server: the command line

    [main] of [server.c]: the options, their defaults and the order of the
    start.  [atoi], [inet_aton] and [sscanf] with "%d" are parameters: the last
    two give nothing when the text is no address or number. *)
From S2P Require Import Prelude Context Server.
From Stdlib Require Import Ascii.

Record options := Options {
  o_debug : bool; o_verbose : bool; o_log_path : option string;
  o_start_cpu : Z; o_process_mode : Z; o_num_workers : Z;
  o_la : list listen_addr; o_la_num : Z;
  o_proxy : Z; o_pa : list proxy_addr; o_pa_num : Z;
}.

(** The global variables before [main]. *)
Definition default_options : options :=
  Options false false None 0 0 0 (replicate (Z.to_nat MAX_LISTEN_ADDRESS) (Listen_addr 0 0 0)) 0
    0 (replicate (Z.to_nat MAX_PROXY_ADDRESS) (Proxy_addr 0 0)) 0.

Definition set_log (p : string) (o : options) : options :=
  Options (o_debug o) (o_verbose o) (Some p) (o_start_cpu o) (o_process_mode o) (o_num_workers o) (o_la o) (o_la_num o) (o_proxy o) (o_pa o) (o_pa_num o).
Definition set_debug (o : options) : options :=
  Options true (o_verbose o) (o_log_path o) (o_start_cpu o) (o_process_mode o) (o_num_workers o) (o_la o) (o_la_num o) (o_proxy o) (o_pa o) (o_pa_num o).
Definition set_verbose (o : options) : options :=
  Options (o_debug o) true (o_log_path o) (o_start_cpu o) (o_process_mode o) (o_num_workers o) (o_la o) (o_la_num o) (o_proxy o) (o_pa o) (o_pa_num o).
Definition set_start_cpu (v : Z) (o : options) : options :=
  Options (o_debug o) (o_verbose o) (o_log_path o) v (o_process_mode o) (o_num_workers o) (o_la o) (o_la_num o) (o_proxy o) (o_pa o) (o_pa_num o).
Definition set_workers (m v : Z) (o : options) : options :=
  Options (o_debug o) (o_verbose o) (o_log_path o) (o_start_cpu o) m v (o_la o) (o_la_num o) (o_proxy o) (o_pa o) (o_pa_num o).
Definition set_la (l : list listen_addr) (n : Z) (o : options) : options :=
  Options (o_debug o) (o_verbose o) (o_log_path o) (o_start_cpu o) (o_process_mode o) (o_num_workers o) l n (o_proxy o) (o_pa o) (o_pa_num o).
Definition set_backends (l : list proxy_addr) (n : Z) (o : options) : options :=
  Options (o_debug o) (o_verbose o) (o_log_path o) (o_start_cpu o) (o_process_mode o) (o_num_workers o) (o_la o) (o_la_num o) (o_proxy o) l n.
Definition set_proxy (o : options) : options :=
  Options (o_debug o) (o_verbose o) (o_log_path o) (o_start_cpu o) (o_process_mode o) (o_num_workers o) (o_la o) (o_la_num o) 1 (o_pa o) (o_pa_num o).

(** [strchr(s, ':')]: what is before the first colon and what is after it. *)
Fixpoint split_colon (s : string) : option (string * string) :=
  match s with
  | EmptyString => None
  | String c s =>
      if decide (c = ":"%char) then Some (EmptyString, s)
      else match split_colon s with Some (a, b) => Some (String c a, b) | None => None end
  end.

Section main.
Context (atoi : string → Z) (inet_aton sscanf_d : string → option Z).

(** [inet_aton] and [sscanf] leave the variable when they fail; the name is cut
    at the 32 bytes of [param_ip]. *)
Definition parse_listen (ip port : string) (a : listen_addr) : listen_addr :=
  Listen_addr (default (l_param_port a) (sscanf_d port)) (default (listenip a) (inet_aton (String.substring 0 32 ip))) (listen_fd a).
Definition parse_proxy (ip port : string) (a : proxy_addr) : proxy_addr :=
  Proxy_addr (default (param_port a) (sscanf_d port)) (default (proxyip a) (inet_aton (String.substring 0 32 ip))).

(** The addresses after [-a], from the index [i] on: the arguments left, the
    array and [la_num]. *)
Fixpoint listen_args (i : Z) (args : list string) (l : list listen_addr) (n : Z) : list string * list listen_addr * Z :=
  match args with
  | [] => ([], l, n)
  | a :: rest =>
      if i <? MAX_LISTEN_ADDRESS then
        match split_colon a with
        | Some (ip, port) => listen_args (i + 1) rest (alter (parse_listen ip port) (Z.to_nat i) l) (n + 1)
        | None => (args, l, n)
        end
      else (args, l, n)
  end.

Fixpoint proxy_args (i : Z) (args : list string) (l : list proxy_addr) (n : Z) : list string * list proxy_addr * Z :=
  match args with
  | [] => ([], l, n)
  | a :: rest =>
      if i <? MAX_PROXY_ADDRESS then
        match split_colon a with
        | Some (ip, port) => proxy_args (i + 1) rest (alter (parse_proxy ip port) (Z.to_nat i) l) (n + 1)
        | None => (args, l, n)
        end
      else (args, l, n)
  end.

(** The label [again], for the arguments after the name of the program; [None]
    when the rounds are used up. *)
Fixpoint parse_args (fuel : nat) (args : list string) (o : options) : option options :=
  match fuel with
  | O => None
  | S fuel =>
      match args with
      | [] => Some o
      | a :: rest =>
          if String.eqb a "-d" then parse_args fuel rest (set_debug o) else
          if String.eqb a "-v" then parse_args fuel rest (set_verbose o) else
          match rest with
          | [] => Some o
          | v :: rest' =>
              if String.eqb a "-o" then parse_args fuel rest' (set_log v o) else
              if String.eqb a "-c" then parse_args fuel rest' (set_start_cpu (atoi v) o) else
              if String.eqb a "-w" then parse_args fuel rest' (set_workers 1 (atoi v) o) else
              if String.eqb a "-a" then
                let '(more, l, n) := listen_args 0 rest (o_la o) (o_la_num o) in
                parse_args fuel more (set_la l n o)
              else if String.eqb a "-x" then
                let '(more, l, n) := proxy_args 0 rest (o_pa o) (o_pa_num o) in
                parse_args fuel more (set_backends l n (set_proxy o))
              else Some o
          end
      end
  end.

(** The defaults on a machine with [cpus] processors; [None] when the assertion
    on the number of workers fails. *)
Definition main_defaults (cpus : Z) (o : options) : option options :=
  let m := if o_process_mode o =? 0 then 1 else o_process_mode o in
  let w := if o_num_workers o =? 0 then cpus else o_num_workers o in
  if (1 <=? w) && (w <=? cpus) then
    let o := set_workers m w o in
    Some (if o_la_num o =? 0 then
            set_la (alter (λ a, Listen_addr 80 (default (listenip a) (inet_aton "0.0.0.0")) (listen_fd a)) 0%nat (o_la o)) 1 o
          else o)
  else None.

(** What the processes get; the loops over [la] and [pa] go to [la_num] and
    [pa_num], past the arrays when these count more than they hold. *)
Definition main_globals (o : options) : option globals :=
  if o_la_num o <=? MAX_LISTEN_ADDRESS then
    Some (Globals (o_process_mode o) (o_num_workers o) (o_start_cpu o) (take (Z.to_nat (o_la_num o)) (o_la o))
            (o_proxy o) (o_pa_num o) (o_pa o))
  else None.
End main.

(** ** The arguments *)

Section parse.
Context (atoi : string → Z) (inet_aton sscanf_d : string → option Z).

Lemma listen_args_shorter i args l n left l' n' :
  listen_args inet_aton sscanf_d i args l n = (left, l', n') →
  (length left ≤ length args)%nat ∧ length l' = length l ∧ n' - n = Z.of_nat (length args) - Z.of_nat (length left).
Proof.
  revert i l n. induction args as [|a args IH]; intros i l n; simpl; [intros [= <- <- <-]; simpl; split_and!; lia|].
  destruct (i <? MAX_LISTEN_ADDRESS); [|intros [= <- <- <-]; simpl; split_and!; lia].
  destruct (split_colon a) as [[ip port]|]; [|intros [= <- <- <-]; simpl; split_and!; lia].
  intros (?&E&?)%IH. rewrite length_alter in E. split_and!; (done || lia).
Qed.

Lemma proxy_args_shorter i args l n left l' n' :
  proxy_args inet_aton sscanf_d i args l n = (left, l', n') →
  (length left ≤ length args)%nat ∧ length l' = length l ∧ n' - n = Z.of_nat (length args) - Z.of_nat (length left).
Proof.
  revert i l n. induction args as [|a args IH]; intros i l n; simpl; [intros [= <- <- <-]; simpl; split_and!; lia|].
  destruct (i <? MAX_PROXY_ADDRESS); [|intros [= <- <- <-]; simpl; split_and!; lia].
  destruct (split_colon a) as [[ip port]|]; [|intros [= <- <- <-]; simpl; split_and!; lia].
  intros (?&E&?)%IH. rewrite length_alter in E. split_and!; (done || lia).
Qed.

(** The loop over the options ends, within one round per argument. *)
Theorem parse_args_terminates args o :
  ∃ o', parse_args atoi inet_aton sscanf_d (S (length args)) args o = Some o' ∧
    length (o_la o') = length (o_la o) ∧ length (o_pa o') = length (o_pa o).
Proof.
  remember (S (length args)) as fuel eqn:Ef. assert (length args < fuel)%nat as Hf by lia. clear Ef.
  revert args o Hf. induction fuel as [|fuel IH]; intros args o Hf; [lia|].
  assert (∀ rest o1, (length rest < length args)%nat → length (o_la o1) = length (o_la o) → length (o_pa o1) = length (o_pa o) →
    ∃ o', parse_args atoi inet_aton sscanf_d fuel rest o1 = Some o' ∧
      length (o_la o') = length (o_la o) ∧ length (o_pa o') = length (o_pa o)) as Hrest.
  { intros rest o1 Hl <- <-. apply IH. lia. }
  cbn [parse_args]. repeat case_match; subst; try (eexists; split; [done|done]); apply Hrest;
    try match goal with
    | H : listen_args _ _ _ _ _ _ = _ |- _ => apply listen_args_shorter in H as (?&?&?)
    | H : proxy_args _ _ _ _ _ _ = _ |- _ => apply proxy_args_shorter in H as (?&?&?)
    end; simpl in *; (done || lia).
Qed.

(** Each [-a] starts again at the first entry, while [la_num] counts on: of two
    groups the second overwrites the first, and the server listens on the
    zeroed entry after it as well. *)
Theorem second_listen_group_overwrites a1 ip1 port1 a2 ip2 port2 :
  split_colon a1 = Some (ip1, port1) → split_colon a2 = Some (ip2, port2) →
  ∃ o, parse_args atoi inet_aton sscanf_d 3 ["-a"%string; a1; "-a"%string; a2] default_options = Some o ∧
    o_la_num o = 2 ∧ o_la o !! 1%nat = Some (Listen_addr 0 0 0) ∧
    o_la o !! 0%nat = Some (parse_listen inet_aton sscanf_d ip2 port2 (parse_listen inet_aton sscanf_d ip1 port1 (Listen_addr 0 0 0))).
Proof.
  intros H1 H2. eexists. cbn [parse_args String.eqb Ascii.eqb Bool.eqb listen_args Z.ltb Z.compare].
  rewrite H1. simpl. rewrite H2. simpl. by split_and!.
Qed.

End parse.

(** Text that is a number or an address by its length. *)
Definition text_value (s : string) : option Z := Some (Z.of_nat (String.length s)).

Lemma second_listen_group_overwrites_witness :
  ∃ o, parse_args (λ _, 0) text_value text_value 3 ["-a"%string; "1.1.1.1:80"%string; "-a"%string; "2.2.2.22:443"%string] default_options = Some o ∧
    o_la_num o = 2 ∧ o_la o !! 1%nat = Some (Listen_addr 0 0 0) ∧
    o_la o !! 0%nat = Some (parse_listen text_value text_value "2.2.2.22" "443" (parse_listen text_value text_value "1.1.1.1" "80" (Listen_addr 0 0 0))).
Proof.
  by apply (second_listen_group_overwrites (λ _, 0) text_value text_value "1.1.1.1:80" "1.1.1.1" "80" "2.2.2.22:443" "2.2.2.22" "443").
Defined.
