(* ===== verification/TimeHeap.v ===== *)
(** * timer: the heap of timers

    [time_heap.h]: a binary heap of pointers to timers, ordered by the time at
    which they expire.  The timers are objects on the C++ heap; what the
    callbacks are called with is recorded.  [time(NULL)] is an argument; [new]
    throws when it fails, so an array that has been made is there. *)
From S2P Require Import Prelude.

(** ** Data *)

Record heap_timer := Heap_timer { expire : Z; cb_func : Z; user_data : Z }.

(** [class time_heap]: the array has [capacity] entries, null or not; then the
    calls of the callbacks. *)
Record time_heap := Time_heap {
  array : list Z; capacity : Z; cur_size : Z; fired : list (Z * Z);
}.
Abbreviation TH := (M (st heap_timer time_heap)).

Definition array_get (i : Z) : TH Z := λ s,
  if decide (0 ≤ i) then
    match array (env s) !! Z.to_nat i with Some t => Ok (t, s) | None => UB end
  else UB.
Definition array_set (i t : Z) : TH unit := λ s,
  if decide (0 ≤ i < Z.of_nat (length (array (env s)))) then
    Ok ((), St (mem s) (Time_heap (<[Z.to_nat i := t]> (array (env s))) (capacity (env s)) (cur_size (env s)) (fired (env s))))
  else UB.
Definition set_cur_size (n : Z) : TH unit :=
  e ← get_env; put_env (Time_heap (array e) (capacity e) n (fired e)).

(** ** Operations *)

(** The members a [new] timer has; [cb_func] and [user_data] are set later. *)
Definition new_heap_timer (now delay cb data : Z) : heap_timer := Heap_timer (now + delay) cb data.

(** [cur_size] and the capacity of an empty heap; false is an exception. *)
Definition time_heap_new (cap : Z) : TH bool :=
  if cap <? 0 then mret false else
  e ← get_env;
  put_env (Time_heap (replicate (Z.to_nat cap) 0) cap 0 (fired e));;
  mret true.

Definition empty : TH bool := e ← get_env; mret (cur_size e =? 0).

(** The index of a child is an [int] too. *)
Definition percolate_down (hole : Z) : TH unit :=
  temp ← array_get hole;
  e ← get_env;
  let n := cur_size e in
  hole ← loop (S (Z.to_nat n)) (λ hole,
    assert (hole * 2 + 1 <=? INT_MAX);;
    if hole * 2 + 1 <=? n - 1 then
      let child := hole * 2 + 1 in
      c ← array_get child;
      xc ← fget expire c;
      child ← (if child <? n - 1 then
                 d ← array_get (child + 1);
                 xd ← fget expire d;
                 mret (if xd <? xc then child + 1 else child)
               else mret child);
      c ← array_get child;
      xc ← fget expire c;
      xt ← fget expire temp;
      if xc <? xt then array_set hole c;; mret (inl child) else mret (inr hole)
    else mret (inr hole)) hole;
  array_set hole temp.

(** [for (i = (cur_size - 1) / 2; i >= 0; --i) percolate_down(i)]. *)
Definition heapify (i : Z) : TH unit :=
  loop (S (Z.to_nat (i + 1))) (λ i,
    if i >=? 0 then percolate_down i;; mret (inl (i - 1)) else mret (inr ())) i.

(** The heap of the timers of an array; false is an exception. *)
Definition time_heap_init (init_array : list Z) (size cap : Z) : TH bool :=
  if cap <? size then mret false else
  if cap <? 0 then mret false else
  e ← get_env;
  put_env (Time_heap (replicate (Z.to_nat cap) 0) cap size (fired e));;
  when (negb (size =? 0))
    (loop (S (Z.to_nat size)) (λ i,
       if i <? size then
         match init_array !! Z.to_nat i with
         | Some t => array_set i t;; mret (inl (i + 1))
         | None => ub
         end
       else mret (inr ())) 0;;
     heapify ((size - 1) ÷ 2));;
  mret true.

(** [delete array[i]]: deleting the null pointer does nothing. *)
Definition delete_timer (t : Z) : TH unit := free t.

Definition time_heap_delete : TH unit :=
  e ← get_env;
  loop (S (Z.to_nat (cur_size e))) (λ i,
    if i <? cur_size e then t ← array_get i; delete_timer t;; mret (inl (i + 1)) else mret (inr ())) 0;;
  put_env (Time_heap [] (capacity e) (cur_size e) (fired e)).

(** Doubling is undefined when it overflows an [int]. *)
Definition resize : TH unit :=
  e ← get_env;
  assert (2 * capacity e <=? INT_MAX);;
  put_env (Time_heap (take (Z.to_nat (cur_size e)) (array e) ++
                      replicate (Z.to_nat (2 * capacity e) - Z.to_nat (cur_size e)) 0)
             (2 * capacity e) (cur_size e) (fired e)).

Definition add_timer (timer : Z) : TH unit :=
  if timer =? 0 then mret () else
  e ← get_env;
  when (cur_size e >=? capacity e) resize;;
  let hole := cur_size e in
  set_cur_size (hole + 1);;
  hole ← loop (S (Z.to_nat hole)) (λ hole,
    if hole >? 0 then
      let parent := (hole - 1) ÷ 2 in
      p ← array_get parent;
      xp ← fget expire p;
      xt ← fget expire timer;
      if xp <=? xt then mret (inr hole)
      else array_set hole p;; mret (inl parent)
    else mret (inr hole)) hole;
  array_set hole timer.

(** Lazy: the timer stays and fires nothing. *)
Definition del_timer (timer : Z) : TH unit :=
  if timer =? 0 then mret () else fset (λ t, Heap_timer (expire t) 0 (user_data t)) timer.

Definition top : TH Z :=
  b ← empty;
  if (b : bool) then mret 0 else array_get 0.

Definition pop_timer : TH unit :=
  b ← empty;
  if (b : bool) then mret () else
  t ← array_get 0;
  when (negb (t =? 0))
    (delete_timer t;;
     e ← get_env;
     set_cur_size (cur_size e - 1);;
     l ← array_get (cur_size e - 1);
     array_set 0 l;;
     percolate_down 0).

(** The callback with its argument; what it does is not part of the heap. *)
Definition call (cb data : Z) : TH unit :=
  e ← get_env; put_env (Time_heap (array e) (capacity e) (cur_size e) (fired e ++ [(cb, data)])).

Definition tick (cur : Z) : TH unit :=
  tmp ← array_get 0;
  e ← get_env;
  loop (S (Z.to_nat (cur_size e))) (λ tmp,
    b ← empty;
    if (b : bool) then mret (inr ()) else
    if tmp =? 0 then mret (inr ()) else
    x ← fget expire tmp;
    if x >? cur then mret (inr ()) else
    t ← array_get 0;
    cb ← fget cb_func t;
    when (negb (cb =? 0)) (data ← fget user_data t; call cb data);;
    pop_timer;;
    tmp ← array_get 0;
    mret (inl tmp)) tmp.
