(* ===== verification/TimeHeapProps.v ===== *)
(** * timer: the contract of the heap *)
From S2P Require Import Prelude TimeHeap.
From stdpp Require Import sorting.
From Stdlib Require Import ZifyNat.
#[local] Open Scope Z_scope.

(** Quotients are in the reach of [lia] here. *)
Ltac Zify.zify_post_hook ::= Z.div_mod_to_equations.

(** ** Exchanging two entries *)

Lemma insert_head_perm {A} (l : list A) j x y :
  l !! j = Some y → y :: <[j := x]> l ≡ₚ x :: l.
Proof.
  revert j. induction l as [|z l IH]; intros [|j] Hj; simpl in *; try done.
  - injection Hj as ->. apply perm_swap.
  - rewrite perm_swap, IH by done. apply perm_swap.
Qed.

Lemma insert_insert_perm {A} (l : list A) i j x y :
  l !! i = Some x → l !! j = Some y → <[i := y]> (<[j := x]> l) ≡ₚ l.
Proof.
  revert i j. induction l as [|z l IH]; intros [|i] [|j] Hi Hj; simpl in *; try done.
  - by simplify_eq.
  - injection Hi as ->. by apply insert_head_perm.
  - injection Hj as ->. by apply insert_head_perm.
  - by rewrite IH.
Qed.

(** ** The order of a heap *)

Section order.
Context (e : Z → Z).

(** Parents from [k] on are not after their children. *)
Definition heap_from (k : nat) (V : list Z) : Prop :=
  ∀ i, (0 < i < length V)%nat → (k ≤ (i - 1) / 2)%nat → e (V !!! ((i - 1) / 2)%nat) ≤ e (V !!! i).

(** The same, but for the parent [h], whose own parent is not after its children. *)
Record sinking (k h : nat) (V : list Z) : Prop := {
  sk_le : (k ≤ h < length V)%nat;
  sk_others : ∀ i, (0 < i < length V)%nat → (k ≤ (i - 1) / 2)%nat → ((i - 1) / 2 ≠ h)%nat →
    e (V !!! ((i - 1) / 2)%nat) ≤ e (V !!! i);
  sk_above : (h ≠ k)%nat → (k ≤ (h - 1) / 2)%nat ∧
    ∀ i, (0 < i < length V)%nat → ((i - 1) / 2 = h)%nat → e (V !!! ((h - 1) / 2)%nat) ≤ e (V !!! i);
}.

Lemma vtotal_insert (V : list Z) i j x :
  (i < length V)%nat → <[i := x]> V !!! j = if decide (i = j) then x else V !!! j.
Proof.
  intros Hi. case_decide as E; [subst|].
  - by apply list_lookup_total_insert_eq.
  - by apply list_lookup_total_insert_ne.
Qed.

(** One level down: the smaller child [c] comes up. *)
Lemma sinking_down k h c V :
  sinking k h V → (0 < c < length V)%nat → ((c - 1) / 2 = h)%nat → e (V !!! c) ≤ e (V !!! h) →
  (∀ i, (0 < i < length V)%nat → ((i - 1) / 2 = h)%nat → e (V !!! c) ≤ e (V !!! i)) →
  sinking k c (<[h := V !!! c]> (<[c := V !!! h]> V)).
Proof.
  intros [Hle Hoth Hab] Hc Hpar Hlt Hmin. assert (h < c)%nat as Hhc by lia.
  assert (∀ j, <[h := V !!! c]> (<[c := V !!! h]> V) !!! j =
    if decide (h = j) then V !!! c else if decide (c = j) then V !!! h else V !!! j) as Hat.
  { intros j. rewrite !vtotal_insert by (rewrite ?length_insert; lia). done. }
  split; rewrite ?length_insert.
  - lia.
  - intros i Hi Hk Hne. rewrite !Hat. destruct (decide (h = (i - 1) / 2)%nat) as [E|E].
    + rewrite (decide_False (P := h = i)) by lia. destruct (decide (c = i)) as [<-|]; [done|]. by apply Hmin.
    + rewrite (decide_False (P := c = ((i - 1) / 2)%nat)) by lia. destruct (decide (h = i)) as [<-|Hhi].
      * apply Hab; lia.
      * rewrite decide_False by lia. by apply Hoth.
  - intros Hck. rewrite Hpar. split; [lia|]. intros i Hi Hpi. rewrite !Hat.
    rewrite decide_True by done. rewrite !decide_False by lia. rewrite <-Hpi. apply Hoth; lia.
Qed.

(** The end: nothing below [h] is before it. *)
Lemma sinking_done k h V :
  sinking k h V → (∀ i, (0 < i < length V)%nat → ((i - 1) / 2 = h)%nat → e (V !!! h) ≤ e (V !!! i)) → heap_from k V.
Proof.
  intros [Hle Hoth _] Hlast i Hi Hk. destruct (decide ((i - 1) / 2 = h)%nat) as [E|E]; [|by apply Hoth].
  rewrite E. by apply Hlast.
Qed.

Lemma sinking_start k V : (k < length V)%nat → heap_from (S k) V → sinking k k V.
Proof.
  intros Hk Hh. split; [lia| |done]. intros i Hi Hki Hne. apply Hh; lia.
Qed.

(** The order but for the entry [h], whose parent is not after its children. *)
Record rising (h : nat) (V : list Z) : Prop := {
  ri_lt : (h < length V)%nat;
  ri_others : ∀ i, (0 < i < length V)%nat → i ≠ h → e (V !!! ((i - 1) / 2)%nat) ≤ e (V !!! i);
  ri_above : (0 < h)%nat → ∀ i, (0 < i < length V)%nat → ((i - 1) / 2 = h)%nat →
    e (V !!! ((h - 1) / 2)%nat) ≤ e (V !!! i);
}.

Lemma rising_up h p V :
  rising h V → (0 < h)%nat → p = ((h - 1) / 2)%nat → e (V !!! h) ≤ e (V !!! p) →
  rising p (<[p := V !!! h]> (<[h := V !!! p]> V)).
Proof.
  intros [Hlt Hoth Hab] H0 Hp Hle. assert (p < h)%nat as Hph by lia.
  assert (∀ j, <[p := V !!! h]> (<[h := V !!! p]> V) !!! j =
    if decide (p = j) then V !!! h else if decide (h = j) then V !!! p else V !!! j) as Hat.
  { intros j. rewrite !vtotal_insert by (rewrite ?length_insert; lia). done. }
  split; rewrite ?length_insert.
  - lia.
  - intros i Hi Hne. rewrite !Hat. rewrite (decide_False (P := p = i)) by done.
    destruct (decide (p = (i - 1) / 2)%nat) as [E|E].
    + destruct (decide (h = i)) as [<-|]; [done|]. etrans; [exact Hle|]. rewrite E. by apply Hoth.
    + rewrite (decide_False (P := h = i)) by lia. destruct (decide (h = (i - 1) / 2)%nat) as [Eh|Eh].
      * rewrite Hp. by apply Hab.
      * apply Hoth; [done|lia].
  - intros Hp0 i Hi Hpi. rewrite !Hat. rewrite (decide_False (P := p = ((p - 1) / 2)%nat)) by lia.
    rewrite (decide_False (P := h = ((p - 1) / 2)%nat)) by lia. rewrite (decide_False (P := p = i)) by lia.
    pose proof (Hoth p ltac:(lia) ltac:(lia)) as H1. destruct (decide (h = i)) as [<-|]; [done|].
    etrans; [exact H1|]. rewrite <-Hpi. by apply Hoth.
Qed.

Lemma rising_done h V :
  rising h V → ((0 < h)%nat → e (V !!! ((h - 1) / 2)%nat) ≤ e (V !!! h)) → heap_from 0 V.
Proof.
  intros [Hlt Hoth _] Hlast i Hi _. destruct (decide (i = h)) as [->|]; [apply Hlast; lia|by apply Hoth].
Qed.

(** A new last entry. *)
Lemma rising_start V t : heap_from 0 V → rising (length V) (V ++ [t]).
Proof.
  intros Hh. split; rewrite ?length_app; cbn [length].
  - lia.
  - intros i Hi Hne. rewrite !list_lookup_total_alt, !lookup_app_l by lia. rewrite <-!list_lookup_total_alt.
    apply Hh; lia.
  - intros _ i Hi Hp. lia.
Qed.

(** The root is not after any entry. *)
Lemma heap_root V i : heap_from 0 V → (i < length V)%nat → e (V !!! 0%nat) ≤ e (V !!! i).
Proof.
  intros Hh. induction (lt_wf i) as [i _ IH]. intros Hi. destruct (decide (i = 0)%nat) as [->|]; [lia|].
  etrans; [apply (IH ((i - 1) / 2)%nat); lia|]. apply Hh; lia.
Qed.
End order.

(** ** The program on an array *)

Definition key (s : st heap_timer time_heap) (t : Z) : Z :=
  match mem s !! t with Some x => expire x | None => 0 end.

(** The array [V ++ R], of which the heap is [V]. *)
Definition with_array (s : st heap_timer time_heap) (A : list Z) : st heap_timer time_heap :=
  St (mem s) (Time_heap A (capacity (env s)) (cur_size (env s)) (fired (env s))).

Definition live (s : st heap_timer time_heap) (V : list Z) : Prop := ∀ t, t ∈ V → is_Some (mem s !! t).

Lemma wp_array_get s i x (Q : Z → st heap_timer time_heap → Prop) :
  array (env s) !! i = Some x → Q x s → wp (array_get (Z.of_nat i)) s Q.
Proof. intros Hx HQ. unfold wp, array_get. rewrite decide_True by lia. by rewrite Nat2Z.id, Hx. Qed.

Lemma wp_array_set s i x (Q : unit → st heap_timer time_heap → Prop) :
  (i < length (array (env s)))%nat → Q () (with_array s (<[i := x]> (array (env s)))) →
  wp (array_set (Z.of_nat i) x) s Q.
Proof. intros Hi HQ. unfold wp, array_set. rewrite decide_True by lia. by rewrite Nat2Z.id. Qed.

Lemma wp_expire s t (Q : Z → st heap_timer time_heap → Prop) :
  is_Some (mem s !! t) → Q (key s t) s → wp (fget expire t) s Q.
Proof. intros [x Hx] HQ. eapply wp_fget; [exact Hx|]. unfold key in HQ. by rewrite Hx in HQ. Qed.

(** What the hole hides. *)
Definition holed (s0 : st heap_timer time_heap) (R V : list Z) (h : nat) (t : Z) (s : st heap_timer time_heap) : Prop :=
  ∃ A, V = <[h := t]> A ∧ s = with_array s0 (A ++ R).

Lemma holed_get s0 R V h t s i (Q : Z → st heap_timer time_heap → Prop) :
  holed s0 R V h t s → (i < length V)%nat → i ≠ h → Q (V !!! i) s → wp (array_get (Z.of_nat i)) s Q.
Proof.
  intros (A & -> & ->) Hi Hne HQ. rewrite length_insert in Hi. eapply wp_array_get; [|exact HQ]. simpl.
  rewrite lookup_app_l by done. rewrite list_lookup_total_insert_ne by done. by apply list_lookup_lookup_total_lt.
Qed.

(** The entry [c] moves into the hole, which is then at [c]. *)
Lemma holed_move s0 R V h t s c (Q : unit → st heap_timer time_heap → Prop) :
  holed s0 R V h t s → (h < length V)%nat → (c < length V)%nat → c ≠ h → V !!! h = t →
  (∀ s', holed s0 R (<[h := V !!! c]> (<[c := t]> V)) c t s' → Q () s') →
  wp (array_set (Z.of_nat h) (V !!! c)) s Q.
Proof.
  intros (A & -> & ->) Hh Hc Hne Ht HQ. rewrite length_insert in Hh, Hc.
  apply wp_array_set; [simpl; rewrite length_app; lia|]. apply HQ. clear HQ.
  set (x := <[h := t]> A !!! c). exists (<[h := x]> A). simpl. split.
  - rewrite (list_insert_insert_ne _ h c) by done. by rewrite list_insert_insert_eq.
  - unfold with_array. simpl. by rewrite insert_app_l by done.
Qed.

Lemma holed_fill s0 R V h t s (Q : unit → st heap_timer time_heap → Prop) :
  holed s0 R V h t s → (h < length V)%nat → Q () (with_array s0 (V ++ R)) → wp (array_set (Z.of_nat h) t) s Q.
Proof.
  intros (A & -> & ->) Hh HQ. rewrite length_insert in Hh. apply wp_array_set; [simpl; rewrite length_app; lia|].
  simpl. rewrite insert_app_l by done. exact HQ.
Qed.

Lemma total_elem (V : list Z) i : (i < length V)%nat → V !!! i ∈ V.
Proof. intros Hi. eapply list_elem_of_lookup_2, list_lookup_lookup_total_lt, Hi. Qed.

Lemma wp_percolate_down s k V R :
  array (env s) = V ++ R → cur_size (env s) = Z.of_nat (length V) → Z.of_nat (length V) ≤ 2 ^ 30 → live s V →
  (k < length V)%nat →
  heap_from (key s) (S k) V →
  wp (percolate_down (Z.of_nat k)) s (λ _ s', ∃ V', V' ≡ₚ V ∧ heap_from (key s) k V' ∧ s' = with_array s (V' ++ R)).
Proof.
  intros Ha Hn Hmax Hlive Hk Hheap. unfold percolate_down. apply wp_bind.
  eapply (wp_array_get _ _ (V !!! k)).
  { rewrite Ha, lookup_app_l by done. by apply list_lookup_lookup_total_lt. }
  set (t := V !!! k). apply wp_bind, wp_get_env. cbv zeta. rewrite Hn, Nat2Z.id. apply wp_bind.
  eapply (wp_loop (λ m hole s', ∃ V' h, V' ≡ₚ V ∧ sinking (key s) k h V' ∧ V' !!! h = t ∧ hole = Z.of_nat h ∧
    m = (length V - h)%nat ∧ holed s R V' h t s')) with (n := (length V - k)%nat); [| |lia].
  2: { exists V, k. split_and!; try done; [by apply sinking_start|]. exists V. split.
       - symmetry. apply list_insert_id. by apply list_lookup_lookup_total_lt.
       - rewrite <-Ha. destruct s as [? []]. done. }
  intros m hole s' (V' & h & HV & Hs & Ht & -> & -> & Hhole). pose proof (sk_le _ _ _ _ Hs) as Hkh.
  pose proof (Permutation_length HV) as Hlen.
  assert (∀ i, (i < length V')%nat → is_Some (mem s' !! (V' !!! i))) as Hl.
  { intros i Hi. destruct Hhole as (A & _ & ->). apply Hlive. rewrite <-HV. by apply total_elem. }
  assert (∀ t, key s' t = key s t) as Hkey by by destruct Hhole as (A & _ & ->).
  apply wp_bind, wp_assert; [apply Z.leb_le; unfold INT_MAX; lia|].
  destruct (Z.leb_spec (Z.of_nat h * 2 + 1) (Z.of_nat (length V) - 1)) as [Hch|Hno].
  2: { apply wp_ret. eapply holed_fill; [exact Hhole|lia|]. exists V'. split_and!; [done| |done].
       eapply sinking_done; [exact Hs|]. intros i Hi Hp. lia. }
  cbv zeta. replace (Z.of_nat h * 2 + 1) with (Z.of_nat (2 * h + 1)) in * by lia.
  apply wp_bind. eapply holed_get; [exact Hhole|lia|lia|].
  apply wp_bind, wp_expire; [apply Hl; lia|]. rewrite Hkey.
  apply wp_bind. apply (wp_mono _ _ (λ child s1, s1 = s' ∧ ∃ c, child = Z.of_nat c ∧ (0 < c < length V')%nat ∧
    ((c - 1) / 2 = h)%nat ∧ ∀ i, (0 < i < length V')%nat → ((i - 1) / 2 = h)%nat → key s (V' !!! c) ≤ key s (V' !!! i))).
  { assert (∀ i, (0 < i < length V')%nat → ((i - 1) / 2 = h)%nat → i = (2 * h + 1)%nat ∨ i = (2 * h + 2)%nat) as Hch2 by lia.
    destruct (Z.ltb_spec (Z.of_nat (2 * h + 1)) (Z.of_nat (length V) - 1)).
    - replace (Z.of_nat (2 * h + 1) + 1) with (Z.of_nat (2 * h + 2)) by lia.
      apply wp_bind. eapply holed_get; [exact Hhole|lia|lia|].
      apply wp_bind, wp_expire; [apply Hl; lia|]. rewrite Hkey. apply wp_ret. split; [done|].
      destruct (Z.ltb_spec (key s (V' !!! (2 * h + 2)%nat)) (key s (V' !!! (2 * h + 1)%nat))).
      + exists (2 * h + 2)%nat. split_and!; [done|lia|lia|lia|]. intros i Hi Hp.
        destruct (Hch2 i Hi Hp) as [->| ->]; lia.
      + exists (2 * h + 1)%nat. split_and!; [done|lia|lia|lia|]. intros i Hi Hp.
        destruct (Hch2 i Hi Hp) as [->| ->]; lia.
    - apply wp_ret. split; [done|]. exists (2 * h + 1)%nat. split_and!; [done|lia|lia|lia|]. intros i Hi Hp.
      destruct (Hch2 i Hi Hp) as [->| ->]; lia. }
  intros child s1 (-> & c & -> & Hc & Hp & Hmin).
  apply wp_bind. eapply holed_get; [exact Hhole|lia|lia|].
  apply wp_bind, wp_expire; [apply Hl; lia|]. rewrite Hkey.
  apply wp_bind, wp_expire; [rewrite <-Ht; apply Hl; lia|]. rewrite Hkey.
  destruct (Z.ltb_spec (key s (V' !!! c)) (key s t)) as [Hlt|Hge].
  - apply wp_bind. eapply holed_move; [exact Hhole|lia|lia|lia|done|]. intros s2 Hhole2. apply wp_ret.
    exists (length V - c)%nat. split; [lia|]. exists (<[h := V' !!! c]> (<[c := t]> V')), c.
    split_and!; try done.
    + rewrite <-HV. apply insert_insert_perm; rewrite <-?Ht; apply list_lookup_lookup_total_lt; lia.
    + rewrite <-Ht. apply sinking_down; [done|lia|done|rewrite Ht; lia|done].
    + rewrite !vtotal_insert by (rewrite ?length_insert; lia). rewrite decide_False by lia. by rewrite decide_True.
  - apply wp_ret. eapply holed_fill; [exact Hhole|lia|]. exists V'. split_and!; [done| |done].
    eapply sinking_done; [exact Hs|]. intros i Hi Hpi. rewrite Ht. etrans; [exact Hge|]. by apply Hmin.
Qed.

(** ** The contract *)

(** The heap holds the timers [V]. *)
Record heap_rep (s : st heap_timer time_heap) (V : list Z) : Prop := {
  hp_array : ∃ R, array (env s) = V ++ R;
  hp_capacity : capacity (env s) = Z.of_nat (length (array (env s)));
  hp_size : cur_size (env s) = Z.of_nat (length V);
  hp_max : Z.of_nat (length V) ≤ 2 ^ 30;
  hp_nodup : NoDup V;
  hp_live : ∀ t, t ∈ V → t ≠ 0 ∧ is_Some (mem s !! t);
  hp_heap : heap_from (key s) 0 V;
}.

Lemma heap_from_ext e e' k V : (∀ t, t ∈ V → e' t = e t) → heap_from e k V → heap_from e' k V.
Proof. intros He Hh i Hi Hk. rewrite !He by (apply total_elem; lia). by apply Hh. Qed.

(** The loop of an insertion. *)
Lemma wp_rise s V R t (Q : unit → st heap_timer time_heap → Prop) :
  (∃ x, array (env s) = (V ++ [x]) ++ R) →
  live s V → is_Some (mem s !! t) → heap_from (key s) 0 V →
  (∀ V', V' ≡ₚ V ++ [t] → heap_from (key s) 0 V' → Q () (with_array s (V' ++ R))) →
  wp (hole ← loop (S (length V)) (λ hole,
        if hole >? 0 then
          let parent := (hole - 1) ÷ 2 in
          p ← array_get parent;
          xp ← fget expire p;
          xt ← fget expire t;
          if xp <=? xt then mret (inr hole)
          else array_set hole p;; mret (inl parent)
        else mret (inr hole)) (Z.of_nat (length V));
      array_set hole t) s Q.
Proof.
  intros Ha Hlive Ht Hheap HQ. apply wp_bind.
  eapply (wp_loop (λ m hole s', ∃ V' h, V' ≡ₚ V ++ [t] ∧ rising (key s) h V' ∧ V' !!! h = t ∧ hole = Z.of_nat h ∧
    m = h ∧ holed s R V' h t s')) with (n := length V); [| |lia].
  2: { exists (V ++ [t]), (length V). split_and!; try done; [by apply rising_start| |].
       - rewrite list_lookup_total_alt, lookup_app_r, Nat.sub_diag by lia. done.
       - destruct Ha as [x Hx]. exists (V ++ [x]). split; [by rewrite insert_app_r_alt, Nat.sub_diag by lia|].
         rewrite <-Hx. destruct s as [? []]. done. }
  intros m hole s' (V' & h & HV & Hr & Hh & -> & -> & Hhole). pose proof (ri_lt _ _ _ Hr) as Hlt.
  assert (∀ i, (i < length V')%nat → is_Some (mem s' !! (V' !!! i))) as Hl.
  { intros i Hi. assert (V' !!! i ∈ V ++ [t]) as Hin by (rewrite <-HV; by apply total_elem).
    destruct Hhole as (A & _ & ->). apply elem_of_app in Hin as [Hin| ->%list_elem_of_singleton]; [by apply Hlive|done]. }
  assert (∀ t, key s' t = key s t) as Hkey by by destruct Hhole as (A & _ & ->).
  rewrite Z.gtb_ltb. destruct (Z.ltb_spec 0 (Z.of_nat h)) as [Hpos|Hz].
  2: { apply wp_ret. eapply holed_fill; [exact Hhole|done|]. apply HQ; [done|]. eapply rising_done; [exact Hr|lia]. }
  cbv zeta. replace ((Z.of_nat h - 1) ÷ 2) with (Z.of_nat ((h - 1) / 2)) by (rewrite Z.quot_div_nonneg; lia).
  set (p := ((h - 1) / 2)%nat). assert (p < h)%nat as Hp by (subst p; lia).
  apply wp_bind. eapply holed_get; [exact Hhole|lia|lia|].
  apply wp_bind, wp_expire; [apply Hl; lia|]. rewrite Hkey.
  apply wp_bind, wp_expire; [rewrite <-Hh; apply Hl; lia|]. rewrite Hkey.
  destruct (Z.leb_spec (key s (V' !!! p)) (key s t)) as [Hle|Hgt].
  - apply wp_ret. eapply holed_fill; [exact Hhole|done|]. apply HQ; [done|].
    eapply rising_done; [exact Hr|]. intros _. by rewrite Hh.
  - apply wp_bind. eapply holed_move; [exact Hhole|lia|lia|lia|done|]. intros s2 Hhole2. apply wp_ret.
    exists p. split; [done|]. exists (<[h := V' !!! p]> (<[p := t]> V')), p. split_and!; try done.
    + rewrite <-HV. apply insert_insert_perm; rewrite <-?Hh; apply list_lookup_lookup_total_lt; lia.
    + rewrite list_insert_insert_ne by lia. rewrite <-Hh. apply rising_up; [done|lia|done|rewrite Hh; lia].
    + rewrite !vtotal_insert by (rewrite ?length_insert; lia). rewrite decide_False by lia. by rewrite decide_True.
Qed.

Lemma wp_add_timer s V t :
  heap_rep s V → t ∉ V → t ≠ 0 → is_Some (mem s !! t) → 0 < capacity (env s) → 2 * capacity (env s) ≤ INT_MAX →
  wp (add_timer t) s (λ _ s', ∃ V', V' ≡ₚ t :: V ∧ heap_rep s' V' ∧ mem s' = mem s ∧
    fired (env s') = fired (env s) ∧ capacity (env s) ≤ capacity (env s')).
Proof.
  intros [[R Ha] Hc Hn Hm Hnd Hl Hh] Ht H0 Htl Hcap Hmax. unfold add_timer.
  apply Z.eqb_neq in H0 as Ht0. rewrite Ht0. apply wp_bind, wp_get_env, wp_bind.
  apply (wp_mono _ _ (λ _ s1, ∃ A x R', s1 = St (mem s) (Time_heap A (Z.of_nat (length A)) (Z.of_nat (length V)) (fired (env s))) ∧
    A = (V ++ [x]) ++ R' ∧ capacity (env s) ≤ Z.of_nat (length A))).
  { apply wp_when; intros E.
    - unfold resize. apply wp_bind, wp_get_env, wp_bind, wp_assert; [by apply Z.leb_le|].
      apply wp_put_env. rewrite Hn, Nat2Z.id, Ha, take_app_length.
      apply Z.geb_le in E. rewrite Ha, length_app in Hc.
      destruct (Z.to_nat (2 * capacity (env s)) - length V)%nat as [|m] eqn:Em; [lia|].
      eexists _, 0, (replicate m 0). split; [|split; [|]].
      + f_equal. f_equal. rewrite length_app, length_replicate. lia.
      + simpl. by rewrite <-app_assoc.
      + rewrite length_app, length_replicate. lia.
    - rewrite Z.geb_leb in E. apply Z.leb_gt in E. destruct R as [|x R].
      { rewrite Ha, app_nil_r in Hc. lia. }
      exists (array (env s)), x, R. split_and!; [|by rewrite Ha, <-app_assoc|lia].
      rewrite <-Hc, <-Hn. destruct s as [? []]; done. }
  intros [] s1 (A & x & R' & -> & HA & Hcap'). cbv zeta. rewrite Hn, Nat2Z.id.
  apply wp_bind. unfold set_cur_size. apply wp_bind, wp_get_env, wp_put_env. cbn [mem env array capacity fired].
  eapply wp_rise; [by exists x|intros u Hu; by apply Hl|done|exact Hh|].
  intros V' HV' Hheap'. cbn [with_array mem env array capacity fired cur_size] in *.
  assert (V' ≡ₚ t :: V) as HVt by (rewrite HV'; symmetry; apply Permutation_cons_append).
  assert (Z.of_nat (length V) ≤ capacity (env s)) as HVc by (rewrite Hc, Ha, length_app; lia).
  exists V'. pose proof (Permutation_length HVt) as Hlen. simpl in Hlen. split_and!; [done| |done|done|done].
  split; unfold with_array; cbn [mem env array capacity cur_size].
  - by eexists.
  - rewrite HA, !length_app. simpl in *. lia.
  - rewrite Hlen. lia.
  - rewrite Hlen. unfold INT_MAX in Hmax. lia.
  - rewrite HVt. by apply NoDup_cons.
  - intros u. rewrite HVt. intros [->|Hu]%elem_of_cons; [done|by apply Hl].
  - exact Hheap'.
Qed.

Lemma wp_empty s V (Q : bool → st heap_timer time_heap → Prop) :
  heap_rep s V → Q (match V with [] => true | _ => false end) s → wp TimeHeap.empty s Q.
Proof.
  intros Hrep HQ. apply wp_bind, wp_get_env, wp_ret. rewrite (hp_size _ _ Hrep). by destruct V.
Qed.

Lemma wp_top s V (Q : Z → st heap_timer time_heap → Prop) :
  heap_rep s V → Q (match V with [] => 0 | t :: _ => t end) s → wp TimeHeap.top s Q.
Proof.
  intros Hrep HQ. apply wp_bind. eapply wp_empty; [exact Hrep|]. destruct V as [|t V]; [done|].
  destruct (hp_array _ _ Hrep) as [R Ha]. apply (wp_array_get _ 0 t); [by rewrite Ha|done].
Qed.

(** Without its first entry a heap is a heap from 1 on, whatever comes first. *)
Lemma heap_from_tail e t V x y :
  heap_from e 0 (t :: V ++ [y]) → heap_from e 1 (x :: V).
Proof.
  intros Hh i Hi Hk. specialize (Hh i). cbn [length] in *. rewrite length_app in Hh. cbn [length] in Hh.
  assert (∀ j, (0 < j < S (length V))%nat → (x :: V) !!! j = (t :: V ++ [y]) !!! j) as Heq.
  { intros j Hj. rewrite !list_lookup_total_alt. destruct j as [|j]; [lia|]. simpl. by rewrite lookup_app_l by lia. }
  rewrite !Heq by lia. apply Hh; lia.
Qed.

Lemma wp_pop_timer s t V :
  heap_rep s (t :: V) →
  wp pop_timer s (λ _ s', ∃ V', V' ≡ₚ V ∧ heap_rep s' V' ∧ mem s' = delete t (mem s) ∧
    fired (env s') = fired (env s) ∧ capacity (env s') = capacity (env s)).
Proof.
  intros Hrep. unfold pop_timer. apply wp_bind. eapply wp_empty; [exact Hrep|].
  destruct Hrep as [[R Ha] Hc Hn Hm Hnd Hl Hh]. destruct (Hl t) as [Ht0 [x Hx]]; [left|].
  apply wp_bind, (wp_array_get _ 0 t); [by rewrite Ha|]. apply Z.eqb_neq in Ht0 as E0. rewrite E0. cbn [negb when].
  apply wp_bind. unfold delete_timer. eapply wp_free; [done|exact Hx|].
  apply wp_bind, wp_get_env, wp_bind. unfold set_cur_size. apply wp_bind, wp_get_env, wp_put_env.
  cbn [mem env array capacity cur_size fired]. cbn [length] in Hn.
  apply NoDup_cons in Hnd as [HtV HndV].
  destruct (decide (V = [])) as [->|HV].
  - simpl in Hn. rewrite Hn. change (1 - 1) with (Z.of_nat 0).
    apply wp_bind, (wp_array_get _ 0 t); [by rewrite Ha|]. apply wp_bind.
    apply (wp_array_set _ 0); [simpl; rewrite Ha; simpl; lia|]. unfold percolate_down. apply wp_bind.
    assert (<[0%nat := t]> (array (env s)) = array (env s)) as Hid by (apply list_insert_id; by rewrite Ha).
    unfold with_array. cbn [mem env array capacity cur_size fired]. rewrite Hid.
    apply (wp_array_get _ 0 t); [by rewrite Ha|]. apply wp_bind, wp_get_env, wp_bind. cbn [cur_size env].
    cbn [loop Z.to_nat Z.of_nat]. apply wp_bind. cbn. apply wp_ret.
    apply (wp_array_set _ 0); [simpl; rewrite Ha; simpl; lia|]. unfold with_array. cbn [mem env array capacity cur_size fired].
    rewrite Hid. exists []. split_and!; try done. split; cbn [mem env array capacity cur_size fired]; try done.
    + by exists (t :: R).
    + by intros u ?%not_elem_of_nil.
    + intros i Hi. simpl in Hi. lia.
  - destruct (exists_last HV) as (mid & l & ->).
    assert (length (mid ++ [l]) = S (length mid)) as Hlen by (rewrite length_app; simpl; lia). rewrite Hlen in Hn.
    assert (Z.of_nat (S (length mid)) = cur_size (env s) - 1) as Hn1 by lia. rewrite <-Hn1.
    assert ((t :: mid ++ [l]) ++ R = (t :: mid) ++ l :: R) as HaR by (simpl; by rewrite <-app_assoc).
    apply wp_bind, (wp_array_get _ (S (length mid)) l).
    { cbn [env array]. rewrite Ha. simpl. rewrite <-app_assoc, lookup_app_r, Nat.sub_diag by lia. done. }
    apply wp_bind, (wp_array_set _ 0); [cbn [env array]; rewrite Ha; simpl; lia|].
    unfold with_array. cbn [mem env array capacity cur_size fired].
    match goal with |- wp _ ?s0 _ => set (s1 := s0) end.
    assert (∀ u, u ≠ t → key s1 u = key s u) as Hkey.
    { intros u Hu. unfold key, s1. cbn [mem]. by rewrite lookup_delete_ne. }
    assert (∀ u, u ∈ l :: mid → u ≠ t ∧ u ≠ 0 ∧ is_Some (mem s !! u)) as Hlm.
    { intros u Hu. assert (u ∈ mid ++ [l]) as Hu' by set_solver. split; [by intros ->|]. apply Hl. by right. }
    eapply wp_mono.
    { eapply (wp_percolate_down s1 0 (l :: mid) (l :: R)).
      - unfold s1. cbn [env array]. rewrite Ha. simpl. by rewrite <-app_assoc.
      - unfold s1. cbn [env cur_size length]. done.
      - cbn [length] in *. lia.
      - intros u Hu. unfold s1. cbn [mem]. rewrite lookup_delete_ne; [by apply Hlm|]. by apply not_eq_sym, Hlm.
      - simpl. lia.
      - eapply heap_from_ext; [intros u Hu; by apply Hkey, Hlm|]. by eapply heap_from_tail. }
    intros [] s2 (V' & HV' & Hheap & ->). unfold with_array. cbn [mem env array capacity cur_size fired].
    assert (V' ≡ₚ mid ++ [l]) as HVl by (rewrite HV'; apply Permutation_cons_append).
    exists V'. split_and!; try done.
    pose proof (Permutation_length HVl) as HlV. split; unfold s1; cbn [mem env array capacity cur_size].
    + by eexists.
    + rewrite Hc, Ha. rewrite !length_app. simpl. rewrite !length_app in *. simpl in *. lia.
    + rewrite HlV, Hlen. done.
    + cbn [length] in *. lia.
    + by rewrite HVl.
    + intros u Hu. rewrite HV' in Hu. destruct (Hlm u Hu) as (? & ? & ?). split; [done|]. by rewrite lookup_delete_ne.
    + exact Hheap.
Qed.

(** ** Ticking *)

(** The calls for the timers [L], and the memory without them. *)
Definition calls_of (s : st heap_timer time_heap) (L : list Z) : list (Z * Z) :=
  omap (λ t, match mem s !! t with
             | Some x => if cb_func x =? 0 then None else Some (cb_func x, user_data x)
             | None => None
             end) L.
Definition without (L : list Z) (m : gmap Z heap_timer) : gmap Z heap_timer := foldr delete m L.

Lemma lookup_without L m t : t ∉ L → without L m !! t = m !! t.
Proof.
  induction L as [|u L IH]; [done|]. intros [Hne Hn]%not_elem_of_cons. simpl.
  rewrite lookup_delete_ne by done. by apply IH.
Qed.

Lemma without_snoc L t m : without (L ++ [t]) m = delete t (without L m).
Proof.
  induction L as [|u L IH]; [done|]. simpl. rewrite IH. apply delete_delete.
Qed.

(** The tick has fired [L] of the timers [V0] of [s0], and [V] are left. *)
Record ticked (s0 : st heap_timer time_heap) (V0 : list Z) (cur : Z) (L V : list Z) (s : st heap_timer time_heap) : Prop := {
  tk_rep : heap_rep s V;
  tk_perm : L ++ V ≡ₚ V0;
  tk_sorted : StronglySorted (λ t u, key s0 t ≤ key s0 u) L;
  tk_before : ∀ t u, t ∈ L → u ∈ V → key s0 t ≤ key s0 u;
  tk_due : ∀ t, t ∈ L → key s0 t ≤ cur;
  tk_mem : mem s = without L (mem s0);
  tk_fired : fired (env s) = fired (env s0) ++ calls_of s0 L;
  tk_capacity : capacity (env s) = capacity (env s0);
}.

Lemma sorted_snoc {A} (R : A → A → Prop) L x :
  StronglySorted R L → (∀ y, y ∈ L → R y x) → StronglySorted R (L ++ [x]).
Proof.
  induction 1 as [|y L Hs IH Hall]; intros Hx; simpl; [by repeat constructor|].
  constructor; [apply IH; intros; apply Hx; by right|]. apply Forall_app. split; [done|].
  constructor; [apply Hx; left|constructor].
Qed.

Lemma ticked_nodup s0 V0 cur L V s : ticked s0 V0 cur L V s → NoDup V0 → ∀ t, t ∈ V → t ∉ L.
Proof.
  intros H Hnd t Ht HL. rewrite <-(tk_perm _ _ _ _ _ _ H) in Hnd.
  apply NoDup_app in Hnd as (_ & Hd & _). by apply (Hd t).
Qed.

(** One timer is fired and removed. *)
Lemma wp_tick_round s0 V0 cur L t V s (Q : unit → st heap_timer time_heap → Prop) :
  NoDup V0 → ticked s0 V0 cur L (t :: V) s → key s0 t ≤ cur →
  (∀ V' s', V' ≡ₚ V → ticked s0 V0 cur (L ++ [t]) V' s' → Q () s') →
  wp (t ← array_get 0;
      cb ← fget cb_func t;
      when (negb (cb =? 0)) (data ← fget user_data t; call cb data);;
      pop_timer) s Q.
Proof.
  intros Hnd H Hdue HQ. pose proof (ticked_nodup _ _ _ _ _ _ H Hnd) as HnL. pose proof H as [].
  pose proof tk_rep0 as [[R Ha] Hc Hn Hm HndV Hl Hh].
  destruct (Hl t) as [Ht0 [x Hx]]; [left|].
  assert (mem s0 !! t = Some x) as Hx0.
  { rewrite <-Hx, tk_mem0, lookup_without; [done|]. apply HnL. left. }
  apply wp_bind, (wp_array_get _ 0 t); [by rewrite Ha|].
  apply wp_bind. eapply wp_fget; [exact Hx|].
  apply wp_bind. apply (wp_mono _ _ (λ _ s1, heap_rep s1 (t :: V) ∧ mem s1 = mem s ∧ capacity (env s1) = capacity (env s) ∧
    fired (env s1) = fired (env s0) ++ calls_of s0 (L ++ [t]))).
  { assert (calls_of s0 (L ++ [t]) = calls_of s0 L ++ (if cb_func x =? 0 then [] else [(cb_func x, user_data x)])) as Hcalls.
    { unfold calls_of. rewrite omap_app. simpl. rewrite Hx0. by destruct (cb_func x =? 0). }
    apply wp_when; intros E.
    - apply negb_true_iff in E. rewrite E in Hcalls. apply wp_bind. eapply wp_fget; [exact Hx|].
      unfold call. apply wp_bind, wp_get_env, wp_put_env. cbn [mem env capacity fired]. split_and!; try done.
      + destruct tk_rep0. by split.
      + by rewrite Hcalls, tk_fired0, app_assoc.
    - apply negb_false_iff in E. rewrite E, app_nil_r in Hcalls. by rewrite Hcalls. }
  intros [] s1 (Hrep1 & Hm1 & Hc1 & Hf1). eapply wp_mono; [by eapply wp_pop_timer|].
  intros [] s2 (V' & HV' & Hrep2 & Hm2 & Hf2 & Hc2). apply (HQ V'); [done|]. split.
  - done.
  - rewrite <-tk_perm0, HV', <-app_assoc. done.
  - apply sorted_snoc; [done|]. intros u Hu. apply tk_before0; [done|left].
  - intros u w Hu Hw. rewrite HV' in Hw. apply elem_of_app in Hu as [Hu| ->%list_elem_of_singleton].
    + apply tk_before0; [done|by right].
    + assert (∀ v, v ∈ t :: V → key s v = key s0 v) as Hkey.
      { intros v Hv. unfold key. rewrite tk_mem0, lookup_without; [done|]. by apply HnL. }
      rewrite <-!Hkey by (by left || by right). apply list_elem_of_lookup in Hw as [i Hi].
      pose proof (heap_root (key s) (t :: V) (S i) Hh) as Hroot.
      rewrite !list_lookup_total_alt in Hroot. simpl in Hroot. rewrite Hi in Hroot. apply Hroot.
      apply lookup_lt_Some in Hi. lia.
  - intros u [Hu| ->%list_elem_of_singleton]%elem_of_app; [by apply tk_due0|done].
  - rewrite Hm2, Hm1, tk_mem0. by rewrite without_snoc.
  - by rewrite Hf2, Hf1.
  - congruence.
Qed.

Lemma wp_tick s V cur :
  heap_rep s V → 0 < capacity (env s) →
  wp (tick cur) s (λ _ s', ∃ L V', ticked s V cur L V' s' ∧ ∀ t, t ∈ V' → cur < key s t).
Proof.
  intros Hrep Hcap. unfold tick. pose proof (hp_nodup _ _ Hrep) as Hnd.
  assert (∀ s1 V1 (Q : Z → st heap_timer time_heap → Prop), heap_rep s1 V1 → capacity (env s1) = capacity (env s) →
    (∀ tmp, (∀ t V2, V1 = t :: V2 → tmp = t) → Q tmp s1) → wp (array_get 0) s1 Q) as Htop.
  { intros s1 V1 Q H1 E HQ. pose proof (hp_capacity _ _ H1) as Hc1. rewrite E in Hc1.
    destruct (lookup_lt_is_Some_2 (array (env s1)) 0) as [x Hx]; [lia|].
    apply (wp_array_get _ 0 x); [done|]. apply HQ. intros t V2 ->. destruct (hp_array _ _ H1) as [R Ha].
    rewrite Ha in Hx. simpl in Hx. congruence. }
  assert (ticked s V cur [] V s) as Hstart.
  { split; try done; [constructor|by intros t u ?%not_elem_of_nil|by intros t ?%not_elem_of_nil|by rewrite app_nil_r]. }
  apply wp_bind. eapply Htop; [exact Hrep|done|]. intros tmp Htmp. apply wp_bind, wp_get_env.
  rewrite (hp_size _ _ Hrep), Nat2Z.id.
  eapply (wp_loop (λ n tmp s1, ∃ L V1, ticked s V cur L V1 s1 ∧ n = length V1 ∧ ∀ t V2, V1 = t :: V2 → tmp = t))
    with (n := length V); [|by exists [], V|lia].
  clear tmp Htmp Hstart. intros n tmp s1 (L & V1 & Ht & -> & Htmp).
  apply wp_bind. eapply wp_empty; [apply Ht|]. destruct V1 as [|t V1].
  { apply wp_ret. exists L, []. split; [done|]. by intros t ?%not_elem_of_nil. }
  rewrite (Htmp t V1 eq_refl). clear tmp Htmp. pose proof Ht as [].
  assert (∀ v, v ∈ t :: V1 → key s1 v = key s v) as Hkey.
  { intros v Hv. unfold key. rewrite tk_mem0, lookup_without; [done|]. by apply (ticked_nodup _ _ _ _ _ _ Ht Hnd). }
  pose proof tk_rep0 as [_ _ _ _ _ Hl Hh]. destruct (Hl t) as [Ht0 Hlt]; [left|].
  apply Z.eqb_neq in Ht0 as ->. apply wp_bind, wp_expire; [done|]. rewrite Hkey by left. rewrite Z.gtb_ltb.
  destruct (Z.ltb_spec cur (key s t)) as [Hlate|Hdue].
  - apply wp_ret. exists L, (t :: V1). split; [done|]. intros u Hu. rewrite <-(Hkey u Hu).
    apply list_elem_of_lookup in Hu as [i Hi]. pose proof (heap_root (key s1) (t :: V1) i Hh) as Hroot.
    rewrite !list_lookup_total_alt, Hi in Hroot. simpl in Hroot. rewrite (Hkey t) in Hroot by left.
    apply lookup_lt_Some in Hi. specialize (Hroot Hi). lia.
  - assert (∀ (f : unit → TH (Z + unit)) Q, (∀ s2 V2, V2 ≡ₚ V1 → ticked s V cur (L ++ [t]) V2 s2 → wp (f ()) s2 Q) →
      wp (t ← array_get 0; cb ← fget cb_func t;
          when (negb (cb =? 0)) (data ← fget user_data t; call cb data);; x ← pop_timer; f x) s1 Q) as Hround.
    { intros f Q HQ. pose proof (wp_tick_round s V cur L t V1 s1 (λ x s2, wp (f x) s2 Q) Hnd Ht Hdue
        (λ V2 s2 HV2 H2, HQ s2 V2 HV2 H2)) as H.
      do 3 (apply wp_bind; eapply wp_mono; [exact (wp_bind_inv _ _ _ _ H)|]; clear H; intros ? ? H).
      apply wp_bind. exact H. }
    apply Hround. clear Hround. intros s2 V2 HV2 H2. apply wp_bind.
    eapply Htop; [apply H2|apply H2|]. intros tmp Htmp. apply wp_ret.
    exists (length V1). split; [simpl; lia|]. exists (L ++ [t]), V2. split_and!; [done| |done].
    by rewrite HV2.
Qed.

(** ** Building a heap *)

Lemma wp_heapify s V R k :
  array (env s) = V ++ R → cur_size (env s) = Z.of_nat (length V) → Z.of_nat (length V) ≤ 2 ^ 30 → live s V →
  (k ≤ length V)%nat → heap_from (key s) k V →
  wp (heapify (Z.of_nat k - 1)) s (λ _ s', ∃ V', V' ≡ₚ V ∧ heap_from (key s) 0 V' ∧ s' = with_array s (V' ++ R)).
Proof.
  intros Ha Hn Hm Hl Hk Hh. unfold heapify. replace (Z.to_nat (Z.of_nat k - 1 + 1)) with k by lia.
  eapply (wp_loop (λ m i s', m = Z.to_nat (i + 1) ∧ ∃ j V', i = Z.of_nat j - 1 ∧ (j ≤ length V)%nat ∧ V' ≡ₚ V ∧
    heap_from (key s) j V' ∧ s' = with_array s (V' ++ R))) with (n := k); [| |lia].
  2: { split; [lia|]. exists k, V. split_and!; try done. rewrite <-Ha. by destruct s as [? []]. }
  intros m i s' (-> & j & V' & -> & Hj & HV & Hh' & ->). rewrite Z.geb_leb.
  destruct (Z.leb_spec 0 (Z.of_nat j - 1)).
  - replace (Z.of_nat j - 1) with (Z.of_nat (j - 1)) by lia. pose proof (Permutation_length HV) as HlV.
    apply wp_bind. eapply wp_mono.
    { eapply (wp_percolate_down (with_array s (V' ++ R)) (j - 1) V' R); try done.
      - by rewrite HlV.
      - by rewrite HlV.
      - intros t Ht. apply Hl. by rewrite <-HV.
      - lia.
      - by replace (S (j - 1)) with j by lia. }
    intros [] s2 (V2 & HV2 & Hh2 & ->). apply wp_ret. exists (j - 1)%nat. split; [lia|].
    split; [lia|]. exists (j - 1)%nat, V2. split_and!; [lia|lia|by rewrite HV2|done|done].
  - apply wp_ret. exists V'. assert (j = 0%nat) as -> by lia. done.
Qed.

Lemma wp_time_heap_init s L cap :
  NoDup L → (∀ t, t ∈ L → t ≠ 0 ∧ is_Some (mem s !! t)) → Z.of_nat (length L) ≤ cap → cap ≤ 2 ^ 30 →
  wp (time_heap_init L (Z.of_nat (length L)) cap) s (λ b s', b = true ∧ ∃ V, V ≡ₚ L ∧ heap_rep s' V ∧
    mem s' = mem s ∧ fired (env s') = fired (env s) ∧ capacity (env s') = cap).
Proof.
  intros Hnd Hl Hcap Hmax. unfold time_heap_init.
  rewrite (proj2 (Z.ltb_ge _ _) Hcap), (proj2 (Z.ltb_ge cap 0)) by lia.
  apply wp_bind, wp_get_env, wp_bind, wp_put_env. cbn [mem env fired].
  set (s1 := St (mem s) (Time_heap (replicate (Z.to_nat cap) 0) cap (Z.of_nat (length L)) (fired (env s)))).
  set (R := replicate (Z.to_nat cap - length L) 0). apply wp_bind.
  apply (wp_mono _ _ (λ _ s', ∃ V, V ≡ₚ L ∧ heap_from (key s) 0 V ∧ s' = with_array s1 (V ++ R))).
  2: { intros [] s' (V & HV & Hh & ->). apply wp_ret. split; [done|]. exists V. split_and!; try done.
       pose proof (Permutation_length HV) as HlV. split; cbn; rewrite ?HlV; try done.
       - by eexists.
       - unfold R. rewrite length_app, length_replicate, HlV. lia.
       - lia.
       - by rewrite HV.
       - intros t Ht. apply Hl. by rewrite <-HV. }
  apply wp_when; intros E.
  2: { apply negb_false_iff, Z.eqb_eq in E. exists L. destruct L; [|simpl in E; lia]. split_and!; [done| |].
       - intros i Hi. simpl in Hi. lia.
       - unfold with_array, s1, R. cbn. by rewrite Nat.sub_0_r. }
  apply negb_true_iff, Z.eqb_neq in E. apply wp_bind.
  eapply (wp_loop (λ m i s', ∃ j, i = Z.of_nat j ∧ (j ≤ length L)%nat ∧ m = (length L - j)%nat ∧
    s' = with_array s1 (take j L ++ replicate (Z.to_nat cap - j) 0))) with (n := length L); [| |lia].
  2: { exists 0%nat. split_and!; [done|lia|lia|]. by rewrite Nat.sub_0_r. }
  intros m i s' (j & -> & Hj & -> & ->). destruct (Z.ltb_spec (Z.of_nat j) (Z.of_nat (length L))) as [Hlt|Hge].
  - rewrite Nat2Z.id. destruct (lookup_lt_is_Some_2 L j) as [t Ht]; [lia|]. rewrite Ht.
    apply wp_bind, wp_array_set; [cbn; rewrite length_app, length_replicate, length_take; lia|]. apply wp_ret.
    exists (length L - S j)%nat. split; [lia|]. exists (S j). split_and!; [lia|lia|done|].
    unfold with_array. cbn. do 2 f_equal. rewrite (take_S_r _ _ _ Ht), <-app_assoc.
    destruct (Z.to_nat cap - j)%nat as [|q] eqn:Eq; [lia|]. replace (Z.to_nat cap - S j)%nat with q by lia.
    rewrite insert_app_r_alt by (rewrite length_take; lia). rewrite length_take.
    by replace (j - j `min` length L)%nat with 0%nat by lia.
  - assert (j = length L) as -> by lia. rewrite take_ge by done. apply wp_ret. unfold when.
    replace ((Z.of_nat (length L) - 1) ÷ 2) with (Z.of_nat (S ((length L - 1) / 2)) - 1).
    2: { rewrite Z.quot_div_nonneg by lia. lia. }
    eapply wp_mono; [apply (wp_heapify (with_array s1 (L ++ R)) L R); try done|].
    + lia.
    + intros t Ht. by apply Hl.
    + lia.
    + intros i Hi Hk. lia.
    + intros [] s2 (V & HV & Hh & ->). by exists V.
Qed.

(** ** The properties *)

(** A timer heap is built from an array of timers, in place of the nulls of a
    new array: the same timers, every parent not after its children. *)
Theorem time_heap_init_spec s L cap :
  NoDup L → (∀ t, t ∈ L → t ≠ 0 ∧ is_Some (mem s !! t)) → Z.of_nat (length L) ≤ cap → cap ≤ 2 ^ 30 →
  ∃ s' V, time_heap_init L (Z.of_nat (length L)) cap s = Ok (true, s') ∧ heap_rep s' V ∧ V ≡ₚ L ∧
    mem s' = mem s ∧ fired (env s') = fired (env s) ∧ capacity (env s') = cap.
Proof.
  intros Hnd Hl Hc Hm. destruct (proj1 (wp_ok _ _ _) (wp_time_heap_init s L cap Hnd Hl Hc Hm)) as (b & s' & Hr & -> & V & ?).
  exists s', V. naive_solver.
Qed.

(** Adding a timer keeps the heap, makes the array larger when it is full and
    leaves every timer where it is in memory; the earliest is then on top. *)
Theorem add_timer_spec s V t :
  heap_rep s V → t ∉ V → t ≠ 0 → is_Some (mem s !! t) → 0 < capacity (env s) → 2 * capacity (env s) ≤ INT_MAX →
  ∃ s' V', add_timer t s = Ok ((), s') ∧ heap_rep s' V' ∧ V' ≡ₚ t :: V ∧ mem s' = mem s ∧
    fired (env s') = fired (env s) ∧
    ∃ u, TimeHeap.top s' = Ok (u, s') ∧ u ∈ t :: V ∧ ∀ v, v ∈ t :: V → key s u ≤ key s v.
Proof.
  intros Hrep Ht H0 Hx Hc Hm. destruct (proj1 (wp_ok _ _ _) (wp_add_timer s V t Hrep Ht H0 Hx Hc Hm)) as ([] & s' & Hr & V' & HV & Hrep' & Hmem & Hf & _).
  exists s', V'. split_and!; try done. destruct V' as [|u V']; [by apply Permutation_nil_cons in HV|].
  exists u. split; [|split].
  - assert (wp TimeHeap.top s' (λ r s1, r = u ∧ s1 = s')) as Htop by by eapply wp_top.
    by destruct (proj1 (wp_ok _ _ _) Htop) as (r & s1 & -> & -> & ->).
  - rewrite <-HV. left.
  - intros v Hv. rewrite <-HV in Hv. apply list_elem_of_lookup in Hv as [i Hi].
    pose proof (heap_root (key s') (u :: V') i (hp_heap _ _ Hrep')) as Hroot.
    rewrite !list_lookup_total_alt, Hi in Hroot. simpl in Hroot.
    unfold key in *. rewrite Hmem in Hroot. apply Hroot. by apply lookup_lt_Some in Hi.
Qed.

(** C16: A tick fires the timers that are due and no other, in the order of their
    expiry: each is called once, when it has a callback, and deleted; the
    others stay in the heap. *)
Theorem tick_spec s V cur :
  heap_rep s V → 0 < capacity (env s) →
  ∃ L V' s', tick cur s = Ok ((), s') ∧ heap_rep s' V' ∧ L ++ V' ≡ₚ V ∧
    (∀ t, t ∈ V → (t ∈ L ↔ key s t ≤ cur)) ∧ StronglySorted (λ t u, key s t ≤ key s u) L ∧
    fired (env s') = fired (env s) ++ calls_of s L ∧ mem s' = without L (mem s).
Proof.
  intros Hrep Hc. destruct (proj1 (wp_ok _ _ _) (wp_tick s V cur Hrep Hc)) as ([] & s' & Hr & L & V' & Ht & Hlate).
  exists L, V', s'. pose proof Ht as []. split_and!; try done. intros t Hin. split; [by apply tk_due0|].
  intros Hdue. rewrite <-tk_perm0 in Hin. apply elem_of_app in Hin as [|Hin]; [done|].
  specialize (Hlate t Hin). lia.
Qed.

(** A heap made with room for no timer stays so when its array is doubled:
    the first timer is stored outside it, and so is what a tick reads. *)
Theorem time_heap_zero_capacity s t cur :
  t ≠ 0 → (_ ← time_heap_new 0; add_timer t) s = UB ∧ (_ ← time_heap_new 0; tick cur) s = UB.
Proof. intros Ht. apply Z.eqb_neq in Ht. split; [|done]. unfold add_timer. rewrite Ht. done. Qed.

(** ** Instances *)

Definition heap_demo_mem : gmap Z heap_timer :=
  <[1 := Heap_timer 30 7 0]> (<[2 := Heap_timer 10 8 1]> (<[3 := Heap_timer 20 0 2]> ∅)).
Definition heap_demo : st heap_timer time_heap := St heap_demo_mem (Time_heap [2; 1; 0] 3 2 []).

Lemma heap_demo_live t : t ∈ [1; 2; 3] → t ≠ 0 ∧ is_Some (mem heap_demo !! t).
Proof.
  rewrite !elem_of_cons. intros [->|[->|[->|H]]]; [split; [done|by eexists]..|by apply not_elem_of_nil in H].
Qed.

Lemma heap_demo_rep : heap_rep heap_demo [2; 1].
Proof.
  split; try done.
  - by exists [0].
  - by apply (bool_decide_unpack _).
  - intros t Ht. apply heap_demo_live. set_solver.
  - intros [|[|i]] Hi Hk; simpl in *; try lia. vm_compute. done.
Qed.

Lemma time_heap_init_spec_witness :
  ∃ s' V, time_heap_init [1; 2; 3] 3 4 heap_demo = Ok (true, s') ∧ heap_rep s' V ∧ V ≡ₚ [1; 2; 3] ∧
    mem s' = mem heap_demo ∧ fired (env s') = [] ∧ capacity (env s') = 4.
Proof.
  apply (time_heap_init_spec heap_demo [1; 2; 3] 4).
  - by apply (bool_decide_unpack _).
  - exact heap_demo_live.
  - simpl. lia.
  - lia.
Defined.

Lemma add_timer_spec_witness :
  ∃ s' V', add_timer 3 heap_demo = Ok ((), s') ∧ heap_rep s' V' ∧ V' ≡ₚ [3; 2; 1] ∧ mem s' = mem heap_demo ∧
    fired (env s') = [] ∧
    ∃ u, TimeHeap.top s' = Ok (u, s') ∧ u ∈ [3; 2; 1] ∧ ∀ v, v ∈ [3; 2; 1] → key heap_demo u ≤ key heap_demo v.
Proof.
  apply (add_timer_spec heap_demo [2; 1] 3 heap_demo_rep); [by apply (bool_decide_unpack _)|done|by eexists|done|done].
Defined.

Lemma tick_spec_witness :
  ∃ L V' s', tick 25 heap_demo = Ok ((), s') ∧ heap_rep s' V' ∧ L ++ V' ≡ₚ [2; 1] ∧
    (∀ t, t ∈ [2; 1] → (t ∈ L ↔ key heap_demo t ≤ 25)) ∧
    StronglySorted (λ t u, key heap_demo t ≤ key heap_demo u) L ∧
    fired (env s') = [] ++ calls_of heap_demo L ∧ mem s' = without L (mem heap_demo).
Proof. apply (tick_spec heap_demo [2; 1] 25 heap_demo_rep). done. Defined.

Lemma time_heap_zero_capacity_witness :
  (_ ← time_heap_new 0; add_timer 1) heap_demo = UB ∧ (_ ← time_heap_new 0; tick 5) heap_demo = UB.
Proof. apply (time_heap_zero_capacity heap_demo 1 5). done. Defined.
