(* ===== verification/Pthread.v ===== *)
(** * Threads, a mutex and condition variables

    What the thread pools use of [pthread.h].  A thread runs from one
    synchronisation call to the next in one step: what the pools share is read
    and written with their mutex held, so that other interleavings of the same
    code look like one of these. *)
From S2P Require Import Prelude.
From stdpp Require Export relations.

(** ** Data *)

Inductive lock := Unlocked | Locked (t : nat) | Destroyed.
#[export] Instance lock_eq_dec : EqDecision lock.
Proof. solve_decision. Defined.

(** A thread is about to run the code [p]; waits for the mutex to run [p] with
    it; waits for a signal on [c]; waits for the end of [u]; or has ended. *)
Inductive thread (C P : Type) :=
  | Running (p : P)
  | Locking (p : P)
  | Waiting (c : C) (p : P)
  | Joining (u : nat) (p : P)
  | Exited.
Arguments Running {C P} p.
Arguments Locking {C P} p.
Arguments Waiting {C P} c p.
Arguments Joining {C P} u p.
Arguments Exited {C P}.

Record sys (E C P : Type) := Sys { mutex : lock; threads : list (thread C P); shared : E }.
Arguments Sys {E C P} mutex threads shared.
Arguments mutex {E C P} s.
Arguments threads {E C P} s.
Arguments shared {E C P} s.

Section pthread.
Context {N E C P : Type} `{EqDecision C}.
Abbreviation state := (st N (sys E C P)).
Abbreviation TM := (M state).

(** ** Calls *)

Definition get_shared : TM E := e ← get_env; mret (shared e).
Definition put_shared (x : E) : TM unit := e ← get_env; put_env (Sys (mutex e) (threads e) x).
Definition put_threads (l : list (thread C P)) : TM unit := e ← get_env; put_env (Sys (mutex e) l (shared e)).
Definition set_thread (t : nat) (th : thread C P) : TM unit := e ← get_env; put_threads (<[t := th]> (threads e)).

Definition pthread_mutex_unlock : TM unit :=
  e ← get_env;
  match mutex e with
  | Locked _ => put_env (Sys Unlocked (threads e) (shared e))
  | _ => ub
  end.

(** [pthread_mutex_lock] and then [p]. *)
Definition pthread_mutex_lock (t : nat) (p : P) : TM unit := set_thread t (Locking p).

(** [pthread_cond_wait] and then, with the mutex again, [p]. *)
Definition pthread_cond_wait (t : nat) (c : C) (p : P) : TM unit :=
  pthread_mutex_unlock;; set_thread t (Waiting c p).

Definition wake (c : C) (th : thread C P) : thread C P :=
  match th with
  | Waiting c' p => if decide (c' = c) then Locking p else th
  | _ => th
  end.
Definition waits (c : C) (th : thread C P) : bool :=
  match th with Waiting c' _ => bool_decide (c' = c) | _ => false end.

Definition pthread_cond_broadcast (c : C) : TM unit := e ← get_env; put_threads (wake c <$> threads e).

(** The threads that wait, of which the scheduler takes one. *)
Fixpoint waiters (c : C) (i : nat) (l : list (thread C P)) : list nat :=
  match l with
  | [] => []
  | th :: l => if waits c th then i :: waiters c (S i) l else waiters c (S i) l
  end.
Definition pthread_cond_signal (k : nat) (c : C) : TM unit :=
  e ← get_env;
  let w := waiters c 0 (threads e) in
  match w !! (k mod length w)%nat with
  | Some i => put_threads (alter (wake c) i (threads e))
  | None => mret ()
  end.

Definition pthread_mutex_destroy : TM unit :=
  e ← get_env;
  match mutex e with
  | Unlocked => put_env (Sys Destroyed (threads e) (shared e))
  | _ => ub
  end.
Definition pthread_cond_destroy (c : C) : TM unit :=
  e ← get_env; assert (negb (existsb (waits c) (threads e))).

Definition pthread_join (t u : nat) (p : P) : TM unit := set_thread t (Joining u p).
Definition pthread_exit (t : nat) : TM unit := set_thread t Exited.

(** A new thread; false when there is none. *)
Definition pthread_create (ok : bool) (p : P) : TM (option nat) :=
  e ← get_env;
  if ok then put_threads (threads e ++ [Running p]);; mret (Some (length (threads e))) else mret None.

(** ** Schedules *)

(** The code of a thread: the choices of the scheduler and of [malloc], the
    thread, and where it is. *)
Context (block : nat → nat → P → TM unit).

Definition has_exited (s : state) (u : nat) : bool :=
  match threads (env s) !! u with Some Exited => true | _ => false end.

Definition can_run (s : state) (t : nat) : bool :=
  match threads (env s) !! t with
  | Some (Running _) => true
  | Some (Locking _) => match mutex (env s) with Locked _ => false | _ => true end
  | Some (Joining u _) => has_exited s u
  | _ => false
  end.

Definition run_thread (k t : nat) : TM unit :=
  e ← get_env;
  match threads e !! t with
  | Some (Running p) => block k t p
  | Some (Locking p) =>
      match mutex e with
      | Destroyed => ub
      | _ => put_env (Sys (Locked t) (<[t := Running p]> (threads e)) (shared e));; block k t p
      end
  | Some (Joining _ p) => set_thread t (Running p)
  | _ => mret ()
  end.

(** A thread that can run does. *)
Inductive step (s : state) : state → Prop :=
  | step_run k t s' : can_run s t = true → run_thread k t s = Ok ((), s') → step s s'.

(** A thread in [pthread_cond_wait] may wake up without a signal. *)
Inductive spurious (s : state) : state → Prop :=
  | spurious_wake t c p : threads (env s) !! t = Some (Waiting c p) →
      spurious s (St (mem s) (Sys (mutex (env s)) (<[t := Locking p]> (threads (env s))) (shared (env s)))).

Definition any_step (s s' : state) : Prop := step s s' ∨ spurious s s'.

(** What the thread [t] does next is undefined. *)
Definition faults (s : state) (t : nat) : Prop := can_run s t = true ∧ ∃ k, ∀ s', run_thread k t s ≠ Ok ((), s').

Definition stuck (s : state) : Prop := ∀ t, can_run s t = false.

(** A schedule: the threads that run, with their choices. *)
Fixpoint run (l : list (nat * nat)) (s : state) : option state :=
  match l with
  | [] => Some s
  | (t, k) :: l => if can_run s t then
                     match run_thread k t s with Ok (_, s') => run l s' | _ => None end
                   else None
  end.

Lemma run_steps l s s' : run l s = Some s' → rtc step s s'.
Proof.
  revert s. induction l as [|[t k] l IH]; intros s Hr; simpl in Hr; [injection Hr as ->; constructor|].
  destruct (can_run s t) eqn:Hc; [|done]. destruct (run_thread k t s) as [[[] s1]| |] eqn:Hk; [|done..].
  eapply rtc_l; [by econstructor|by apply IH].
Qed.

Lemma run_reaches l s s' : run l s = Some s' → rtc any_step s s'.
Proof. intros H%run_steps. eapply (rtc_subrel step); [by left|done]. Qed.

(** The state at the end of a schedule that can be run. *)
Lemma run_default l s d : is_Some (run l s) → rtc any_step s (default d (run l s)).
Proof. intros [s' Hs]. rewrite Hs. by eapply run_reaches. Qed.
End pthread.
