(* ===== verification/PthreadFacts.v ===== *)
(** * Threads: rules for the calls of [pthread.h]

    What each call does to a state in constructor form, and what waking does
    to a table of threads. *)
From S2P Require Import Prelude Pthread.

Section rules.
Context {N E C P : Type} `{EqDecision C}.
Implicit Types (m : gmap Z N) (mx : lock) (ths : list (thread C P)) (th : thread C P) (c : C) (sh : E).

Lemma wp_get_shared m mx ths sh (Q : E → st N (sys E C P) → Prop) :
  Q sh (St m (Sys mx ths sh)) → wp get_shared (St m (Sys mx ths sh)) Q.
Proof. done. Qed.
Lemma wp_put_shared m mx ths sh sh' (Q : unit → st N (sys E C P) → Prop) :
  Q () (St m (Sys mx ths sh')) → wp (put_shared sh') (St m (Sys mx ths sh)) Q.
Proof. done. Qed.
Lemma wp_set_thread m mx ths sh t th (Q : unit → st N (sys E C P) → Prop) :
  Q () (St m (Sys mx (<[t := th]> ths) sh)) → wp (set_thread t th) (St m (Sys mx ths sh)) Q.
Proof. done. Qed.
Lemma wp_mutex_unlock m u ths sh (Q : unit → st N (sys E C P) → Prop) :
  Q () (St m (Sys Unlocked ths sh)) → wp pthread_mutex_unlock (St m (Sys (Locked u) ths sh)) Q.
Proof. done. Qed.
Lemma wp_cond_wait m u ths sh t c p (Q : unit → st N (sys E C P) → Prop) :
  Q () (St m (Sys Unlocked (<[t := Waiting c p]> ths) sh)) →
  wp (pthread_cond_wait t c p) (St m (Sys (Locked u) ths sh)) Q.
Proof. done. Qed.
Lemma wp_cond_broadcast m mx ths sh c (Q : unit → st N (sys E C P) → Prop) :
  Q () (St m (Sys mx (wake c <$> ths) sh)) → wp (pthread_cond_broadcast c) (St m (Sys mx ths sh)) Q.
Proof. done. Qed.

(** ** Signals *)

Lemma waiters_spec c i ths u :
  u ∈ waiters c i ths → ∃ j th, u = (i + j)%nat ∧ ths !! j = Some th ∧ waits c th = true.
Proof.
  revert i. induction ths as [|th ths IH]; intros i Hu; simpl in Hu; [by apply not_elem_of_nil in Hu|].
  destruct (waits c th) eqn:Hw; [apply elem_of_cons in Hu as [->|Hu]|].
  - exists 0%nat, th. split_and!; [lia|done..].
  - destruct (IH _ Hu) as (j & th' & -> & ? & ?). exists (S j), th'. split_and!; [lia|done..].
  - destruct (IH _ Hu) as (j & th' & -> & ? & ?). exists (S j), th'. split_and!; [lia|done..].
Qed.

Lemma waiters_nil c i ths :
  waiters c i ths = [] → ∀ j th, ths !! j = Some th → waits c th = false.
Proof.
  revert i. induction ths as [|th ths IH]; intros i Hu j th' Hj; [done|]. simpl in Hu.
  destruct (waits c th) eqn:Hw; [done|]. destruct j as [|j]; simpl in Hj; [congruence|by eapply IH].
Qed.

(** A signal wakes one thread that waits, if there is one. *)
Lemma wp_cond_signal k m mx ths sh c (Q : unit → st N (sys E C P) → Prop) :
  ((∀ j th, ths !! j = Some th → waits c th = false) → Q () (St m (Sys mx ths sh))) →
  (∀ j th, ths !! j = Some th → waits c th = true → Q () (St m (Sys mx (<[j := wake c th]> ths) sh))) →
  wp (pthread_cond_signal k c) (St m (Sys mx ths sh)) Q.
Proof.
  intros Hnone Hone. unfold pthread_cond_signal. apply wp_bind, wp_get_env. cbn [threads env].
  destruct (waiters c 0 ths !! (k mod length (waiters c 0 ths))%nat) as [u|] eqn:Hu.
  - apply list_elem_of_lookup_2, waiters_spec in Hu as (j & th & -> & Hj & Hw). unfold put_threads.
    apply wp_bind, wp_get_env, wp_put_env. cbn [mem env mutex shared].
    assert (alter (wake c) (0 + j)%nat ths = <[j := wake c th]> ths) as ->; [|by apply Hone].
    clear -Hj. revert j Hj. simpl. induction ths as [|th' ths IH]; intros [|j] Hj; simpl in *; [done..|congruence|].
    f_equal. by apply IH.
  - apply wp_ret. apply Hnone, (waiters_nil c 0). apply lookup_ge_None_1 in Hu.
    destruct (waiters c 0 ths) as [|u l]; [done|]. cbn [length] in Hu.
    pose proof (Nat.mod_upper_bound k (S (length l)) ltac:(lia)). lia.
Qed.

Lemma wake_other c th : waits c th = false → wake c th = th.
Proof. destruct th; simpl; try done. intros Hw%bool_decide_eq_false. by rewrite decide_False. Qed.

(** When one thread waits at most, a signal is a broadcast. *)
Lemma wp_cond_signal_one k m mx ths sh c (Q : unit → st N (sys E C P) → Prop) :
  (∀ i j th th', ths !! i = Some th → ths !! j = Some th' → waits c th = true → waits c th' = true → i = j) →
  Q () (St m (Sys mx (wake c <$> ths) sh)) → wp (pthread_cond_signal k c) (St m (Sys mx ths sh)) Q.
Proof.
  intros Huniq HQ. apply wp_cond_signal.
  - intros Hnone. assert (wake c <$> ths = ths) as <-; [|done]. rewrite <-(list_fmap_id ths) at 2.
    apply list_fmap_ext. intros i th Hi. apply wake_other. by eapply Hnone.
  - intros j th Hj Hw. assert (wake c <$> ths = <[j := wake c th]> ths) as <-; [|done].
    apply list_eq. intros i. rewrite list_lookup_fmap. destruct (decide (i = j)) as [->|Hne].
    + rewrite list_lookup_insert_eq by by eapply lookup_lt_Some. by rewrite Hj.
    + rewrite list_lookup_insert_ne by done. destruct (ths !! i) as [th'|] eqn:Hi; [|done]. simpl.
      f_equal. apply wake_other. destruct (waits c th') eqn:Hw'; [|done]. by destruct Hne; eapply Huniq.
Qed.

(** ** Weights *)

(** What a table of threads weighs, when each thread weighs [w]. *)
Definition total (w : thread C P → nat) ths : nat := sum_list (w <$> ths).

Lemma total_cons w th ths : total w (th :: ths) = (w th + total w ths)%nat.
Proof. done. Qed.

Lemma total_insert w ths t th th' :
  ths !! t = Some th → (total w (<[t := th']> ths) + w th = total w ths + w th')%nat.
Proof.
  revert t. induction ths as [|x ths IH]; intros t Ht; [done|]. destruct t as [|t]; simpl in Ht.
  - simplify_eq. change (<[0%nat := th']> (th :: ths)) with (th' :: ths). rewrite !total_cons. lia.
  - change (<[S t := th']> (x :: ths)) with (x :: <[t := th']> ths). rewrite !total_cons. specialize (IH t Ht). lia.
Qed.

Lemma total_wake w c ths :
  (∀ th, (w (wake c th) ≤ S (w th))%nat) → (total w (wake c <$> ths) ≤ total w ths + length ths)%nat.
Proof.
  intros Hw. induction ths as [|x ths IH]; [unfold total; simpl; lia|].
  rewrite fmap_cons, !total_cons. cbn [length]. specialize (Hw x). lia.
Qed.

(** ** Waking *)

Lemma omap_wake {A} (f : thread C P → option A) c ths :
  (∀ th, f (wake c th) = f th) → omap f (wake c <$> ths) = omap f ths.
Proof. intros Hf. induction ths as [|x ths IH]; [done|]. csimpl. by rewrite Hf, IH. Qed.

Lemma omap_insert_same {A} (f : thread C P → option A) ths t th th' :
  ths !! t = Some th → f th' = f th → omap f (<[t := th']> ths) = omap f ths.
Proof.
  intros Ht Hf. revert t Ht. induction ths as [|x ths IH]; intros [|t] Ht; csimpl in *; [done..|simplify_eq; by rewrite Hf|].
  by rewrite (IH _ Ht).
Qed.

Lemma omap_insert_add {A} (f : thread C P → option A) ths t th th' x :
  ths !! t = Some th → f th = None → f th' = Some x → omap f (<[t := th']> ths) ≡ₚ x :: omap f ths.
Proof.
  intros Ht H0 H1. revert t Ht. induction ths as [|y ths IH]; intros [|t] Ht; csimpl in *; [done..|simplify_eq; by rewrite H0, H1|].
  destruct (f y); rewrite (IH _ Ht); [apply perm_swap|done].
Qed.

Lemma omap_insert_del {A} (f : thread C P → option A) ths t th th' x :
  ths !! t = Some th → f th = Some x → f th' = None → x :: omap f (<[t := th']> ths) ≡ₚ omap f ths.
Proof.
  intros Ht H0 H1. revert t Ht. induction ths as [|y ths IH]; intros [|t] Ht; csimpl in *; [done..|simplify_eq; by rewrite H0, H1|].
  destruct (f y); rewrite <-(IH _ Ht); [apply perm_swap|done].
Qed.

(** What the threads have in a list each. *)
Lemma concat_insert {A} (f : thread C P → list A) ths t th th' :
  ths !! t = Some th → f th ++ concat (f <$> <[t := th']> ths) ≡ₚ f th' ++ concat (f <$> ths).
Proof.
  revert t. induction ths as [|x ths IH]; intros t Ht; [done|]. destruct t as [|t]; csimpl in *.
  - simplify_eq. rewrite !app_assoc. f_equiv. apply Permutation_app_comm.
  - rewrite (Permutation_app_swap_app (f th)), IH by done. apply Permutation_app_swap_app.
Qed.

Lemma elem_of_concat_fmap {A} (f : thread C P → list A) ths t th x :
  ths !! t = Some th → x ∈ f th → x ∈ concat (f <$> ths).
Proof.
  revert t. induction ths as [|y ths IH]; intros [|t] Ht Hx; csimpl in *; [done..| |]; apply elem_of_app.
  - left. by simplify_eq.
  - right. by eapply IH.
Qed.
End rules.
