(* ===== verification/ThreadPool.v ===== *)
(** * threadpool (C Implement): the pool with a bounded queue

    [threadpool.c]: workers take jobs from a linked list that holds
    [queue_max_num] jobs at most.  The threads are those of [Pthread.v]; the
    jobs are objects in memory; what is called and returned is recorded. *)
From S2P Require Import Prelude Pthread.
#[local] Open Scope Z_scope.

(** ** Data *)

Record job := Job { callback_function : Z; arg : Z; next : Z }.

Inductive cond := queue_empty | queue_not_empty | queue_not_full.
#[export] Instance cond_eq_dec : EqDecision cond.
Proof. solve_decision. Defined.

(** A thread id that [pthread_create] did not store is [None]. *)
Record threadpool := Threadpool {
  thread_num : Z; queue_max_num : Z; head : Z; tail : Z; pthreads : list (option nat);
  queue_cur_num : Z; queue_close : bool; pool_close : bool;
}.

Definition with_queue (p : threadpool) (h t n : Z) : threadpool :=
  Threadpool (thread_num p) (queue_max_num p) h t (pthreads p) n (queue_close p) (pool_close p).
Definition with_flags (p : threadpool) (q c : bool) : threadpool :=
  Threadpool (thread_num p) (queue_max_num p) (head p) (tail p) (pthreads p) (queue_cur_num p) q c.

(** What happens: a job is added or taken out of the queue, its callback is
    called with its argument, a call of the client [t] returns. *)
Inductive event := Added (cb a : Z) | Taken (cb a : Z) | Called (cb a : Z) | Returned (t : nat) (v : Z).

(** The pool until it is freed, and what has happened. *)
Record world := World { pool : option threadpool; events : list event }.

(** A client calls the functions of the pool one after the other. *)
Inductive call := Add (cb a : Z) | Destroy.

(** Where a thread is: a worker before it locks, with the mutex and with a job;
    a client before its next call; in [threadpool_add_job] with the mutex; in
    [threadpool_destroy] with the mutex, testing whether the queue is empty,
    before each broadcast and before each join. *)
Inductive pc :=
  | Worker_start | Worker_locked | Worker_call (j : Z)
  | Client (cs : list call) | Add_locked (cb a : Z) (cs : list call)
  | Destroy_locked (cs : list call) | Destroy_wait (cs : list call)
  | Destroy_wake1 (cs : list call) | Destroy_wake2 (cs : list call) | Destroy_join (i : Z) (cs : list call).

Abbreviation pool_state := (st job (sys world cond pc)).
Abbreviation TP := (M pool_state).

Definition get_pool : TP threadpool := w ← get_shared; match pool w with Some p => mret p | None => ub end.
Definition put_pool (p : threadpool) : TP unit := w ← get_shared; put_shared (World (Some p) (events w)).
Definition emit (e : event) : TP unit := w ← get_shared; put_shared (World (pool w) (events w ++ [e])).

(** [return v] in a client. *)
Definition return_ (t : nat) (v : Z) (cs : list call) : TP unit :=
  emit (Returned t v);; set_thread t (Running (Client cs)).

Section threadpool.
(** [malloc]: the address of a new job, or null. *)
Context (malloc : nat → gmap Z job → Z).

Definition malloc_job (k : nat) : TP Z := λ s,
  let a := malloc k (mem s) in
  Ok (a, if decide (a = 0) then s else St (<[a := Job 0 0 0]> (mem s)) (env s)).

(** ** Adding a job *)

(** With the mutex, whenever the wait for room is over. *)
Definition add_job_locked (k t : nat) (cb a : Z) (cs : list call) : TP unit :=
  p ← get_pool;
  if (queue_cur_num p =? queue_max_num p) && negb (queue_close p || pool_close p) then
    pthread_cond_wait t queue_not_full (Add_locked cb a cs)
  else if queue_close p || pool_close p then
    pthread_mutex_unlock;; return_ t (-1) cs
  else
    pjob ← malloc_job k;
    if pjob =? 0 then pthread_mutex_unlock;; return_ t (-1) cs else
    fset (λ _, Job cb a 0) pjob;;
    (if head p =? 0 then
       put_pool (with_queue p pjob pjob (queue_cur_num p));;
       pthread_cond_broadcast queue_not_empty
     else
       fset (λ x, Job (callback_function x) (arg x) pjob) (tail p);;
       put_pool (with_queue p (head p) pjob (queue_cur_num p)));;
    p ← get_pool;
    put_pool (with_queue p (head p) (tail p) (queue_cur_num p + 1));;
    emit (Added cb a);;
    pthread_mutex_unlock;;
    return_ t 0 cs.

Definition threadpool_add_job (t : nat) (cb a : Z) (cs : list call) : TP unit :=
  assert (negb (cb =? 0));;
  assert (negb (a =? 0));;
  pthread_mutex_lock t (Add_locked cb a cs).

(** ** The workers *)

Definition threadpool_function (k t : nat) : TP unit :=
  p ← get_pool;
  if (queue_cur_num p =? 0) && negb (pool_close p) then
    pthread_cond_wait t queue_not_empty Worker_locked
  else if pool_close p then
    pthread_mutex_unlock;; pthread_exit t
  else
    let n := queue_cur_num p - 1 in
    let pjob := head p in
    (if n =? 0 then put_pool (with_queue p 0 0 n)
     else x ← fget next pjob; put_pool (with_queue p x (tail p) n));;
    when (n =? 0) (pthread_cond_signal k queue_empty);;
    when (n =? queue_max_num p - 1) (pthread_cond_broadcast queue_not_full);;
    x ← load pjob;
    emit (Taken (callback_function x) (arg x));;
    pthread_mutex_unlock;;
    set_thread t (Running (Worker_call pjob)).

(** The callback is called, without the mutex. *)
Definition call_job (t : nat) (pjob : Z) : TP unit :=
  x ← load pjob;
  emit (Called (callback_function x) (arg x));;
  free pjob;;
  pthread_mutex_lock t Worker_locked.

(** ** Destroying the pool *)

Definition destroy_wait (t : nat) (cs : list call) : TP unit :=
  p ← get_pool;
  if negb (queue_cur_num p =? 0) then pthread_cond_wait t queue_empty (Destroy_wait cs)
  else
    put_pool (with_flags p (queue_close p) true);;
    pthread_mutex_unlock;;
    set_thread t (Running (Destroy_wake1 cs)).

Definition destroy_locked (t : nat) (cs : list call) : TP unit :=
  p ← get_pool;
  if queue_close p || pool_close p then pthread_mutex_unlock;; return_ t (-1) cs
  else
    put_pool (with_flags p true (pool_close p));;
    destroy_wait t cs.

(** The mutex, the condition variables, the jobs that are left and the pool. *)
Definition destroy_free (t : nat) (cs : list call) : TP unit :=
  pthread_mutex_destroy;;
  pthread_cond_destroy queue_empty;;
  pthread_cond_destroy queue_not_empty;;
  pthread_cond_destroy queue_not_full;;
  p ← get_pool;
  s ← get;
  loop (S (size (mem s))) (λ h,
    if h =? 0 then mret (inr ()) else
    x ← fget next h;
    free h;;
    mret (inl x)) (head p);;
  w ← get_shared;
  put_shared (World None (events w));;
  return_ t 0 cs.

(** [pthread_join] on what [pthread_create] left in [pthreads[i]]. *)
Definition destroy_join (t : nat) (i : Z) (cs : list call) : TP unit :=
  p ← get_pool;
  if i <? thread_num p then
    match pthreads p !! Z.to_nat i with
    | Some (Some u) => pthread_join t u (Destroy_join (i + 1) cs)
    | _ => ub
    end
  else destroy_free t cs.

(** ** The threads *)

(** The next call of a client. *)
Definition next_call (t : nat) (cs : list call) : TP unit :=
  match cs with
  | [] => pthread_exit t
  | Add cb a :: cs => threadpool_add_job t cb a cs
  | Destroy :: cs => pthread_mutex_lock t (Destroy_locked cs)
  end.

Definition block (k t : nat) (p : pc) : TP unit :=
  match p with
  | Worker_start => pthread_mutex_lock t Worker_locked
  | Worker_locked => threadpool_function k t
  | Worker_call j => call_job t j
  | Client cs => next_call t cs
  | Add_locked cb a cs => add_job_locked k t cb a cs
  | Destroy_locked cs => destroy_locked t cs
  | Destroy_wait cs => destroy_wait t cs
  | Destroy_wake1 cs => pthread_cond_broadcast queue_not_empty;; set_thread t (Running (Destroy_wake2 cs))
  | Destroy_wake2 cs => pthread_cond_broadcast queue_not_full;; set_thread t (Running (Destroy_join 0 cs))
  | Destroy_join i cs => destroy_join t i cs
  end.

(** ** Making a pool *)

(** [ok i] is whether the call [i] of [malloc], [pthread_mutex_init],
    [pthread_cond_init] and [pthread_create] succeeds; the result is whether
    there is a pool. *)
Definition threadpool_init (ok : nat → bool) (n m : Z) : TP bool :=
  if negb (ok 0%nat) then mret false else
  let p := Threadpool n m 0 0 [] 0 false false in
  e ← get_env;
  if negb (ok 1%nat) then mret false else
  put_env (Sys Unlocked (threads e) (shared e));;
  if negb (ok 2%nat && ok 3%nat && ok 4%nat) then mret false else
  if negb (ok 5%nat) then mret false else
  put_pool p;;
  loop (S (Z.to_nat n)) (λ i,
    if i <? n then
      u ← pthread_create (ok (6 + Z.to_nat i)%nat) Worker_start;
      p ← get_pool;
      put_pool (Threadpool n m (head p) (tail p) (pthreads p ++ [u]) (queue_cur_num p) (queue_close p) (pool_close p));;
      mret (inl (i + 1))
    else mret (inr true)) 0.

(** The clients come after the workers. *)
Definition start_clients (clients : list (list call)) : TP unit :=
  e ← get_env; put_threads (threads e ++ ((λ cs, Running (Client cs)) <$> clients)).
End threadpool.
