(* ===== verification/ThreadPoolFacts.v ===== *)
(** * threadpool (C Implement): the invariant of the pool

    How far [threadpool_destroy] has come, what each thread may be doing then,
    the linked list of jobs, and what has happened so far. *)
From S2P Require Import Prelude Pthread PthreadFacts ThreadPool.
#[local] Open Scope Z_scope.

(** ** The queue in memory *)

Fixpoint queue (m : gmap Z job) (a : Z) (js : list Z) : Prop :=
  match js with
  | [] => a = 0
  | j :: js => a = j ∧ j ≠ 0 ∧ ∃ x, m !! j = Some x ∧ queue m (next x) js
  end.

Lemma queue_frame m m' a js : (∀ j, j ∈ js → m' !! j = m !! j) → queue m a js → queue m' a js.
Proof.
  revert a. induction js as [|j js IH]; intros a Hm; [done|]. intros (-> & H0 & x & Hx & Hq).
  split_and!; [done..|]. exists x. rewrite Hm by left. split; [done|]. apply IH; [|done]. intros; apply Hm; by right.
Qed.

(** A job after the last one. *)
Lemma queue_snoc m a js l x j y :
  NoDup js → queue m a js → last js = Some l → m !! l = Some x → j ∉ js → j ≠ 0 → m !! j = Some y → next y = 0 →
  queue (<[l := Job (callback_function x) (arg x) j]> m) a (js ++ [j]).
Proof.
  intros Hnd Hq Hl Hx Hj H0 Hy Hn. revert a Hnd Hq Hl Hj. induction js as [|i js IH]; intros a Hnd Hq Hl Hj; [done|].
  destruct Hq as (-> & Hi0 & z & Hz & Hq). apply NoDup_cons in Hnd as [Hi Hnd]. apply not_elem_of_cons in Hj as [Hne Hj].
  simpl. split_and!; [done..|]. destruct js as [|i' js].
  - simpl in Hl. injection Hl as <-. rewrite lookup_insert_eq. eexists. split; [done|]. simpl. split_and!; [done..|].
    exists y. by rewrite lookup_insert_ne.
  - rewrite last_cons_cons in Hl. exists z. split; [|by apply IH]. rewrite lookup_insert_ne; [done|]. intros ->.
    apply Hi. by apply last_Some_elem_of.
Qed.

(** The callback and the argument of a job. *)
Definition datum (m : gmap Z job) (j : Z) : Z * Z :=
  match m !! j with Some x => (callback_function x, arg x) | None => (0, 0) end.

Lemma datum_frame m m' (js : list Z) : (∀ j, j ∈ js → datum m' j = datum m j) → datum m' <$> js = datum m <$> js.
Proof. intros Hm. apply list_fmap_ext. intros i j Hj. apply Hm. by eapply list_elem_of_lookup_2. Qed.

(** ** What has happened *)

Definition added : list event → list (Z * Z) := omap (λ e, match e with Added cb a => Some (cb, a) | _ => None end).
Definition taken : list event → list (Z * Z) := omap (λ e, match e with Taken cb a => Some (cb, a) | _ => None end).
Definition called : list event → list (Z * Z) := omap (λ e, match e with Called cb a => Some (cb, a) | _ => None end).

(** The job a thread holds. *)
Definition held (th : thread cond pc) : option Z := match th with Running (Worker_call j) => Some j | _ => None end.

Lemma held_wake c th : held (wake c th) = held th.
Proof. destruct th; simpl; try done. by case_decide. Qed.

(** ** The invariant *)

(** [threadpool_destroy] has not begun; waits for the queue to be empty in the
    thread [d]; is before its first or its second broadcast; has joined the
    workers below [i]; is over. *)
Inductive phase := Open | Closing (d : nat) | Wake1 (d : nat) | Wake2 (d : nat) | Joins (d i : nat) | Dead.

Definition destroyer (ph : phase) : option nat :=
  match ph with Closing d | Wake1 d | Wake2 d | Joins d _ => Some d | _ => None end.
Definition closed (ph : phase) : bool := match ph with Open => false | _ => true end.
Definition pool_closed (ph : phase) : bool := match ph with Open | Closing _ => false | _ => true end.

Definition valid_call (c : call) : Prop := match c with Add cb a => cb ≠ 0 ∧ a ≠ 0 | Destroy => True end.

Section inv.
(** The number of workers, of threads and of places in the queue. *)
Context (n T : nat) (mx : Z).

(** What the thread [i], which is not destroying the pool, may be doing while
    the jobs [js] are queued. *)
Definition thread_ok (ph : phase) (js : list Z) (i : nat) (th : thread cond pc) : Prop :=
  match th with
  | Running Worker_start | Locking Worker_locked | Running (Worker_call _) => (i < n)%nat
  | Waiting queue_not_empty Worker_locked =>
      (i < n)%nat ∧ js = [] ∧ match ph with Open | Closing _ | Wake1 _ => True | _ => False end
  | Exited => (i < n)%nat → pool_closed ph = true
  | Running (Client cs) => (n ≤ i)%nat ∧ Forall valid_call cs
  | Locking (Add_locked cb a cs) => (n ≤ i)%nat ∧ Forall valid_call cs
  | Locking (Destroy_locked cs) => (n ≤ i)%nat ∧ Forall valid_call cs
  | Waiting queue_not_full (Add_locked cb a cs) =>
      (n ≤ i)%nat ∧ Forall valid_call cs ∧ Z.of_nat (length js) = mx ∧ match ph with Joins _ _ | Dead => False | _ => True end
  | _ => False
  end.

(** What the thread that destroys the pool is doing. *)
Definition closer_ok (ph : phase) (js : list Z) (ths : list (thread cond pc)) : Prop :=
  match ph with
  | Open => True
  | Closing d => ∃ cs, (n ≤ d)%nat ∧ Forall valid_call cs ∧
      (ths !! d = Some (Waiting queue_empty (Destroy_wait cs)) ∧ js ≠ [] ∨ ths !! d = Some (Locking (Destroy_wait cs)))
  | Wake1 d => ∃ cs, (n ≤ d)%nat ∧ Forall valid_call cs ∧ ths !! d = Some (Running (Destroy_wake1 cs))
  | Wake2 d => ∃ cs, (n ≤ d)%nat ∧ Forall valid_call cs ∧ ths !! d = Some (Running (Destroy_wake2 cs))
  | Joins d i => ∃ cs, (n ≤ d)%nat ∧ Forall valid_call cs ∧ (∀ u, (u < i)%nat → ths !! u = Some Exited) ∧
      (ths !! d = Some (Running (Destroy_join (Z.of_nat i) cs)) ∧ (i ≤ n)%nat ∨
       ths !! d = Some (Joining i (Destroy_join (Z.of_nat i + 1) cs)) ∧ (i < n)%nat)
  | Dead => ∀ u, (u < n)%nat → ths !! u = Some Exited
  end.

Record pool_inv (ph : phase) (p : threadpool) (js : list Z) (m : gmap Z job) (ths : list (thread cond pc)) (ev : list event) : Prop := {
  pi_num : thread_num p = Z.of_nat n;
  pi_max : queue_max_num p = mx;
  pi_ids : pthreads p = Some <$> seq 0 n;
  pi_len : length ths = T ∧ (n ≤ T)%nat;
  pi_queue : queue m (head p) js;
  pi_tail : js ≠ [] → last js = Some (tail p);
  pi_cur : queue_cur_num p = Z.of_nat (length js);
  pi_bound : Z.of_nat (length js) ≤ mx;
  pi_close : queue_close p = closed ph;
  pi_pool_close : pool_close p = pool_closed ph;
  pi_empty : pool_closed ph = true → js = [];
  pi_nodup : NoDup (js ++ omap held ths);
  pi_live : ∀ j, j ∈ js ++ omap held ths → j ≠ 0 ∧ is_Some (m !! j);
  pi_threads : ∀ i th, ths !! i = Some th → destroyer ph = Some i ∨ thread_ok ph js i th;
  pi_closer : closer_ok ph js ths;
  pi_added : added ev = taken ev ++ (datum m <$> js);
  pi_called : called ev ++ (datum m <$> omap held ths) ≡ₚ taken ev;
}.

(** What only the thread that destroys the pool does. *)
Definition closing (th : thread cond pc) : bool :=
  match th with
  | Running (Destroy_wake1 _ | Destroy_wake2 _ | Destroy_join _ _) | Locking (Destroy_wait _) | Waiting _ (Destroy_wait _)
  | Joining _ _ => true
  | _ => false
  end.

Lemma not_closing ph p js m ths ev t th :
  pool_inv ph p js m ths ev → ths !! t = Some th → closing th = false → destroyer ph ≠ Some t ∧ thread_ok ph js t th.
Proof.
  intros Hinv Ht Hc. pose proof (pi_closer _ _ _ _ _ _ Hinv) as Hcl.
  assert (destroyer ph ≠ Some t) as Hd.
  { intros E. destruct ph as [|d|d|d|d i|]; simpl in *; simplify_eq.
    - destruct Hcl as (cs & _ & _ & [[? _]|?]); by simplify_eq.
    - destruct Hcl as (cs & _ & _ & ?); by simplify_eq.
    - destruct Hcl as (cs & _ & _ & ?); by simplify_eq.
    - destruct Hcl as (cs & _ & _ & _ & [[? _]|[? _]]); by simplify_eq. }
  split; [done|]. by destruct (pi_threads _ _ _ _ _ _ Hinv t th Ht).
Qed.

(** The state of a pool in the phase [ph]; the mutex is free between steps. *)
Definition pool_at (ph : phase) (p : threadpool) (m : gmap Z job) (ths : list (thread cond pc)) (ev : list event) : pool_state :=
  St m (match ph with
        | Dead => Sys Destroyed ths (World None ev)
        | _ => Sys Unlocked ths (World (Some p) ev)
        end).

Definition pool_ok (s : pool_state) : Prop :=
  ∃ ph p js m ths ev, s = pool_at ph p m ths ev ∧ pool_inv ph p js m ths ev.

(** ** What is left to do *)

(** A call, a job, and where each thread is. *)
Definition call_weight : nat := (4 * T + 8)%nat.
Definition job_weight : nat := (2 * T + 3)%nat.
Definition weight (th : thread cond pc) : nat :=
  match th with
  | Running Worker_start | Running (Worker_call _) => 2
  | Locking Worker_locked => 1
  | Running (Client cs) => call_weight * length cs + 1
  | Locking (Add_locked _ _ cs) | Locking (Destroy_locked cs) => call_weight * length cs + call_weight
  | Waiting _ (Add_locked _ _ cs) | Waiting _ (Destroy_locked cs) => call_weight * length cs + call_weight - 1
  | Locking (Destroy_wait cs) => call_weight * length cs + 2 * n + 2 * T + 7
  | Waiting _ (Destroy_wait cs) => call_weight * length cs + 2 * n + 2 * T + 6
  | Running (Destroy_wake1 cs) => call_weight * length cs + 2 * n + 2 * T + 5
  | Running (Destroy_wake2 cs) => call_weight * length cs + 2 * n + T + 4
  | Running (Destroy_join i cs) => call_weight * length cs + 2 * (n - Z.to_nat i) + 2
  | Joining u (Destroy_join _ cs) => call_weight * length cs + 2 * (n - u) + 1
  | _ => 0
  end%nat.
Definition measure (s : pool_state) : nat :=
  (total weight (threads (env s)) +
   job_weight * match pool (shared (env s)) with Some p => Z.to_nat (queue_cur_num p) | None => 0 end)%nat.

Lemma weight_wake c th : (weight (wake c th) ≤ S (weight th))%nat.
Proof.
  destruct th as [p|p|c' p|u p|]; cbn [wake]; try apply Nat.le_succ_diag_r.
  case_decide; [|apply Nat.le_succ_diag_r]. destruct p; cbn [weight]; unfold call_weight; lia.
Qed.
End inv.
