(* ===== verification/ThreadPoolSteps.v ===== *)
(** * threadpool (C Implement): every step keeps the invariant

    What each piece of code between two synchronisation calls does to the
    invariant of the pool and to what is left to do. *)
From S2P Require Import Prelude Pthread PthreadFacts ThreadPool ThreadPoolFacts.
#[local] Open Scope Z_scope.

(** ** Lists of events *)

Lemma added_app ev ev' : added (ev ++ ev') = added ev ++ added ev'.
Proof. apply omap_app. Qed.
Lemma taken_app ev ev' : taken (ev ++ ev') = taken ev ++ taken ev'.
Proof. apply omap_app. Qed.
Lemma called_app ev ev' : called (ev ++ ev') = called ev ++ called ev'.
Proof. apply omap_app. Qed.

(** ** The calls of the pool *)

Section calls.
Context (m : gmap Z job) (mx : lock) (ths : list (thread cond pc)) (ev : list event).

Lemma wp_get_pool p (Q : threadpool → pool_state → Prop) :
  Q p (St m (Sys mx ths (World (Some p) ev))) → wp get_pool (St m (Sys mx ths (World (Some p) ev))) Q.
Proof. done. Qed.
Lemma wp_put_pool po p (Q : unit → pool_state → Prop) :
  Q () (St m (Sys mx ths (World (Some p) ev))) → wp (put_pool p) (St m (Sys mx ths (World po ev))) Q.
Proof. done. Qed.
Lemma wp_emit po e (Q : unit → pool_state → Prop) :
  Q () (St m (Sys mx ths (World po (ev ++ [e])))) → wp (emit e) (St m (Sys mx ths (World po ev))) Q.
Proof. done. Qed.
Lemma wp_return po t v cs (Q : unit → pool_state → Prop) :
  Q () (St m (Sys mx (<[t := Running (Client cs)]> ths) (World po (ev ++ [Returned t v])))) →
  wp (return_ t v cs) (St m (Sys mx ths (World po ev))) Q.
Proof. done. Qed.
End calls.

Section steps.
Context (malloc : nat → gmap Z job → Z).
Context (malloc_fresh : ∀ k m, malloc k m ≠ 0 → m !! malloc k m = None).
Context (n T : nat) (mx : Z).
Implicit Types (th : thread cond pc) (ths : list (thread cond pc)) (js : list Z) (m : gmap Z job) (ev : list event) (p : threadpool) (ph : phase).
Abbreviation inv := (pool_inv n T mx).
Abbreviation ok := (thread_ok n mx).

(** ** One thread moves *)

Lemma closer_other ph js ths t th th' :
  closer_ok n ph js ths → ths !! t = Some th → th ≠ Exited → destroyer ph ≠ Some t → closer_ok n ph js (<[t := th']> ths).
Proof.
  intros Hc Ht Hne Hd. assert (∀ u x, u ≠ t → ths !! u = x → <[t := th']> ths !! u = x) as Hu.
  { intros u x Hut <-. by rewrite list_lookup_insert_ne. }
  assert (∀ u, ths !! u = Some Exited → u ≠ t) as He by (intros u Hu1 ->; congruence).
  destruct ph as [|d|d|d|d i|]; simpl in *; [done|..].
  - destruct Hc as (cs & Hn & Hv & Hx). exists cs. split_and!; [done..|].
    destruct Hx as [[? ?]|?]; [left|right]; [split|]; try done; apply Hu; congruence.
  - destruct Hc as (cs & Hn & Hv & Hx). exists cs. split_and!; [done..|]. apply Hu; congruence.
  - destruct Hc as (cs & Hn & Hv & Hx). exists cs. split_and!; [done..|]. apply Hu; congruence.
  - destruct Hc as (cs & Hn & Hv & Hall & Hx). exists cs. split_and!; [done..| |].
    + intros u Hui. apply Hu; [|by apply Hall]. by apply He, Hall.
    + destruct Hx as [[? ?]|[? ?]]; [left|right]; (split; [|done]); apply Hu; congruence.
  - intros u Hun. apply Hu; [|by apply Hc]. by apply He, Hc.
Qed.

Lemma threads_other ph js ths t th' :
  (∀ i th, ths !! i = Some th → destroyer ph = Some i ∨ ok ph js i th) → ok ph js t th' →
  ∀ i th, <[t := th']> ths !! i = Some th → destroyer ph = Some i ∨ ok ph js i th.
Proof.
  intros Hall Hok i th Hi. destruct (decide (i = t)) as [->|Hne].
  - rewrite list_lookup_insert_eq in Hi; [by simplify_eq; right|].
    apply lookup_lt_Some in Hi. by rewrite length_insert in Hi.
  - rewrite list_lookup_insert_ne in Hi by done. by apply Hall.
Qed.

(** A thread moves that neither destroys the pool nor holds a job; a call may return. *)
Lemma inv_set ph p js m ths ev ev' t th th' :
  inv ph p js m ths ev → ths !! t = Some th → th ≠ Exited → destroyer ph ≠ Some t → held th = None → held th' = None →
  ok ph js t th' → (ev' = ev ∨ ∃ v, ev' = ev ++ [Returned t v]) → inv ph p js m (<[t := th']> ths) ev'.
Proof.
  intros [] Ht Hne Hd H0 H1 Hok Hev.
  assert (omap held (<[t := th']> ths) = omap held ths) as Hh by (eapply omap_insert_same; [done|congruence]).
  assert (added ev' = added ev ∧ taken ev' = taken ev ∧ called ev' = called ev) as (Ha & Htk & Hcl).
  { destruct Hev as [->|[v ->]]; [done|]. rewrite added_app, taken_app, called_app. simpl. by rewrite !app_nil_r. }
  split; rewrite ?Hh, ?Ha, ?Htk, ?Hcl; try done.
  - by rewrite length_insert.
  - by apply threads_other.
  - by eapply closer_other.
Qed.

(** ** Where a step ends *)

(** The invariant holds and less than [b] is left to do. *)
Definition post (b : nat) (_ : unit) (s : pool_state) : Prop := pool_ok n T mx s ∧ (measure n T s < b)%nat.

Definition left_to_do (js : list Z) (ths : list (thread cond pc)) : nat :=
  (total (weight n T) ths + job_weight T * length js)%nat.

Lemma measure_at ph p js m ths ev :
  inv ph p js m ths ev → measure n T (pool_at ph p m ths ev) = left_to_do js ths.
Proof.
  intros Hinv. pose proof (pi_cur _ _ _ _ _ _ _ _ _ Hinv) as Hc. pose proof (pi_empty _ _ _ _ _ _ _ _ _ Hinv) as He.
  clear Hinv. unfold measure, left_to_do, pool_at.
  destruct ph; cbn [env threads shared pool]; rewrite ?Hc, ?Nat2Z.id; try done. by rewrite He.
Qed.

Lemma post_intro b ph p js m ths ev :
  inv ph p js m ths ev → (left_to_do js ths < b)%nat → post b () (pool_at ph p m ths ev).
Proof. intros Hinv Hb. split; [by exists ph, p, js, m, ths, ev|]. by erewrite measure_at. Qed.

Lemma pool_at_alive ph p m ths ev :
  ph ≠ Dead → pool_at ph p m ths ev = St m (Sys Unlocked ths (World (Some p) ev)).
Proof. by destruct ph. Qed.

(** One thread moves, in a state with the pool. *)
Lemma post_set ph p js m ths ev ev' t th th' :
  inv ph p js m ths ev → ph ≠ Dead → ths !! t = Some th → th ≠ Exited → destroyer ph ≠ Some t → held th = None → held th' = None →
  ok ph js t th' → (ev' = ev ∨ ∃ v, ev' = ev ++ [Returned t v]) → (weight n T th' < weight n T th)%nat →
  post (left_to_do js ths) () (St m (Sys Unlocked (<[t := th']> ths) (World (Some p) ev'))).
Proof.
  intros Hinv Hph Ht Hne Hd H0 H1 Hok Hev Hw. rewrite <-(pool_at_alive ph) by done.
  eapply post_intro; [by eapply inv_set|]. unfold left_to_do. pose proof (total_insert (weight n T) ths t th th' Ht). lia.
Qed.

(** ** The workers *)

Definition wake_if (b : bool) (c : cond) (th : thread cond pc) : thread cond pc := if b then wake c th else th.

(** Who is woken when a job is taken and [js] are left. *)
Definition after_take (js : list Z) (th : thread cond pc) : thread cond pc :=
  wake_if (Z.of_nat (length js) =? mx - 1) queue_not_full (wake_if (Z.of_nat (length js) =? 0) queue_empty th).

Lemma wake_if_fmap (b : bool) c ths : (if b then wake c <$> ths else ths) = wake_if b c <$> ths.
Proof. destruct b; [done|]. symmetry. apply list_fmap_id. Qed.

Lemma wake_if_held (b : bool) c th : held (wake_if b c th) = held th.
Proof. destruct b; [apply held_wake|done]. Qed.

Lemma held_after_take js ths : omap held (after_take js <$> ths) = omap held ths.
Proof.
  induction ths as [|th ths IH]; [done|]. csimpl. rewrite IH. unfold after_take. by rewrite !wake_if_held.
Qed.

Lemma thread_ok_take ph j js i th :
  ok ph (j :: js) i th → pool_closed ph = false → ok ph js i (after_take js th).
Proof.
  intros Hok Hph. unfold after_take, wake_if. destruct th as [p|p|c p|u p|]; simpl in Hok; try done.
  - repeat case_match; done.
  - repeat case_match; done.
  - destruct c, p; try done; simpl in Hok |- *.
    + naive_solver.
    + destruct Hok as (Hi & Hv & Hl & Hp). rewrite (proj2 (Z.eqb_eq _ _)) by lia.
      by destruct (Z.of_nat (length js) =? 0).
  - repeat case_match; done.
Qed.

Lemma closer_take ph j js ths :
  closer_ok n ph (j :: js) ths → pool_closed ph = false → closer_ok n ph js (after_take js <$> ths).
Proof.
  intros Hc Hph. destruct ph as [|d|d|d|d i|]; try done. simpl in *. destruct Hc as (cs & Hn & Hv & Hx).
  exists cs. split_and!; [done..|]. rewrite !list_lookup_fmap.
  destruct Hx as [[-> _]| ->]; simpl; [|right; unfold after_take, wake_if; by repeat case_match].
  destruct js as [|j' js]; [right|left]; unfold after_take, wake_if; simpl; by case_match.
Qed.

Lemma inv_take ph p j js m ths ev t h l x :
  inv ph p (j :: js) m ths ev → ths !! t = Some (Locking Worker_locked) → m !! j = Some x → queue m h js →
  (js ≠ [] → last js = Some l) →
  inv ph (with_queue p h l (Z.of_nat (length js))) js m (<[t := Running (Worker_call j)]> (after_take js <$> ths))
    (ev ++ [Taken (callback_function x) (arg x)]).
Proof.
  intros Hinv Ht Hj Hq Hl. pose proof Hinv as [].
  assert (pool_closed ph = false) as Hph by (destruct (pool_closed ph); [by specialize (pi_empty eq_refl)|done]).
  assert ((after_take js <$> ths) !! t = Some (Locking Worker_locked)) as Ht'.
  { rewrite list_lookup_fmap, Ht. simpl. unfold after_take, wake_if. by repeat case_match. }
  assert (omap held (<[t := Running (Worker_call j)]> (after_take js <$> ths)) ≡ₚ j :: omap held ths) as Hh.
  { rewrite (omap_insert_add held _ t _ _ j Ht') by done. by rewrite held_after_take. }
  assert (js ++ omap held (<[t := Running (Worker_call j)]> (after_take js <$> ths)) ≡ₚ (j :: js) ++ omap held ths) as Hperm.
  { rewrite Hh. simpl. by rewrite Permutation_middle. }
  assert (datum m j = (callback_function x, arg x)) as Hd by (unfold datum; by rewrite Hj).
  split; try done.
  - by rewrite length_insert, length_fmap.
  - simpl in pi_bound. lia.
  - rewrite Hph. done.
  - by rewrite Hperm.
  - intros j'. rewrite Hperm. apply pi_live.
  - apply threads_other; [|simpl].
    + intros i th Hi. rewrite list_lookup_fmap in Hi. destruct (ths !! i) as [th0|] eqn:Hi0; [|done].
      injection Hi as <-. destruct (pi_threads i th0 Hi0) as [|Hok]; [by left|right]. by eapply thread_ok_take.
    + by destruct (not_closing _ _ _ _ _ _ _ _ _ _ _ Hinv Ht eq_refl).
  - eapply closer_other; [by eapply closer_take|exact Ht'|done|].
    by destruct (not_closing _ _ _ _ _ _ _ _ _ _ _ Hinv Ht eq_refl).
  - rewrite added_app, taken_app. simpl. rewrite app_nil_r, pi_added. csimpl. by rewrite Hd, <-app_assoc.
  - rewrite called_app, taken_app. simpl. rewrite app_nil_r. rewrite Hh. csimpl. rewrite Hd, <-pi_called.
    rewrite <-Permutation_middle. apply Permutation_cons_append.
Qed.

(** Nobody but the thread that destroys the pool waits for the queue to be empty. *)
Lemma queue_empty_waiter ph p js m ths ev i th :
  inv ph p js m ths ev → ths !! i = Some th → waits queue_empty th = true → destroyer ph = Some i.
Proof.
  intros Hinv Hi Hw. destruct (pi_threads _ _ _ _ _ _ _ _ _ Hinv i th Hi) as [|Hok]; [done|].
  destruct th as [?|?|[] []|?|]; done.
Qed.

Lemma running_wake (b : bool) c ths t q :
  wake_if b c <$> <[t := Running q]> ths = <[t := Running q]> (wake_if b c <$> ths).
Proof. rewrite list_fmap_insert. by destruct b. Qed.

(** The first job leaves the list. *)
Lemma wp_pop_job t p j js m ths ev (f : unit → TP unit) Q :
  queue m (head p) (j :: js) → last (j :: js) = Some (tail p) →
  (∀ h l, queue m h js → (js ≠ [] → last js = Some l) →
    wp (f ()) (St m (Sys (Locked t) ths (World (Some (with_queue p h l (Z.of_nat (length js)))) ev))) Q) →
  wp ((if Z.of_nat (length js) =? 0 then put_pool (with_queue p 0 0 (Z.of_nat (length js)))
       else x ← fget next j; put_pool (with_queue p x (tail p) (Z.of_nat (length js)))) ≫= f)
    (St m (Sys (Locked t) ths (World (Some p) ev))) Q.
Proof.
  intros (_ & _ & x & Hx & Hq) Hlast HQ. apply wp_bind. destruct js as [|j' js].
  - apply wp_put_pool, HQ; done.
  - cbn [length] in *. rewrite (proj2 (Z.eqb_neq _ _)) by lia. apply wp_bind. eapply wp_fget; [done|].
    apply wp_put_pool, HQ; [done|]. intros _. by rewrite last_cons_cons in Hlast.
Qed.

(** Whoever waits for the queue to be empty or not to be full is woken. *)
Lemma wp_take_wakes k t ph p js js0 m ths ev po (f : unit → TP unit) Q :
  inv ph p js0 m ths ev → queue_max_num p = mx →
  wp (f ()) (St m (Sys (Locked t) (<[t := Running Worker_locked]> (after_take js <$> ths)) (World po ev))) Q →
  wp (when (Z.of_nat (length js) =? 0) (pthread_cond_signal k queue_empty);;
      x ← when (Z.of_nat (length js) =? queue_max_num p - 1) (pthread_cond_broadcast queue_not_full); f x)
    (St m (Sys (Locked t) (<[t := Running Worker_locked]> ths) (World po ev))) Q.
Proof.
  intros Hinv -> HQ. apply wp_bind. apply (wp_mono _ _ (λ _ s1, s1 = St m (Sys (Locked t)
    (<[t := Running Worker_locked]> (wake_if (Z.of_nat (length js) =? 0) queue_empty <$> ths)) (World po ev)))).
  - apply wp_when; intros E; rewrite E; [|simpl; by rewrite list_fmap_id].
    apply wp_cond_signal_one; [|by rewrite <-running_wake].
    assert (∀ i th, <[t := Running Worker_locked]> ths !! i = Some th →
      waits queue_empty th = true → destroyer ph = Some i) as Huniq.
    { intros i th Hi Hw. destruct (decide (i = t)) as [->|Hne].
      - rewrite list_lookup_insert_eq in Hi; [by simplify_eq|]. apply lookup_lt_Some in Hi. by rewrite length_insert in Hi.
      - rewrite list_lookup_insert_ne in Hi by done. by eapply queue_empty_waiter. }
    intros i i' th th' Hi Hi' Hw Hw'. pose proof (Huniq _ _ Hi Hw). pose proof (Huniq _ _ Hi' Hw'). congruence.
  - intros [] s1 ->. apply wp_bind. assert (after_take js <$> ths = wake_if (Z.of_nat (length js) =? mx - 1) queue_not_full <$>
      (wake_if (Z.of_nat (length js) =? 0) queue_empty <$> ths)) as E0 by by rewrite <-list_fmap_compose.
    rewrite E0 in HQ. clear E0. apply wp_when; intros E; rewrite E in HQ.
    + apply wp_cond_broadcast. by rewrite <-running_wake in HQ.
    + unfold wake_if at 1 in HQ. by rewrite list_fmap_id in HQ.
Qed.

Lemma total_wake_if (b : bool) c ths : (total (weight n T) (wake_if b c <$> ths) ≤ total (weight n T) ths + length ths)%nat.
Proof.
  destruct b; [apply total_wake, weight_wake|]. simpl. rewrite list_fmap_id. lia.
Qed.

Lemma total_after_take js ths :
  (total (weight n T) (after_take js <$> ths) ≤ total (weight n T) ths + 2 * length ths)%nat.
Proof.
  assert (after_take js <$> ths = wake_if (Z.of_nat (length js) =? mx - 1) queue_not_full <$>
    (wake_if (Z.of_nat (length js) =? 0) queue_empty <$> ths)) as -> by by rewrite <-list_fmap_compose.
  etrans; [apply total_wake_if|]. rewrite length_fmap.
  pose proof (total_wake_if (Z.of_nat (length js) =? 0) queue_empty ths). lia.
Qed.

(** A worker with the mutex. *)
Lemma wp_worker k t ph p js m ths ev :
  inv ph p js m ths ev → ph ≠ Dead → ths !! t = Some (Locking Worker_locked) →
  wp (threadpool_function k t) (St m (Sys (Locked t) (<[t := Running Worker_locked]> ths) (World (Some p) ev)))
    (post (left_to_do js ths)).
Proof.
  intros Hinv Hph Ht. pose proof Hinv as []. unfold threadpool_function. apply wp_bind, wp_get_pool.
  destruct (not_closing _ _ _ _ _ _ _ _ _ _ _ Hinv Ht eq_refl) as [Hdt Hok].
  rewrite pi_pool_close. destruct (pool_closed ph) eqn:Hpc.
  { rewrite andb_false_r. apply wp_bind, wp_mutex_unlock. unfold pthread_exit. apply wp_set_thread.
    rewrite list_insert_insert_eq. eapply post_set; try done; [by intros _|by left|simpl; lia]. }
  rewrite andb_true_r. destruct (Z.eqb_spec (queue_cur_num p) 0) as [Hz|Hnz].
  { assert (js = []) as -> by (destruct js; [done|cbn [length] in *; lia]). apply wp_cond_wait.
    rewrite list_insert_insert_eq. eapply post_set; try done; [|by left|simpl; lia].
    simpl. split_and!; [done..|]. by destruct ph. }
  destruct js as [|j js]; [simpl in *; lia|].
  replace (queue_cur_num p - 1) with (Z.of_nat (length js)) by (rewrite pi_cur; cbn [length]; lia). cbv zeta.
  pose proof pi_queue as (-> & Hj0 & x & Hx & _). 
  eapply wp_pop_job; [done|by apply pi_tail|]. intros h l Hq Hl. eapply wp_take_wakes; [done|done|].
  apply wp_bind. eapply wp_load; [exact Hx|]. apply wp_bind, wp_emit. apply wp_bind, wp_mutex_unlock.
  apply wp_set_thread. rewrite list_insert_insert_eq, <-(pool_at_alive ph) by done.
  eapply post_intro; [by eapply inv_take|]. unfold left_to_do. cbn [length].
  assert ((after_take js <$> ths) !! t = Some (Locking Worker_locked)) as Ht'.
  { rewrite list_lookup_fmap, Ht. simpl. unfold after_take, wake_if. by repeat case_match. }
  pose proof (total_insert (weight n T) _ t _ (Running (Worker_call j)) Ht') as Htot. simpl in Htot.
  pose proof (total_after_take js ths). unfold job_weight. lia.
Qed.

(** The job a worker holds is called and freed. *)
Lemma inv_call ph p js m ths ev t j x :
  inv ph p js m ths ev → ths !! t = Some (Running (Worker_call j)) → m !! j = Some x →
  inv ph p js (delete j m) (<[t := Locking Worker_locked]> ths) (ev ++ [Called (callback_function x) (arg x)]).
Proof.
  intros Hinv Ht Hx. pose proof Hinv as [].
  assert (j :: omap held (<[t := Locking Worker_locked]> ths) ≡ₚ omap held ths) as Hh by by eapply omap_insert_del.
  assert (js ++ omap held ths ≡ₚ j :: (js ++ omap held (<[t := Locking Worker_locked]> ths))) as Hperm.
  { by rewrite <-Hh, Permutation_middle. }
  rewrite Hperm in pi_nodup. apply NoDup_cons in pi_nodup as [Hj Hnd].
  assert (∀ i, i ∈ js ++ omap held (<[t := Locking Worker_locked]> ths) → delete j m !! i = m !! i) as Hm.
  { intros i Hi. apply lookup_delete_ne. by intros ->. }
  assert (∀ l : list Z, (∀ i, i ∈ l → i ∈ js ++ omap held (<[t := Locking Worker_locked]> ths)) →
    datum (delete j m) <$> l = datum m <$> l) as Hdat.
  { intros l Hl. apply datum_frame. intros i Hi. unfold datum. by rewrite Hm by by apply Hl. }
  assert (datum m j = (callback_function x, arg x)) as Hd by (unfold datum; by rewrite Hx).
  destruct (not_closing _ _ _ _ _ _ _ _ _ _ _ Hinv Ht eq_refl) as [Hdt Hok].
  split; try done.
  - by rewrite length_insert.
  - eapply queue_frame; [|done]. intros i Hi. apply Hm. apply elem_of_app. by left.
  - intros i Hi. rewrite Hm by done. apply pi_live. rewrite Hperm. by right.
  - by apply threads_other.
  - by eapply closer_other.
  - rewrite added_app, taken_app. simpl. rewrite !app_nil_r, pi_added. f_equal. symmetry. apply Hdat.
    intros i Hi. apply elem_of_app. by left.
  - rewrite called_app, taken_app. simpl. rewrite !app_nil_r, Hdat by (intros i Hi; apply elem_of_app; by right).
    rewrite <-pi_called, <-Hh. csimpl. by rewrite Hd, <-app_assoc.
Qed.

Lemma wp_call_job t j ph p js m ths ev :
  inv ph p js m ths ev → ph ≠ Dead → ths !! t = Some (Running (Worker_call j)) →
  wp (call_job t j) (St m (Sys Unlocked ths (World (Some p) ev))) (post (left_to_do js ths)).
Proof.
  intros Hinv Hph Ht. destruct (pi_live _ _ _ _ _ _ _ _ _ Hinv j) as [Hj0 [x Hx]].
  { apply elem_of_app. right. apply list_elem_of_omap. exists (Running (Worker_call j)). split; [|done].
    by eapply list_elem_of_lookup_2. }
  unfold call_job. apply wp_bind. eapply wp_load; [done|]. apply wp_bind, wp_emit, wp_bind. eapply wp_free; [done|done|].
  unfold pthread_mutex_lock. apply wp_set_thread. cbn [mem env]. rewrite <-(pool_at_alive ph) by done.
  eapply post_intro; [by eapply inv_call|]. unfold left_to_do.
  pose proof (total_insert (weight n T) _ t _ (Locking Worker_locked) Ht) as Htot. simpl in Htot. lia.
Qed.

(** ** Adding a job *)

Definition after_add (js : list Z) (th : thread cond pc) : thread cond pc :=
  wake_if (match js with [] => true | _ => false end) queue_not_empty th.

(** The job [j] is linked behind the jobs [js]. *)
Definition linked (js : list Z) (l j cb a : Z) (m : gmap Z job) : gmap Z job :=
  let m := <[j := Job cb a 0]> m in
  match js with
  | [] => m
  | _ => match m !! l with Some x => <[l := Job (callback_function x) (arg x) j]> m | None => m end
  end.

Lemma datum_linked js l j cb a m i :
  datum (linked js l j cb a m) i = if decide (i = j) then (cb, a) else datum m i.
Proof.
  unfold linked, datum. set (m1 := <[j := Job cb a 0]> m).
  assert (match m1 !! i with Some x => (callback_function x, arg x) | None => (0, 0) end =
    if decide (i = j) then (cb, a) else match m !! i with Some x => (callback_function x, arg x) | None => (0, 0) end) as E.
  { unfold m1. case_decide as H1; [subst; by rewrite lookup_insert_eq|by rewrite lookup_insert_ne]. }
  destruct js as [|j' js]; [done|]. destruct (m1 !! l) as [x|] eqn:Hl; [|done].
  destruct (decide (i = l)) as [->|Hne]; [rewrite lookup_insert_eq|by rewrite lookup_insert_ne].
  by rewrite Hl in E.
Qed.

Lemma live_linked js l j cb a m i : is_Some (m !! i) ∨ i = j → is_Some (linked js l j cb a m !! i).
Proof.
  intros Hi. unfold linked. assert (is_Some (<[j := Job cb a 0]> m !! i)) as H1.
  { destruct (decide (i = j)) as [->|]; [by rewrite lookup_insert_eq|]. rewrite lookup_insert_ne by done. naive_solver. }
  destruct js; [done|]. case_match; [|done]. destruct (decide (i = l)) as [->|]; [by rewrite lookup_insert_eq|].
  by rewrite lookup_insert_ne.
Qed.

Lemma queue_linked js l j cb a m h :
  NoDup js → queue m h js → (js ≠ [] → last js = Some l) → j ≠ 0 → m !! j = None → (∀ i, i ∈ js → is_Some (m !! i)) →
  queue (linked js l j cb a m) (match js with [] => j | _ => h end) (js ++ [j]).
Proof.
  intros Hnd Hq Hl H0 Hj Hlive. assert (j ∉ js) as Hnj by (intros Hin; destruct (Hlive j Hin) as [? ?]; congruence).
  unfold linked. destruct js as [|j' js].
  - simpl. split_and!; [done..|]. exists (Job cb a 0). by rewrite lookup_insert_eq.
  - specialize (Hl ltac:(done)). assert (l ∈ j' :: js) as Hin by by apply last_Some_elem_of.
    destruct (Hlive l Hin) as [x Hx]. assert (l ≠ j) as Hne by (intros ->; done).
    rewrite lookup_insert_ne, Hx by done. eapply queue_snoc; try done.
    + eapply queue_frame; [|done]. intros i Hi. rewrite lookup_insert_ne; [done|]. by intros ->.
    + by rewrite lookup_insert_ne.
    + by rewrite lookup_insert_eq.
    + done.
Qed.

Lemma held_after_add js ths : omap held (after_add js <$> ths) = omap held ths.
Proof.
  induction ths as [|th ths IH]; [done|]. csimpl. rewrite IH. unfold after_add. by rewrite wake_if_held.
Qed.

Lemma thread_ok_add js j i th :
  ok Open js i th → Z.of_nat (length js) ≠ mx → ok Open (js ++ [j]) i (after_add js th).
Proof.
  intros Hok Hmx. unfold after_add, wake_if. destruct th as [q|q|c q|u q|]; simpl in Hok; try done.
  - by destruct js, q.
  - by destruct js, q.
  - destruct c, q; try done; simpl in Hok |- *; [|by destruct Hok as (? & ? & ? & ?)].
    by destruct Hok as (Hi & -> & _).
  - by destruct js.
Qed.

Lemma inv_add p js m ths ev t j cb a cs :
  inv Open p js m ths ev → ths !! t = Some (Locking (Add_locked cb a cs)) → Z.of_nat (length js) < mx →
  m !! j = None → j ≠ 0 →
  inv Open (with_queue p (match js with [] => j | _ => head p end) j (Z.of_nat (length js) + 1)) (js ++ [j])
    (linked js (tail p) j cb a m) (<[t := Running (Client cs)]> (after_add js <$> ths)) ((ev ++ [Added cb a]) ++ [Returned t 0]).
Proof.
  intros Hinv Ht Hlt Hj H0. pose proof Hinv as [].
  assert ((after_add js <$> ths) !! t = Some (Locking (Add_locked cb a cs))) as Ht'.
  { rewrite list_lookup_fmap, Ht. simpl. unfold after_add, wake_if. by case_match. }
  assert (omap held (<[t := Running (Client cs)]> (after_add js <$> ths)) = omap held ths) as Hh.
  { by rewrite (omap_insert_same held _ t _ _ Ht'), held_after_add. }
  assert (j ∉ js ++ omap held ths) as Hnj by (intros Hin; destruct (pi_live j Hin) as [_ [? ?]]; congruence).
  assert (∀ l : list Z, (∀ i, i ∈ l → i ∈ js ++ omap held ths) → datum (linked js (tail p) j cb a m) <$> l = datum m <$> l) as Hdat.
  { intros l Hl. apply datum_frame. intros i Hi. rewrite datum_linked, decide_False; [done|]. intros ->. by apply Hnj, Hl. }
  split; rewrite ?Hh; try done.
  - by rewrite length_insert, length_fmap.
  - apply queue_linked; try done; [by apply NoDup_app in pi_nodup as [? _]|]. intros i Hi. apply pi_live, elem_of_app. by left.
  - intros _. by rewrite last_snoc.
  - simpl. rewrite length_app. simpl. lia.
  - rewrite length_app. simpl. lia.
  - rewrite <-app_assoc. simpl. rewrite <-Permutation_middle. by apply NoDup_cons.
  - intros i Hi. assert (i = j ∨ i ∈ js ++ omap held ths) as Hij by set_solver. split.
    + destruct Hij as [->|Hij]; [done|]. by apply pi_live.
    + apply live_linked. destruct Hij as [->|Hij]; [by right|left]. by apply pi_live.
  - apply threads_other.
    + intros i th Hi. rewrite list_lookup_fmap in Hi. destruct (ths !! i) as [th0|] eqn:Hi0; [|done].
      injection Hi as <-. right. destruct (pi_threads i th0 Hi0) as [|Hok]; [done|]. apply thread_ok_add; [done|lia].
    + by destruct (pi_threads t _ Ht).
  - rewrite !added_app, !taken_app. simpl. rewrite !app_nil_r, pi_added, fmap_app, Hdat by (intros; apply elem_of_app; by left).
    rewrite <-app_assoc. do 2 f_equal. csimpl. by rewrite datum_linked, decide_True.
  - rewrite !called_app, !taken_app. simpl. rewrite !app_nil_r, Hdat; [done|]. intros; apply elem_of_app; by right.
Qed.

(** The thread [t] is linked and counted. *)
Lemma wp_link_job t p js m ths ev cb a q (f : unit → TP unit) Q j :
  queue m (head p) js → (js ≠ [] → last js = Some (tail p)) → (∀ i, i ∈ js → is_Some (m !! i)) → m !! j = None →
  wp (f ()) (St (linked js (tail p) j cb a m) (Sys (Locked t) (<[t := Running q]> (after_add js <$> ths))
    (World (Some (with_queue p (match js with [] => j | _ => head p end) j (queue_cur_num p))) ev))) Q →
  wp (fset (λ _, Job cb a 0) j;;
      x ← (if head p =? 0 then
             put_pool (with_queue p j j (queue_cur_num p));; pthread_cond_broadcast queue_not_empty
           else
             fset (λ x, Job (callback_function x) (arg x) j) (tail p);;
             put_pool (with_queue p (head p) j (queue_cur_num p))); f x)
    (St (<[j := Job 0 0 0]> m) (Sys (Locked t) (<[t := Running q]> ths) (World (Some p) ev))) Q.
Proof.
  intros Hq Hl Hlive Hj HQ. apply wp_bind. eapply wp_fset; [cbn [mem]; apply lookup_insert_eq|]. cbn [mem env].
  rewrite insert_insert_eq. unfold linked in HQ. apply wp_bind. destruct js as [|j' js].
  - simpl in Hq. rewrite Hq. simpl. apply wp_bind, wp_put_pool, wp_cond_broadcast.
    by rewrite (running_wake true queue_not_empty).
  - destruct Hq as (Hh & Hj0 & _). rewrite (proj2 (Z.eqb_neq (head p) 0)) by congruence.
    specialize (Hl ltac:(done)). assert (tail p ∈ j' :: js) as Hin by by apply last_Some_elem_of.
    destruct (Hlive _ Hin) as [x Hx]. assert (tail p ≠ j) as Hne by (intros E; congruence).
    assert (<[j := Job cb a 0]> m !! tail p = Some x) as Hx' by by rewrite lookup_insert_ne.
    rewrite Hx' in HQ. apply wp_bind. eapply wp_fset; [done|]. apply wp_put_pool. cbn [mem env].
    unfold after_add, wake_if in HQ. by rewrite list_fmap_id in HQ.
Qed.

Lemma wp_malloc_job k m mx' ths po ev (Q : Z → pool_state → Prop) :
  Q 0 (St m (Sys mx' ths (World po ev))) →
  (∀ j, j ≠ 0 → m !! j = None → Q j (St (<[j := Job 0 0 0]> m) (Sys mx' ths (World po ev)))) →
  wp (malloc_job malloc k) (St m (Sys mx' ths (World po ev))) Q.
Proof.
  intros H0 H1. unfold wp, malloc_job. cbn [mem env]. case_decide as E; [by rewrite E|].
  apply H1; [done|]. by apply malloc_fresh.
Qed.

(** [threadpool_add_job] with the mutex. *)
Lemma wp_add_job_locked k t cb a cs ph p js m ths ev :
  inv ph p js m ths ev → ph ≠ Dead → ths !! t = Some (Locking (Add_locked cb a cs)) →
  wp (add_job_locked malloc k t cb a cs) (St m (Sys (Locked t) (<[t := Running (Add_locked cb a cs)]> ths) (World (Some p) ev)))
    (post (left_to_do js ths)).
Proof.
  intros Hinv Hph Ht. pose proof Hinv as []. unfold add_job_locked. apply wp_bind, wp_get_pool.
  destruct (not_closing _ _ _ _ _ _ _ _ _ _ _ Hinv Ht eq_refl) as [Hdt [Hnt Hv]].
  assert (∀ v, post (left_to_do js ths) () (St m (Sys Unlocked (<[t := Running (Client cs)]> ths) (World (Some p) (ev ++ [Returned t v]))))) as Hret.
  { intros v. eapply post_set; try done; [right; by exists v|simpl; unfold call_weight; lia]. }
  assert (queue_close p || pool_close p = closed ph) as -> by (rewrite pi_close, pi_pool_close; by destruct ph).
  destruct (Z.eqb_spec (queue_cur_num p) (queue_max_num p)) as [Hfull|Hroom]; destruct (closed ph) eqn:Hcl; cbn [negb andb].
  - apply wp_bind, wp_mutex_unlock, wp_return. rewrite list_insert_insert_eq. apply Hret.
  - apply wp_cond_wait. rewrite list_insert_insert_eq. eapply post_set; try done; [|by left|simpl; unfold call_weight; lia].
    simpl. split_and!; [done..|lia|]. by destruct ph.
  - apply wp_bind, wp_mutex_unlock, wp_return. rewrite list_insert_insert_eq. apply Hret.
  - assert (ph = Open) as -> by by destruct ph. apply wp_bind, wp_malloc_job.
    { simpl. apply wp_bind, wp_mutex_unlock, wp_return. rewrite list_insert_insert_eq. apply Hret. }
    intros j H0 Hj. rewrite (proj2 (Z.eqb_neq j 0)) by done.
    eapply wp_link_job; [done|done|by intros i Hi; apply pi_live, elem_of_app; left|done|].
    apply wp_bind, wp_get_pool. apply wp_bind, wp_put_pool. cbn [with_queue head tail queue_cur_num].
    apply wp_bind, wp_emit. apply wp_bind, wp_mutex_unlock, wp_return. rewrite list_insert_insert_eq, pi_cur.
    apply (post_intro _ Open (with_queue p (match js with [] => j | _ => head p end) j (Z.of_nat (length js) + 1)) (js ++ [j])).
    { apply inv_add; [done..|lia|done|done]. }
    assert ((after_add js <$> ths) !! t = Some (Locking (Add_locked cb a cs))) as Ht'.
    { rewrite list_lookup_fmap, Ht. simpl. unfold after_add, wake_if. by case_match. }
    pose proof (total_insert (weight n T) _ t _ (Running (Client cs)) Ht') as Htot. cbn [weight] in Htot.
    pose proof (total_wake_if (match js with [] => true | _ => false end) queue_not_empty ths) as Hw.
    change (wake_if _ queue_not_empty <$> ths) with (after_add js <$> ths) in Hw.
    unfold left_to_do. rewrite length_app. cbn [length]. unfold job_weight, call_weight in *. lia.
Qed.

(** ** Destroying the pool *)

Lemma with_flags_id p q c : queue_close p = q → pool_close p = c → with_flags p q c = p.
Proof. destruct p; simpl. by intros -> ->. Qed.

(** The thread that destroys the pool moves on, and may wake others. *)
Lemma inv_phase ph ph' p js m ths ev ev' t th th' (b : bool) c :
  inv ph p js m ths ev → ths !! t = Some th → wake_if b c th = th → held th = None → held th' = None →
  (destroyer ph = None ∨ destroyer ph = Some t) → (pool_closed ph' = true → js = []) →
  (∀ i th, ok ph js i th → i ≠ t → ok ph' js i (wake_if b c th)) → (destroyer ph' = Some t ∨ ok ph' js t th') →
  closer_ok n ph' js (<[t := th']> (wake_if b c <$> ths)) → (ev' = ev ∨ ∃ v, ev' = ev ++ [Returned t v]) →
  inv ph' (with_flags p (closed ph') (pool_closed ph')) js m (<[t := th']> (wake_if b c <$> ths)) ev'.
Proof.
  intros Hinv Ht Hw H0 H1 Hd Hemp Hok Hok' Hcl Hev. pose proof Hinv as [].
  assert ((wake_if b c <$> ths) !! t = Some th) as Ht' by (rewrite list_lookup_fmap, Ht; simpl; by rewrite Hw).
  assert (omap held (<[t := th']> (wake_if b c <$> ths)) = omap held ths) as Hh.
  { rewrite (omap_insert_same held _ t _ _ Ht') by congruence. clear. induction ths as [|th ths IH]; [done|].
    csimpl. by rewrite IH, wake_if_held. }
  assert (added ev' = added ev ∧ taken ev' = taken ev ∧ called ev' = called ev) as (Ha & Htk & Hc).
  { destruct Hev as [->|[v ->]]; [done|]. rewrite added_app, taken_app, called_app. simpl. by rewrite !app_nil_r. }
  split; rewrite ?Hh, ?Ha, ?Htk, ?Hc; try done.
  - by rewrite length_insert, length_fmap.
  - intros i th2 Hi. destruct (decide (i = t)) as [->|Hne].
    + rewrite list_lookup_insert_eq in Hi by by eapply lookup_lt_Some. by simplify_eq.
    + rewrite list_lookup_insert_ne in Hi by done. rewrite list_lookup_fmap in Hi.
      destruct (ths !! i) as [th0|] eqn:Hi0; [|done]. injection Hi as <-. right. apply Hok; [|done].
      destruct (pi_threads i th0 Hi0) as [E|]; [|done]. destruct Hd as [Hd|Hd]; congruence.
Qed.

(** The same on the state, when the pool is still there. *)
Lemma post_phase ph ph' p js m ths ev ev' t th th' (b : bool) c (B : nat) :
  inv ph p js m ths ev → ths !! t = Some th → wake_if b c th = th → held th = None → held th' = None →
  (destroyer ph = None ∨ destroyer ph = Some t) → (pool_closed ph' = true → js = []) →
  (∀ i th, ok ph js i th → i ≠ t → ok ph' js i (wake_if b c th)) → (destroyer ph' = Some t ∨ ok ph' js t th') →
  closer_ok n ph' js (<[t := th']> (wake_if b c <$> ths)) → (ev' = ev ∨ ∃ v, ev' = ev ++ [Returned t v]) →
  (weight n T th' + (if b then T else 0) < weight n T th)%nat → (left_to_do js ths ≤ B)%nat →
  post B () (pool_at ph' (with_flags p (closed ph') (pool_closed ph')) m (<[t := th']> (wake_if b c <$> ths)) ev').
Proof.
  intros Hinv Ht Hw H0 H1 Hd Hemp Hok Hok' Hcl Hev Hwt HB. eapply post_intro; [by eapply inv_phase|].
  assert ((wake_if b c <$> ths) !! t = Some th) as Ht' by (rewrite list_lookup_fmap, Ht; simpl; by rewrite Hw).
  pose proof (total_insert (weight n T) _ t _ th' Ht') as Htot. pose proof (pi_len _ _ _ _ _ _ _ _ _ Hinv) as [HT _].
  assert (total (weight n T) (wake_if b c <$> ths) ≤ total (weight n T) ths + (if b then T else 0))%nat.
  { destruct b; [pose proof (total_wake_if true c ths); lia|]. unfold wake_if. rewrite list_fmap_id. lia. }
  unfold left_to_do in *. lia.
Qed.

Lemma wp_destroy_wait t cs p js m ths ev X (B : nat) :
  inv (Closing t) p js m ths ev → ths !! t = Some (Locking (Destroy_wait cs)) → (left_to_do js ths ≤ B)%nat →
  wp (destroy_wait t cs) (St m (Sys (Locked t) (<[t := X]> ths) (World (Some p) ev))) (post B).
Proof.
  intros Hinv Ht HB. pose proof Hinv as []. destruct pi_closer as (cs' & Hnt & Hv & [[? _]|E]); [congruence|].
  assert (cs' = cs) as -> by congruence. unfold destroy_wait. apply wp_bind, wp_get_pool.
  assert (t < length ths)%nat as Htl by by eapply lookup_lt_Some.
  destruct (Z.eqb_spec (queue_cur_num p) 0) as [Hz|Hnz]; cbn [negb].
  - assert (js = []) as -> by (destruct js; [done|cbn [length] in *; lia]).
    apply wp_bind, wp_put_pool. apply wp_bind, wp_mutex_unlock, wp_set_thread. rewrite list_insert_insert_eq.
    pose proof (post_phase (Closing t) (Wake1 t) p [] m ths ev ev t _ (Running (Destroy_wake1 cs)) false queue_empty B Hinv Ht) as HP.
    unfold wake_if in HP. rewrite list_fmap_id in HP. rewrite pi_close. apply HP; try done; [by right| |by left| |by left|simpl; lia].
    + intros i [?|[]|[] []|?|] Hok _; simpl in *; try done; naive_solver.
    + exists cs. by rewrite list_lookup_insert_eq.
  - apply wp_cond_wait. rewrite list_insert_insert_eq.
    pose proof (post_phase (Closing t) (Closing t) p js m ths ev ev t _ (Waiting queue_empty (Destroy_wait cs)) false queue_empty B Hinv Ht) as HP.
    unfold wake_if in HP. rewrite list_fmap_id, with_flags_id in HP by done.
    apply HP; try done; [by right|by left| |by left|simpl; lia]. exists cs. split_and!; [done..|].
    left. rewrite list_lookup_insert_eq by done. split; [done|]. intros ->. simpl in *. lia.
Qed.

Lemma wp_destroy_locked t cs ph p js m ths ev :
  inv ph p js m ths ev → ph ≠ Dead → ths !! t = Some (Locking (Destroy_locked cs)) →
  wp (destroy_locked t cs) (St m (Sys (Locked t) (<[t := Running (Destroy_locked cs)]> ths) (World (Some p) ev)))
    (post (left_to_do js ths)).
Proof.
  intros Hinv Hph Ht. pose proof Hinv as []. unfold destroy_locked. apply wp_bind, wp_get_pool.
  destruct (not_closing _ _ _ _ _ _ _ _ _ _ _ Hinv Ht eq_refl) as [Hdt [Hnt Hv]].
  assert (t < length ths)%nat as Htl by by eapply lookup_lt_Some.
  assert (queue_close p || pool_close p = closed ph) as -> by (rewrite pi_close, pi_pool_close; by destruct ph).
  destruct (closed ph) eqn:Hcl.
  - apply wp_bind, wp_mutex_unlock, wp_return. rewrite list_insert_insert_eq.
    eapply post_set; try done; [right; by eexists|simpl; unfold call_weight; lia].
  - assert (ph = Open) as -> by by destruct ph. apply wp_bind, wp_put_pool.
    pose proof (inv_phase Open (Closing t) p js m ths ev ev t _ (Locking (Destroy_wait cs)) false queue_empty Hinv Ht) as HP.
    unfold wake_if in HP. rewrite list_fmap_id in HP. rewrite pi_pool_close.
    assert (inv (Closing t) (with_flags p true false) js m (<[t := Locking (Destroy_wait cs)]> ths) ev) as Hinv'.
    { apply HP; try done; [by left|by left| |by left].
      exists cs. split_and!; [done..|]. right. by rewrite list_lookup_insert_eq. }
    rewrite <-(list_insert_insert_eq ths t (Running (Destroy_locked cs)) (Locking (Destroy_wait cs))).
    eapply wp_destroy_wait; [done|by rewrite list_lookup_insert_eq|]. unfold left_to_do.
    pose proof (total_insert (weight n T) ths t _ (Locking (Destroy_wait cs)) Ht) as Htot.
    cbn [weight] in Htot. unfold call_weight in Htot. lia.
Qed.

(** The two broadcasts. *)
Lemma wp_destroy_wake1 t cs ph p js m ths ev :
  inv ph p js m ths ev → ph ≠ Dead → ths !! t = Some (Running (Destroy_wake1 cs)) →
  wp (pthread_cond_broadcast queue_not_empty;; set_thread t (Running (Destroy_wake2 cs)))
    (St m (Sys Unlocked ths (World (Some p) ev))) (post (left_to_do js ths)).
Proof.
  intros Hinv Hph Ht. pose proof Hinv as []. assert (t < length ths)%nat as Htl by by eapply lookup_lt_Some.
  assert (ph = Wake1 t ∧ (n ≤ t)%nat ∧ Forall valid_call cs) as (-> & Hnt & Hv).
  { destruct (pi_threads t _ Ht) as [E|]; [|done]. destruct ph; simpl in *; simplify_eq; naive_solver. }
  apply wp_bind, wp_cond_broadcast, wp_set_thread.
  pose proof (post_phase (Wake1 t) (Wake2 t) p js m ths ev ev t _ (Running (Destroy_wake2 cs)) true queue_not_empty (left_to_do js ths) Hinv Ht) as HP.
  rewrite with_flags_id in HP by done. apply HP; try done; [by right| |by left| |by left|simpl; lia].
  - intros i [?|[]|[] []|?|] Hok _; simpl in *; try done; naive_solver.
  - exists cs. by rewrite list_lookup_insert_eq by by rewrite length_fmap.
Qed.

Lemma wp_destroy_wake2 t cs ph p js m ths ev :
  inv ph p js m ths ev → ph ≠ Dead → ths !! t = Some (Running (Destroy_wake2 cs)) →
  wp (pthread_cond_broadcast queue_not_full;; set_thread t (Running (Destroy_join 0 cs)))
    (St m (Sys Unlocked ths (World (Some p) ev))) (post (left_to_do js ths)).
Proof.
  intros Hinv Hph Ht. pose proof Hinv as []. assert (t < length ths)%nat as Htl by by eapply lookup_lt_Some.
  assert (ph = Wake2 t ∧ (n ≤ t)%nat ∧ Forall valid_call cs) as (-> & Hnt & Hv).
  { destruct (pi_threads t _ Ht) as [E|]; [|done]. destruct ph; simpl in *; simplify_eq; naive_solver. }
  apply wp_bind, wp_cond_broadcast, wp_set_thread.
  pose proof (post_phase (Wake2 t) (Joins t 0) p js m ths ev ev t _ (Running (Destroy_join 0 cs)) true queue_not_full (left_to_do js ths) Hinv Ht) as HP.
  rewrite with_flags_id in HP by done. apply HP; try done; [by right| |by left| |by left|simpl; lia].
  - intros i [?|[]|[] []|?|] Hok _; simpl in *; try done; naive_solver.
  - exists cs. split_and!; [done..|lia|]. left. rewrite list_lookup_insert_eq by by rewrite length_fmap. split; [done|lia].
Qed.

(** The workers are joined one after the other; then the pool is freed. *)
Lemma joining ph p js m ths ev t i cs :
  inv ph p js m ths ev → ph ≠ Dead → ths !! t = Some (Running (Destroy_join i cs)) →
  ∃ k, ph = Joins t k ∧ i = Z.of_nat k ∧ (k ≤ n)%nat ∧ (n ≤ t)%nat ∧ Forall valid_call cs ∧
    ∀ u, (u < k)%nat → ths !! u = Some Exited.
Proof.
  intros Hinv Hph Ht. pose proof Hinv as []. destruct (pi_threads t _ Ht) as [E|]; [|done].
  destruct ph as [|d|d|d|d k|]; simpl in *; simplify_eq; naive_solver.
Qed.

Lemma nobody_waits (ph : phase) d js i th c :
  ok (Joins d n) js i th → waits c th = false.
Proof. destruct th as [?|?|[] []|?|]; simpl; try done; naive_solver. Qed.

Lemma wp_destroy_free t cs ph p js m ths ev :
  inv ph p js m ths ev → ph ≠ Dead → ths !! t = Some (Running (Destroy_join (Z.of_nat n) cs)) →
  wp (destroy_free t cs) (St m (Sys Unlocked ths (World (Some p) ev))) (post (left_to_do js ths)).
Proof.
  intros Hinv Hph Ht. destruct (joining _ _ _ _ _ _ _ _ _ Hinv Hph Ht) as (k & -> & Hk & _ & Hnt & Hv & Hall).
  apply Nat2Z.inj in Hk as <-. pose proof Hinv as []. specialize (pi_empty eq_refl). subst js.
  assert (∀ c, negb (existsb (waits c) ths) = true) as Hcond.
  { intros c. apply negb_true_iff. apply not_true_iff_false. intros (th & Hin & Hw)%existsb_exists.
    apply list_elem_of_In, list_elem_of_lookup in Hin as [i Hi].
    destruct (pi_threads i th Hi) as [E|Hok]; [simpl in E; simplify_eq; done|].
    by rewrite (nobody_waits Open t [] i th c Hok) in Hw. }
  unfold destroy_free. apply wp_bind. change (wp pthread_mutex_destroy ?s ?Q) with (Q () (St m (Sys Destroyed ths (World (Some p) ev)))).
  cbv beta. do 3 (apply wp_bind, wp_bind, wp_get_env, wp_assert; [apply Hcond|]).
  apply wp_bind, wp_get_pool, wp_bind, wp_get, wp_bind. simpl in pi_queue. rewrite pi_queue. cbn [loop]. apply wp_bind, wp_ret, wp_ret.
  apply wp_bind, wp_get_shared. apply wp_bind, wp_put_shared, wp_return. cbn [events].
  pose proof (post_phase (Joins t n) Dead p [] m ths ev (ev ++ [Returned t 0]) t _ (Running (Client cs)) false queue_empty (left_to_do [] ths) Hinv Ht) as HP.
  unfold wake_if in HP. rewrite list_fmap_id in HP. apply HP; try done; [by right|by right| |right; by eexists|simpl; lia].
  intros u Hu. rewrite list_lookup_insert_ne by lia. by apply Hall.
Qed.

Lemma wp_destroy_join t i cs ph p js m ths ev :
  inv ph p js m ths ev → ph ≠ Dead → ths !! t = Some (Running (Destroy_join i cs)) →
  wp (destroy_join t i cs) (St m (Sys Unlocked ths (World (Some p) ev))) (post (left_to_do js ths)).
Proof.
  intros Hinv Hph Ht. destruct (joining _ _ _ _ _ _ _ _ _ Hinv Hph Ht) as (k & -> & -> & Hkn & Hnt & Hv & Hall).
  pose proof Hinv as []. unfold destroy_join. apply wp_bind, wp_get_pool. rewrite pi_num, Nat2Z.id.
  assert (t < length ths)%nat as Htl by by eapply lookup_lt_Some.
  destruct (Z.ltb_spec (Z.of_nat k) (Z.of_nat n)) as [Hlt|Hge].
  2: { assert (k = n) as -> by lia. by eapply wp_destroy_free. }
  rewrite pi_ids, list_lookup_fmap, lookup_seq_lt by lia. cbn [fmap option_fmap option_map]. apply wp_set_thread.
  pose proof (post_phase (Joins t k) (Joins t k) p js m ths ev ev t _ (Joining k (Destroy_join (Z.of_nat k + 1) cs)) false queue_empty (left_to_do js ths) Hinv Ht) as HP.
  unfold wake_if in HP. rewrite list_fmap_id, with_flags_id in HP by done. rewrite Nat.add_0_l.
  apply HP; try done; [by right|by left| |by left|simpl; rewrite Nat2Z.id; lia].
  exists cs. split_and!; [done..| |].
  - intros u Hu. rewrite list_lookup_insert_ne; [by apply Hall|]. intros ->. specialize (Hall _ Hu). congruence.
  - right. rewrite list_lookup_insert_eq by done. split; [done|lia].
Qed.

(** A worker that has ended is joined. *)
Lemma post_joined t u q ph p js m ths ev :
  inv ph p js m ths ev → ths !! t = Some (Joining u q) → ths !! u = Some Exited →
  post (left_to_do js ths) () (pool_at ph p m (<[t := Running q]> ths) ev).
Proof.
  intros Hinv Ht Hu. pose proof Hinv as []. destruct (pi_threads t _ Ht) as [E|]; [|done].
  assert (t < length ths)%nat as Htl by by eapply lookup_lt_Some.
  destruct ph as [|d|d|d|d k|]; simpl in E; try done; injection E as ->; simpl in pi_closer.
  { destruct pi_closer as (cs & _ & _ & [[? _]|?]); congruence. }
  1-2: destruct pi_closer as (cs & _ & _ & ?); congruence.
  destruct pi_closer as (cs & Hnt & Hv & Hall & [[? _]|[E Hk]]); [congruence|]. rewrite Ht in E. injection E as -> ->.
  pose proof (post_phase (Joins t k) (Joins t (S k)) p js m ths ev ev t _ (Running (Destroy_join (Z.of_nat k + 1) cs)) false queue_empty (left_to_do js ths) Hinv Ht) as HP.
  unfold wake_if in HP. rewrite list_fmap_id, with_flags_id in HP by done.
  apply HP; try done; [by right|by left| |by left|simpl; lia].
  exists cs. split_and!; [done..| |].
  - intros u Hu'. assert (u = k ∨ (u < k)%nat) as [->|Hlt] by lia; (rewrite list_lookup_insert_ne; [auto|congruence || intros ->]).
    specialize (Hall _ Hlt). congruence.
  - left. rewrite list_lookup_insert_eq by done. split; [do 3 f_equal; lia|lia].
Qed.
End steps.
