(* ===== verification/ThreadPoolProps.v ===== *)
(** * threadpool (C Implement): what the pool promises

    Every schedule of the workers and the clients keeps the invariant; jobs
    leave the queue in the order of their addition and are called once; the
    pool does not block for ever; and what may go wrong after
    [threadpool_destroy]. *)
From S2P Require Import Prelude Pthread PthreadFacts ThreadPool ThreadPoolFacts ThreadPoolSteps.
#[local] Open Scope Z_scope.

(** The state before any thread, and a pool with its clients. *)
Definition boot : pool_state := St ∅ (Sys Destroyed [] (World None [])).
Definition pool_start (n : nat) (mx : Z) (clients : list (list call)) : outcome (unit * pool_state) :=
  (threadpool_init (λ _, true) (Z.of_nat n) mx;; start_clients clients) boot.
Definition pool_reachable (malloc : nat → gmap Z job → Z) (n : nat) (mx : Z) (clients : list (list call)) (s : pool_state) : Prop :=
  ∃ s0, pool_start n mx clients = Ok ((), s0) ∧ rtc (any_step (block malloc)) s0 s.

Section props.
Context (malloc : nat → gmap Z job → Z).
Context (malloc_fresh : ∀ k m, malloc k m ≠ 0 → m !! malloc k m = None).
Context (n T : nat) (mx : Z).
Implicit Types (th : thread cond pc) (ths : list (thread cond pc)) (js : list Z) (m : gmap Z job) (ev : list event) (p : threadpool) (ph : phase).

(** ** One step *)

(** A thread that neither destroys the pool nor holds a job moves, whether the
    pool is still there or not. *)
Lemma post_move ph p js m ths ev t th th' :
  pool_inv n T mx ph p js m ths ev → ths !! t = Some th → th ≠ Exited → destroyer ph ≠ Some t → held th = None → held th' = None →
  thread_ok n mx ph js t th' → (weight n T th' < weight n T th)%nat →
  post n T mx (left_to_do n T js ths) () (pool_at ph p m (<[t := th']> ths) ev).
Proof.
  intros Hinv Ht Hne Hd H0 H1 Hok Hw. eapply post_intro; [eapply inv_set; try done; by left|].
  unfold left_to_do. pose proof (total_insert (weight n T) ths t th th' Ht). lia.
Qed.

Lemma put_threads_at ph p m ths ths' ev :
  wp (put_threads ths') (pool_at ph p m ths ev) (λ _ s, s = pool_at ph p m ths' ev).
Proof. by destruct ph. Qed.

Lemma wp_set_thread_at ph p m ths ev t th (Q : unit → pool_state → Prop) :
  Q () (pool_at ph p m (<[t := th]> ths) ev) → wp (set_thread t th) (pool_at ph p m ths ev) Q.
Proof. by destruct ph. Qed.

Lemma threads_at ph p m ths ev : threads (env (pool_at ph p m ths ev)) = ths.
Proof. by destruct ph. Qed.

Lemma mutex_at ph p m ths ev : mutex (env (pool_at ph p m ths ev)) = match ph with Dead => Destroyed | _ => Unlocked end.
Proof. by destruct ph. Qed.

(** A client goes on to its next call, even when the pool is gone. *)
Lemma wp_next_call ph p js m ths ev t cs :
  pool_inv n T mx ph p js m ths ev → ths !! t = Some (Running (Client cs)) →
  wp (next_call t cs) (pool_at ph p m ths ev) (post n T mx (left_to_do n T js ths)).
Proof.
  intros Hinv Ht. destruct (not_closing _ _ _ _ _ _ _ _ _ _ _ Hinv Ht eq_refl) as [Hdt [Hnt Hv]].
  assert (0 < call_weight T)%nat as Hw by (unfold call_weight; lia).
  destruct cs as [|[cb a|] cs]; cbn [next_call].
  - apply wp_set_thread_at. eapply post_move; try done; [simpl; lia|]. cbn [weight]. lia.
  - apply Forall_cons in Hv as [[Hcb Ha] Hv]. unfold threadpool_add_job.
    apply wp_bind, wp_assert; [by apply negb_true_iff, Z.eqb_neq|]. apply wp_bind, wp_assert; [by apply negb_true_iff, Z.eqb_neq|].
    apply wp_set_thread_at. eapply post_move; try done. cbn [weight length]. lia.
  - apply Forall_cons in Hv as [_ Hv]. apply wp_set_thread_at. eapply post_move; try done. cbn [weight length]. lia.
Qed.

(** Every thread that is not in a call does something defined. *)
Lemma wp_running ph p js m ths ev k t q :
  pool_inv n T mx ph p js m ths ev → ths !! t = Some (Running q) →
  wp (block malloc k t q) (pool_at ph p m ths ev) (post n T mx (left_to_do n T js ths)).
Proof.
  intros Hinv Ht. destruct (decide (mutex (env (pool_at ph p m ths ev)) = Destroyed)) as [Hph|Hph]; rewrite mutex_at in Hph.
  - assert (ph = Dead) as -> by by destruct ph. destruct (pi_threads _ _ _ _ _ _ _ _ _ Hinv t _ Ht) as [|Hok]; [done|].
    assert (¬ (t < n)%nat) as Hnt by (intros H; pose proof (pi_closer _ _ _ _ _ _ _ _ _ Hinv t H); congruence).
    destruct q; simpl in Hok; try done. by apply wp_next_call.
  - assert (ph ≠ Dead) as Halive by by intros ->. clear Hph.
    destruct (closing (Running q)) eqn:Hc.
    + destruct q; try done; cbn [block]; rewrite pool_at_alive by done;
        [by eapply wp_destroy_wake1|by eapply wp_destroy_wake2|by eapply wp_destroy_join].
    + destruct (not_closing _ _ _ _ _ _ _ _ _ _ _ Hinv Ht Hc) as [Hd Hok]. destruct q; try done; cbn [block].
      * apply wp_set_thread_at. eapply post_move; try done. simpl. lia.
      * rewrite pool_at_alive by done. by eapply wp_call_job.
      * by apply wp_next_call.
Qed.

(** The mutex is there and is taken. *)
Lemma wp_locking ph p js m ths ev k t q :
  pool_inv n T mx ph p js m ths ev → ph ≠ Dead → ths !! t = Some (Locking q) →
  wp (block malloc k t q) (St m (Sys (Locked t) (<[t := Running q]> ths) (World (Some p) ev))) (post n T mx (left_to_do n T js ths)).
Proof.
  intros Hinv Halive Ht. destruct (closing (Locking q)) eqn:Hc.
  - destruct q; try done; cbn [block]. pose proof (pi_threads _ _ _ _ _ _ _ _ _ Hinv t _ Ht) as [Hd|]; [|done].
    pose proof (pi_closer _ _ _ _ _ _ _ _ _ Hinv) as Hcl. destruct ph as [|d|d|d|d i|]; simpl in Hd; simplify_eq.
    + by eapply wp_destroy_wait.
    + destruct Hcl as (? & _ & _ & ?); by simplify_eq.
    + destruct Hcl as (? & _ & _ & ?); by simplify_eq.
    + destruct Hcl as (? & _ & _ & _ & [[? _]|[? _]]); by simplify_eq.
  - destruct (not_closing _ _ _ _ _ _ _ _ _ _ _ Hinv Ht Hc) as [Hd Hok]. destruct q; try done; cbn [block].
    + by eapply wp_worker.
    + by eapply wp_add_job_locked.
    + by eapply wp_destroy_locked.
Qed.

(** A thread that can run does, unless it locks the mutex of a pool that is gone. *)
Lemma wp_step s k t :
  pool_ok n T mx s → can_run s t = true →
  (mutex (env s) = Destroyed ∧ ∃ q, threads (env s) !! t = Some (Locking q)) ∨
  wp (run_thread (block malloc) k t) s (post n T mx (measure n T s)).
Proof.
  intros (ph & p & js & m & ths & ev & -> & Hinv) Hrun. rewrite (measure_at n T mx ph p js) by done.
  unfold can_run in Hrun. rewrite threads_at, mutex_at in *. destruct (ths !! t) as [th|] eqn:Ht; [|done].
  destruct th as [q|q|c q|u q|]; try done.
  - right. unfold run_thread. apply wp_bind, wp_get_env. rewrite threads_at, Ht. by apply wp_running.
  - destruct (decide (match ph with Dead => Destroyed | _ => Unlocked end = Destroyed)) as [|Hph]; [left; naive_solver|].
    assert (ph ≠ Dead) as Halive by by intros ->. right. rewrite pool_at_alive by done.
    unfold run_thread. apply wp_bind, wp_get_env. cbn [threads env mutex]. rewrite Ht.
    apply wp_bind, wp_put_env. cbn [mem shared]. by eapply wp_locking.
  - right. unfold run_thread. apply wp_bind, wp_get_env. rewrite threads_at, Ht. apply wp_set_thread_at.
    unfold has_exited in Hrun. rewrite threads_at in Hrun. destruct (ths !! u) as [[]|] eqn:Hu; try done.
    by eapply post_joined.
Qed.

(** A thread may wake up without a signal. *)
Lemma spurious_ok s s' : pool_ok n T mx s → spurious s s' → pool_ok n T mx s'.
Proof.
  intros (ph & p & js & m & ths & ev & -> & Hinv) [t c q Ht]. rewrite threads_at in *.
  exists ph, p, js, m, (<[t := Locking q]> ths), ev. split; [by destruct ph|].
  destruct (closing (Waiting c q)) eqn:Hc.
  - pose proof Hinv as []. pose proof (pi_threads t _ Ht) as [Hd|]; [|by destruct c, q].
    assert (t < length ths)%nat as Htl by by eapply lookup_lt_Some.
    destruct ph as [|d|d|d|d i|]; simpl in Hd; try done; injection Hd as ->; simpl in pi_closer.
    + destruct pi_closer as (cs & Hnt & Hv & [[E _]|E]); rewrite Ht in E; [injection E as -> ->|done].
      pose proof (inv_phase n T mx (Closing t) (Closing t) p js m ths ev ev t _ (Locking (Destroy_wait cs)) false queue_empty Hinv Ht) as HP.
      unfold wake_if in HP. rewrite list_fmap_id, with_flags_id in HP by done.
      apply HP; try done; [by right|by left| |by left]. exists cs. split_and!; [done..|]. right. by rewrite list_lookup_insert_eq.
    + destruct pi_closer as (? & _ & _ & ?); congruence.
    + destruct pi_closer as (? & _ & _ & ?); congruence.
    + destruct pi_closer as (? & _ & _ & _ & [[? _]|[? _]]); congruence.
  - destruct (not_closing _ _ _ _ _ _ _ _ _ _ _ Hinv Ht Hc) as [Hd Hok].
    eapply inv_set; try done; [|by left]. destruct c, q; try done; simpl in *; naive_solver.
Qed.

Lemma any_step_ok s s' : pool_ok n T mx s → any_step (block malloc) s s' → pool_ok n T mx s'.
Proof.
  intros Hok [[k t s1 Hrun Hk]|Hsp]; [|by eapply spurious_ok].
  destruct (wp_step s k t Hok Hrun) as [[Hm [q Hq]]|Hwp].
  - exfalso. unfold run_thread in Hk. unfold mbind, M_bind, get_env in Hk. by rewrite Hq, Hm in Hk.
  - unfold wp in Hwp. rewrite Hk in Hwp. apply Hwp.
Qed.

(** ** Making the pool *)

Definition fresh_threads : list (thread cond pc) := replicate n (Running Worker_start).

Lemma wp_threadpool_init :
  wp (threadpool_init (λ _, true) (Z.of_nat n) mx) boot (λ b s, b = true ∧
    s = St ∅ (Sys Unlocked fresh_threads (World (Some (Threadpool (Z.of_nat n) mx 0 0 (Some <$> seq 0 n) 0 false false)) []))).
Proof.
  unfold threadpool_init. cbn [negb andb]. apply wp_bind, wp_get_env, wp_bind, wp_put_env. cbn [mem env boot threads shared].
  apply wp_bind, wp_put_pool. rewrite Nat2Z.id.
  eapply (wp_loop (λ k i s, ∃ j, i = Z.of_nat j ∧ (j ≤ n)%nat ∧ k = (n - j)%nat ∧
    s = St ∅ (Sys Unlocked (replicate j (Running Worker_start))
      (World (Some (Threadpool (Z.of_nat n) mx 0 0 (Some <$> seq 0 j) 0 false false)) [])))) with (n := n); [| |lia].
  2: { exists 0%nat. split_and!; [done|lia|lia|done]. }
  intros k i s (j & -> & Hj & -> & ->). destruct (Z.ltb_spec (Z.of_nat j) (Z.of_nat n)) as [Hlt|Hge].
  - apply wp_bind. change (wp (pthread_create true ?q) ?s ?Q) with
      (Q (Some (length (replicate j (@Running cond pc Worker_start)))) (St ∅ (Sys Unlocked (replicate j (Running Worker_start) ++ [Running Worker_start])
        (World (Some (Threadpool (Z.of_nat n) mx 0 0 (Some <$> seq 0 j) 0 false false)) [])))). cbv beta.
    apply wp_bind, wp_get_pool, wp_bind, wp_put_pool, wp_ret. exists (n - S j)%nat. split; [lia|].
    exists (S j). split_and!; [lia|lia|done|]. rewrite length_replicate, seq_S, fmap_app. simpl.
    by rewrite <-replicate_cons_app.
  - assert (j = n) as -> by lia. apply wp_ret. done.
Qed.

Lemma pool_start_ok clients :
  Forall (Forall valid_call) clients → T = (n + length clients)%nat → 0 ≤ mx →
  ∃ s, pool_start n mx clients = Ok ((), s) ∧ pool_ok n T mx s.
Proof.
  intros Hv HT Hmx. assert (wp (threadpool_init (λ _, true) (Z.of_nat n) mx;; start_clients clients) boot (λ _ s, pool_ok n T mx s)) as Hwp.
  { apply wp_bind. eapply wp_mono; [apply wp_threadpool_init|]. intros b s [-> ->].
    unfold start_clients. apply wp_bind, wp_get_env. unfold put_threads. apply wp_bind, wp_get_env, wp_put_env.
    cbn [mem env mutex threads shared].
    assert (∀ i th, (fresh_threads ++ ((λ cs, Running (Client cs)) <$> clients)) !! i = Some th →
      ((i < n)%nat ∧ th = Running Worker_start) ∨ ∃ cs, (n ≤ i)%nat ∧ Forall valid_call cs ∧ th = Running (Client cs)) as Hth.
    { intros i th [Hi|[Hi Hi']]%lookup_app_Some.
      - apply lookup_replicate in Hi as [-> ?]. by left.
      - unfold fresh_threads in *. rewrite length_replicate in *. rewrite list_lookup_fmap in Hi'.
        destruct (clients !! (i - n)%nat) as [cs|] eqn:Hcs; [|done]. injection Hi' as <-. right. exists cs.
        split_and!; [done| |done]. by eapply Forall_lookup_1. }
    assert (omap held (fresh_threads ++ ((λ cs, Running (Client cs)) <$> clients)) = []) as Hh.
    { apply elem_of_nil_inv. intros j (th & Hin & Hj)%list_elem_of_omap. apply list_elem_of_lookup in Hin as [i Hi].
      destruct (Hth i th Hi) as [[_ ->]|(cs & _ & _ & ->)]; done. }
    exists Open, (Threadpool (Z.of_nat n) mx 0 0 (Some <$> seq 0 n) 0 false false), [], ∅, (fresh_threads ++ ((λ cs, Running (Client cs)) <$> clients)), []. split; [done|].
    split; try done.
    - unfold fresh_threads. rewrite length_app, length_replicate, length_fmap. lia.
    - rewrite Hh. constructor.
    - rewrite Hh. by intros j ?%not_elem_of_nil.
    - intros i th Hi. right. destruct (Hth i th Hi) as [[? ->]|(cs & ? & ? & ->)]; done.
    - by rewrite Hh. }
  destruct (proj1 (wp_ok _ _ _) Hwp) as ([] & s & Hs & Hok). by exists s.
Qed.
End props.

(** A reachable state satisfies the invariant. *)
Lemma reachable_ok malloc n mx clients s :
  (∀ k m, malloc k m ≠ 0 → m !! malloc k m = None) → Forall (Forall valid_call) clients → 0 ≤ mx →
  pool_reachable malloc n mx clients s → pool_ok n (n + length clients) mx s.
Proof.
  intros Hf Hv Hmx (s0 & Hs0 & Hsteps). destruct (pool_start_ok n (n + length clients) mx clients Hv eq_refl Hmx) as (s1 & Hs1 & Hok).
  assert (s1 = s0) as -> by congruence. clear Hs0 Hs1. induction Hsteps as [|s1 s2 s3 Hstep _ IH]; [done|].
  apply IH. by eapply any_step_ok.
Qed.

(** ** The properties *)

Section reachable.
Context (malloc : nat → gmap Z job → Z) (n : nat) (mx : Z) (clients : list (list call)).

(** In every schedule of the workers and the clients the queue is a linked list
    of [queue_cur_num] jobs, never more than [queue_max_num], and no thread
    performs undefined behaviour, but one that locks the mutex of a pool that
    has been freed. *)
Theorem pool_safe s :
  (∀ k m, malloc k m ≠ 0 → m !! malloc k m = None) → Forall (Forall valid_call) clients → 0 ≤ mx →
  pool_reachable malloc n mx clients s →
  (∀ t, faults (block malloc) s t → mutex (env s) = Destroyed ∧ ∃ q, threads (env s) !! t = Some (Locking q)) ∧
  (∀ p, pool (shared (env s)) = Some p → ∃ js, queue (mem s) (head p) js ∧
    queue_cur_num p = Z.of_nat (length js) ∧ queue_cur_num p ≤ mx).
Proof.
  intros Hf Hv Hmx Hr. pose proof (reachable_ok _ _ _ _ _ Hf Hv Hmx Hr) as Hok. split.
  - intros t [Hrun [k Hk]]. destruct (wp_step malloc Hf _ _ _ s k t Hok Hrun) as [|Hwp]; [done|].
    apply wp_ok in Hwp as ([] & s' & Hs & _). by destruct (Hk s').
  - destruct Hok as (ph & p & js & m & ths & ev & -> & []). intros p' Hp.
    assert (p' = p ∧ mem (pool_at ph p m ths ev) = m) as [-> ->] by (destruct ph; simpl in *; by simplify_eq).
    exists js. split_and!; [done..|lia].
Qed.

Lemma held_bound ths :
  (∀ i th, ths !! i = Some th → held th ≠ None → (i < n)%nat) → (length (omap held ths) ≤ n)%nat.
Proof.
  intros Hn. rewrite <-(take_drop n ths), omap_app, length_app.
  assert (omap held (drop n ths) = []) as ->.
  { apply elem_of_nil_inv. intros j (th & Hin & Hj)%list_elem_of_omap. apply list_elem_of_lookup in Hin as [i Hi].
    rewrite lookup_drop in Hi. assert (n + i < n)%nat; [|lia]. eapply Hn; [done|congruence]. }
  simpl. rewrite Nat.add_0_r. assert (∀ l : list (thread cond pc), length (omap held l) ≤ length l)%nat as Hl.
  { induction l as [|th l IH]; [done|]. csimpl. destruct (held th); simpl; lia. }
  etrans; [apply Hl|]. rewrite length_take. lia.
Qed.

(** C24: Jobs leave the queue in the order of their addition; each job taken is
    called once, by the one worker that holds it until then. *)
Theorem pool_fifo s :
  (∀ k m, malloc k m ≠ 0 → m !! malloc k m = None) → Forall (Forall valid_call) clients → 0 ≤ mx →
  pool_reachable malloc n mx clients s →
  let ev := events (shared (env s)) in
  ∃ queued in_hand, added ev = taken ev ++ queued ∧ called ev ++ in_hand ≡ₚ taken ev ∧
    Z.of_nat (length queued) ≤ mx ∧ (length in_hand ≤ n)%nat.
Proof.
  intros Hf Hv Hmx Hr ev. destruct (reachable_ok _ _ _ _ _ Hf Hv Hmx Hr) as (ph & p & js & m & ths & ev' & -> & Hinv).
  pose proof Hinv as []. assert (ev = ev') as -> by (unfold ev; by destruct ph).
  exists (datum m <$> js), (datum m <$> omap held ths). split_and!; [done..|by rewrite length_fmap|].
  rewrite length_fmap. apply held_bound. intros i th Hi Hh.
  destruct th as [[| |j| | | | | | |]| | | |]; try done.
  by destruct (not_closing _ _ _ _ _ _ _ _ _ _ _ Hinv Hi eq_refl).
Qed.

(** A thread that cannot go on has ended, waits for a signal, or for a thread that has not ended. *)
Definition blocked (ths : list (thread cond pc)) (th : thread cond pc) : Prop :=
  match th with Exited | Waiting _ _ => True | Joining u _ => ths !! u ≠ Some Exited | _ => False end.

Lemma stuck_blocked ph p m ths ev i th :
  stuck (pool_at ph p m ths ev) → ths !! i = Some th → blocked ths th.
Proof.
  intros Hst Hi. specialize (Hst i). unfold can_run, has_exited in Hst. rewrite threads_at, mutex_at, Hi in Hst.
  destruct th as [q|q|c q|u q|]; simpl; [done|by destruct ph|done| |done]. intros E. by rewrite E in Hst.
Qed.

(** A worker that is blocked has ended, or waits while there is no job. *)
Lemma blocked_worker ph p js m ths ev u :
  pool_inv n (n + length clients) mx ph p js m ths ev → (u < n)%nat → (∀ i th, ths !! i = Some th → blocked ths th) →
  (ths !! u = Some Exited ∧ pool_closed ph = true) ∨
  (js = [] ∧ match ph with Open | Closing _ | Wake1 _ => True | _ => False end).
Proof.
  intros Hinv Hu Hbl. pose proof Hinv as []. destruct (lookup_lt_is_Some_2 ths u) as [w Hw]; [lia|].
  destruct (closing w) eqn:Hc.
  - exfalso. destruct (pi_threads u w Hw) as [Hd|Hok]; [|by destruct w as [[]|[]|[] []| |]].
    destruct ph as [|d|d|d|d k|]; simpl in Hd; try done; injection Hd as ->; destruct pi_closer as (cs & ? & _); lia.
  - destruct (not_closing _ _ _ _ _ _ _ _ _ _ _ Hinv Hw Hc) as [_ Hok]. specialize (Hbl u w Hw).
    destruct w as [q|q|c q|v q|]; try done; [right|left; split; [done|by apply Hok]].
    destruct c, q; simpl in Hok; try done; [naive_solver|lia].
Qed.

(** The thread that destroys the pool is not blocked with a worker left. *)
Lemma closer_not_blocked ph p js m ths ev :
  pool_inv n (n + length clients) mx ph p js m ths ev → (0 < n)%nat → (∀ i th, ths !! i = Some th → blocked ths th) →
  destroyer ph = None.
Proof.
  intros Hinv Hn Hbl. pose proof Hinv as []. destruct ph as [|d|d|d|d k|]; try done; exfalso; simpl in pi_closer.
  - destruct pi_closer as (cs & _ & _ & [[_ Hjs]|E]); [|by apply (Hbl d _ E)].
    by destruct (blocked_worker _ _ _ _ _ _ 0 Hinv Hn Hbl) as [[_ ?]|[? _]].
  - destruct pi_closer as (cs & _ & _ & E). by apply (Hbl d _ E).
  - destruct pi_closer as (cs & _ & _ & E). by apply (Hbl d _ E).
  - destruct pi_closer as (cs & _ & _ & Hall & [[E _]|[E Hk]]); [by apply (Hbl d _ E)|].
    destruct (blocked_worker _ _ _ _ _ _ k Hinv Hk Hbl) as [[? _]|[_ ?]]; [|done]. by apply (Hbl d _ E).
Qed.

(** What a pool looks like when no thread can go on. *)
Lemma stuck_quiet ph p js m ths ev :
  pool_inv n (n + length clients) mx ph p js m ths ev → stuck (pool_at ph p m ths ev) → (0 < n)%nat → 0 < mx →
  js = [] ∧ omap held ths = [] ∧ ∀ i th, ths !! i = Some th → (n ≤ i)%nat → th = Exited.
Proof.
  intros Hinv Hst Hn Hmx. pose proof Hinv as [].
  assert (∀ i th, ths !! i = Some th → blocked ths th) as Hbl by (intros i th; by eapply stuck_blocked).
  assert (js = []) as ->.
  { destruct (blocked_worker _ _ _ _ _ _ 0 Hinv Hn Hbl) as [[_ Hpc]|[-> _]]; [by apply pi_empty|done]. }
  split_and!; [done| |].
  - apply elem_of_nil_inv. intros j (th & Hin & Hj)%list_elem_of_omap. apply list_elem_of_lookup in Hin as [i Hi].
    specialize (Hbl i th Hi). by destruct th.
  - intros i th Hi Hni. pose proof (closer_not_blocked _ _ _ _ _ _ Hinv Hn Hbl) as Hd.
    destruct (pi_threads i th Hi) as [E|Hok]; [congruence|]. specialize (Hbl i th Hi).
    destruct th as [q|q|c q|u q|]; try done. destruct c, q; simpl in Hok; try done; [destruct Hok; lia|].
    destruct Hok as (_ & _ & E & _). simpl in E. lia.
Qed.

(** C5: A pool with workers and room in its queue does not block: without spurious
    wake-ups every schedule is finite, and when no thread can go on every call
    of the clients has returned and every job added has been called. *)
Theorem pool_quiesces s :
  (∀ k m, malloc k m ≠ 0 → m !! malloc k m = None) → Forall (Forall valid_call) clients → (0 < n)%nat → 0 < mx →
  pool_reachable malloc n mx clients s →
  (∀ k s', nsteps (step (block malloc)) k s s' → (k ≤ measure n (n + length clients) s)%nat) ∧
  (stuck s → called (events (shared (env s))) ≡ₚ added (events (shared (env s))) ∧
    ∀ i, (n ≤ i < n + length clients)%nat → threads (env s) !! i = Some Exited).
Proof.
  intros Hf Hv Hn Hmx Hr. pose proof (reachable_ok _ _ _ _ _ Hf Hv (Z.lt_le_incl _ _ Hmx) Hr) as Hok. split.
  - intros k s' Hsteps. clear Hr. induction Hsteps as [|k s1 s2 s3 Hstep _ IH]; [lia|].
    destruct Hstep as [c t s2 Hrun Hs2]. destruct (wp_step malloc Hf _ _ _ s1 c t Hok Hrun) as [[Hm [q Hq]]|Hwp].
    + exfalso. unfold run_thread, mbind, M_bind, get_env in Hs2. by rewrite Hq, Hm in Hs2.
    + unfold wp in Hwp. rewrite Hs2 in Hwp. destruct Hwp as [Hok2 Hlt]. specialize (IH Hok2). lia.
  - intros Hst. destruct Hok as (ph & p & js & m & ths & ev & -> & Hinv).
    destruct (stuck_quiet _ _ _ _ _ _ Hinv Hst Hn Hmx) as (-> & Hh & Hex). pose proof Hinv as [].
    assert (events (shared (env (pool_at ph p m ths ev))) = ev) as -> by by destruct ph.
    rewrite threads_at. rewrite Hh in pi_called. simpl in pi_called, pi_added. rewrite app_nil_r in pi_called, pi_added.
    split; [by rewrite pi_added|].
    intros i Hi. destruct (lookup_lt_is_Some_2 ths i) as [th Hth]; [lia|]. rewrite Hth. f_equal. eapply Hex; [done|lia].
Qed.
End reachable.

(** ** Instances *)

(** A [malloc] that does not fail. *)
Definition pool_bump (k : nat) (m : gmap Z job) : Z := 1 + foldr Z.max 0 (map_to_list m).*1.

Lemma pool_bump_fresh k m : pool_bump k m ≠ 0 → m !! pool_bump k m = None.
Proof.
  intros _. destruct (m !! pool_bump k m) as [x|] eqn:Hx; [|done]. exfalso.
  assert (pool_bump k m ∈ (map_to_list m).*1) as Hin.
  { apply list_elem_of_fmap. exists (pool_bump k m, x). split; [done|]. by apply elem_of_map_to_list. }
  apply max_fold_le in Hin. unfold pool_bump in Hin. lia.
Qed.

(** One worker, room for one job, two clients that add and one that destroys. *)
Definition demo_clients : list (list call) := [[Add 1 1]; [Add 2 2]; [Destroy]].
Definition demo_run (l : list nat) : pool_state :=
  match pool_start 1 1 demo_clients with
  | Ok (_, s) => match run (block pool_bump) ((λ t, (t, 0%nat)) <$> l) s with Some s' => s' | None => boot end
  | _ => boot
  end.

Lemma demo_valid : Forall (Forall valid_call) demo_clients.
Proof. by repeat constructor. Qed.

Lemma demo_reachable l :
  (if run (block pool_bump) ((λ t, (t, 0%nat)) <$> l) (match pool_start 1 1 demo_clients with Ok (_, s) => s | _ => boot end)
   is Some _ then true else false) = true →
  pool_reachable pool_bump 1 1 demo_clients (demo_run l).
Proof.
  intros H. assert (∃ s0, pool_start 1 1 demo_clients = Ok ((), s0)) as [s0 Hs0] by by eexists.
  unfold demo_run. exists s0. split; [done|]. rewrite Hs0 in H |- *.
  destruct (run _ _ s0) as [s'|] eqn:Hrun; [|done]. by eapply run_reaches.
Qed.

(** The second client waits for room, the third destroys the pool. *)
Definition demo_waits : list nat := [1; 1; 2; 2; 3; 3; 0; 0]%nat.
Definition demo_gone : list nat := demo_waits ++ [3; 3; 3; 3; 0; 0; 3; 3]%nat.

(** A client that waits for room while [threadpool_destroy] runs is woken by
    its broadcast, but not waited for: when the pool is freed first, the client
    locks a mutex that is gone. *)
Theorem pool_destroy_use_after_free :
  ∃ s, pool_reachable pool_bump 1 1 demo_clients s ∧ threads (env s) !! 2%nat = Some (Locking (Add_locked 2 2 [])) ∧
    mutex (env s) = Destroyed ∧ pool (shared (env s)) = None ∧ faults (block pool_bump) s 2.
Proof.
  exists (demo_run demo_gone). split; [by apply demo_reachable|]. split_and!; [by vm_compute..|].
  split; [by vm_compute|]. exists 0%nat. intros s'. vm_compute. done.
Qed.

Lemma pool_safe_witness :
  (∀ t, faults (block pool_bump) (demo_run demo_waits) t → mutex (env (demo_run demo_waits)) = Destroyed ∧
    ∃ q, threads (env (demo_run demo_waits)) !! t = Some (Locking q)) ∧
  (∀ p, pool (shared (env (demo_run demo_waits))) = Some p → ∃ js, queue (mem (demo_run demo_waits)) (head p) js ∧
    queue_cur_num p = Z.of_nat (length js) ∧ queue_cur_num p ≤ 1).
Proof. apply (pool_safe pool_bump 1 1 demo_clients _ pool_bump_fresh demo_valid); [lia|by apply demo_reachable]. Defined.

Lemma pool_fifo_witness :
  let ev := events (shared (env (demo_run demo_waits))) in
  ∃ queued in_hand, added ev = taken ev ++ queued ∧ called ev ++ in_hand ≡ₚ taken ev ∧
    Z.of_nat (length queued) ≤ 1 ∧ (length in_hand ≤ 1)%nat.
Proof. apply (pool_fifo pool_bump 1 1 demo_clients _ pool_bump_fresh demo_valid); [lia|by apply demo_reachable]. Defined.

(** Both jobs are called before the pool is destroyed. *)
Definition demo_done : list nat := [1; 1; 1; 0; 0; 0; 2; 2; 2; 0; 0; 0; 3; 3; 3; 3; 0; 3; 3; 3; 3]%nat.

Lemma demo_done_stuck : stuck (demo_run demo_done).
Proof. intros t. do 4 (destruct t as [|t]; [by vm_compute|]). by vm_compute. Qed.

Lemma pool_quiesces_witness :
  stuck (demo_run demo_done) ∧
  (∀ k s', nsteps (step (block pool_bump)) k (demo_run demo_done) s' → (k ≤ measure 1 4 (demo_run demo_done))%nat) ∧
  (stuck (demo_run demo_done) → called (events (shared (env (demo_run demo_done)))) ≡ₚ added (events (shared (env (demo_run demo_done)))) ∧
    ∀ i, (1 ≤ i < 4)%nat → threads (env (demo_run demo_done)) !! i = Some Exited).
Proof.
  split; [exact demo_done_stuck|].
  apply (pool_quiesces pool_bump 1 1 demo_clients _ pool_bump_fresh demo_valid); [lia|lia|by apply demo_reachable].
Defined.
