(* ===== verification/WorkQueue.v ===== *)
(** * threadpool and mult_thread_server: the work queue

    [workqueue.c] (the same file in both directories): workers take jobs from
    the front of a linked list, to whose front they are added.  The jobs are
    objects of the clients; what a job function does is not part of the queue. *)
From S2P Require Import Prelude Pthread.
#[local] Open Scope Z_scope.

(** ** Data *)

Record job_t := Job_t { job_function : Z; user_data : Z; prev : Z; next : Z }.

(** [prev] and [next] link the workers. *)
Record worker_t := Worker_t { terminate : Z; wprev : Z; wnext : Z }.

(** [jobs_cond] is the only condition variable. *)
Inductive wcond := jobs_cond.
#[export] Instance wcond_eq_dec : EqDecision wcond.
Proof. solve_decision. Defined.

(** A job is put in front, taken from the front, or its function is called;
    the jobs that wait are forgotten. *)
Inductive wevent := Pushed (j : Z) | Popped (j : Z) | Ran (f j : Z) | Cleared.

(** [workqueue_t] but for the mutex and the condition variable; the workers in
    memory; what has happened. *)
Record workqueue_t := Workqueue_t {
  workers : Z; waiting_jobs : Z; worker_mem : gmap Z worker_t; wevents : list wevent;
}.

Inductive wcall := Add_job (j : Z) | Shutdown.

(** Where a thread is: the worker [w] before it locks, with the mutex and with
    a job; a client before its next call; [workqueue_add_job] with the mutex;
    [workqueue_shutdown] before it sets [terminate] of [w], before it reads
    [next] of [w], and with the mutex. *)
Inductive wpc :=
  | Worker_start (w : Z) | Worker_locked (w : Z) | Worker_run (w j : Z)
  | Client (cs : list wcall) | Add_locked (j : Z) (cs : list wcall)
  | Shutdown_set (w : Z) (cs : list wcall) | Shutdown_next (w : Z) (cs : list wcall) | Shutdown_locked (cs : list wcall).

Abbreviation queue_state := (st job_t (sys workqueue_t wcond wpc)).
Abbreviation WQ := (M queue_state).

Definition set_waiting_jobs (a : Z) : WQ unit :=
  q ← get_shared; put_shared (Workqueue_t (workers q) a (worker_mem q) (wevents q)).
Definition set_workers (a : Z) : WQ unit :=
  q ← get_shared; put_shared (Workqueue_t a (waiting_jobs q) (worker_mem q) (wevents q)).
Definition set_worker_mem (m : gmap Z worker_t) : WQ unit :=
  q ← get_shared; put_shared (Workqueue_t (workers q) (waiting_jobs q) m (wevents q)).
Definition emit (e : wevent) : WQ unit :=
  q ← get_shared; put_shared (Workqueue_t (workers q) (waiting_jobs q) (worker_mem q) (wevents q ++ [e])).
Definition load_worker (w : Z) : WQ worker_t :=
  q ← get_shared; match worker_mem q !! w with Some x => mret x | None => ub end.
Definition store_worker (w : Z) (x : worker_t) : WQ unit :=
  _ ← load_worker w; q ← get_shared; set_worker_mem (<[w := x]> (worker_mem q)).
Definition free_worker (w : Z) : WQ unit :=
  _ ← load_worker w; q ← get_shared; set_worker_mem (delete w (worker_mem q)).

(** ** The lists *)

(** [LL_ADD(job, waiting_jobs)]. *)
Definition LL_ADD_job (item : Z) : WQ unit :=
  fset (λ x, Job_t (job_function x) (user_data x) 0 (next x)) item;;
  q ← get_shared;
  fset (λ x, Job_t (job_function x) (user_data x) (prev x) (waiting_jobs q)) item;;
  set_waiting_jobs item.

(** [LL_REMOVE(job, waiting_jobs)]. *)
Definition LL_REMOVE_job (item : Z) : WQ unit :=
  p ← fget prev item;
  n ← fget next item;
  when (negb (p =? 0)) (fset (λ x, Job_t (job_function x) (user_data x) (prev x) n) p);;
  n ← fget next item;
  when (negb (n =? 0)) (p ← fget prev item; fset (λ x, Job_t (job_function x) (user_data x) p (next x)) n);;
  q ← get_shared;
  when (waiting_jobs q =? item) (n ← fget next item; set_waiting_jobs n);;
  fset (λ x, Job_t (job_function x) (user_data x) 0 0) item.

(** [LL_ADD(worker, workers)]. *)
Definition LL_ADD_worker (item : Z) : WQ unit :=
  x ← load_worker item;
  store_worker item (Worker_t (terminate x) 0 (wnext x));;
  q ← get_shared;
  x ← load_worker item;
  store_worker item (Worker_t (terminate x) (wprev x) (workers q));;
  set_workers item.

(** ** The workers *)

(** [break], [free(worker)] and [pthread_exit]: the mutex is still held. *)
Definition worker_exit (t : nat) (w : Z) : WQ unit :=
  free_worker w;; pthread_exit t.

(** With the mutex, whenever the wait for a job is over. *)
Definition worker_function (t : nat) (w : Z) : WQ unit :=
  q ← get_shared;
  x ← load_worker w;
  if waiting_jobs q =? 0 then
    if negb (terminate x =? 0) then worker_exit t w
    else pthread_cond_wait t jobs_cond (Worker_locked w)
  else if negb (terminate x =? 0) then worker_exit t w
  else
    let job := waiting_jobs q in
    when (negb (job =? 0)) (LL_REMOVE_job job;; emit (Popped job));;
    pthread_mutex_unlock;;
    if job =? 0 then pthread_mutex_lock t (Worker_locked w)
    else set_thread t (Running (Worker_run w job)).

Definition worker_run (t : nat) (w job : Z) : WQ unit :=
  f ← fget job_function job;
  emit (Ran f job);;
  pthread_mutex_lock t (Worker_locked w).

(** ** The clients *)

Definition add_job_locked (k t : nat) (job : Z) (cs : list wcall) : WQ unit :=
  LL_ADD_job job;;
  emit (Pushed job);;
  pthread_cond_signal k jobs_cond;;
  pthread_mutex_unlock;;
  set_thread t (Running (Client cs)).

(** The loop over the workers runs without the mutex. *)
Definition shutdown_loop (t : nat) (worker : Z) (cs : list wcall) : WQ unit :=
  if worker =? 0 then pthread_mutex_lock t (Shutdown_locked cs)
  else set_thread t (Running (Shutdown_set worker cs)).

Definition shutdown_set (t : nat) (worker : Z) (cs : list wcall) : WQ unit :=
  x ← load_worker worker;
  store_worker worker (Worker_t 1 (wprev x) (wnext x));;
  set_thread t (Running (Shutdown_next worker cs)).

Definition shutdown_next (t : nat) (worker : Z) (cs : list wcall) : WQ unit :=
  x ← load_worker worker;
  shutdown_loop t (wnext x) cs.

Definition shutdown_locked (t : nat) (cs : list wcall) : WQ unit :=
  set_workers 0;;
  set_waiting_jobs 0;;
  emit Cleared;;
  pthread_cond_broadcast jobs_cond;;
  pthread_mutex_unlock;;
  set_thread t (Running (Client cs)).

Definition next_call (t : nat) (cs : list wcall) : WQ unit :=
  match cs with
  | [] => pthread_exit t
  | Add_job j :: cs => pthread_mutex_lock t (Add_locked j cs)
  | Shutdown :: cs => q ← get_shared; shutdown_loop t (workers q) cs
  end.

Definition wblock (k t : nat) (p : wpc) : WQ unit :=
  match p with
  | Worker_start w => pthread_mutex_lock t (Worker_locked w)
  | Worker_locked w => worker_function t w
  | Worker_run w j => worker_run t w j
  | Client cs => next_call t cs
  | Add_locked j cs => add_job_locked k t j cs
  | Shutdown_set w cs => shutdown_set t w cs
  | Shutdown_next w cs => shutdown_next t w cs
  | Shutdown_locked cs => shutdown_locked t cs
  end.

(** ** Making a queue *)

Section init.
(** [malloc] and [pthread_create]: the address of the worker [i], or null, and
    whether its thread starts. *)
Context (malloc : nat → gmap Z worker_t → Z) (starts : nat → bool).

Definition malloc_worker (i : nat) : WQ Z :=
  q ← get_shared;
  let a := malloc i (worker_mem q) in
  when (negb (a =? 0)) (set_worker_mem (<[a := Worker_t 0 0 0]> (worker_mem q)));;
  mret a.

Definition workqueue_init (numWorkers : Z) : WQ Z :=
  let numWorkers := if numWorkers <? 1 then 1 else numWorkers in
  e ← get_env;
  put_env (Sys Unlocked (threads e) (Workqueue_t 0 0 (worker_mem (shared e)) (wevents (shared e))));;
  loop (S (Z.to_nat numWorkers)) (λ i,
    if i <? numWorkers then
      worker ← malloc_worker (Z.to_nat i);
      if worker =? 0 then mret (inr 1) else
      u ← pthread_create (starts (Z.to_nat i)) (Worker_start worker);
      match u with
      | None => free_worker worker;; mret (inr 1)
      | Some _ => LL_ADD_worker worker;; mret (inl (i + 1))
      end
    else mret (inr 0)) 0.
End init.

(** The clients come after the workers. *)
Definition start_clients (clients : list (list wcall)) : WQ unit :=
  e ← get_env; put_threads (threads e ++ ((λ cs, Running (Client cs)) <$> clients)).
