(* ===== verification/WorkQueueFacts.v ===== *)
(** * threadpool and mult_thread_server: the invariant of the work queue *)
From S2P Require Import Prelude Pthread PthreadFacts WorkQueue.
#[local] Open Scope Z_scope.

(** ** The list of jobs *)

(** [LL_ADD] does not link the old first job back: every [prev] is null. *)
Fixpoint waiting (m : gmap Z job_t) (a : Z) (js : list Z) : Prop :=
  match js with
  | [] => a = 0
  | j :: js => a = j ∧ j ≠ 0 ∧ ∃ x, m !! j = Some x ∧ prev x = 0 ∧ waiting m (next x) js
  end.

Lemma waiting_frame m m' a js : (∀ j, j ∈ js → m' !! j = m !! j) → waiting m a js → waiting m' a js.
Proof.
  revert a. induction js as [|j js IH]; intros a Hm; [done|]. intros (-> & H0 & x & Hx & Hp & Hq).
  split_and!; [done..|]. exists x. rewrite Hm by left. split_and!; [done..|]. apply IH; [|done].
  intros i Hi. apply Hm. by right.
Qed.

Section lists.
Context (mx : lock) (ths : list (thread wcond wpc)).
Implicit Types (m : gmap Z job_t) (q : workqueue_t).

Definition at_front q (a : Z) : workqueue_t := Workqueue_t (workers q) a (worker_mem q) (wevents q).

Lemma wp_LL_ADD_job m q j js (Q : unit → queue_state → Prop) :
  waiting m (waiting_jobs q) js → j ∉ js → j ≠ 0 → is_Some (m !! j) →
  (∀ m', waiting m' j (j :: js) → (∀ i, is_Some (m !! i) → is_Some (m' !! i)) → Q () (St m' (Sys mx ths (at_front q j)))) →
  wp (LL_ADD_job j) (St m (Sys mx ths q)) Q.
Proof.
  intros Hw Hj H0 [x Hx] HQ. unfold LL_ADD_job. apply wp_bind. eapply wp_fset; [done|]. cbn [mem env].
  apply wp_bind, wp_get_shared, wp_bind. eapply wp_fset; [cbn [mem]; apply lookup_insert_eq|].
  cbn [mem env]. rewrite insert_insert_eq. apply wp_bind, wp_get_shared, wp_put_shared, HQ.
  - split_and!; [done..|]. eexists. split_and!; [apply lookup_insert_eq|done|]. simpl.
    eapply waiting_frame; [|done]. intros i Hi. rewrite lookup_insert_ne; [done|]. by intros ->.
  - intros i Hi. destruct (decide (i = j)) as [->|]; [by rewrite lookup_insert_eq|by rewrite lookup_insert_ne].
Qed.

Lemma wp_LL_REMOVE_job m q j js (Q : unit → queue_state → Prop) :
  waiting m (waiting_jobs q) (j :: js) → NoDup (j :: js) →
  (∀ m' a, waiting m' a js → (∀ i, is_Some (m !! i) → is_Some (m' !! i)) → Q () (St m' (Sys mx ths (at_front q a)))) →
  wp (LL_REMOVE_job j) (St m (Sys mx ths q)) Q.
Proof.
  intros (Ha & H0 & x & Hx & Hp & Hw) [Hj Hnd]%NoDup_cons HQ. unfold LL_REMOVE_job.
  apply wp_bind. eapply wp_fget; [done|]. apply wp_bind. eapply wp_fget; [done|]. rewrite Hp. simpl.
  apply wp_bind, wp_ret, wp_bind. eapply wp_fget; [done|].
  apply wp_bind. apply (wp_mono _ _ (λ _ s, s = St m (Sys mx ths q))).
  { apply wp_when; [|done]. intros E. apply negb_true_iff, Z.eqb_neq in E.
    destruct js as [|i js]; [done|]. destruct Hw as (Hn & _ & y & Hy & Hpy & _).
    apply wp_bind. eapply wp_fget; [done|]. rewrite Hp, Hn. eapply wp_fset; [done|]. cbn [mem env].
    rewrite insert_id; [done|]. rewrite Hy. destruct y; simpl in *. by subst. }
  intros [] s ->. apply wp_bind, wp_get_shared. rewrite Ha, Z.eqb_refl. apply wp_bind. simpl.
  apply wp_bind. eapply wp_fget; [done|]. unfold set_waiting_jobs. apply wp_bind, wp_get_shared, wp_put_shared.
  eapply wp_fset; [done|]. cbn [mem env]. apply HQ.
  - eapply waiting_frame; [|done]. intros i Hi. rewrite lookup_insert_ne; [done|]. by intros ->.
  - intros i Hi. destruct (decide (i = j)) as [->|]; [by rewrite lookup_insert_eq|by rewrite lookup_insert_ne].
Qed.
End lists.

(** ** What has happened, as a stack *)

Definition stack_step (o : option (list Z)) (e : wevent) : option (list Z) :=
  match o, e with
  | Some js, Pushed j => Some (j :: js)
  | Some (j' :: js), Popped j => if decide (j = j') then Some js else None
  | Some _, Cleared => Some []
  | Some js, Ran _ _ => Some js
  | _, _ => None
  end.
Definition stack (ev : list wevent) : option (list Z) := foldl stack_step (Some []) ev.

Lemma stack_snoc ev e : stack (ev ++ [e]) = stack_step (stack ev) e.
Proof. unfold stack. by rewrite foldl_app. Qed.

(** The jobs pushed are popped, still there or forgotten. *)
Definition pushed : list wevent → list Z := omap (λ e, match e with Pushed j => Some j | _ => None end).

Definition popped : list wevent → list Z := omap (λ e, match e with Popped j => Some j | _ => None end).
Definition ran : list wevent → list Z := omap (λ e, match e with Ran _ j => Some j | _ => None end).
Lemma stack_pushed ev js :
  stack ev = Some js → Cleared ∉ ev → pushed ev ≡ₚ omap (λ e, match e with Popped j => Some j | _ => None end) ev ++ js.
Proof.
  revert js. induction ev as [|e ev IH] using rev_ind; intros js Hs Hc; [by injection Hs as <-|].
  rewrite stack_snoc in Hs. apply not_elem_of_app in Hc as [Hc He]. unfold pushed. rewrite !omap_app.
  destruct (stack ev) as [js0|] eqn:E; [|done]. specialize (IH js0 eq_refl Hc). unfold pushed in IH. rewrite IH.
  destruct e as [j|j|f j|]; simpl in *.
  - assert (js = j :: js0) as -> by (destruct js0; congruence). rewrite app_nil_r, <-app_assoc. f_equiv.
    symmetry. apply Permutation_cons_append.
  - destruct js0 as [|j' js0]; [done|]. case_decide; [|done]. simplify_eq. by rewrite app_nil_r, <-app_assoc.
  - assert (js = js0) as -> by (destruct js0; congruence). by rewrite !app_nil_r.
  - exfalso. apply He. left.
Qed.

Definition in_hand (th : thread wcond wpc) : option Z := match th with Running (Worker_run _ j) => Some j | _ => None end.

Lemma in_hand_wake c th : in_hand (wake c th) = in_hand th.
Proof. destruct th; simpl; try done. by case_decide. Qed.

(** ** The invariant *)

Definition calls_jobs : list wcall → list Z := omap (λ c, match c with Add_job j => Some j | _ => None end).

(** The jobs a thread has still to add. *)
Definition to_add (th : thread wcond wpc) : list Z :=
  match th with
  | Running (Client cs | Shutdown_set _ cs | Shutdown_next _ cs) | Locking (Shutdown_locked cs) => calls_jobs cs
  | Locking (Add_locked j cs) => j :: calls_jobs cs
  | _ => []
  end.


Definition adds_only (c : wcall) : Prop := match c with Add_job _ => True | Shutdown => False end.

Section inv.
(** The workers, and whether a client may shut the queue down. *)
Context (ws : list Z) (sd : bool).

Definition wthread_ok (m : gmap Z job_t) (i : nat) (th : thread wcond wpc) : Prop :=
  match th with
  | Running (Worker_start w) | Locking (Worker_locked w) | Waiting _ (Worker_locked w) => ws !! i = Some w
  | Running (Worker_run w j) => ws !! i = Some w ∧ is_Some (m !! j)
  | Exited => (i < length ws)%nat → sd = true
  | Running (Client cs) | Locking (Add_locked _ cs) => (length ws ≤ i)%nat ∧ (sd = false → Forall adds_only cs)
  | Running (Shutdown_set _ _ | Shutdown_next _ _) | Locking (Shutdown_locked _) => (length ws ≤ i)%nat ∧ sd = true
  | _ => False
  end.

(** The worker waits for nothing but the mutex. *)
Definition busy (th : thread wcond wpc) : bool := match th with Running _ | Locking _ => true | _ => false end.

Record wq_inv (mx : lock) (m : gmap Z job_t) (q : workqueue_t) (ths : list (thread wcond wpc)) (js : list Z) : Prop := {
  wi_ws : NoDup ws ∧ (0 < length ws ≤ length ths)%nat;
  wi_threads : ∀ i th, ths !! i = Some th → wthread_ok m i th;
  wi_alive : ∀ i w, ws !! i = Some w → ths !! i ≠ Some Exited → is_Some (worker_mem q !! w);
  wi_exited : ∀ u, (u < length ws)%nat → ths !! u = Some Exited → mx = Locked u;
  wi_mutex : mx = Unlocked ∨ ∃ u, (u < length ws)%nat ∧ mx = Locked u ∧ ths !! u = Some Exited;
  wi_queue : waiting m (waiting_jobs q) js;
  wi_nodup : NoDup (js ++ concat (to_add <$> ths));
  wi_live : ∀ j, j ∈ js ++ concat (to_add <$> ths) → j ≠ 0 ∧ is_Some (m !! j);
  wi_stack : stack (wevents q) = Some js;
  wi_ran : ran (wevents q) ++ omap in_hand ths ≡ₚ popped (wevents q);
  wi_wake : js ≠ [] → sd = false → ∃ u th, (u < length ws)%nat ∧ ths !! u = Some th ∧ busy th = true;
  wi_kept : sd = false → Cleared ∉ wevents q;
  wi_term : sd = false → ∀ w x, worker_mem q !! w = Some x → terminate x = 0;
}.

Definition wq_ok (s : queue_state) : Prop :=
  ∃ mx m q ths js, s = St m (Sys mx ths q) ∧ wq_inv mx m q ths js.
End inv.
