(* ===== verification/WorkQueueSteps.v ===== *)
(** * threadpool and mult_thread_server: every step of the work queue

    What the code of a worker and of a client between two synchronisation
    calls does to the invariant and to what is left to do. *)
From S2P Require Import Prelude Pthread PthreadFacts WorkQueue WorkQueueFacts.
#[local] Open Scope Z_scope.

Section steps.
Context (ws : list Z) (sd : bool).
Implicit Types (m : gmap Z job_t) (q : workqueue_t) (th : thread wcond wpc) (ths : list (thread wcond wpc)) (js : list Z) (ev : list wevent).
Abbreviation inv := (wq_inv ws sd).

(** ** What is left to do *)

Definition wweight (th : thread wcond wpc) : nat :=
  match th with
  | Running (Worker_start _) | Running (Worker_run _ _) => 2
  | Locking (Worker_locked _) => 1
  | Running (Client cs) => 5 * length cs + 1
  | Locking (Add_locked _ cs) => 5 * length cs + 5
  | _ => 0
  end%nat.
Definition wmeasure (s : queue_state) : nat :=
  (total wweight (threads (env s)) + 2 * match stack (wevents (shared (env s))) with Some js => length js | None => 0 end)%nat.

(** The invariant holds and, unless the queue may be shut down, less than [b] is left to do. *)
Definition wpost (b : nat) (_ : unit) (s : queue_state) : Prop := wq_ok ws sd s ∧ (sd = false → (wmeasure s < b)%nat).

Lemma wmeasure_at mx m q ths js :
  inv mx m q ths js → wmeasure (St m (Sys mx ths q)) = (total wweight ths + 2 * length js)%nat.
Proof. intros []. unfold wmeasure. cbn [env threads shared]. by rewrite wi_stack. Qed.

Lemma wpost_intro b mx m q ths js :
  inv mx m q ths js → (sd = false → total wweight ths + 2 * length js < b)%nat → wpost b () (St m (Sys mx ths q)).
Proof. intros Hinv Hb. split; [by exists mx, m, q, ths, js|]. intros Hsd. erewrite wmeasure_at by done. by apply Hb. Qed.

(** ** One thread moves *)

Lemma threads_move m m' ths t th' :
  (∀ i th, ths !! i = Some th → wthread_ok ws sd m i th) → (∀ i, is_Some (m !! i) → is_Some (m' !! i)) →
  wthread_ok ws sd m' t th' → ∀ i th, <[t := th']> ths !! i = Some th → wthread_ok ws sd m' i th.
Proof.
  intros Hall Hm Hok i th Hi. destruct (decide (i = t)) as [->|Hne].
  - rewrite list_lookup_insert_eq in Hi; [by simplify_eq|]. apply lookup_lt_Some in Hi. by rewrite length_insert in Hi.
  - rewrite list_lookup_insert_ne in Hi by done. specialize (Hall i th Hi).
    destruct th as [[]|[]|[] []| |]; simpl in *; naive_solver.
Qed.

(** The workers that have ended are the same when one that has not moves on. *)
Lemma exited_move ths t th th' u :
  ths !! t = Some th → th ≠ Exited → th' ≠ Exited ∨ (length ws ≤ t)%nat → (u < length ws)%nat →
  <[t := th']> ths !! u = Some Exited ↔ ths !! u = Some Exited.
Proof.
  intros Ht Hne Hne' Hu. destruct (decide (u = t)) as [->|Hut].
  - rewrite list_lookup_insert_eq by by eapply lookup_lt_Some. rewrite Ht. destruct Hne'; [naive_solver|lia].
  - by rewrite list_lookup_insert_ne.
Qed.

Lemma mutex_move mx ths t th th' :
  (mx = Unlocked ∨ ∃ u, (u < length ws)%nat ∧ mx = Locked u ∧ ths !! u = Some Exited) → ths !! t = Some th → th ≠ Exited →
  mx = Unlocked ∨ ∃ u, (u < length ws)%nat ∧ mx = Locked u ∧ <[t := th']> ths !! u = Some Exited.
Proof.
  intros [?|(u & Hu & -> & He)] Ht Hne; [by left|right]. exists u. split_and!; [done..|].
  rewrite list_lookup_insert_ne; [done|]. intros ->. congruence.
Qed.

Lemma wake_move ths js t th th' :
  (js ≠ [] → sd = false → ∃ u th, (u < length ws)%nat ∧ ths !! u = Some th ∧ busy th = true) →
  ths !! t = Some th → busy th' = true ∨ (length ws ≤ t)%nat ∨ js = [] ∨ sd = true →
  js ≠ [] → sd = false → ∃ u th, (u < length ws)%nat ∧ <[t := th']> ths !! u = Some th ∧ busy th = true.
Proof.
  intros Hw Ht Hb Hjs Hsd. destruct (Hw Hjs Hsd) as (u & x & Hu & Hx & Hbx). destruct (decide (u = t)) as [->|Hne].
  - exists t, th'. rewrite list_lookup_insert_eq by by eapply lookup_lt_Some. split_and!; [done..|].
    destruct Hb as [?|[?|[?|?]]]; [done|lia|done|congruence].
  - exists u, x. by rewrite list_lookup_insert_ne.
Qed.

Lemma wq_move mx m q ths js t th th' :
  inv mx m q ths js → ths !! t = Some th → th ≠ Exited → th' ≠ Exited ∨ (length ws ≤ t)%nat → in_hand th = None →
  in_hand th' = None → to_add th' = to_add th → wthread_ok ws sd m t th' →
  busy th' = true ∨ (length ws ≤ t)%nat ∨ js = [] ∨ sd = true → inv mx m q (<[t := th']> ths) js.
Proof.
  intros Hinv Ht Hne Hne' H0 H1 Ha Hok Hb. pose proof Hinv as [].
  assert (omap in_hand (<[t := th']> ths) = omap in_hand ths) as Hh by (eapply omap_insert_same; [done|congruence]).
  assert (concat (to_add <$> <[t := th']> ths) ≡ₚ concat (to_add <$> ths)) as Hc.
  { apply (Permutation_app_inv_l (to_add th)). rewrite (concat_insert _ _ _ _ th' Ht). by rewrite Ha. }
  split; try done.
  - by rewrite length_insert.
  - by eapply threads_move.
  - intros i w Hi Hx. apply (wi_alive i w Hi). intros E. apply Hx. eapply exited_move; try done. by eapply lookup_lt_Some.
  - intros u Hu E. apply wi_exited; [done|]. by eapply (exited_move ths t th th').
  - by eapply mutex_move.
  - by rewrite Hc.
  - intros j. rewrite Hc. apply wi_live.
  - by rewrite Hh.
  - by eapply wake_move.
Qed.

(** ** The workers *)

Definition with_workers q (wm : gmap Z worker_t) : workqueue_t := Workqueue_t (workers q) (waiting_jobs q) wm (wevents q).
Definition with_event q (e : wevent) : workqueue_t := Workqueue_t (workers q) (waiting_jobs q) (worker_mem q) (wevents q ++ [e]).

Lemma wp_load_worker m mx ths q w x (Q : worker_t → queue_state → Prop) :
  worker_mem q !! w = Some x → Q x (St m (Sys mx ths q)) → wp (load_worker w) (St m (Sys mx ths q)) Q.
Proof. intros Hx HQ. apply wp_bind, wp_get_shared. by rewrite Hx. Qed.

Lemma wp_worker_exit m mx ths q w x t (Q : unit → queue_state → Prop) :
  worker_mem q !! w = Some x →
  Q () (St m (Sys mx (<[t := Exited]> ths) (with_workers q (delete w (worker_mem q))))) →
  wp (worker_exit t w) (St m (Sys mx ths q)) Q.
Proof.
  intros Hx HQ. unfold worker_exit. apply wp_bind, wp_bind. eapply wp_load_worker; [done|].
  apply wp_bind, wp_get_shared. unfold set_worker_mem. apply wp_bind, wp_get_shared, wp_put_shared. by apply wp_set_thread.
Qed.

Lemma wp_wemit m mx ths q e (Q : unit → queue_state → Prop) :
  Q () (St m (Sys mx ths (with_event q e))) → wp (emit e) (St m (Sys mx ths q)) Q.
Proof. done. Qed.

Lemma wkept_snoc ev e : e ≠ Cleared → Cleared ∉ ev → Cleared ∉ ev ++ [e].
Proof. intros He Hc [?|?%list_elem_of_singleton]%elem_of_app; congruence. Qed.

(** A worker ends, with the mutex. *)
Lemma inv_exit m q ths js t w :
  inv Unlocked m q ths js → ths !! t = Some (Locking (Worker_locked w)) → sd = true →
  inv (Locked t) m (with_workers q (delete w (worker_mem q))) (<[t := Exited]> ths) js.
Proof.
  intros Hinv Ht Hsd. pose proof Hinv as []. pose proof (wi_threads t _ Ht) as Hw. simpl in Hw.
  assert (t < length ws)%nat as Htn by by eapply lookup_lt_Some.
  assert (t < length ths)%nat as Htl by by eapply lookup_lt_Some.
  assert (concat (to_add <$> <[t := Exited]> ths) ≡ₚ concat (to_add <$> ths)) as Hc by apply (concat_insert to_add ths t _ Exited Ht).
  assert (omap in_hand (<[t := Exited]> ths) = omap in_hand ths) as Hh by (eapply omap_insert_same; [done|done]).
  split; try done; cbn [with_workers worker_mem waiting_jobs wevents].
  - by rewrite length_insert.
  - eapply threads_move; [done|done|]. by intros _.
  - intros i v Hi Hx. destruct (decide (i = t)) as [->|Hne]; [by rewrite list_lookup_insert_eq in Hx|].
    rewrite list_lookup_insert_ne in Hx by done. rewrite lookup_delete_ne; [by eapply wi_alive|].
    intros ->. destruct wi_ws as [Hnd _]. apply Hne. eapply (NoDup_lookup ws); [exact Hnd|exact Hi|exact Hw].
  - intros u Hu Hx. destruct (decide (u = t)) as [->|Hne]; [done|]. rewrite list_lookup_insert_ne in Hx by done.
    by specialize (wi_exited u Hu Hx).
  - right. exists t. by rewrite list_lookup_insert_eq.
  - by rewrite Hc.
  - intros j. rewrite Hc. apply wi_live.
  - by rewrite Hh.
  - congruence.
  - congruence.
Qed.

(** A worker takes the job in front. *)
Lemma winv_take m m' q ths js t w j a :
  inv Unlocked m q ths (j :: js) → ths !! t = Some (Locking (Worker_locked w)) → waiting m' a js →
  (∀ i, is_Some (m !! i) → is_Some (m' !! i)) →
  inv Unlocked m' (with_event (at_front q a) (Popped j)) (<[t := Running (Worker_run w j)]> ths) js.
Proof.
  intros Hinv Ht Hq Hm. pose proof Hinv as []. pose proof (wi_threads t _ Ht) as Hw. simpl in Hw.
  assert (t < length ths)%nat as Htl by by eapply lookup_lt_Some.
  assert (concat (to_add <$> <[t := Running (Worker_run w j)]> ths) ≡ₚ concat (to_add <$> ths)) as Hc
    by apply (concat_insert to_add ths t _ (Running (Worker_run w j)) Ht).
  assert (omap in_hand (<[t := Running (Worker_run w j)]> ths) ≡ₚ j :: omap in_hand ths) as Hh by by eapply omap_insert_add.
  assert (∀ i, i ∈ (j :: js) ++ concat (to_add <$> ths) → i ≠ 0 ∧ is_Some (m' !! i)) as Hl.
  { intros i Hi. destruct (wi_live i Hi) as [? ?]. auto. }
  split; try done; cbn [with_event at_front worker_mem waiting_jobs wevents].
  - by rewrite length_insert.
  - eapply threads_move; [done|done|]. split; [done|]. apply Hl. left.
  - intros i v Hi Hx. apply (wi_alive i v Hi). intros E. apply Hx.
    apply (exited_move _ _ _ _ _ Ht); [done|by left|by eapply lookup_lt_Some|done].
  - intros u Hu E. apply (wi_exited u Hu). by apply (exited_move _ _ _ _ _ Ht) in E; [|done|left|].
  - by left.
  - rewrite Hc. by apply NoDup_cons in wi_nodup as [_ ?].
  - intros i. rewrite Hc. intros Hi. apply Hl. by right.
  - rewrite stack_snoc, wi_stack. simpl. by rewrite decide_True.
  - unfold ran, popped. rewrite !omap_app. simpl. rewrite app_nil_r. fold (ran (wevents q)). fold (popped (wevents q)).
    rewrite Hh, <-wi_ran. rewrite <-Permutation_middle. by rewrite Permutation_cons_append.
  - intros _ _. exists t, (Running (Worker_run w j)). rewrite list_lookup_insert_eq by done. split_and!; [|done..].
    by eapply lookup_lt_Some.
  - intros Hsd. by apply wkept_snoc, wi_kept.
Qed.

Lemma wp_wworker t w m q ths js :
  inv Unlocked m q ths js → ths !! t = Some (Locking (Worker_locked w)) →
  wp (worker_function t w) (St m (Sys (Locked t) (<[t := Running (Worker_locked w)]> ths) q))
    (wpost (total wweight ths + 2 * length js) ).
Proof.
  intros Hinv Ht. pose proof Hinv as []. pose proof (wi_threads t _ Ht) as Hw. simpl in Hw.
  destruct (wi_alive t w Hw) as [x Hx]; [congruence|]. unfold worker_function. apply wp_bind, wp_get_shared.
  apply wp_bind. eapply wp_load_worker; [done|].
  assert (wpost (total wweight ths + 2 * length js) () (St m (Sys (Locked t) (<[t := Exited]> ths)
    (with_workers q (delete w (worker_mem q))))) ∨ terminate x = 0) as Hexit.
  { destruct (decide (sd = true)) as [Hsd|Hsd]; [left|right; apply not_true_is_false in Hsd; by eapply wi_term].
    eapply wpost_intro; [by apply inv_exit|congruence]. }
  destruct (Z.eqb_spec (waiting_jobs q) 0) as [Hz|Hnz]; destruct (Z.eqb_spec (terminate x) 0) as [Hterm|Hterm]; cbn [negb].
  - assert (js = []) as -> by (destruct js as [|j js]; [done|]; destruct wi_queue as (? & ? & _); congruence).
    apply wp_cond_wait. rewrite list_insert_insert_eq. eapply wpost_intro.
    + eapply wq_move; try done; [by left|]. right. right. by left.
    + intros _. pose proof (total_insert wweight ths t _ (Waiting jobs_cond (Worker_locked w)) Ht) as Htot. simpl in *. lia.
  - eapply wp_worker_exit; [done|]. rewrite list_insert_insert_eq. by destruct Hexit.
  - destruct js as [|j js]; [done|]. assert (waiting_jobs q = j) as Hj by apply wi_queue. rewrite Hj.
    cbv zeta. cbn [negb when]. apply wp_bind, wp_bind.
    eapply wp_LL_REMOVE_job; [done|by apply NoDup_app in wi_nodup as [? _]|]. intros m' a Hq Hm.
    apply wp_wemit, wp_bind, wp_mutex_unlock, wp_set_thread. rewrite list_insert_insert_eq.
    eapply wpost_intro; [by eapply winv_take|]. intros _.
    pose proof (total_insert wweight ths t _ (Running (Worker_run w j)) Ht) as Htot. simpl in *. lia.
  - eapply wp_worker_exit; [done|]. rewrite list_insert_insert_eq. by destruct Hexit.
Qed.

(** The job function is called. *)
Lemma wp_worker_run t w j mx m q ths js :
  inv mx m q ths js → ths !! t = Some (Running (Worker_run w j)) →
  wp (worker_run t w j) (St m (Sys mx ths q)) (wpost (total wweight ths + 2 * length js)).
Proof.
  intros Hinv Ht. pose proof Hinv as []. destruct (wi_threads t _ Ht) as [Hw [x Hx]].
  assert (concat (to_add <$> <[t := Locking (Worker_locked w)]> ths) ≡ₚ concat (to_add <$> ths)) as Hc
    by apply (concat_insert to_add ths t _ (Locking (Worker_locked w)) Ht).
  assert (j :: omap in_hand (<[t := Locking (Worker_locked w)]> ths) ≡ₚ omap in_hand ths) as Hh by by eapply omap_insert_del.
  unfold worker_run. apply wp_bind. eapply wp_fget; [done|]. apply wp_bind, wp_wemit. apply wp_set_thread.
  eapply wpost_intro.
  - split; try done; cbn [with_event worker_mem waiting_jobs wevents].
    + by rewrite length_insert.
    + by eapply threads_move.
    + intros i v Hi Hx'. apply (wi_alive i v Hi). intros E. apply Hx'.
      apply (exited_move _ _ _ _ _ Ht); [done|by left|by eapply lookup_lt_Some|done].
    + intros u Hu E. apply (wi_exited u Hu). by apply (exited_move _ _ _ _ _ Ht) in E; [|done|left|].
    + by eapply mutex_move.
    + by rewrite Hc.
    + intros i. rewrite Hc. apply wi_live.
    + rewrite stack_snoc, wi_stack. by destruct js.
    + unfold ran, popped. rewrite !omap_app. simpl. rewrite app_nil_r. fold (ran (wevents q)). fold (popped (wevents q)).
      by rewrite <-app_assoc, Hh.
    + eapply wake_move; [done|done|by left].
    + intros Hsd. by apply wkept_snoc, wi_kept.
  - intros _. pose proof (total_insert wweight ths t _ (Locking (Worker_locked w)) Ht) as Htot. simpl in *. lia.
Qed.

(** ** Adding a job *)

Lemma winv_add m m' q ths js t j cs :
  inv Unlocked m q ths js → ths !! t = Some (Locking (Add_locked j cs)) → waiting m' j (j :: js) →
  (∀ i, is_Some (m !! i) → is_Some (m' !! i)) →
  (sd = false → ∃ u th, (u < length ws)%nat ∧ ths !! u = Some th ∧ busy th = true) →
  inv Unlocked m' (with_event (at_front q j) (Pushed j)) (<[t := Running (Client cs)]> ths) (j :: js).
Proof.
  intros Hinv Ht Hq Hm Hbusy. pose proof Hinv as []. pose proof (wi_threads t _ Ht) as [Hnt Hcs].
  assert (t < length ths)%nat as Htl by by eapply lookup_lt_Some.
  assert (j :: concat (to_add <$> <[t := Running (Client cs)]> ths) ≡ₚ concat (to_add <$> ths)) as Hc.
  { apply (Permutation_app_inv_l (calls_jobs cs)). rewrite <-Permutation_middle.
    apply (concat_insert to_add ths t _ (Running (Client cs)) Ht). }
  assert ((j :: js) ++ concat (to_add <$> <[t := Running (Client cs)]> ths) ≡ₚ js ++ concat (to_add <$> ths)) as Hc'.
  { rewrite <-Hc. simpl. by rewrite Permutation_middle. }
  assert (omap in_hand (<[t := Running (Client cs)]> ths) = omap in_hand ths) as Hh by (eapply omap_insert_same; [done|done]).
  split; try done; cbn [with_event at_front worker_mem waiting_jobs wevents].
  - by rewrite length_insert.
  - by eapply threads_move.
  - intros i v Hi Hx. apply (wi_alive i v Hi). intros E. apply Hx.
    apply (exited_move _ _ _ _ _ Ht); [done|by left|by eapply lookup_lt_Some|done].
  - intros u Hu E. apply (wi_exited u Hu). by apply (exited_move _ _ _ _ _ Ht) in E; [|done|left|].
  - by left.
  - by rewrite Hc'.
  - intros i. rewrite Hc'. intros Hi. destruct (wi_live i Hi). auto.
  - rewrite stack_snoc, wi_stack. simpl. by destruct js.
  - unfold ran, popped. rewrite !omap_app. simpl. rewrite !app_nil_r. by rewrite Hh.
  - intros _ Hsd. destruct (Hbusy Hsd) as (u & x & Hu & Hx & Hb). exists u, x. split_and!; [done| |done].
    rewrite list_lookup_insert_ne; [done|lia].
  - intros Hsd. by apply wkept_snoc, wi_kept.
Qed.

(** A thread that waits may be woken at any time. *)
Lemma inv_wake mx m q ths js i th :
  inv mx m q ths js → ths !! i = Some th → waits jobs_cond th = true →
  inv mx m q (<[i := wake jobs_cond th]> ths) js ∧ (i < length ws)%nat ∧ busy (wake jobs_cond th) = true ∧
  (wweight (wake jobs_cond th) ≤ S (wweight th))%nat.
Proof.
  intros Hinv Hi Hw. pose proof Hinv as []. pose proof (wi_threads i th Hi) as Hok.
  destruct th as [?|?|[] [| w | | | | | |]|?|]; try done. simpl in Hok |- *. split_and!; [|by eapply lookup_lt_Some|done|simpl; lia].
  eapply wq_move; try done; [by left|by left].
Qed.

(** The workers that do not wait are there to take a job. *)
Lemma somebody_busy mx m q ths js :
  inv mx m q ths js → (∀ i th, ths !! i = Some th → waits jobs_cond th = false) → sd = false →
  ∃ u th, (u < length ws)%nat ∧ ths !! u = Some th ∧ busy th = true.
Proof.
  intros [] Hw Hsd. destruct (lookup_lt_is_Some_2 ths 0) as [th Hth]; [lia|]. exists 0%nat, th.
  split_and!; [lia|done|]. specialize (Hw 0%nat th Hth). pose proof (wi_threads 0%nat th Hth) as Hok.
  destruct th as [?|?|[] ?|?|]; try done. simpl in Hok. specialize (Hok ltac:(lia)). congruence.
Qed.

Lemma wp_wadd_locked k t j cs m q ths js :
  inv Unlocked m q ths js → ths !! t = Some (Locking (Add_locked j cs)) →
  wp (add_job_locked k t j cs) (St m (Sys (Locked t) (<[t := Running (Add_locked j cs)]> ths) q))
    (wpost (total wweight ths + 2 * length js)).
Proof.
  intros Hinv Ht. pose proof Hinv as [].
  assert (j ∈ concat (to_add <$> ths)) as Hj by (eapply elem_of_concat_fmap; [done|left]).
  destruct (wi_live j) as [Hj0 Hjm]; [apply elem_of_app; by right|].
  unfold add_job_locked. apply wp_bind. eapply wp_LL_ADD_job; [done| |done|done|].
  { intros Hin. apply NoDup_app in wi_nodup as (_ & Hd & _). by apply (Hd j). }
  intros m' Hq Hm. apply wp_bind, wp_wemit, wp_bind. apply wp_cond_signal.
  - intros Hnone. apply wp_bind, wp_mutex_unlock, wp_set_thread. rewrite list_insert_insert_eq.
    eapply wpost_intro.
    + eapply winv_add; try done. eapply somebody_busy; [done|]. intros i th Hi.
      destruct (decide (i = t)) as [->|Hne]; [by simplify_eq|]. apply (Hnone i). by rewrite list_lookup_insert_ne.
    + intros _. pose proof (total_insert wweight ths t _ (Running (Client cs)) Ht) as Htot. cbn [wweight length] in *. lia.
  - intros i th Hi Hw. apply wp_bind, wp_mutex_unlock, wp_set_thread.
    assert (i ≠ t) as Hne.
    { intros ->. rewrite list_lookup_insert_eq in Hi by by eapply lookup_lt_Some. by simplify_eq. }
    rewrite list_lookup_insert_ne in Hi by done. rewrite (list_insert_insert_ne ths i t), list_insert_insert_eq by done.
    destruct (inv_wake _ _ _ _ _ _ _ Hinv Hi Hw) as (Hinv1 & Hin & Hb & Hwt).
    assert (<[i := wake jobs_cond th]> ths !! t = Some (Locking (Add_locked j cs))) as Ht1 by by rewrite list_lookup_insert_ne.
    eapply wpost_intro.
    + eapply winv_add; try done. intros _. exists i, (wake jobs_cond th). rewrite list_lookup_insert_eq; [done|]. by eapply lookup_lt_Some.
    + intros _. pose proof (total_insert wweight _ t _ (Running (Client cs)) Ht1) as Htot.
      pose proof (total_insert wweight ths i th (wake jobs_cond th) Hi) as Htot2. cbn [wweight length] in *. lia.
Qed.

(** ** Shutting down *)

Lemma wpost_shutdown b mx m q ths js : inv mx m q ths js → sd = true → wpost b () (St m (Sys mx ths q)).
Proof. intros Hinv Hsd. eapply wpost_intro; [done|congruence]. Qed.

Lemma wp_wnext_call t cs mx m q ths js :
  inv mx m q ths js → ths !! t = Some (Running (Client cs)) →
  wp (next_call t cs) (St m (Sys mx ths q)) (wpost (total wweight ths + 2 * length js)).
Proof.
  intros Hinv Ht. pose proof Hinv as []. destruct (wi_threads t _ Ht) as [Hnt Hcs].
  assert (∀ th', to_add th' = calls_jobs cs → in_hand th' = None → (sd = false → wweight th' < wweight (Running (Client cs)))%nat →
    wthread_ok ws sd m t th' →
    wpost (total wweight ths + 2 * length js) () (St m (Sys mx (<[t := th']> ths) q))) as Hmove.
  { intros th' Ha Hi Hw Hok. eapply wpost_intro; [eapply wq_move; try done; [by right|by right; left]|].
    intros Hsd. specialize (Hw Hsd). pose proof (total_insert wweight ths t _ th' Ht). lia. }
  destruct cs as [|[j|] cs]; cbn [next_call].
  - apply wp_set_thread, Hmove; try done; [intros _; simpl; lia|]. intros ?. simpl in *. lia.
  - apply wp_set_thread, Hmove; try done; [intros _; cbn [wweight length]; lia|]. split; [done|].
    intros Hsd. by apply Hcs, Forall_cons in Hsd as [_ ?].
  - assert (sd = true) as Hsd by (destruct sd; [done|]; by specialize (Hcs eq_refl); apply Forall_cons in Hcs as [[] _]).
    apply wp_bind, wp_get_shared. unfold shutdown_loop. case_match; apply wp_set_thread, Hmove; done || congruence.
Qed.

(** A write to a worker that is still there. *)
Lemma wp_shutdown_set t w cs x mx m q ths js :
  inv mx m q ths js → ths !! t = Some (Running (Shutdown_set w cs)) → worker_mem q !! w = Some x →
  wp (shutdown_set t w cs) (St m (Sys mx ths q)) (wpost (total wweight ths + 2 * length js)).
Proof.
  intros Hinv Ht Hx. pose proof (wi_threads _ _ _ _ _ _ _ Hinv t _ Ht) as [Hnt Hsd].
  unfold shutdown_set, store_worker. apply wp_bind. eapply wp_load_worker; [done|]. apply wp_bind, wp_bind.
  eapply wp_load_worker; [done|]. apply wp_bind, wp_get_shared. unfold set_worker_mem. apply wp_bind, wp_get_shared, wp_put_shared.
  apply wp_set_thread. eapply wpost_shutdown; [|done].
  assert (inv mx m (with_workers q (<[w := Worker_t 1 (wprev x) (wnext x)]> (worker_mem q))) ths js) as Hinv'.
  { destruct Hinv. split; try done; [|congruence]. intros i v Hi He. cbn [with_workers worker_mem].
    destruct (decide (v = w)) as [->|]; [by rewrite lookup_insert_eq|]. rewrite lookup_insert_ne by done. by eapply wi_alive. }
  eapply wq_move; try done; [by right|by right; left].
Qed.

Lemma wp_shutdown_next t w cs x mx m q ths js :
  inv mx m q ths js → ths !! t = Some (Running (Shutdown_next w cs)) → worker_mem q !! w = Some x →
  wp (shutdown_next t w cs) (St m (Sys mx ths q)) (wpost (total wweight ths + 2 * length js)).
Proof.
  intros Hinv Ht Hx. pose proof (wi_threads _ _ _ _ _ _ _ Hinv t _ Ht) as [Hnt Hsd].
  unfold shutdown_next. apply wp_bind. eapply wp_load_worker; [done|]. unfold shutdown_loop.
  case_match; apply wp_set_thread; (eapply wpost_shutdown; [|done]); (eapply wq_move; try done; [by right|by right; left]).
Qed.

Lemma wake_all m q ths js :
  inv Unlocked m q ths js → sd = true → inv Unlocked m q (wake jobs_cond <$> ths) js.
Proof.
  intros Hinv Hsd. pose proof Hinv as [].
  assert (∀ i, ths !! i = Some Exited ↔ (wake jobs_cond <$> ths) !! i = Some Exited) as Hex.
  { intros i. rewrite list_lookup_fmap. destruct (ths !! i) as [th|]; [|done]. destruct th as [?|?|[] ?|?|]; done. }
  assert (to_add <$> (wake jobs_cond <$> ths) = to_add <$> ths) as Ha.
  { rewrite <-list_fmap_compose. apply list_fmap_ext. intros i th Hi. specialize (wi_threads i th Hi).
    by destruct th as [?|?|[] []|?|]. }
  split; try done; rewrite ?Ha; try done.
  - by rewrite length_fmap.
  - intros i th Hi. rewrite list_lookup_fmap in Hi. destruct (ths !! i) as [th0|] eqn:Hi0; [|done].
    injection Hi as <-. specialize (wi_threads i th0 Hi0). by destruct th0 as [?|?|[] []|?|].
  - intros i v Hi He. apply (wi_alive i v Hi). by rewrite Hex.
  - intros u Hu E. apply wi_exited; [done|]. by apply Hex.
  - by left.
  - rewrite (omap_wake in_hand); [done|]. apply in_hand_wake.
  - congruence.
Qed.

(** The jobs that wait are forgotten. *)
Lemma inv_clear m q ths js :
  inv Unlocked m q ths js → sd = true → inv Unlocked m (Workqueue_t 0 0 (worker_mem q) (wevents q ++ [Cleared])) ths [].
Proof.
  intros [] Hsd. split; try done.
  - by apply NoDup_app in wi_nodup as (_ & _ & ?).
  - intros j Hj. apply wi_live, elem_of_app. by right.
  - cbn [wevents]. rewrite stack_snoc, wi_stack. by destruct js.
  - unfold ran, popped. cbn [wevents]. rewrite !omap_app. simpl. by rewrite !app_nil_r.
  - congruence.
Qed.

Lemma wp_shutdown_locked t cs m q ths js :
  inv Unlocked m q ths js → ths !! t = Some (Locking (Shutdown_locked cs)) →
  wp (shutdown_locked t cs) (St m (Sys (Locked t) (<[t := Running (Shutdown_locked cs)]> ths) q))
    (wpost (total wweight ths + 2 * length js)).
Proof.
  intros Hinv Ht. pose proof (wi_threads _ _ _ _ _ _ _ Hinv t _ Ht) as [Hnt Hsd].
  unfold shutdown_locked, set_workers, set_waiting_jobs. apply wp_bind, wp_bind, wp_get_shared, wp_put_shared.
  apply wp_bind, wp_bind, wp_get_shared, wp_put_shared. apply wp_bind, wp_wemit, wp_bind, wp_cond_broadcast.
  apply wp_bind, wp_mutex_unlock, wp_set_thread. rewrite list_fmap_insert. cbn [wake]. rewrite list_insert_insert_eq.
  eapply wpost_shutdown; [|done]. cbn [workers waiting_jobs worker_mem wevents].
  assert ((wake jobs_cond <$> ths) !! t = Some (Locking (Shutdown_locked cs))) as Ht' by by rewrite list_lookup_fmap, Ht.
  eapply wq_move; [apply (inv_clear m q _ js); [by apply wake_all|done]|exact Ht'|done|by left|done|done|done| |by left].
  split; [done|]. congruence.
Qed.
End steps.
