(* ===== verification/WorkQueueProps.v ===== *)
(** * threadpool and mult_thread_server: what the work queue promises

    The jobs are a stack; without a shutdown every job is run; a shutdown lets
    one worker end, which keeps the mutex, and may read a worker that is gone. *)
From S2P Require Import Prelude Pthread PthreadFacts WorkQueue WorkQueueFacts WorkQueueSteps.
#[local] Open Scope Z_scope.

(** The state before any thread, with the jobs [m] of the clients, and a queue
    with its workers and clients. *)
Definition wboot (m : gmap Z job_t) : queue_state := St m (Sys Destroyed [] (Workqueue_t 0 0 ∅ [])).
Definition queue_start (malloc : nat → gmap Z worker_t → Z) (n : Z) (m : gmap Z job_t) (clients : list (list wcall)) : outcome (unit * queue_state) :=
  (workqueue_init malloc (λ _, true) n;; start_clients clients) (wboot m).
Definition queue_reachable (malloc : nat → gmap Z worker_t → Z) (n : Z) (m : gmap Z job_t) (clients : list (list wcall)) (s : queue_state) : Prop :=
  ∃ s0, queue_start malloc n m clients = Ok ((), s0) ∧ rtc (any_step wblock) s0 s.

(** The jobs the clients add are different objects of theirs. *)
Definition good_clients (m : gmap Z job_t) (clients : list (list wcall)) : Prop :=
  NoDup (concat (calls_jobs <$> clients)) ∧ ∀ j, j ∈ concat (calls_jobs <$> clients) → j ≠ 0 ∧ is_Some (m !! j).

(** ** One step *)

Section props.
Context (ws : list Z) (sd : bool).
Implicit Types (m : gmap Z job_t) (q : workqueue_t) (ths : list (thread wcond wpc)) (js : list Z).

(** The thread [t] is in the loop of [workqueue_shutdown] at a worker that is gone. *)
Definition lost_worker (s : queue_state) (t : nat) : Prop :=
  ∃ w cs, (threads (env s) !! t = Some (Running (Shutdown_set w cs)) ∨ threads (env s) !! t = Some (Running (Shutdown_next w cs))) ∧
    worker_mem (shared (env s)) !! w = None.

Lemma wq_running mx m q ths js k t p :
  wq_inv ws sd mx m q ths js → ths !! t = Some (Running p) →
  lost_worker (St m (Sys mx ths q)) t ∨
  wp (wblock k t p) (St m (Sys mx ths q)) (wpost ws sd (total wweight ths + 2 * length js)).
Proof.
  intros Hinv Ht. pose proof (wi_threads _ _ _ _ _ _ _ Hinv t _ Ht) as Hok.
  destruct p as [w|w|w j|cs|j cs|w cs|w cs|cs]; try done; cbn [wblock].
  - right. apply wp_set_thread. eapply wpost_intro.
    + eapply wq_move; try done; [by left|by left].
    + intros _. pose proof (total_insert wweight ths t _ (Locking (Worker_locked w)) Ht) as Htot. simpl in *. lia.
  - right. by apply wp_worker_run.
  - right. by apply wp_wnext_call.
  - destruct (worker_mem q !! w) as [x|] eqn:Hx; [right; by eapply wp_shutdown_set|left; exists w, cs; split; [by left|done]].
  - destruct (worker_mem q !! w) as [x|] eqn:Hx; [right; by eapply wp_shutdown_next|left; exists w, cs; split; [by right|done]].
Qed.

Lemma wq_locking m q ths js k t p :
  wq_inv ws sd Unlocked m q ths js → ths !! t = Some (Locking p) →
  wp (wblock k t p) (St m (Sys (Locked t) (<[t := Running p]> ths) q)) (wpost ws sd (total wweight ths + 2 * length js)).
Proof.
  intros Hinv Ht. pose proof (wi_threads _ _ _ _ _ _ _ Hinv t _ Ht) as Hok.
  destruct p as [w|w|w j|cs|j cs|w cs|w cs|cs]; try done; cbn [wblock].
  - by apply wp_wworker.
  - by apply wp_wadd_locked.
  - by apply wp_shutdown_locked.
Qed.

(** A thread that can run does, unless it reads a worker that is gone. *)
Lemma wq_step s k t :
  wq_ok ws sd s → can_run s t = true → lost_worker s t ∨ wp (run_thread wblock k t) s (wpost ws sd (wmeasure s)).
Proof.
  intros (mx & m & q & ths & js & -> & Hinv) Hrun. rewrite (wmeasure_at ws sd mx m q ths js) by done.
  unfold can_run in Hrun. cbn [threads env mutex] in Hrun. destruct (ths !! t) as [th|] eqn:Ht; [|done].
  destruct th as [p|p|c p|u p|]; try done.
  - destruct (wq_running mx m q ths js k t p Hinv Ht) as [|Hwp]; [by left|right]. unfold run_thread.
    apply wp_bind, wp_get_env. cbn [threads env]. by rewrite Ht.
  - right. destruct (wi_mutex _ _ _ _ _ _ _ Hinv) as [->|(u & _ & -> & _)]; [|done]. unfold run_thread.
    apply wp_bind, wp_get_env. cbn [threads env mutex]. rewrite Ht. apply wp_bind, wp_put_env. cbn [mem env shared].
    by apply wq_locking.
  - by destruct (wi_threads _ _ _ _ _ _ _ Hinv t _ Ht).
Qed.

Lemma wq_any_step s s' : wq_ok ws sd s → any_step wblock s s' → wq_ok ws sd s'.
Proof.
  intros Hok [[k t s1 Hrun Hk]|[t [] p Ht]].
  - destruct (wq_step s k t Hok Hrun) as [(w & cs & Hth & Hw)|Hwp].
    + exfalso. unfold run_thread, mbind, M_bind, get_env in Hk.
      destruct Hth as [Hth|Hth]; rewrite Hth in Hk; cbn in Hk; unfold shutdown_set, shutdown_next, load_worker, get_shared, get_env, mbind, M_bind, mret, M_ret in Hk;
        by rewrite Hw in Hk.
    + unfold wp in Hwp. rewrite Hk in Hwp. apply Hwp.
  - destruct Hok as (mx & m & q & ths & js & -> & Hinv). cbn [threads env mem mutex shared] in *.
    exists mx, m, q, (<[t := Locking p]> ths), js. split; [done|].
    by destruct (inv_wake _ _ _ _ _ _ _ _ _ Hinv Ht eq_refl).
Qed.
End props.

(** ** Making a queue *)

Section init.
Context (malloc : nat → gmap Z worker_t → Z).
Context (malloc_fresh : ∀ i wm, malloc i wm ≠ 0 ∧ wm !! malloc i wm = None).

(** The workers made so far. *)
Definition made (m : gmap Z job_t) (ws : list Z) (s : queue_state) : Prop :=
  ∃ a wm, s = St m (Sys Unlocked ((λ w, Running (Worker_start w)) <$> ws) (Workqueue_t a 0 wm [])) ∧ NoDup ws ∧
    (∀ w, w ∈ ws → is_Some (wm !! w)) ∧ ∀ w x, wm !! w = Some x → terminate x = 0.

Lemma wp_make_worker m ws i (Q : Z + Z → queue_state → Prop) s :
  made m ws s → (∀ w s', made m (ws ++ [w]) s' → Q (inl (i + 1)) s') →
  wp (worker ← malloc_worker malloc (Z.to_nat i);
      if worker =? 0 then mret (inr 1) else
      u ← pthread_create true (Worker_start worker);
      match u with
      | None => free_worker worker;; mret (inr 1)
      | Some _ => LL_ADD_worker worker;; mret (inl (i + 1))
      end) s Q.
Proof.
  intros (a & wm & -> & Hnd & Hlive & Hterm) HQ. destruct (malloc_fresh (Z.to_nat i) wm) as [H0 Hf].
  set (w := malloc (Z.to_nat i) wm) in *. apply Z.eqb_neq in H0 as E0.
  unfold malloc_worker. apply wp_bind, wp_bind, wp_get_shared. cbn [worker_mem]. fold w. rewrite E0. cbn [negb when].
  apply wp_bind. unfold set_worker_mem. apply wp_bind, wp_get_shared, wp_put_shared, wp_ret. rewrite E0. cbn [workers waiting_jobs wevents].
  apply wp_bind. unfold pthread_create. apply wp_bind, wp_get_env, wp_bind. unfold put_threads. apply wp_bind, wp_get_env, wp_put_env.
  apply wp_ret. cbn [mem env mutex threads shared]. unfold LL_ADD_worker, store_worker, set_worker_mem, set_workers.
  apply wp_bind, wp_bind. eapply wp_load_worker; [cbn [worker_mem]; apply lookup_insert_eq|].
  apply wp_bind, wp_bind. eapply wp_load_worker; [cbn [worker_mem]; apply lookup_insert_eq|].
  apply wp_bind, wp_get_shared, wp_bind, wp_get_shared, wp_put_shared. cbn [worker_mem workers waiting_jobs wevents]. rewrite insert_insert_eq.
  apply wp_bind, wp_get_shared, wp_bind. eapply wp_load_worker; [cbn [worker_mem]; apply lookup_insert_eq|].
  apply wp_bind, wp_bind. eapply wp_load_worker; [cbn [worker_mem]; apply lookup_insert_eq|].
  apply wp_bind, wp_get_shared, wp_bind, wp_get_shared, wp_put_shared. cbn [worker_mem workers waiting_jobs wevents]. rewrite insert_insert_eq.
  apply wp_bind, wp_get_shared, wp_put_shared, wp_ret. cbn [worker_mem workers waiting_jobs wevents].
  apply (HQ w). eexists _, _. split; [by rewrite fmap_app|]. split_and!.
  - apply NoDup_app. split_and!; [done| |apply NoDup_singleton]. intros v Hv ->%list_elem_of_singleton.
    destruct (Hlive w Hv) as [? ?]. congruence.
  - intros v [Hv| ->%list_elem_of_singleton]%elem_of_app; [|by rewrite lookup_insert_eq].
    destruct (decide (v = w)) as [->|]; [by rewrite lookup_insert_eq|]. rewrite lookup_insert_ne by done. by apply Hlive.
  - intros v x. destruct (decide (v = w)) as [->|]; [rewrite lookup_insert_eq; by intros [= <-]|].
    rewrite lookup_insert_ne by done. apply Hterm.
Qed.

Lemma wp_workqueue_init n m :
  wp (workqueue_init malloc (λ _, true) n) (wboot m) (λ r s, r = 0 ∧ ∃ ws, length ws = Z.to_nat (Z.max 1 n) ∧ made m ws s).
Proof.
  unfold workqueue_init. set (k := if n <? 1 then 1 else n).
  assert (k = Z.max 1 n) as -> by (subst k; destruct (Z.ltb_spec n 1); lia).
  apply wp_bind, wp_get_env, wp_bind, wp_put_env. cbn [mem env wboot threads shared].
  eapply (wp_loop (λ c i s, ∃ ws, i = Z.of_nat (length ws) ∧ (length ws ≤ Z.to_nat (Z.max 1 n))%nat ∧
    c = (Z.to_nat (Z.max 1 n) - length ws)%nat ∧ made m ws s)) with (n := Z.to_nat (Z.max 1 n)); [| |lia].
  2: { exists []. split_and!; [done|simpl; lia|simpl; lia|]. exists 0, ∅. split_and!; [done|constructor| |done].
       by intros w ?%not_elem_of_nil. }
  intros c i s (ws & -> & Hlen & -> & Hmade). destruct (Z.ltb_spec (Z.of_nat (length ws)) (Z.max 1 n)) as [Hlt|Hge].
  - eapply wp_make_worker; [done|]. intros w s' Hmade'. exists (Z.to_nat (Z.max 1 n) - S (length ws))%nat. split; [lia|].
    exists (ws ++ [w]). rewrite length_app. simpl. split_and!; [lia|lia|lia|done].
  - apply wp_ret. split; [done|]. exists ws. split; [lia|done].
Qed.

Lemma queue_start_ok n m clients sd :
  good_clients m clients → (sd = false → Forall (Forall adds_only) clients) →
  ∃ s ws, queue_start malloc n m clients = Ok ((), s) ∧ wq_ok ws sd s ∧ length ws = Z.to_nat (Z.max 1 n) ∧
    length (threads (env s)) = (length ws + length clients)%nat.
Proof.
  intros [Hnd Hlive] Hsd. assert (wp (workqueue_init malloc (λ _, true) n;; start_clients clients) (wboot m)
    (λ _ s, ∃ ws, wq_ok ws sd s ∧ length ws = Z.to_nat (Z.max 1 n) ∧
      length (threads (env s)) = (length ws + length clients)%nat)) as Hwp.
  { apply wp_bind. eapply wp_mono; [apply wp_workqueue_init|]. intros r s (-> & ws & Hlen & a & wm & -> & Hws & Hwl & Hterm).
    unfold start_clients, put_threads. apply wp_bind, wp_get_env, wp_bind, wp_get_env, wp_put_env. cbn [mem env mutex threads shared].
    set (ths := ((λ w, Running (Worker_start w)) <$> ws) ++ ((λ cs, Running (Client cs)) <$> clients)).
    assert (∀ i th, ths !! i = Some th → (∃ w, ws !! i = Some w ∧ th = Running (Worker_start w)) ∨
      ∃ cs, (length ws ≤ i)%nat ∧ (sd = false → Forall adds_only cs) ∧ th = Running (Client cs)) as Hth.
    { intros i th [Hi|[Hi Hi']]%lookup_app_Some; [left|right].
      - rewrite list_lookup_fmap in Hi. destruct (ws !! i) as [w|]; [|done]. injection Hi as <-. by exists w.
      - rewrite length_fmap in *. rewrite list_lookup_fmap in Hi'.
        destruct (clients !! (i - length ws)%nat) as [cs|] eqn:Hcs; [|done]. injection Hi' as <-. exists cs.
        split_and!; [done| |done]. intros E. specialize (Hsd E). by eapply Forall_lookup_1 in Hcs. }
    assert (concat (to_add <$> ths) = concat (calls_jobs <$> clients)) as Ha.
    { unfold ths. rewrite fmap_app, concat_app, <-!list_fmap_compose.
      assert (concat (to_add ∘ (λ w, Running (Worker_start w)) <$> ws) = []) as ->; [|done].
      clear. induction ws as [|w ws IH]; [done|]. csimpl. by rewrite IH. }
    assert (omap in_hand ths = []) as Hh.
    { apply elem_of_nil_inv. intros j (th & Hin & Hj)%list_elem_of_omap. apply list_elem_of_lookup in Hin as [i Hi].
      destruct (Hth i th Hi) as [(? & _ & ->)|(? & _ & _ & ->)]; done. }
    exists ws. split; [|split; [done|by unfold ths; rewrite length_app, !length_fmap]].
    exists Unlocked, m, (Workqueue_t a 0 wm []), ths, []. split; [done|]. split; try done.
    - split; [done|]. unfold ths. rewrite length_app, length_fmap. lia.
    - intros i th Hi. destruct (Hth i th Hi) as [(w & Hw & ->)|(cs & Hi' & Hcs & ->)]; done.
    - intros i w Hi _. apply Hwl. by eapply list_elem_of_lookup_2.
    - intros u _ E. destruct (Hth u _ E) as [(? & _ & ?)|(? & _ & _ & ?)]; done.
    - by left.
    - simpl. by rewrite Ha.
    - intros j. simpl. rewrite Ha. apply Hlive.
    - by rewrite Hh.
    - intros _. apply not_elem_of_nil. }
  destruct (proj1 (wp_ok _ _ _) Hwp) as ([] & s & Hs & ws & Hok). by exists s, ws.
Qed.
End init.

(** ** The properties *)

(** The threads, and what they hold, in a reachable state. *)
Lemma queue_reachable_ok malloc n m clients sd s :
  (∀ i wm, malloc i wm ≠ 0 ∧ wm !! malloc i wm = None) → good_clients m clients → (sd = false → Forall (Forall adds_only) clients) →
  queue_reachable malloc n m clients s → ∃ ws, wq_ok ws sd s ∧ length ws = Z.to_nat (Z.max 1 n).
Proof.
  intros Hf Hg Hsd (s0 & Hs0 & Hsteps). destruct (queue_start_ok malloc Hf n m clients sd Hg Hsd) as (s1 & ws & Hs1 & Hok & Hlen & _).
  assert (s1 = s0) as -> by congruence. exists ws. split; [|done]. clear Hs0 Hs1 Hlen.
  induction Hsteps as [|s1 s2 s3 Hstep _ IH]; [done|]. apply IH. by eapply wq_any_step.
Qed.

Section reachable.
Context (malloc : nat → gmap Z worker_t → Z) (n : Z) (m : gmap Z job_t) (clients : list (list wcall)).

(** C25: In every schedule the list of jobs is a stack: [stack] follows the jobs
    pushed, popped and forgotten.  The jobs that were popped are those that have
    been run, once each, and those that a worker is just about to run; no worker
    drops one.  The only undefined behaviour is in the loop of
    [workqueue_shutdown]. *)
Theorem workqueue_stack s :
  (∀ i wm, malloc i wm ≠ 0 ∧ wm !! malloc i wm = None) → good_clients m clients →
  queue_reachable malloc n m clients s →
  (∃ js, stack (wevents (shared (env s))) = Some js ∧ waiting (mem s) (waiting_jobs (shared (env s))) js) ∧
  popped (wevents (shared (env s))) ≡ₚ ran (wevents (shared (env s))) ++ omap in_hand (threads (env s)) ∧
  ∀ t, faults wblock s t → lost_worker s t.
Proof.
  intros Hf Hg Hr. destruct (queue_reachable_ok malloc n m clients true s Hf Hg ltac:(done) Hr) as (ws & Hok & _).
  apply and_assoc. split.
  - destruct Hok as (mx & m' & q & ths & js & -> & []). split; [by exists js|done].
  - intros t [Hrun [k Hk]]. destruct (wq_step ws true s k t Hok Hrun) as [|Hwp]; [done|].
    apply wp_ok in Hwp as ([] & s' & Hs & _). by destruct (Hk s').
Qed.

(** A worker that ends keeps the mutex: no other worker ends, and no thread
    gets the mutex any more. *)
Theorem workqueue_one_worker_exits s u :
  (∀ i wm, malloc i wm ≠ 0 ∧ wm !! malloc i wm = None) → good_clients m clients →
  queue_reachable malloc n m clients s → (u < Z.to_nat (Z.max 1 n))%nat → threads (env s) !! u = Some Exited →
  (∀ v, (v < Z.to_nat (Z.max 1 n))%nat → threads (env s) !! v = Some Exited → v = u) ∧
  ∀ t p, threads (env s) !! t = Some (Locking p) → can_run s t = false.
Proof.
  intros Hf Hg Hr Hu He. destruct (queue_reachable_ok malloc n m clients true s Hf Hg ltac:(done) Hr) as (ws & Hok & Hlen).
  destruct Hok as (mx & m' & q & ths & js & -> & []). cbn [threads env] in *. rewrite <-Hlen in *.
  pose proof (wi_exited u Hu He) as ->. split.
  - intros v Hv Hev. specialize (wi_exited v Hv Hev). congruence.
  - intros t p Ht. unfold can_run. cbn [threads env mutex]. by rewrite Ht.
Qed.

(** C8: As long as the queue is not shut down it does not block: without spurious
    wake-ups every schedule is finite, and when no thread can go on every
    client is done and every job added has been run once. *)
Theorem workqueue_quiesces s :
  (∀ i wm, malloc i wm ≠ 0 ∧ wm !! malloc i wm = None) → good_clients m clients → Forall (Forall adds_only) clients →
  queue_reachable malloc n m clients s →
  (∀ k s', nsteps (step wblock) k s s' → (k ≤ wmeasure s)%nat) ∧
  (stuck s → ran (wevents (shared (env s))) ≡ₚ pushed (wevents (shared (env s))) ∧
    ∀ i th, threads (env s) !! i = Some th → (Z.to_nat (Z.max 1 n) ≤ i)%nat → th = Exited).
Proof.
  intros Hf Hg Ha Hr. destruct (queue_reachable_ok malloc n m clients false s Hf Hg (λ _, Ha) Hr) as (ws & Hok & Hlen).
  rewrite <-Hlen. clear Hlen. split.
  - intros k s' Hsteps. clear Hr. induction Hsteps as [|k s1 s2 s3 Hstep _ IH]; [lia|].
    assert (wq_ok ws false s2) as Hok2 by (eapply wq_any_step; [exact Hok|by left]).
    destruct Hstep as [c t s2 Hrun Hs2]. destruct (wq_step ws false s1 c t Hok Hrun) as [(w & cs & Hth & _)|Hwp].
    + destruct Hok as (mx & m' & q & ths & js & -> & []). cbn [threads env] in Hth.
      destruct Hth as [Hth|Hth]; by destruct (wi_threads t _ Hth).
    + unfold wp in Hwp. rewrite Hs2 in Hwp. destruct Hwp as [_ Hlt]. specialize (Hlt eq_refl). specialize (IH Hok2). lia.
  - intros Hst. destruct Hok as (mx & m' & q & ths & js & -> & []). cbn [threads env shared] in *.
    assert (mx = Unlocked) as ->.
    { destruct wi_mutex as [->|(u & Hu & _ & He)]; [done|]. by specialize (wi_threads u _ He Hu). }
    assert (∀ i th, ths !! i = Some th → busy th = false) as Hb.
    { intros i th Hi. specialize (Hst i). unfold can_run in Hst. cbn [threads env mutex] in Hst. rewrite Hi in Hst. by destruct th. }
    assert (js = []) as ->.
    { destruct js as [|j js]; [done|]. destruct (wi_wake ltac:(done) eq_refl) as (u & th & _ & Hth & Hbt).
      rewrite (Hb u th Hth) in Hbt. done. }
    assert (omap in_hand ths = []) as Hh.
    { apply elem_of_nil_inv. intros j (th & Hin & Hj)%list_elem_of_omap. apply list_elem_of_lookup in Hin as [i Hi].
      specialize (Hb i th Hi). by destruct th. }
    split.
    + rewrite (stack_pushed _ _ wi_stack (wi_kept eq_refl)), app_nil_r. by rewrite Hh, app_nil_r in wi_ran.
    + intros i th Hi Hni. specialize (Hb i th Hi). specialize (wi_threads i th Hi).
      destruct th as [?|?|[] []|?|]; try done. simpl in wi_threads. apply lookup_lt_Some in wi_threads. lia.
Qed.
End reachable.

(** ** Instances *)

Definition worker_bump (i : nat) (wm : gmap Z worker_t) : Z := 1 + foldr Z.max 0 (map_to_list wm).*1.

Lemma worker_bump_fresh i wm : worker_bump i wm ≠ 0 ∧ wm !! worker_bump i wm = None.
Proof.
  assert (∀ x, x ∈ (map_to_list wm).*1 → x < worker_bump i wm) as Hlt.
  { intros x Hx. apply max_fold_le in Hx. unfold worker_bump. lia. }
  split.
  - unfold worker_bump. assert (0 ≤ foldr Z.max 0 (map_to_list wm).*1); [|lia].
    generalize ((map_to_list wm).*1). intros l. induction l; simpl; lia.
  - destruct (wm !! worker_bump i wm) as [x|] eqn:Hx; [|done]. exfalso.
    assert (worker_bump i wm ∈ (map_to_list wm).*1) as Hin.
    { apply list_elem_of_fmap. exists (worker_bump i wm, x). split; [done|]. by apply elem_of_map_to_list. }
    specialize (Hlt _ Hin). lia.
Qed.

Definition queue_jobs : gmap Z job_t := <[10 := Job_t 5 0 0 0]> (<[20 := Job_t 6 0 0 0]> ∅).
Definition queue_first (clients : list (list wcall)) : queue_state :=
  match queue_start worker_bump 2 queue_jobs clients with Ok (_, s) => s | _ => wboot ∅ end.
Definition queue_run (clients : list (list wcall)) (l : list nat) : queue_state :=
  default (wboot ∅) (run wblock ((λ t, (t, 0%nat)) <$> l) (queue_first clients)).

Definition queue_runs (clients : list (list wcall)) (l : list nat) : bool :=
  match queue_start worker_bump 2 queue_jobs clients with
  | Ok (_, s) => match run wblock ((λ t, (t, 0%nat)) <$> l) s with Some _ => true | None => false end
  | _ => false
  end.

Lemma queue_run_reachable clients l :
  queue_runs clients l = true → queue_reachable worker_bump 2 queue_jobs clients (queue_run clients l).
Proof.
  unfold queue_runs, queue_run, queue_first. destruct (queue_start worker_bump 2 queue_jobs clients) as [[[] s]| |] eqn:Hs; [|done..].
  intros Hr. exists s. split; [done|]. apply run_default. by destruct (run _ _ s).
Qed.

(** Two workers, a client that adds two jobs and a client that shuts down. *)
Definition add_clients : list (list wcall) := [[Add_job 10; Add_job 20]].
Definition shut_clients : list (list wcall) := [[Add_job 10]; [Shutdown]].

(** Both jobs are run; the first worker ends with the mutex; the second worker
    ends before the loop of [workqueue_shutdown] has read its [next]. *)
Definition add_all : list nat := [2; 2; 2; 2; 2; 0; 0; 0; 1; 1; 1; 0; 1]%nat.
Definition shut_all : list nat := [0; 1; 1; 3; 3; 3; 3; 3; 3; 3; 0]%nat.
Definition shut_race : list nat := [1; 3; 3; 1]%nat.

Lemma add_clients_good : good_clients queue_jobs add_clients.
Proof.
  split; [by apply (bool_decide_unpack _)|]. intros j Hj. cbn in Hj.
  apply elem_of_cons in Hj as [->|Hj]; [split; [done|by eexists]|].
  apply list_elem_of_singleton in Hj as ->. split; [done|by eexists].
Qed.

Lemma shut_clients_good : good_clients queue_jobs shut_clients.
Proof.
  split; [by apply (bool_decide_unpack _)|]. intros j Hj. cbn in Hj.
  apply list_elem_of_singleton in Hj as ->. split; [done|by eexists].
Qed.

(** The loop of [workqueue_shutdown] tells a worker to end and then reads its
    [next] without the mutex: the worker may have freed itself before. *)
Theorem workqueue_shutdown_use_after_free :
  ∃ s, queue_reachable worker_bump 2 queue_jobs shut_clients s ∧
    threads (env s) !! 3%nat = Some (Running (Shutdown_next 2 [])) ∧ threads (env s) !! 1%nat = Some Exited ∧
    worker_mem (shared (env s)) !! 2 = None ∧ faults wblock s 3.
Proof.
  exists (queue_run shut_clients shut_race). split; [by apply queue_run_reachable; vm_compute|].
  split_and!; [by vm_compute..|]. split; [by vm_compute|]. exists 0%nat. intros s'. vm_compute. done.
Qed.

Lemma workqueue_stack_witness :
  (∃ js, stack (wevents (shared (env (queue_run shut_clients shut_race)))) = Some js ∧
    waiting (mem (queue_run shut_clients shut_race)) (waiting_jobs (shared (env (queue_run shut_clients shut_race)))) js) ∧
  popped (wevents (shared (env (queue_run shut_clients shut_race)))) ≡ₚ
    ran (wevents (shared (env (queue_run shut_clients shut_race)))) ++ omap in_hand (threads (env (queue_run shut_clients shut_race))) ∧
  ∀ t, faults wblock (queue_run shut_clients shut_race) t → lost_worker (queue_run shut_clients shut_race) t.
Proof.
  apply (workqueue_stack worker_bump 2 queue_jobs shut_clients _ worker_bump_fresh shut_clients_good).
  by apply queue_run_reachable; vm_compute.
Defined.

Lemma workqueue_one_worker_exits_witness :
  (∀ v, (v < 2)%nat → threads (env (queue_run shut_clients shut_all)) !! v = Some Exited → v = 0%nat) ∧
  ∀ t p, threads (env (queue_run shut_clients shut_all)) !! t = Some (Locking p) → can_run (queue_run shut_clients shut_all) t = false.
Proof.
  apply (workqueue_one_worker_exits worker_bump 2 queue_jobs shut_clients _ 0 worker_bump_fresh shut_clients_good).
  - by apply queue_run_reachable; vm_compute.
  - simpl. lia.
  - by vm_compute.
Defined.

Lemma add_all_stuck : stuck (queue_run add_clients add_all).
Proof. intros t. do 3 (destruct t as [|t]; [by vm_compute|]). by vm_compute. Qed.

Lemma workqueue_quiesces_witness :
  stuck (queue_run add_clients add_all) ∧
  (∀ k s', nsteps (step wblock) k (queue_run add_clients add_all) s' → (k ≤ wmeasure (queue_run add_clients add_all))%nat) ∧
  (stuck (queue_run add_clients add_all) →
    ran (wevents (shared (env (queue_run add_clients add_all)))) ≡ₚ pushed (wevents (shared (env (queue_run add_clients add_all)))) ∧
    ∀ i th, threads (env (queue_run add_clients add_all)) !! i = Some th → (2 ≤ i)%nat → th = Exited).
Proof.
  split; [exact add_all_stuck|].
  apply (workqueue_quiesces worker_bump 2 queue_jobs add_clients _ worker_bump_fresh add_clients_good).
  - by repeat constructor.
  - by apply queue_run_reachable; vm_compute.
Defined.
