(* ===== verification/RingPool.v ===== *)
(** * threadpool (C Implement+plus): the pool with a ring of tasks

    [threadpool.c]: tasks wait in two arrays of [max_task_num + 1] entries; the
    workers are stopped by cancelling them.  [pthread_cond_wait] is where a
    cancelled worker ends, with the mutex, for no handler gives it back; a
    callback may contain other such points. *)
From S2P Require Import Prelude Pthread.
#[local] Open Scope Z_scope.

(** ** Data *)

Definition MAX_THREAD_NUM : Z := 256.
Definition MIN_THREAD_NUM : Z := 1.

(** An array of [malloc]: null, freed or there. *)
Inductive heap_array := Null | Freed | Array (l : list Z).

(** [thread_[0]] is [thread_count]; the ids from index 1 on are [thread_]. *)
Record ThreadPool_ := Pool_ {
  threadnum_ : Z; thread_count : Z; thread_ : list nat;
  task_queue_ : heap_array; task_fun_ : heap_array;
  start : Z; end_ : Z; curr_task_num : Z; max_task_num : Z;
}.

Definition with_ring (p : ThreadPool_) (q f : heap_array) (st en n : Z) : ThreadPool_ :=
  Pool_ (threadnum_ p) (thread_count p) (thread_ p) q f st en n (max_task_num p).
Definition with_threads (p : ThreadPool_) (c : Z) (l : list nat) : ThreadPool_ :=
  Pool_ (threadnum_ p) c l (task_queue_ p) (task_fun_ p) (start p) (end_ p) (curr_task_num p) (max_task_num p).

(** ** The ring *)

Definition array_get (a : heap_array) (i : Z) : option Z :=
  match a with Array l => if decide (0 ≤ i) then l !! Z.to_nat i else None | _ => None end.
Definition array_set (a : heap_array) (i x : Z) : option heap_array :=
  match a with
  | Array l => if decide (0 ≤ i < Z.of_nat (length l)) then Some (Array (<[Z.to_nat i := x]> l)) else None
  | _ => None
  end.

(** [++i > max_task_num] and back to 1. *)
Definition advance (p : ThreadPool_) (i : Z) : Z := if i + 1 >? max_task_num p then 1 else i + 1.

(** [threadpool_add_task] with the mutex: false when the task is dropped. *)
Definition put_task (p : ThreadPool_) (f a : Z) : option (bool * ThreadPool_) :=
  if curr_task_num p >? max_task_num p - 2 then Some (false, p) else
  q ← array_set (task_queue_ p) (end_ p) a;
  g ← array_set (task_fun_ p) (end_ p) f;
  Some (true, with_ring p q g (start p) (advance p (end_ p)) (curr_task_num p + 1)).

(** [threadpool_excute_task] with the mutex: a task, or none to take. *)
Definition take_task (p : ThreadPool_) : option (option (Z * Z) * ThreadPool_) :=
  if curr_task_num p >? 0 then
    a ← array_get (task_queue_ p) (start p);
    f ← array_get (task_fun_ p) (start p);
    Some (Some (f, a), with_ring p (task_queue_ p) (task_fun_ p) (advance p (start p)) (end_ p) (curr_task_num p - 1))
  else Some (None, p).

(** A pool whose arrays are there; [malloc] does not clear them: [junk].
    [threadpool_create] has the cases in which it fails. *)
Definition new_ring (threads max : Z) (junk : nat → Z) : ThreadPool_ :=
  Pool_ threads threads [] (Array (junk <$> seq 0 (Z.to_nat (max + 1)))) (Array (junk <$> seq 0 (Z.to_nat (max + 1)))) 0 0 0 max.

(** ** The threads *)

Inductive rcond := cond_.
#[export] Instance rcond_eq_dec : EqDecision rcond.
Proof. solve_decision. Defined.

Inductive revent := Called (f a : Z) | Returned (t : nat) (v : Z).

(** The pool until it is freed, the threads that have been cancelled, and what
    has happened. *)
Record rworld := Rworld { rpool : option ThreadPool_; cancelled : list nat; revents : list revent }.

Inductive rcall := Add_task (f a : Z) | Stop_all_task | Destroy_pool.

(** Where a thread is: a worker before it locks, with the mutex, after the wait
    with the mutex, with a task, ending in [pthread_cond_wait]; a client before
    its next call; in [threadpool_add_task] with the mutex; in
    [threadpool_stop_all_task], called by [threadpool_destroy] or not. *)
Inductive rpc :=
  | Worker_start | Worker_locked | Worker_woken | Worker_call (f a : Z) | Worker_cancelled
  | Client (cs : list rcall) | Add_locked (f a : Z) (cs : list rcall) | Stop_loop (i : Z) (destroy : bool) (cs : list rcall).

Abbreviation ring_state := (st unit (sys rworld rcond rpc)).
Abbreviation RP := (M ring_state).

Definition get_pool : RP ThreadPool_ := w ← get_shared; match rpool w with Some p => mret p | None => ub end.
Definition put_pool (p : ThreadPool_) : RP unit := w ← get_shared; put_shared (Rworld (Some p) (cancelled w) (revents w)).
Definition emit (e : revent) : RP unit := w ← get_shared; put_shared (Rworld (rpool w) (cancelled w) (revents w ++ [e])).
Definition lift {A} (o : option A) : RP A := match o with Some x => mret x | None => ub end.
Definition return_ (t : nat) (v : Z) (cs : list rcall) : RP unit := emit (Returned t v);; set_thread t (Running (Client cs)).

(** [pthread_cancel]: a thread that waits for a signal ends when it has the
    mutex; another one at its next point of cancellation. *)
Definition pthread_cancel (u : nat) : RP unit :=
  e ← get_env;
  match threads e !! u with
  | Some (Waiting _ _) => set_thread u (Locking Worker_cancelled)
  | _ => w ← get_shared; put_shared (Rworld (rpool w) (u :: cancelled w) (revents w))
  end.
Definition is_cancelled (t : nat) : RP bool := w ← get_shared; mret (bool_decide (t ∈ cancelled w)).

Definition threadpool_excute_task (t : nat) : RP unit :=
  p ← get_pool;
  r ← lift (take_task p);
  match r with
  | (Some (f, a), p') =>
      put_pool p';;
      pthread_mutex_unlock;;
      set_thread t (Running (Worker_call f a))
  | (None, _) =>
      c ← is_cancelled t;
      if (c : bool) then pthread_exit t else pthread_cond_wait t cond_ Worker_woken
  end.

(** The callback; a worker that was cancelled may end in it. *)
Definition run_task (k t : nat) (f a : Z) : RP unit :=
  emit (Called f a);;
  c ← is_cancelled t;
  if (c : bool) && Nat.odd k then pthread_exit t else pthread_mutex_lock t Worker_locked.

Definition threadpool_add_task (k t : nat) (f a : Z) (cs : list rcall) : RP unit :=
  p ← get_pool;
  r ← lift (put_task p f a);
  match r with
  | (false, _) => pthread_mutex_unlock;; return_ t (-1) cs
  | (true, p') =>
      put_pool p';;
      pthread_cond_signal k cond_;;
      pthread_mutex_unlock;;
      return_ t 0 cs
  end.

(** The rest of [threadpool_destroy], when the workers have been joined. *)
Definition destroy_rest (t : nat) (cs : list rcall) : RP unit :=
  pthread_mutex_destroy;;
  pthread_cond_destroy cond_;;
  w ← get_shared;
  put_shared (Rworld None (cancelled w) (revents w));;
  return_ t 0 cs.

Definition threadpool_stop_all_task (t : nat) (i : Z) (destroy : bool) (cs : list rcall) : RP unit :=
  p ← get_pool;
  if i <=? thread_count p then
    match thread_ p !! Z.to_nat (i - 1) with
    | Some u => pthread_cancel u;; pthread_join t u (Stop_loop (i + 1) destroy cs)
    | None => ub
    end
  else
    put_pool (with_threads p 0 (thread_ p));;
    if destroy then destroy_rest t cs else return_ t 0 cs.

(** The arrays are freed while the workers still run. *)
Definition threadpool_destroy (t : nat) (cs : list rcall) : RP unit :=
  p ← get_pool;
  assert (match task_queue_ p, task_fun_ p with Freed, _ | _, Freed => false | _, _ => true end);;
  put_pool (with_ring p Freed Freed (start p) (end_ p) (curr_task_num p));;
  threadpool_stop_all_task t 1 true cs.

Definition next_call (t : nat) (cs : list rcall) : RP unit :=
  match cs with
  | [] => pthread_exit t
  | Add_task f a :: cs => pthread_mutex_lock t (Add_locked f a cs)
  | Stop_all_task :: cs => threadpool_stop_all_task t 1 false cs
  | Destroy_pool :: cs => threadpool_destroy t cs
  end.

Definition rblock (k t : nat) (p : rpc) : RP unit :=
  match p with
  | Worker_start => pthread_mutex_lock t Worker_locked
  | Worker_locked => threadpool_excute_task t
  | Worker_woken => pthread_mutex_unlock;; pthread_mutex_lock t Worker_locked
  | Worker_call f a => run_task k t f a
  | Worker_cancelled => pthread_exit t
  | Client cs => next_call t cs
  | Add_locked f a cs => threadpool_add_task k t f a cs
  | Stop_loop i destroy cs => threadpool_stop_all_task t i destroy cs
  end.

(** [ok i] is whether the call [i] of [malloc], [pthread_mutex_init],
    [pthread_cond_init] and [pthread_create] succeeds.  When a thread cannot be
    made the program goes on with [threadpool_destroy], which is not repeated
    here.  [max + 1] and [max - 2] are sums of [int]s. *)
Definition threadpool_create (ok : nat → bool) (junk : nat → Z) (thread_num max : Z) : RP bool :=
  if (thread_num >? MAX_THREAD_NUM) || (thread_num <? 0) then mret false else
  let thread_num := if thread_num <? MIN_THREAD_NUM then MIN_THREAD_NUM else thread_num in
  if negb (ok 0%nat) then mret false else
  assert ((INT_MIN + 2 <=? max) && (max <? INT_MAX));;
  let p := new_ring thread_num max junk in
  put_pool (with_ring p (if ok 1%nat then task_queue_ p else Null) (if ok 2%nat then task_fun_ p else Null) 0 0 0);;
  if negb (ok 3%nat && ok 4%nat) then mret false else
  e ← get_env;
  put_env (Sys Unlocked (threads e) (shared e));;
  loop (S (Z.to_nat thread_num)) (λ n,
    if n >? 0 then
      u ← pthread_create (ok (5 + Z.to_nat (thread_num - n))%nat) Worker_start;
      match u with
      | Some u => p ← get_pool; put_pool (with_threads p (thread_count p) (thread_ p ++ [u]));; mret (inl (n - 1))
      | None => mret (inr false)
      end
    else mret (inr true)) thread_num.

Definition start_clients (clients : list (list rcall)) : RP unit :=
  e ← get_env; put_threads (threads e ++ ((λ cs, Running (Client cs)) <$> clients)).
