(* ===== verification/RingPoolProps.v ===== *)
(** * threadpool (C Implement+plus): what the ring promises

    The ring refines a queue of [max_task_num - 1] tasks; stopping two workers
    that wait blocks for ever; destroying frees what the workers still use. *)
From S2P Require Import Prelude Pthread RingPool.
#[local] Open Scope Z_scope.

(** ** The queue the ring stands for *)

Inductive ring_op := Put (f a : Z) | Take.

(** What an operation gives, or [None] when it is not defined. *)
Definition ring_do (p : ThreadPool_) (o : ring_op) : option (option (Z * Z) * bool * ThreadPool_) :=
  match o with
  | Put f a => '(b, p') ← put_task p f a; Some (None, b, p')
  | Take => '(r, p') ← take_task p; Some (r, true, p')
  end.

(** A queue with room for [cap] tasks. *)
Definition queue_do (cap : Z) (q : list (Z * Z)) (o : ring_op) : option (Z * Z) * bool * list (Z * Z) :=
  match o with
  | Put f a => if decide (Z.of_nat (length q) < cap) then (None, true, q ++ [(f, a)]) else (None, false, q)
  | Take => match q with x :: q => (Some x, true, q) | [] => (None, true, []) end
  end.

Fixpoint ring_run (p : ThreadPool_) (ops : list ring_op) : option (list (option (Z * Z) * bool)) :=
  match ops with
  | [] => Some []
  | o :: ops => '(r, b, p') ← ring_do p o; l ← ring_run p' ops; Some ((r, b) :: l)
  end.
Fixpoint queue_run (cap : Z) (q : list (Z * Z)) (ops : list ring_op) : list (option (Z * Z) * bool) :=
  match ops with
  | [] => []
  | o :: ops => let '(r, b, q') := queue_do cap q o in (r, b) :: queue_run cap q' ops
  end.

(** ** Places *)

Section ring.
Context (max : nat) (Hmax : (0 < max)%nat).

(** Where the task number [k] is put: 0 once, then 1 to [max] in turn. *)
Definition place (k : nat) : nat := match k with O => O | S k => S (k mod max) end.

Lemma place_bound k : (place k ≤ max)%nat.
Proof. destruct k as [|k]; simpl; [lia|]. pose proof (Nat.mod_upper_bound k max). lia. Qed.

Lemma mod_succ k : (S k mod max = if decide (S (k mod max) = max) then 0 else S (k mod max))%nat.
Proof.
  pose proof (Nat.div_mod_eq k max) as Hk. pose proof (Nat.mod_upper_bound k max ltac:(lia)).
  symmetry. case_decide as E.
  - apply (Nat.mod_unique _ _ (S (k / max)) 0); [lia|]. rewrite Nat.mul_succ_r. lia.
  - apply (Nat.mod_unique _ _ (k / max) (S (k mod max))); lia.
Qed.

Lemma place_advance p k :
  max_task_num p = Z.of_nat max → advance p (Z.of_nat (place k)) = Z.of_nat (place (S k)).
Proof.
  intros Hp. unfold advance. rewrite Hp, Z.gtb_ltb. pose proof (place_bound k) as Hb.
  destruct k as [|k]; cbn [place] in *.
  - rewrite Nat.Div0.mod_0_l. destruct (Z.ltb_spec (Z.of_nat max) (Z.of_nat 0 + 1)); lia.
  - rewrite mod_succ. case_decide; destruct (Z.ltb_spec (Z.of_nat max) (Z.of_nat (S (k mod max)) + 1)); lia.
Qed.

Lemma place_inj i j : (i < j)%nat → (j < i + max)%nat → place i ≠ place j.
Proof.
  intros Hij Hj. destruct i as [|i], j as [|j]; cbn [place]; [lia..|]. intros [= E].
  pose proof (Nat.div_mod_eq i max). pose proof (Nat.div_mod_eq j max).
  assert (j / max = i / max)%nat by nia. nia.
Qed.

(** ** The ring and the queue *)

(** The tasks [q] are at the places from [i] on. *)
Record ring_rep (p : ThreadPool_) (i : nat) (q : list (Z * Z)) : Prop := {
  rr_max : max_task_num p = Z.of_nat max;
  rr_start : start p = Z.of_nat (place i);
  rr_end : end_ p = Z.of_nat (place (i + length q));
  rr_num : curr_task_num p = Z.of_nat (length q);
  rr_room : (length q < max)%nat;
  rr_arrays : ∃ la lf, task_queue_ p = Array la ∧ task_fun_ p = Array lf ∧ length la = S max ∧ length lf = S max ∧
    ∀ k x, q !! k = Some x → la !! place (i + k) = Some x.2 ∧ lf !! place (i + k) = Some x.1;
}.

Lemma array_set_place l k x : length l = S max → array_set (Array l) (Z.of_nat (place k)) x = Some (Array (<[place k := x]> l)).
Proof.
  intros Hl. unfold array_set. simpl. pose proof (place_bound k). rewrite decide_True by lia. by rewrite Nat2Z.id.
Qed.

Lemma array_get_place l k x : l !! place k = Some x → array_get (Array l) (Z.of_nat (place k)) = Some x.
Proof. intros Hl. unfold array_get. simpl. rewrite decide_True by lia. by rewrite Nat2Z.id. Qed.

Lemma put_task_rep p i q f a :
  ring_rep p i q → ∃ p', put_task p f a = Some (bool_decide (Z.of_nat (length q) < Z.of_nat max - 1), p') ∧
    ring_rep p' i (if bool_decide (Z.of_nat (length q) < Z.of_nat max - 1) then q ++ [(f, a)] else q).
Proof.
  intros Hrep. pose proof Hrep as [? ? ? ? ? (la & lf & Hla & Hlf & Hl1 & Hl2 & Hq)].
  unfold put_task. rewrite rr_num0, rr_max0, Z.gtb_ltb.
  destruct (Z.ltb_spec (Z.of_nat max - 2) (Z.of_nat (length q))) as [Hfull|Hroom].
  - rewrite bool_decide_eq_false_2 by lia. by exists p.
  - rewrite bool_decide_eq_true_2 by lia. rewrite rr_end0, Hla, Hlf, !array_set_place by done. simpl.
    eexists. split; [done|]. split; cbn [with_ring max_task_num start end_ curr_task_num task_queue_ task_fun_]; try done.
    + rewrite place_advance by done. rewrite length_app, Nat.add_assoc. simpl. by rewrite Nat.add_1_r.
    + rewrite length_app. simpl. lia.
    + rewrite length_app. simpl. lia.
    + exists (<[place (i + length q) := a]> la), (<[place (i + length q) := f]> lf). rewrite !length_insert.
      split_and!; [done..|]. intros k x Hx. apply lookup_app_Some in Hx as [Hx|[Hk Hx]].
      * pose proof (lookup_lt_Some _ _ _ Hx). assert (place (i + k) ≠ place (i + length q)) as Hne by (apply place_inj; lia).
        rewrite !list_lookup_insert_ne by done. by apply Hq.
      * apply list_lookup_singleton_Some in Hx as [Hk' <-]. replace k with (length q) by lia.
        pose proof (place_bound (i + length q)). by rewrite !list_lookup_insert_eq by lia.
Qed.

Lemma take_task_rep p i q :
  ring_rep p i q → ∃ p', take_task p = Some (head q, p') ∧
    ring_rep p' (match q with [] => i | _ => S i end) (tail q).
Proof.
  intros Hrep. pose proof Hrep as [? ? ? ? ? (la & lf & Hla & Hlf & Hl1 & Hl2 & Hq)].
  unfold take_task. rewrite rr_num0, Z.gtb_ltb. destruct q as [|[f a] q]; [by exists p|].
  rewrite (proj2 (Z.ltb_lt _ _)) by (cbn [length]; lia). destruct (Hq 0%nat (f, a) eq_refl) as [Ha Hf].
  rewrite Nat.add_0_r in Ha, Hf. simpl in Ha, Hf.
  rewrite rr_start0, Hla, Hlf, (array_get_place la i a), (array_get_place lf i f) by done. simpl.
  eexists. split; [done|]. split; cbn [with_ring max_task_num start end_ curr_task_num task_queue_ task_fun_]; try done.
  - by rewrite place_advance.
  - rewrite rr_end0. cbn [length]. do 2 f_equal. lia.
  - cbn [length]. lia.
  - cbn [length] in *. lia.
  - exists la, lf. split_and!; [done..|]. intros k x Hx. replace (S i + k)%nat with (i + S k)%nat by lia. by apply Hq.
Qed.
End ring.

(** ** The properties *)

(** C26: For every sequence of additions and removals the ring of a new pool gives
    what a queue with room for [max_task_num - 1] tasks gives, in the order of
    a queue, and no access is outside the arrays. *)
Theorem ring_refines_queue (max : nat) (threads : Z) (junk : nat → Z) (ops : list ring_op) :
  (0 < max)%nat → ring_run (new_ring threads (Z.of_nat max) junk) ops = Some (queue_run (Z.of_nat max - 1) [] ops).
Proof.
  intros Hmax. assert (ring_rep max (new_ring threads (Z.of_nat max) junk) 0 []) as Hrep.
  { split; try done. exists (junk <$> seq 0 (S max)), (junk <$> seq 0 (S max)).
    rewrite length_fmap, length_seq. split_and!; [..|by intros]; unfold new_ring; cbn [task_queue_ task_fun_]; do 3 f_equal; lia. }
  revert Hrep. generalize (new_ring threads (Z.of_nat max) junk). generalize 0%nat. generalize (@nil (Z * Z)).
  induction ops as [|[f a|] ops IH]; intros q i p Hrep; [done|..]; cbn [ring_run queue_run ring_do queue_do].
  - destruct (put_task_rep max Hmax p i q f a Hrep) as (p' & -> & Hrep'). simpl.
    case_decide as Hd; [rewrite bool_decide_eq_true_2 in Hrep' |- * by done|rewrite bool_decide_eq_false_2 in Hrep' |- * by done];
      by erewrite IH.
  - destruct (take_task_rep max Hmax p i q Hrep) as (p' & -> & Hrep'). simpl. destruct q as [|x q]; by erewrite IH.
Qed.

Lemma ring_refines_queue_witness :
  ring_run (new_ring 3 (Z.of_nat 3) (λ _, 7)) [Put 1 2; Put 3 4; Put 5 6; Take; Put 5 6; Take; Take; Take] =
  Some (queue_run 2 [] [Put 1 2; Put 3 4; Put 5 6; Take; Put 5 6; Take; Take; Take]).
Proof. apply (ring_refines_queue 3 3 (λ _, 7)). lia. Defined.

(** ** Schedules *)

Definition rboot : ring_state := St ∅ (Sys Destroyed [] (Rworld None [] [])).
Definition ring_start (n max : Z) (clients : list (list rcall)) : outcome (unit * ring_state) :=
  (threadpool_create (λ _, true) (λ _, 0) n max;; start_clients clients) rboot.
Definition ring_reachable (n max : Z) (clients : list (list rcall)) (s : ring_state) : Prop :=
  ∃ s0, ring_start n max clients = Ok ((), s0) ∧ rtc (any_step rblock) s0 s.

Definition ring_state_after (n max : Z) (clients : list (list rcall)) (l : list nat) : ring_state :=
  match ring_start n max clients with
  | Ok (_, s) => default rboot (run rblock ((λ t, (t, 0%nat)) <$> l) s)
  | _ => rboot
  end.
Definition ring_runs (n max : Z) (clients : list (list rcall)) (l : list nat) : bool :=
  match ring_start n max clients with
  | Ok (_, s) => match run rblock ((λ t, (t, 0%nat)) <$> l) s with Some _ => true | None => false end
  | _ => false
  end.

Lemma ring_run_reachable n max clients l :
  ring_runs n max clients l = true → ring_reachable n max clients (ring_state_after n max clients l).
Proof.
  unfold ring_runs, ring_state_after, ring_reachable. destruct (ring_start n max clients) as [[[] s]| |]; [|done..].
  intros Hr. exists s. split; [done|]. apply run_default. by destruct (run _ _ s).
Qed.

(** Stopping a pool of two workers that wait for a task blocks: the first one
    ends in [pthread_cond_wait] with the mutex, which the second one needs to
    end, and [threadpool_stop_all_task] waits for the second for ever. *)
Theorem ring_stop_deadlock :
  ∃ s, ring_reachable 2 10 [[Stop_all_task]] s ∧ stuck s ∧ mutex (env s) = Locked 0 ∧
    threads (env s) = [Exited; Locking Worker_cancelled; Joining 1 (Stop_loop 3 false [])].
Proof.
  exists (ring_state_after 2 10 [[Stop_all_task]] [0; 0; 1; 1; 2; 0; 2; 2]%nat).
  split; [by apply ring_run_reachable; vm_compute|]. split; [|by vm_compute].
  intros t. do 3 (destruct t as [|t]; [by vm_compute|]). by vm_compute.
Qed.

(** [threadpool_destroy] frees the arrays before it stops the workers: a worker
    that finds a task takes it from a freed array. *)
Theorem ring_destroy_use_after_free :
  ∃ s, ring_reachable 1 10 [[Add_task 5 6; Destroy_pool]] s ∧
    threads (env s) = [Locking Worker_locked; Joining 0 (Stop_loop 2 true [])] ∧ faults rblock s 0.
Proof.
  exists (ring_state_after 1 10 [[Add_task 5 6; Destroy_pool]] [0; 1; 1; 1]%nat).
  split; [by apply ring_run_reachable; vm_compute|]. split; [by vm_compute|]. split; [by vm_compute|].
  exists 0%nat. intros s'. vm_compute. done.
Qed.
