(* ===== verification/EchoServer.v ===== *)
(** * mult_thread_server: the connections of the echo server

    [echoserver_threaded.c] over a class of the calls of libevent and of the
    kernel: a connection is accepted, becomes a job of the work queue (WorkQueue),
    and is served by a worker until its event base has nothing left to do.  A
    [client_t] is used by one thread at a time and is passed as a record; its
    memory is an object like the others. *)
From S2P Require Import Prelude.
#[local] Open Scope Z_scope.

(** ** The calls *)

Inductive kind := Descriptor | Memory | Buffer | Base | Bufferevent.
#[export] Instance kind_eq_dec : EqDecision kind.
Proof. solve_decision. Defined.
#[export] Instance kind_countable : Countable kind.
Proof.
  refine (inj_countable' (λ x, match x with Descriptor => 0%nat | Memory => 1%nat | Buffer => 2%nat | Base => 3%nat | Bufferevent => 4%nat end)
    (λ n, match n with O => Descriptor | S O => Memory | S (S O) => Buffer | S (S (S O)) => Base | _ => Bufferevent end) _).
  by intros [].
Defined.

(** The objects that have not been given back, the input of a bufferevent, the
    content of an evbuffer, and what a bufferevent was given to send. *)
Class Libevent (K : Type) := {
  accept : Z → M K Z;
  fcntl_getfl : Z → M K Z;
  fcntl_setfl : Z → Z → M K Z;
  close : Z → M K unit;
  malloc : M K Z;
  mfree : Z → M K unit;
  evbuffer_new : M K Z;
  evbuffer_free : Z → M K unit;
  event_base_new : M K Z;
  event_base_free : Z → M K unit;
  bufferevent_new : Z → Z → M K Z;
  bufferevent_free : Z → M K unit;
  bufferevent_base_set : Z → Z → M K unit;
  bufferevent_settimeout : Z → Z → Z → M K unit;
  bufferevent_enable : Z → M K unit;
  evbuffer_length : Z → M K Z;
  evbuffer_remove : Z → Z → M K (list Z);
  evbuffer_add : Z → list Z → M K Z;
  bufferevent_write_buffer : Z → Z → M K Z;
  objects : K → gset (kind * Z);
  bev_input : K → Z → list Z;
  content : K → Z → list Z;
  sent : K → Z → list Z;
}.

(** A call that makes an object of the kind [kd], or fails; one that gives it
    back; one that leaves the objects alone. *)
Definition makes {K} `{Libevent K} (kd : kind) (ok : Z → bool) (m : M K Z) : Prop :=
  ∀ k, wp m k (λ r k', ok r = false ∧ objects k' = objects k ∨
    ok r = true ∧ ((kd, r) ∉ objects k) ∧ objects k' = objects k ∪ {[(kd, r)]}).
Definition gives_back {K} `{Libevent K} (kd : kind) (m : Z → M K unit) : Prop :=
  ∀ x k, (kd, x) ∈ objects k → wp (m x) k (λ _ k', objects k' = objects k ∖ {[(kd, x)]}).
Definition keeps {K A} `{Libevent K} (m : M K A) : Prop := ∀ k, wp m k (λ _ k', objects k' = objects k).
Definition not_null (r : Z) : bool := negb (r =? 0).
Definition not_negative (r : Z) : bool := negb (r <? 0).

Class LibeventLaws (K : Type) `{Libevent K} := {
  accept_law fd : makes Descriptor not_negative (accept fd);
  getfl_law fd : keeps (fcntl_getfl fd);
  setfl_law fd flags : keeps (fcntl_setfl fd flags);
  close_law : gives_back Descriptor close;
  malloc_law : makes Memory not_null malloc;
  mfree_law : gives_back Memory mfree;
  evbuffer_law : makes Buffer not_null evbuffer_new;
  evbuffer_free_law : gives_back Buffer evbuffer_free;
  base_law : makes Base not_null event_base_new;
  base_free_law : gives_back Base event_base_free;
  bufferevent_law fd c : makes Bufferevent not_null (bufferevent_new fd c);
  bufferevent_free_law : gives_back Bufferevent bufferevent_free;
  base_set_law b e : keeps (bufferevent_base_set b e);
  settimeout_law e r w : keeps (bufferevent_settimeout e r w);
  enable_law e : keeps (bufferevent_enable e);
  length_law e k : wp (evbuffer_length e) k (λ n k', k' = k ∧ n = Z.of_nat (length (bev_input k e)));
  remove_law e n k : wp (evbuffer_remove e n) k (λ d k',
    d = take (Z.to_nat n) (bev_input k e) ∧ bev_input k' e = drop (Z.to_nat n) (bev_input k e) ∧
    content k' = content k ∧ sent k' = sent k ∧ objects k' = objects k);
  add_law b d k : wp (evbuffer_add b d) k (λ r k',
    content k' b = (if r =? 0 then content k b ++ d else content k b) ∧ bev_input k' = bev_input k ∧ sent k' = sent k ∧ objects k' = objects k);
  write_law e b k : wp (bufferevent_write_buffer e b) k (λ r k',
    sent k' e = (if r =? 0 then sent k e ++ content k b else sent k e) ∧ content k' b = (if r =? 0 then [] else content k b) ∧
    bev_input k' = bev_input k ∧ objects k' = objects k);
}.

Section server.
Context {K : Type} `{Libevent K}.

(** ** Connections *)

(** [client_t]; [self] is its address. *)
Record client_t := Client { self : Z; fd : Z; evbase : Z; buf_ev : Z; output_buffer : Z }.

Definition O_NONBLOCK : Z := 2048.
Definition setnonblock (fd : Z) : M K Z :=
  flags ← fcntl_getfl fd;
  if flags <? 0 then mret flags else
  r ← fcntl_setfl fd (Z.lor flags O_NONBLOCK);
  if r <? 0 then mret (-1) else mret 0.

Definition closeClient (client : client_t) : M K client_t :=
  if 0 <=? fd client then
    close (fd client);; mret (Client (self client) (-1) (evbase client) (buf_ev client) (output_buffer client))
  else mret client.
Definition closeAndFreeClient (client : client_t) : M K unit :=
  client ← closeClient client;
  when (not_null (buf_ev client)) (bufferevent_free (buf_ev client));;
  when (not_null (evbase client)) (event_base_free (evbase client));;
  when (not_null (output_buffer client)) (evbuffer_free (output_buffer client));;
  mfree (self client).

(** Every round takes a byte at least; [nbytes] is what is there. *)
Definition read_round (client : client_t) (bev : Z) (_ : unit) : M K (unit + unit) :=
  nbytes ← to_int <$> evbuffer_length bev;
  if 0 <? nbytes then
    data ← evbuffer_remove bev (if nbytes >? 4096 then 4096 else nbytes);
    evbuffer_add (output_buffer client) data;;
    mret (inl ())
  else mret (inr ()).
Definition buffered_on_read (client : client_t) (bev : Z) : M K client_t :=
  k ← get;
  loop (S (length (bev_input k bev))) (read_round client bev) ();;
  r ← bufferevent_write_buffer bev (output_buffer client);
  if not_null r then closeClient client else mret client.
Definition buffered_on_error (client : client_t) : M K client_t := closeClient client.

(** What [event_base_dispatch] does: what happens outside, and the callbacks. *)
Inductive callback := On_read | On_write | On_error.
Definition run_callback (c : callback) (client : client_t) : M K client_t :=
  match c with
  | On_read => buffered_on_read client (buf_ev client)
  | On_write => mret client
  | On_error => buffered_on_error client
  end.
Fixpoint dispatch (events : list (M K unit * callback)) (client : client_t) : M K client_t :=
  match events with
  | [] => mret client
  | (outside, c) :: events => outside;; client ← run_callback c client; dispatch events client
  end.
Definition server_job_function (events : list (M K unit * callback)) (job : Z) (client : client_t) : M K unit :=
  client ← dispatch events client;
  closeAndFreeClient client;;
  mfree job.

Definition SOCKET_READ_TIMEOUT_SECONDS : Z := 10.
Definition SOCKET_WRITE_TIMEOUT_SECONDS : Z := 10.
(** The job that is added to the work queue, and its client. *)
Definition on_accept (listenfd : Z) : M K (option (Z * client_t)) :=
  client_fd ← accept listenfd;
  if client_fd <? 0 then mret None else
  r ← setnonblock client_fd;
  if r <? 0 then close client_fd;; mret None else
  p ← malloc;
  if p =? 0 then close client_fd;; mret None else
  b ← evbuffer_new;
  let client := Client p client_fd 0 0 b in
  if b =? 0 then closeAndFreeClient client;; mret None else
  e ← event_base_new;
  let client := Client p client_fd e 0 b in
  if e =? 0 then closeAndFreeClient client;; mret None else
  v ← bufferevent_new client_fd p;
  let client := Client p client_fd e v b in
  if v =? 0 then closeAndFreeClient client;; mret None else
  bufferevent_base_set e v;;
  bufferevent_settimeout v SOCKET_READ_TIMEOUT_SECONDS SOCKET_WRITE_TIMEOUT_SECONDS;;
  bufferevent_enable v;;
  job ← malloc;
  if job =? 0 then closeAndFreeClient client;; mret None else
  mret (Some (job, client)).
(** A connection from its acceptance to its end in a worker. *)
Definition connection (listenfd : Z) (events : list (M K unit * callback)) : M K unit :=
  o ← on_accept listenfd;
  match o with Some (job, client) => server_job_function events job client | None => mret () end.

(** ** Nothing is lost and nothing given back twice *)

Context `{!LibeventLaws K}.

(** The objects are those of [rest], and [l] besides. *)
Record holds (rest : gset (kind * Z)) (l : list (kind * Z)) (k : K) : Prop := {
  ho_objects : objects k = rest ∪ list_to_set l;
  ho_nodup : NoDup l;
  ho_new : ∀ x, x ∈ l → x ∉ rest;
}.
(** What belongs to a client. *)
Definition part (b : bool) (x : kind * Z) : list (kind * Z) := if b then [x] else [].
Definition owned (c : client_t) : list (kind * Z) :=
  part (0 <=? fd c) (Descriptor, fd c) ++ part (not_null (buf_ev c)) (Bufferevent, buf_ev c) ++
  part (not_null (evbase c)) (Base, evbase c) ++ part (not_null (output_buffer c)) (Buffer, output_buffer c) ++ [(Memory, self c)].

Lemma holds_perm rest l l' k : Permutation l l' → holds rest l k → holds rest l' k.
Proof.
  intros Hp [Ho Hn Hr]. split; [|by rewrite <-Hp|intros x Hx; apply Hr; by rewrite Hp]. rewrite Ho. f_equal. apply leibniz_equiv. by rewrite Hp.
Qed.
Lemma holds_same rest l k k' : objects k' = objects k → holds rest l k → holds rest l k'.
Proof. intros E [Ho Hn Hr]. split; [congruence|done..]. Qed.

Lemma wp_make kd ok m rest l k (Q : Z → K → Prop) :
  makes kd ok m → holds rest l k → (∀ r k', ok r = false → holds rest l k' → Q r k') →
  (∀ r k', ok r = true → holds rest ((kd, r) :: l) k' → Q r k') → wp m k Q.
Proof.
  intros Hm [Ho Hn Hr] H1 H2. eapply wp_mono; [apply Hm|]. intros r k' [[Hok E]|(Hok & Hnew & E)]; [apply H1; [done|]; by apply (holds_same rest l k k')|].
  apply H2; [done|]. rewrite Ho in Hnew, E. split.
  - rewrite E. cbn [list_to_set foldr]. set_solver.
  - apply NoDup_cons. split; [|done]. intros Hin. apply Hnew. set_solver.
  - intros x [->|Hx]%elem_of_cons; [set_solver|by apply Hr].
Qed.
Lemma wp_back kd m x rest l k (Q : unit → K → Prop) :
  gives_back kd m → holds rest ((kd, x) :: l) k → (∀ k', holds rest l k' → Q () k') → wp (m x) k Q.
Proof.
  intros Hm [Ho Hn Hr] HQ. apply NoDup_cons in Hn as [Hx Hn]. eapply wp_mono; [apply Hm; rewrite Ho; set_solver|]. intros [] k' E. apply HQ.
  pose proof (Hr (kd, x)) as Hrx. split; [|done|intros y Hy; apply Hr; by right]. rewrite E, Ho. cbn [list_to_set foldr]. set_solver.
Qed.
Lemma wp_keep {A} (m : M K A) rest l k (Q : A → K → Prop) : keeps m → holds rest l k → (∀ r k', holds rest l k' → Q r k') → wp m k Q.
Proof. intros Hm Hh HQ. eapply wp_mono; [exact (Hm k)|]. intros r k' E. apply HQ. by apply (holds_same rest l k k'). Qed.
(** A member that may be null. *)
Lemma wp_part kd m x rest l k (Q : unit → K → Prop) :
  gives_back kd m → holds rest (part (not_null x) (kd, x) ++ l) k → (∀ k', holds rest l k' → Q () k') → wp (when (not_null x) (m x)) k Q.
Proof. intros Hm Hh HQ. destruct (not_null x); cbn [when part app] in *; [by eapply wp_back|by apply wp_ret, HQ]. Qed.

Definition without_fd (c : client_t) : client_t := Client (self c) (if 0 <=? fd c then -1 else fd c) (evbase c) (buf_ev c) (output_buffer c).
Lemma closeClient_ok c rest l k :
  holds rest (owned c ++ l) k → wp (closeClient c) k (λ c' k', c' = without_fd c ∧ holds rest (owned c' ++ l) k' ∧ fd c' < 0).
Proof.
  intros Hh. unfold closeClient, owned, without_fd in *. destruct (Z.leb_spec 0 (fd c)); cbn [part app] in *.
  - apply wp_bind. eapply wp_back; [apply close_law|done|]. intros k' Hk. apply wp_ret. split; [done|]. split; [exact Hk|cbn; lia].
  - apply wp_ret. split; [by destruct c|]. split; [|done]. rewrite (proj2 (Z.leb_gt 0 (fd c))) by done. done.
Qed.

Lemma closeAndFreeClient_ok c rest l k : holds rest (owned c ++ l) k → wp (closeAndFreeClient c) k (λ _ k', holds rest l k').
Proof.
  intros Hh. unfold closeAndFreeClient. apply wp_bind. eapply wp_mono; [by apply closeClient_ok|]. intros c' k1 (-> & Hk & Hfd).
  unfold owned in Hk. rewrite (proj2 (Z.leb_gt 0 (fd (without_fd c)))) in Hk by done. unfold part at 1 in Hk. rewrite <-!app_assoc in Hk. cbn [app] in Hk.
  apply wp_bind. eapply wp_part; [apply bufferevent_free_law|exact Hk|]. intros k2 H2.
  apply wp_bind. eapply wp_part; [apply base_free_law|exact H2|]. intros k3 H3.
  apply wp_bind. eapply wp_part; [apply evbuffer_free_law|exact H3|]. intros k4 H4. cbn [app] in H4.
  eapply wp_back; [apply mfree_law|exact H4|]. done.
Qed.

(** What one round takes is some of what is there. *)
Lemma read_round_ok client bev k :
  wp (read_round client bev ()) k (λ r k', match r with
    | inl _ => (length (bev_input k' bev) < length (bev_input k bev))%nat
    | inr _ => k' = k ∧ to_int (Z.of_nat (length (bev_input k bev))) ≤ 0
    end ∧ objects k' = objects k).
Proof.
  unfold read_round. apply wp_bind, wp_fmap. eapply wp_mono; [apply length_law|]. intros n k2 [-> ->].
  destruct (Z.ltb_spec 0 (to_int (Z.of_nat (length (bev_input k bev))))) as [Hpos|]; [|by apply wp_ret].
  apply wp_bind. eapply wp_mono; [apply remove_law|]. intros d k2 (_ & Hin & _ & _ & Ho). apply wp_bind. eapply wp_mono; [apply add_law|].
  intros r k3 (_ & Hin3 & _ & Ho3). apply wp_ret. split; [|congruence]. pose proof (to_int_pos _ Hpos).
  rewrite Hin3, Hin, length_drop. rewrite Z.gtb_ltb. destruct (4096 <? _); lia.
Qed.
Lemma read_loop_ok c bev rest l k :
  holds rest l k → wp (loop (S (length (bev_input k bev))) (read_round c bev) ()) k (λ _ k', holds rest l k').
Proof.
  intros Hh. apply (wp_loop (λ n _ k', holds rest l k' ∧ n = length (bev_input k' bev))) with (n := length (bev_input k bev)); [|done|lia].
  intros n [] k1 [H1 ->]. eapply wp_mono; [apply read_round_ok|]. intros [[]|[]] k2 [Hr Ho]; apply (holds_same _ _ _ k2) in H1; [|done| |done]; [|done].
  by exists (length (bev_input k2 bev)).
Qed.

Lemma run_callback_ok cb c rest l k :
  holds rest (owned c ++ l) k → wp (run_callback cb c) k (λ c' k', holds rest (owned c' ++ l) k').
Proof.
  intros Hh. destruct cb; cbn [run_callback]; [|by apply wp_ret|].
  - unfold buffered_on_read. apply wp_bind, wp_get, wp_bind. eapply wp_mono; [by apply read_loop_ok|]. intros [] k1 H1.
    apply wp_bind. eapply wp_mono; [apply write_law|]. intros r k2 (_ & _ & _ & Ho). apply (holds_same _ _ _ k2) in H1; [|done].
    destruct (not_null r); [|by apply wp_ret]. eapply wp_mono; [by apply closeClient_ok|]. by intros c' k3 (_ & ? & _).
  - eapply wp_mono; [by apply closeClient_ok|]. by intros c' k3 (_ & ? & _).
Qed.

(** Whatever happens outside that leaves these objects alone. *)
Definition quiet (events : list (M K unit * callback)) : Prop := Forall (λ e, keeps e.1) events.

Lemma dispatch_ok events c rest l k :
  quiet events → holds rest (owned c ++ l) k → wp (dispatch events c) k (λ c' k', holds rest (owned c' ++ l) k').
Proof.
  intros Hq. revert c k. induction Hq as [|[o cb] events Ho Hq IH]; intros c k Hh; cbn [dispatch]; [by apply wp_ret|].
  apply wp_bind. eapply wp_keep; [exact Ho|exact Hh|]. intros _ k1 H1. apply wp_bind. eapply wp_mono; [by apply run_callback_ok|]. intros c' k2 H2. by apply IH.
Qed.

(** Giving a whole client back on an early return. *)
Lemma give_up_ok c rest l k (Q : option (Z * client_t) → K → Prop) :
  holds rest (owned c ++ l) k → (∀ k', holds rest l k' → Q None k') → wp (closeAndFreeClient c;; mret None) k Q.
Proof. intros Hh HQ. apply wp_bind. eapply wp_mono; [by apply closeAndFreeClient_ok|]. intros [] k' Hk. by apply wp_ret, HQ. Qed.

Lemma setnonblock_keeps fd : keeps (setnonblock fd).
Proof.
  intros k. unfold setnonblock. apply wp_bind. eapply wp_mono; [exact (getfl_law fd k)|]. intros flags k1 E1.
  destruct (flags <? 0); [by apply wp_ret|]. apply wp_bind. eapply wp_mono; [exact (setfl_law fd _ k1)|]. intros r k2 E2.
  destruct (r <? 0); apply wp_ret; congruence.
Qed.
Lemma null_zero r : not_null r = false → r = 0.
Proof. unfold not_null. destruct (Z.eqb_spec r 0); done. Qed.
(** A member of the client that is made, or the client is given back. *)
Lemma wp_member kd m (mk : Z → client_t) (f : Z → M K (option (Z * client_t))) rest k Q :
  makes kd not_null m → (∀ r, not_null r = true → Permutation ((kd, r) :: owned (mk 0) ++ []) (owned (mk r) ++ [])) →
  holds rest (owned (mk 0) ++ []) k → (∀ k', holds rest [] k' → Q None k') →
  (∀ r k', holds rest (owned (mk r) ++ []) k' → wp (f r) k' Q) →
  wp (r ← m; if r =? 0 then closeAndFreeClient (mk r);; mret None else f r) k Q.
Proof.
  intros Hm Hp Hh HQ Hf. apply wp_bind. eapply wp_make; [exact Hm|exact Hh|intros r k' Hr H'|intros r k' Hr H'].
  - rewrite (null_zero r Hr). by apply (give_up_ok _ rest []).
  - destruct (Z.eqb_spec r 0) as [->|]; [done|]. apply Hf. eapply holds_perm, H'. by apply Hp.
Qed.
(** The members of a client with an open socket. *)
Ltac members := unfold owned; cbn [fd buf_ev evbase output_buffer self]; intros; repeat match goal with
  | E : not_null _ = true |- _ => rewrite E; clear E
  | E : (0 <=? _) = true |- _ => rewrite E; clear E
  end; cbn [part app not_null negb Z.eqb]; solve_Permutation.

Lemma on_accept_ok listenfd rest k :
  holds rest [] k → wp (on_accept listenfd) k (λ o k', match o with
    | None => holds rest [] k'
    | Some (job, c) => holds rest (owned c ++ [(Memory, job)]) k'
    end).
Proof.
  intros H0. unfold on_accept.
  apply wp_bind. eapply wp_make; [apply accept_law|exact H0|intros fd k1 Hok H1|intros fd k1 Hok H1]; unfold not_negative in Hok.
  { destruct (fd <? 0); [by apply wp_ret|done]. }
  destruct (Z.ltb_spec fd 0) as [|Hfd]; [done|].
  apply wp_bind. eapply wp_keep; [apply setnonblock_keeps|exact H1|]. intros r k2 H2. destruct (r <? 0).
  { apply wp_bind. eapply wp_back; [apply close_law|exact H2|]. intros k3 H3. by apply wp_ret. }
  apply wp_bind. eapply wp_make; [apply malloc_law|exact H2|intros p k3 Hp H3|intros p k3 Hp H3]; unfold not_null in Hp.
  { destruct (p =? 0); [|done]. apply wp_bind. eapply wp_back; [apply close_law|exact H3|]. intros k4 H4. by apply wp_ret. }
  destruct (p =? 0); [done|]. assert ((0 <=? fd) = true) as Hopen by lia.
  apply (wp_member Buffer evbuffer_new (λ b, Client p fd 0 0 b) _ rest); [apply evbuffer_law|members|eapply holds_perm, H3; members|done|].
  intros b k4 H4.
  apply (wp_member Base event_base_new (λ e, Client p fd e 0 b) _ rest); [apply base_law|members|exact H4|done|].
  intros e k5 H5.
  apply (wp_member Bufferevent (bufferevent_new fd p) (λ v, Client p fd e v b) _ rest); [apply bufferevent_law|members|exact H5|done|].
  intros v k6 H6. apply wp_bind. eapply wp_keep; [exact (base_set_law e v)|exact H6|]. intros [] k7 H7.
  apply wp_bind. eapply wp_keep; [apply settimeout_law|exact H7|]. intros [] k8 H8.
  apply wp_bind. eapply wp_keep; [apply enable_law|exact H8|]. intros [] k9 H9.
  apply wp_bind. eapply wp_make; [apply malloc_law|exact H9|intros job k10 Hj H10|intros job k10 Hj H10].
  - rewrite (null_zero job Hj). by apply (give_up_ok _ rest []).
  - unfold not_null in Hj. destruct (job =? 0); [done|]. apply wp_ret. eapply holds_perm, H10. solve_Permutation.
Qed.

Lemma server_job_function_ok events job c rest k :
  quiet events → holds rest (owned c ++ [(Memory, job)]) k → wp (server_job_function events job c) k (λ _ k', holds rest [] k').
Proof.
  intros Hq Hh. unfold server_job_function. apply wp_bind. eapply wp_mono; [by apply dispatch_ok|]. intros c' k1 H1.
  apply wp_bind. eapply wp_mono; [exact (closeAndFreeClient_ok _ _ _ _ H1)|]. intros [] k2 H2.
  by eapply wp_back; [apply mfree_law|exact H2|].
Qed.

(** C32: a connection, from its acceptance to the end of its job, gives back
    everything that it was given and nothing twice: whichever call fails on the
    way, and whatever callbacks libevent makes, errors of sending and of the
    socket included, the objects are those of before. *)
Theorem connection_gives_back listenfd events k :
  quiet events → wp (connection listenfd events) k (λ _ k', objects k' = objects k).
Proof.
  intros Hq. unfold connection. assert (holds (objects k) [] k) as H0.
  { split; [cbn; set_solver|constructor|by intros x ?%not_elem_of_nil]. }
  apply wp_bind. eapply wp_mono; [by apply on_accept_ok|]. intros [[job c]|] k1 H1.
  - eapply wp_mono; [by apply server_job_function_ok|]. intros [] k2 [H2 _ _]. rewrite H2. cbn. set_solver.
  - apply wp_ret. destruct H1 as [-> _ _]. cbn. set_solver.
Qed.

(** Nothing fails for want of memory. *)
Definition plenty : Prop :=
  (∀ b d k, wp (evbuffer_add b d) k (λ r _, r = 0)) ∧ (∀ e b k, wp (bufferevent_write_buffer e b) k (λ r _, r = 0)).

Lemma wp_both {A} (m : M K A) k (P Q : A → K → Prop) : wp m k P → wp m k Q → wp m k (λ a k', P a k' ∧ Q a k').
Proof. unfold wp. destruct (m k) as [[a k']| |]; auto. Qed.

(** The input goes to the output buffer a piece at a time. *)
Lemma read_loop_moves client bev k all :
  plenty → Z.of_nat (length (bev_input k bev)) ≤ INT_MAX → content k (output_buffer client) ++ bev_input k bev = all →
  wp (loop (S (length (bev_input k bev))) (read_round client bev) ()) k (λ _ k',
    bev_input k' bev = [] ∧ content k' (output_buffer client) = all ∧ sent k' bev = sent k bev).
Proof.
  intros [Hadd _] Hmax Hall.
  apply (wp_loop (λ n _ k', n = length (bev_input k' bev) ∧ Z.of_nat (length (bev_input k' bev)) ≤ INT_MAX ∧
    content k' (output_buffer client) ++ bev_input k' bev = all ∧ sent k' bev = sent k bev)) with (n := length (bev_input k bev)); [|done|lia].
  intros n [] k1 (-> & Hm & Ha & Hs). unfold read_round. apply wp_bind, wp_fmap. eapply wp_mono; [apply length_law|]. intros n k2 [-> ->].
  rewrite to_int_small by lia. destruct (Z.ltb_spec 0 (Z.of_nat (length (bev_input k1 bev)))) as [Hpos|Hnil].
  - set (z := if _ >? 4096 then _ else _). assert (0 < Z.to_nat z)%nat as Hn by (subst z; rewrite Z.gtb_ltb; destruct (4096 <? _); lia).
    apply wp_bind. eapply wp_mono; [apply remove_law|]. clearbody z. intros d k2 (-> & Hin & Hc & Hs2 & _).
    apply wp_bind. eapply wp_mono; [apply wp_both; [apply Hadd|apply add_law]|]. intros r k3 (-> & Hc3 & Hin3 & Hs3 & _). apply wp_ret.
    exists (length (bev_input k3 bev)). rewrite Hc3, Hin3, Hs3, Hs2, Hin, Hc, length_drop. cbn [Z.eqb]. rewrite <-app_assoc, take_drop. repeat split; [lia..|done|done].
  - apply wp_ret. destruct (bev_input k1 bev); [|cbn in Hnil; lia]. by rewrite app_nil_r in Ha.
Qed.

(** with memory enough, [buffered_on_read] gives the bufferevent to send,
    after what was pending, all the input in its order, however many pieces of
    4096 bytes it takes; nothing is left in either buffer. *)
Theorem buffered_on_read_echoes client bev k :
  plenty → Z.of_nat (length (bev_input k bev)) ≤ INT_MAX →
  wp (buffered_on_read client bev) k (λ c' k', c' = client ∧ bev_input k' bev = [] ∧ content k' (output_buffer client) = [] ∧
    sent k' bev = sent k bev ++ content k (output_buffer client) ++ bev_input k bev).
Proof.
  intros Hp Hm. unfold buffered_on_read. apply wp_bind, wp_get, wp_bind. eapply wp_mono; [by apply read_loop_moves|].
  intros [] k1 (Hi & Hc & Hs). apply wp_bind. eapply wp_mono; [apply wp_both; [apply (proj2 Hp)|apply write_law]|].
  intros r k2 (-> & Hs2 & Hc2 & Hi2 & _). apply wp_ret. cbn [Z.eqb] in *. by rewrite Hs2, Hs, Hc, Hi2.
Qed.
End server.

(** ** A machine *)

Module Machine.
(** One bufferevent and one buffer, identifiers that are counted, and a number
    of calls after which the next that makes an object fails. *)
Record machine := Mk { given : gset (kind * Z); next : Z; credit : nat; input : list Z; output : list Z; wire : list Z }.
Definition make (failed : Z) (kd : kind) : M machine Z :=
  λ k, if bool_decide (credit k = 0%nat ∨ next k ≤ 0 ∨ (kd, next k) ∈ given k)
       then Ok (failed, k)
       else Ok (next k, Mk (given k ∪ {[(kd, next k)]}) (next k + 1) (pred (credit k)) (input k) (output k) (wire k)).
Definition give (kd : kind) (x : Z) : M machine unit :=
  λ k, if bool_decide ((kd, x) ∈ given k)
       then Ok ((), Mk (given k ∖ {[(kd, x)]}) (next k) (credit k) (input k) (output k) (wire k)) else UB.
#[global] Instance machine_libevent : Libevent machine := {
  accept _ := make (-1) Descriptor; fcntl_getfl _ := mret 2; fcntl_setfl _ _ := mret 0; close := give Descriptor;
  malloc := make 0 Memory; mfree := give Memory; evbuffer_new := make 0 Buffer; evbuffer_free := give Buffer;
  event_base_new := make 0 Base; event_base_free := give Base;
  bufferevent_new _ _ := make 0 Bufferevent; bufferevent_free := give Bufferevent;
  bufferevent_base_set _ _ := mret (); bufferevent_settimeout _ _ _ := mret (); bufferevent_enable _ := mret ();
  evbuffer_length _ := gets (λ k, Z.of_nat (length (input k)));
  evbuffer_remove _ n := λ k, Ok (take (Z.to_nat n) (input k), Mk (given k) (next k) (credit k) (drop (Z.to_nat n) (input k)) (output k) (wire k));
  evbuffer_add _ d := λ k, Ok (0, Mk (given k) (next k) (credit k) (input k) (output k ++ d) (wire k));
  bufferevent_write_buffer _ _ := λ k, Ok (0, Mk (given k) (next k) (credit k) (input k) [] (wire k ++ output k));
  objects := given; bev_input k _ := input k; content k _ := output k; sent k _ := wire k;
}.
Lemma make_makes kd (ok : Z → bool) failed :
  ok failed = false → (∀ r, 0 < r → ok r = true) → makes kd ok (make failed kd).
Proof.
  intros Hf Hok k. unfold wp, make. case_bool_decide as E; [by left|right]. split; [apply Hok; lia|]. split; [|done].
  intros Hin. by apply E; right; right.
Qed.
Lemma give_gives kd : gives_back kd (give kd).
Proof. intros x k Hx. unfold wp, give. by rewrite bool_decide_true. Qed.
#[global] Instance machine_laws : LibeventLaws machine.
Proof.
  assert (∀ r, 0 < r → not_null r = true) as Hnn by (unfold not_null; intros; destruct (Z.eqb_spec r 0); [lia|done]).
  split; try done; intros; try (by apply give_gives); try (by apply make_makes).
  apply make_makes; [done|]. intros r ?. unfold not_negative. destruct (Z.ltb_spec r 0); [lia|done].
Qed.
(** A read that arrives, is echoed, and then an error of the socket. *)
Definition arrives (d : list Z) : M machine unit :=
  modify (λ k, Mk (given k) (next k) (credit k) (input k ++ d) (output k) (wire k)).
Definition session : list (M machine unit * callback) := [(arrives [104; 105], On_read); (mret (), On_write); (arrives [33], On_error)].
Definition start (n : nat) : machine := Mk ∅ 1 n [] [] [].
End Machine.

Lemma connection_gives_back_witness :
  quiet Machine.session ∧
  wp (connection 3 Machine.session) (Machine.start 10) (λ _ k', objects k' = objects (Machine.start 10)) ∧
  wp (connection 3 Machine.session) (Machine.start 4) (λ _ k', objects k' = objects (Machine.start 4)).
Proof.
  assert (quiet Machine.session) as Hq by (repeat constructor).
  split; [exact Hq|]. split; apply connection_gives_back, Hq.
Defined.

Lemma buffered_on_read_echoes_witness :
  wp (buffered_on_read (Client 1 2 3 4 5) 4) (Machine.Mk ∅ 1 0 [7; 8] [6] [5]) (λ c' k', c' = Client 1 2 3 4 5 ∧ bev_input k' 4 = [] ∧ content k' 5 = [] ∧
    sent k' 4 = [5; 6; 7; 8]).
Proof.
  eapply wp_mono.
  - apply (buffered_on_read_echoes (Client 1 2 3 4 5) 4 (Machine.Mk ∅ 1 0 [7; 8] [6] [5])); [split; intros; reflexivity|vm_compute; discriminate].
  - intros c' k' Hk. exact Hk.
Defined.
