(* ===== verification/SemOpt.v ===== *)
(** * Semaphore-PV: the operations on semaphores

    [SemOpt.c] over System V semaphores.  The kernel is a parameter: its calls,
    the value of each semaphore, and what [semget(2)], [semctl(2)] and [semop(2)]
    say about them.  [None] is a call that waits; no function of this file
    waits. *)
From S2P Require Import Prelude.

(** ** The kernel *)

Definition SEMVMX : Z := 32767.
Definition IPC_CREAT : Z := 512.

(** The calls on a kernel state [K]; [semval] is the value of a semaphore that exists. *)
Class Semaphores (K : Type) := {
  semget : Z → Z → Z → K → Z * K;
  semctl_setval : Z → Z → K → Z * K;
  semctl_getval : Z → K → Z;
  semctl_rmid : Z → K → Z * K;
  semop : Z → Z → bool → K → option (Z * K);
  semval : K → Z → option Z;
}.

Class SemaphoresLaws (K : Type) `{Semaphores K} : Prop := {
  semget_law key nsems flags k id k' :
    semget key nsems flags k = (id, k') → id = -1 ∨ is_Some (semval k' id);
  setval_law k id v w : semval k id = Some v → 0 ≤ w ≤ SEMVMX →
    ∃ k', semctl_setval id w k = (0, k') ∧ semval k' id = Some w;
  getval_law k id v : semval k id = Some v → semctl_getval id k = v;
  rmid_law k id v : semval k id = Some v → ∃ k', semctl_rmid id k = (0, k') ∧ semval k' id = None;
  (** What is added to the value must not take it out of its range; what
      would leave it negative fails or waits. *)
  semop_law k id v op nowait : semval k id = Some v → op ≠ 0 → 0 ≤ v + op ≤ SEMVMX →
    ∃ k', semop id op nowait k = Some (0, k') ∧ semval k' id = Some (v + op);
  semop_negative_law k id v op nowait : semval k id = Some v → v + op < 0 →
    semop id op nowait k = if nowait then Some (-1, k) else None;
}.

(** ** The library *)

Section library.
Context {K : Type} `{Semaphores K}.

Definition CreateSem (key value : Z) (k : K) : Z * K :=
  let '(semid, k) := semget key 1 (Z.lor IPC_CREAT 438) k in
  if semid =? -1 then (-1, k) else (semid, (semctl_setval semid value k).2).

Definition Sem_P (semid : Z) (k : K) : option (Z * K) := semop semid 1 true k.
Definition Sem_V (semid : Z) (k : K) : option (Z * K) := semop semid (-1) true k.
Definition SetvalueSem (semid value : Z) (k : K) : K := (semctl_setval semid value k).2.
Definition GetvalueSem (semid : Z) (k : K) : Z := semctl_getval semid k.
Definition DestroySem (semid : Z) (k : K) : K := (semctl_rmid semid k).2.

(** [n] calls of [Sem_P] in a row. *)
Fixpoint P_times (n : nat) (semid : Z) (k : K) : option (list Z * K) :=
  match n with
  | O => Some ([], k)
  | S n => '(r, k) ← Sem_P semid k; '(l, k) ← P_times n semid k; Some (r :: l, k)
  end.

Context `{!SemaphoresLaws K}.

Lemma P_times_adds k semid v n :
  semval k semid = Some v → 0 ≤ v → v + Z.of_nat n ≤ SEMVMX →
  ∃ k', P_times n semid k = Some (replicate n 0, k') ∧ semval k' semid = Some (v + Z.of_nat n).
Proof.
  revert k v. induction n as [|n IH]; intros k v Hv H0 Hmax.
  - exists k. by rewrite Z.add_0_r.
  - destruct (semop_law k semid v 1 true Hv) as (k1 & H1 & Hv1); [lia..|].
    destruct (IH k1 (v + 1) Hv1) as (k2 & H2 & Hv2); [lia..|].
    exists k2. split; [|rewrite Hv2; f_equal; lia]. simpl. unfold Sem_P. rewrite H1. simpl. by rewrite H2.
Qed.

Lemma CreateSem_value key value k semid k' :
  CreateSem key value k = (semid, k') → semid ≠ -1 → 0 ≤ value ≤ SEMVMX → semval k' semid = Some value.
Proof.
  unfold CreateSem. destruct (semget _ _ _ k) as [id k1] eqn:E. destruct (Z.eqb_spec id (-1)) as [->|Hid]; [by intros [= <- _]|].
  intros [= <- <-] _ Hv. destruct (semget_law _ _ _ _ _ _ E) as [?|[v Hid1]]; [done|].
  destruct (setval_law _ _ _ value Hid1 Hv) as (k2 & -> & Hk2). done.
Qed.

(** Nothing blocks: on a semaphore made with a value, every one of [n] calls of
    [Sem_P] that the greatest value of a semaphore leaves room for succeeds at once
    and adds one to it, and [Sem_V] fails at once when it was made with 0; so
    [Sem_P] never waits for [Sem_V]. *)
Theorem Sem_P_never_waits key value k semid k' n :
  CreateSem key value k = (semid, k') → semid ≠ -1 → 0 ≤ value → value + Z.of_nat n ≤ SEMVMX →
  (∃ k2, P_times n semid k' = Some (replicate n 0, k2) ∧ GetvalueSem semid k2 = value + Z.of_nat n) ∧
  (value = 0 → Sem_V semid k' = Some (-1, k')).
Proof.
  intros HC Hid H0 Hmax. pose proof (CreateSem_value _ _ _ _ _ HC Hid ltac:(lia)) as Hv. split.
  - destruct (P_times_adds _ _ _ n Hv) as (k2 & H2 & Hv2); [done..|]. exists k2. split; [done|]. by apply getval_law.
  - intros ->. unfold Sem_V. by rewrite (semop_negative_law _ _ _ (-1) true Hv).
Qed.
End library.

(** ** A kernel *)

(** The ids of the keys, the values of the ids, and the next id. *)
Record sems := Sems { ids : gmap Z Z; vals : gmap Z Z; next_id : Z }.

#[export] Instance sems_ops : Semaphores sems := {|
  semget key _ _ k :=
    match ids k !! key with
    | Some id => if decide (is_Some (vals k !! id)) then (id, k) else (-1, k)
    | None => (next_id k, Sems (<[key := next_id k]> (ids k)) (<[next_id k := 0]> (vals k)) (next_id k + 1))
    end;
  semctl_setval semid value k :=
    match vals k !! semid with
    | Some _ => if (0 <=? value) && (value <=? SEMVMX) then (0, Sems (ids k) (<[semid := value]> (vals k)) (next_id k)) else (-1, k)
    | None => (-1, k)
    end;
  semctl_getval semid k := default (-1) (vals k !! semid);
  semctl_rmid semid k :=
    match vals k !! semid with
    | Some _ => (0, Sems (filter (λ kv, kv.2 ≠ semid) (ids k)) (delete semid (vals k)) (next_id k))
    | None => (-1, k)
    end;
  semop semid op nowait k :=
    match vals k !! semid with
    | None => Some (-1, k)
    | Some v =>
        if v + op <? 0 then (if nowait then Some (-1, k) else None)
        else if v + op >? SEMVMX then Some (-1, k)
        else Some (0, Sems (ids k) (<[semid := v + op]> (vals k)) (next_id k))
    end;
  semval k semid := vals k !! semid;
|}.

#[export] Instance sems_laws : SemaphoresLaws sems.
Proof.
  split; simpl.
  - intros key _ _ k id k' Hg. destruct (ids k !! key) as [i|].
    + case_decide; simplify_eq; auto.
    + simplify_eq. right. simpl. rewrite lookup_insert_eq. by eexists.
  - intros k id v w -> Hw. rewrite (proj2 (Z.leb_le 0 w)), (proj2 (Z.leb_le w SEMVMX)) by lia. simpl.
    eexists. split; [done|]. simpl. apply lookup_insert_eq.
  - by intros k id v ->.
  - intros k id v ->. eexists. split; [done|]. simpl. apply lookup_delete_eq.
  - intros k id v op nowait -> _ Hr. rewrite (proj2 (Z.ltb_ge (v + op) 0)), Z.gtb_ltb, (proj2 (Z.ltb_ge SEMVMX (v + op))) by lia.
    eexists. split; [done|]. simpl. apply lookup_insert_eq.
  - intros k id v op nowait -> Hr. by rewrite (proj2 (Z.ltb_lt (v + op) 0)).
Qed.

Definition sem_demo : Z * sems := CreateSem 0x1234 1 (Sems ∅ ∅ 0).

Lemma Sem_P_never_waits_witness :
  (∃ k2, P_times 2 0 sem_demo.2 = Some (replicate 2 0, k2) ∧ GetvalueSem 0 k2 = 1 + Z.of_nat 2) ∧
  (1 = 0 → Sem_V 0 sem_demo.2 = Some (-1, sem_demo.2)).
Proof.
  apply (Sem_P_never_waits 0x1234 1 (Sems ∅ ∅ 0) 0 sem_demo.2 2); [by vm_compute|done|done|]. by vm_compute.
Defined.
