(* ===== verification/ReadLine.v ===== *)
(** * socket_lib: reading a line

    [read_line.c].  What [read(fd, &ch, 1)] gives, call after call, is a list:
    a byte, an interruption, another error; the end of the list is the end of
    the file.  The buffer is an array of [n] bytes or more. *)
From S2P Require Import Prelude.

Inductive read_result := Read (ch : Z) | Interrupted | Failed.
Definition LF : Z := 10.

(** The rest of the input and the buffer. *)
Record line_state := Line_state { input : list read_result; buf : list Z }.
Abbreviation RL := (M line_state).

(** The next result of [read]; [None] is the end of the file. *)
Definition read : RL (option read_result) := λ s,
  match input s with
  | [] => Ok (None, s)
  | r :: l => Ok (Some r, Line_state l (buf s))
  end.
Definition store (i ch : Z) : RL unit := λ s,
  if decide (0 ≤ i < Z.of_nat (length (buf s))) then Ok ((), Line_state (input s) (<[Z.to_nat i := ch]> (buf s))) else UB.

(** The loop returns from the function or is left with what has been read. *)
Inductive exit := Return (v : Z) | Break (totRead : Z).

Definition read_loop (n : Z) : RL exit :=
  s ← get;
  loop (S (length (input s))) (λ totRead,
    r ← read;
    match r with
    | Some Interrupted => mret (inl totRead)
    | Some Failed => mret (inr (Return (-1)))
    | None => mret (inr (if totRead =? 0 then Return 0 else Break totRead))
    | Some (Read ch) =>
        totRead ← (if totRead <? n - 1 then store totRead ch;; mret (totRead + 1) else mret totRead);
        mret (if ch =? LF then inr (Break totRead) else inl totRead)
    end) 0.

(** [buffer] is whether the pointer is not null. *)
Definition readLine (buffer : bool) (n : Z) : RL Z :=
  if (n <=? 0) || negb buffer then mret (-1) else
  x ← read_loop n;
  match x with
  | Return v => mret v
  | Break totRead => store totRead 0;; mret totRead
  end.

(** ** The line of an input *)

(** How the line ends: with its newline, at the end of the file, or in an error. *)
Inductive ending := Newline | End_of_file | Failure.

(** The bytes of the first line with its newline, how it ends, and the rest. *)
Fixpoint first_line (l : list read_result) : list Z * ending * list read_result :=
  match l with
  | [] => ([], End_of_file, [])
  | Interrupted :: l => first_line l
  | Failed :: l => ([], Failure, l)
  | Read ch :: l =>
      if ch =? LF then ([ch], Newline, l)
      else let '(bs, e, r) := first_line l in (ch :: bs, e, r)
  end.

(** The buffer with [bs] at its start. *)
Definition overlay (bs buf : list Z) : list Z := bs ++ drop (length bs) buf.

Lemma overlay_store bs buf i ch :
  Z.of_nat (length bs) = i → i < Z.of_nat (length buf) → <[Z.to_nat i := ch]> (overlay bs buf) = overlay (bs ++ [ch]) buf.
Proof.
  intros <- Hi. unfold overlay. rewrite Nat2Z.id, insert_app_r_alt, Nat.sub_diag by lia.
  rewrite <-app_assoc. f_equal. rewrite length_app. cbn [length].
  destruct (drop (length bs) buf) as [|y l] eqn:E.
  { apply (f_equal length) in E. rewrite length_drop in E. simpl in E. lia. }
  simpl. f_equal. assert (l = drop 1 (drop (length bs) buf)) as -> by (by rewrite E). by rewrite drop_drop.
Qed.

(** ** The contract *)

(** The bytes that are kept of the line [bs]. *)
Definition kept (n : Z) (bs : list Z) : list Z := take (Z.to_nat (n - 1)) bs.

Lemma kept_snoc n bs ch :
  0 < n → kept n (bs ++ [ch]) = if Z.of_nat (length (kept n bs)) <? n - 1 then kept n bs ++ [ch] else kept n bs.
Proof.
  intros Hn. unfold kept. rewrite length_take. destruct (Z.ltb_spec (Z.of_nat (Z.to_nat (n - 1) `min` length bs)) (n - 1)).
  - rewrite !take_ge by (rewrite ?length_app; simpl; lia). done.
  - by rewrite take_app_le by lia.
Qed.

Lemma kept_length n bs : 0 < n → Z.of_nat (length (kept n bs)) ≤ n - 1.
Proof. intros Hn. unfold kept. rewrite length_take. lia. Qed.

(** What the loop leaves for the line [bs] with the end [e]. *)
Definition line_exit (n : Z) (bs : list Z) (e : ending) : exit :=
  match e with
  | Failure => Return (-1)
  | Newline => Break (Z.of_nat (length (kept n bs)))
  | End_of_file => if Z.of_nat (length (kept n bs)) =? 0 then Return 0 else Break (Z.of_nat (length (kept n bs)))
  end.

Lemma wp_read_loop n l0 b0 bs e rest :
  0 < n ≤ Z.of_nat (length b0) → first_line l0 = (bs, e, rest) →
  wp (read_loop n) (Line_state l0 b0) (λ x s, x = line_exit n bs e ∧ s = Line_state rest (overlay (kept n bs) b0)).
Proof.
  intros Hn Hline. unfold read_loop. apply wp_bind, wp_get. cbn [input].
  eapply (wp_loop (λ m tot s, ∃ st bs' l, s = Line_state l (overlay (kept n st) b0) ∧ m = length l ∧ tot = Z.of_nat (length (kept n st)) ∧
    first_line l = (bs', e, rest) ∧ bs = st ++ bs')) with (n := length l0); [| |lia].
  2: { exists [], bs, l0. split_and!; try done; unfold kept, overlay; by rewrite take_nil. }
  intros m tot s (st & bs' & l & -> & -> & -> & Hl & ->). unfold read. apply wp_bind.
  destruct l as [|[ch| |] l]; unfold wp at 1; cbn [input buf]; simpl in Hl.
  - simplify_eq. rewrite app_nil_r. apply wp_ret. done.
  - apply wp_bind. apply (wp_mono _ _ (λ tot s, tot = Z.of_nat (length (kept n (st ++ [ch]))) ∧ s = Line_state l (overlay (kept n (st ++ [ch])) b0))).
    { rewrite kept_snoc by lia. destruct (Z.ltb_spec (Z.of_nat (length (kept n st))) (n - 1)) as [Hlt|]; [|by apply wp_ret].
      apply wp_bind. unfold store, wp. cbn [buf input]. rewrite decide_True.
      2: { unfold overlay. rewrite length_app, length_drop. lia. }
      rewrite (overlay_store _ _ _ ch eq_refl) by lia. rewrite length_app. simpl. split; [lia|done]. }
    intros tot s [-> ->]. apply wp_ret. destruct (ch =? LF).
    + simplify_eq. done.
    + destruct (first_line l) as [[bs2 e2] r2] eqn:Hl2. simplify_eq. exists (length l). split; [simpl; lia|].
      exists (st ++ [ch]), bs2, l. by rewrite <-app_assoc.
  - apply wp_ret. exists (length l). split; [simpl; lia|]. by exists st, bs', l.
  - simplify_eq. rewrite app_nil_r. by apply wp_ret.
Qed.

(** C38: [readLine] stores the first [n - 1] bytes of the next line and a null byte
    after them, takes the whole line from the input, and stays within [n] bytes
    of the buffer; it returns the number of bytes stored, 0 at the end of the
    file (where nothing is stored when nothing was kept) and -1 on an error. *)
Theorem readLine_spec n l0 b0 bs e rest :
  0 < n ≤ Z.of_nat (length b0) → first_line l0 = (bs, e, rest) →
  ∃ v b1, readLine true n (Line_state l0 b0) = Ok (v, Line_state rest b1) ∧ length b1 = length b0 ∧
    drop (Z.to_nat n) b1 = drop (Z.to_nat n) b0 ∧
    match e with
    | Failure => v = -1
    | Newline => v = Z.of_nat (length (kept n bs)) ∧ take (Z.to_nat v + 1) b1 = kept n bs ++ [0]
    | End_of_file => v = Z.of_nat (length (kept n bs)) ∧
        if decide (v = 0) then b1 = b0 else take (Z.to_nat v + 1) b1 = kept n bs ++ [0]
    end.
Proof.
  intros Hn Hline. pose proof (kept_length n bs ltac:(lia)) as Hk.
  assert (∀ x, Z.of_nat (length x) ≤ n → length (overlay x b0) = length b0 ∧ drop (Z.to_nat n) (overlay x b0) = drop (Z.to_nat n) b0) as Hov.
  { intros x Hx. unfold overlay. split; [rewrite length_app, length_drop; lia|].
    rewrite drop_app_ge by lia. rewrite drop_drop. f_equal. lia. }
  assert (∀ v, v = Z.of_nat (length (kept n bs)) →
    wp (store v 0;; mret v) (Line_state rest (overlay (kept n bs) b0))
      (λ r s, r = v ∧ s = Line_state rest (overlay (kept n bs ++ [0]) b0))) as Hstore.
  { intros v ->. apply wp_bind. unfold store, wp at 1. cbn [buf input]. rewrite decide_True.
    2: { rewrite (proj1 (Hov (kept n bs) ltac:(lia))). lia. }
    rewrite (overlay_store _ _ _ 0 eq_refl) by lia. by apply wp_ret. }
  assert (wp (readLine true n) (Line_state l0 b0) (λ v s,
    (v = Z.of_nat (length (kept n bs)) ∧ e ≠ Failure ∧ (e = End_of_file → v ≠ 0) ∧ s = Line_state rest (overlay (kept n bs ++ [0]) b0)) ∨
    (s = Line_state rest (overlay (kept n bs) b0) ∧ ((e = Failure ∧ v = -1) ∨ (e = End_of_file ∧ kept n bs = [] ∧ v = 0))))) as Hwp.
  { unfold readLine. rewrite (proj2 (Z.leb_gt _ _)) by lia. simpl. apply wp_bind. eapply wp_mono; [by apply wp_read_loop|].
    intros x s [-> ->]. destruct e; cbn [line_exit].
    - eapply wp_mono; [by apply Hstore|]. intros v s [-> ->]. left. by split_and!.
    - destruct (Z.eqb_spec (Z.of_nat (length (kept n bs))) 0) as [Hz|Hnz].
      + apply wp_ret. right. split; [done|]. right. destruct (kept n bs); simpl in *; [done|lia].
      + eapply wp_mono; [by apply Hstore|]. intros v s [-> ->]. left. by split_and!.
    - apply wp_ret. right. split; [done|]. by left. }
  destruct (proj1 (wp_ok _ _ _) Hwp) as (v & s & Hr & [(Hv & He & Heof & ->)|[-> Hc]]).
  - exists v, (overlay (kept n bs ++ [0]) b0). split; [done|]. destruct (Hov (kept n bs ++ [0])) as [H1 H2]; [rewrite length_app; simpl; lia|].
    split_and!; [done..|]. assert (take (Z.to_nat v + 1) (overlay (kept n bs ++ [0]) b0) = kept n bs ++ [0]) as Ht.
    { unfold overlay. rewrite take_app_le by (rewrite length_app; simpl; lia). apply take_ge. rewrite length_app. simpl. lia. }
    destruct e; try done. split; [done|]. rewrite decide_False; [done|]. by apply Heof.
  - exists v, (overlay (kept n bs) b0). split; [done|]. destruct (Hov (kept n bs) ltac:(lia)) as [H1 H2].
    split_and!; [done..|]. destruct Hc as [[-> ->]|(-> & Hk0 & ->)]; [done|]. rewrite Hk0. split; [done|]. by rewrite decide_True.
Qed.

Lemma readLine_spec_witness :
  ∃ v b1, readLine true 3 (Line_state [Read 65; Interrupted; Read 66; Read 67; Read 10; Read 68] [1; 2; 3; 4]) = Ok (v, Line_state [Read 68] b1) ∧
    length b1 = length [1; 2; 3; 4] ∧ drop (Z.to_nat 3) b1 = drop (Z.to_nat 3) [1; 2; 3; 4] ∧
    (v = Z.of_nat (length (kept 3 [65; 66; 67; 10])) ∧ take (Z.to_nat v + 1) b1 = kept 3 [65; 66; 67; 10] ++ [0]).
Proof.
  apply (readLine_spec 3 [Read 65; Interrupted; Read 66; Read 67; Read 10; Read 68] [1; 2; 3; 4] [65; 66; 67; 10] Newline [Read 68]);
    [simpl; lia|reflexivity].
Defined.
