(* ===== verification/GetNum.v ===== *)
(** * errno: numbers on the command line

    [get_num.c] over [strtol(3)] of the C library on a 64-bit machine, in the C
    locale.  A string is the list of its characters, without the null at the
    end; [None] is [exit(EXIT_FAILURE)] after the message. *)
From S2P Require Import Prelude.

Definition GN_NONNEG : Z := 1.
Definition GN_GT_0 : Z := 2.
Definition GN_ANY_BASE : Z := 64.
Definition GN_BASE_8 : Z := 128.
Definition GN_BASE_16 : Z := 256.
Definition LONG_MAX : Z := 2 ^ 63 - 1.
Definition LONG_MIN : Z := - 2 ^ 63.

(** ** [strtol] *)

Definition isspace (c : Z) : bool := (c =? 32) || ((9 <=? c) && (c <=? 13)).

(** The digit a character stands for. *)
Definition digit (c : Z) : option Z :=
  if (48 <=? c) && (c <=? 57) then Some (c - 48)
  else if (97 <=? c) && (c <=? 122) then Some (c - 87)
  else if (65 <=? c) && (c <=? 90) then Some (c - 55)
  else None.
Definition digit_in (base c : Z) : option Z := d ← digit c; if d <? base then Some d else None.

Fixpoint skip_space (s : list Z) : list Z :=
  match s with c :: s' => if isspace c then skip_space s' else s | [] => [] end.

(** The value of the digits in front, and what follows them. *)
Fixpoint digits (base acc : Z) (s : list Z) : Z * list Z :=
  match s with
  | c :: s' => match digit_in base c with Some d => digits base (acc * base + d) s' | None => (acc, s) end
  | [] => (acc, [])
  end.

(** A sign in front. *)
Definition split_sign (s : list Z) : bool * list Z :=
  match s with
  | c :: s' => if c =? 45 then (true, s') else if c =? 43 then (false, s') else (false, s)
  | [] => (false, [])
  end.

(** A prefix 0x counts when a hexadecimal digit follows it. *)
Definition hex_prefix (s : list Z) : option (list Z) :=
  match s with
  | z :: x :: c :: s' =>
      if (z =? 48) && ((x =? 120) || (x =? 88)) && bool_decide (is_Some (digit_in 16 c)) then Some (c :: s') else None
  | _ => None
  end.

(** The base that is used, and the text after a prefix. *)
Definition find_base (base : Z) (s : list Z) : Z * list Z :=
  if (base =? 0) || (base =? 16) then
    match hex_prefix s with
    | Some s' => (16, s')
    | None => (if base =? 16 then 16 else match s with c :: _ => if c =? 48 then 8 else 10 | [] => 10 end, s)
    end
  else (base, s).

(** The value, the text from [endptr] on, and whether [errno] is set. *)
Definition strtol (arg : list Z) (base : Z) : Z * list Z * bool :=
  let s := skip_space arg in
  let '(neg, s) := split_sign s in
  let '(base, s) := find_base base s in
  match s with
  | c :: _ =>
      match digit_in base c with
      | Some _ =>
          let '(v, rest) := digits base 0 s in
          let v := if (neg : bool) then - v else v in
          if v >? LONG_MAX then (LONG_MAX, rest, true)
          else if v <? LONG_MIN then (LONG_MIN, rest, true)
          else (v, rest, false)
      | None => (0, arg, false)
      end
  | [] => (0, arg, false)
  end.

(** ** The library *)

Definition flag (flags f : Z) : bool := negb (Z.land flags f =? 0).

(** [None] for [arg] is the null pointer. *)
Definition getNum (arg : option (list Z)) (flags : Z) : option Z :=
  match arg with
  | None | Some [] => None
  | Some arg =>
      let base := if flag flags GN_ANY_BASE then 0 else if flag flags GN_BASE_8 then 8
                  else if flag flags GN_BASE_16 then 16 else 10 in
      let '(res, endptr, errno) := strtol arg base in
      if (errno : bool) then None else
      match endptr with _ :: _ => None | [] =>
        if flag flags GN_NONNEG && (res <? 0) then None else
        if flag flags GN_GT_0 && (res <=? 0) then None else
        Some res
      end
  end.

Definition getLong (arg : option (list Z)) (flags : Z) : option Z := getNum arg flags.

Definition getInt (arg : option (list Z)) (flags : Z) : option Z :=
  res ← getNum arg flags;
  if (res >? INT_MAX) || (res <? INT_MIN) then None else Some res.

(** ** Printing *)

Definition digit_char (d : Z) : Z := if d <? 10 then d + 48 else d + 87.

Fixpoint print_nat (fuel : nat) (base n : Z) : list Z :=
  match fuel with
  | O => []
  | S f => if n <? base then [digit_char n] else print_nat f base (n / base) ++ [digit_char (n mod base)]
  end.

(** [n] in [base], with a sign in front when it is negative. *)
Definition print_num (base n : Z) : list Z :=
  let m := Z.abs n in
  (if n <? 0 then [45] else []) ++ print_nat (S (Z.to_nat m)) base m.

(** ** Properties *)

Lemma digit_char_ok base d : 0 ≤ d < base → base ≤ 16 → digit_in base (digit_char d) = Some d.
Proof.
  intros Hd Hb. unfold digit_in, digit_char, digit.
  destruct (Z.ltb_spec d 10).
  - rewrite (proj2 (Z.leb_le 48 _)), (proj2 (Z.leb_le _ 57)) by lia. simpl. replace (d + 48 - 48) with d by lia.
    by rewrite (proj2 (Z.ltb_lt _ _)) by lia.
  - rewrite (proj2 (Z.leb_le 48 _)), (proj2 (Z.leb_gt _ 57)), (proj2 (Z.leb_le 97 _)), (proj2 (Z.leb_le _ 122)) by lia. simpl.
    replace (d + 87 - 87) with d by lia. by rewrite (proj2 (Z.ltb_lt _ _)) by lia.
Qed.

Lemma digits_app base acc l rest :
  Forall (λ c, is_Some (digit_in base c)) l → digits base acc (l ++ rest) = digits base (digits base acc l).1 rest.
Proof.
  revert acc. induction l as [|c l IH]; intros acc Hl; [done|]. apply Forall_cons in Hl as [[d Hd] Hl].
  simpl. rewrite Hd. by apply IH.
Qed.

Section print.
Context (base : Z) (Hbase : 2 ≤ base ≤ 16).

Lemma print_nat_digits fuel n :
  0 ≤ n < Z.of_nat fuel → Forall (λ c, is_Some (digit_in base c)) (print_nat fuel base n) ∧
    digits base 0 (print_nat fuel base n) = (n, []).
Proof.
  revert n. induction fuel as [|fuel IH]; intros n Hn; [lia|]. simpl. destruct (Z.ltb_spec n base).
  - pose proof (digit_char_ok base n ltac:(lia) ltac:(lia)) as Hd. split; [by repeat constructor|]. simpl. by rewrite Hd.
  - assert (0 ≤ n / base < Z.of_nat fuel) as Hq.
    { split; [apply Z.div_pos; lia|]. apply Z.div_lt_upper_bound; nia. }
    destruct (IH _ Hq) as [Hall Hdig]. pose proof (Z.mod_pos_bound n base ltac:(lia)) as Hm.
    pose proof (digit_char_ok base (n mod base) ltac:(lia) ltac:(lia)) as Hd. split.
    + apply Forall_app. split; [done|by repeat constructor].
    + rewrite digits_app by done. rewrite Hdig. simpl. rewrite Hd. f_equal. pose proof (Z.div_mod n base). lia.
Qed.

(** A printed number starts with a digit; only 0 starts with the digit 0. *)
Lemma print_nat_head fuel n :
  0 ≤ n < Z.of_nat fuel → ∃ c l, print_nat fuel base n = c :: l ∧ is_Some (digit_in base c) ∧ (c = 48 → l = [] ∧ n = 0).
Proof.
  revert n. induction fuel as [|fuel IH]; intros n Hn; [lia|]. simpl. destruct (Z.ltb_spec n base).
  - exists (digit_char n), []. split_and!; [done| |].
    + by rewrite digit_char_ok by lia.
    + unfold digit_char. destruct (n <? 10); intros; split; [done|lia|done|lia].
  - assert (0 ≤ n / base < Z.of_nat fuel) as Hq.
    { split; [apply Z.div_pos; lia|]. apply Z.div_lt_upper_bound; nia. }
    destruct (IH _ Hq) as (c & l & -> & Hc & H0). exists c, (l ++ [digit_char (n mod base)]). split_and!; [done..|].
    intros E. destruct (H0 E) as [_ Hz]. apply Z.div_small_iff in Hz; lia.
Qed.
End print.

Lemma digit_not_space base c : is_Some (digit_in base c) → isspace c = false ∧ c ≠ 45 ∧ c ≠ 43 ∧ c ≠ 120 ∧ c ≠ 88 ∨ 16 < base.
Proof.
  intros [d Hd]. unfold digit_in, digit in Hd. unfold isspace.
  destruct (Z_lt_le_dec 16 base); [by right|left].
  repeat (case_match; simpl in Hd; try done); simplify_eq;
    rewrite ?andb_true_iff, ?andb_false_iff, ?Z.leb_le, ?Z.leb_gt, ?Z.ltb_lt in *;
    (split_and!; [apply orb_false_iff; split; [apply Z.eqb_neq; lia|apply andb_false_iff; rewrite !Z.leb_gt; lia]|lia..]).
Qed.

(** The base of a printed number, for each value of the flags. *)
Definition num_base (flags : Z) : Z :=
  if flag flags GN_ANY_BASE then 10 else if flag flags GN_BASE_8 then 8 else if flag flags GN_BASE_16 then 16 else 10.
Definition strtol_base (flags : Z) : Z :=
  if flag flags GN_ANY_BASE then 0 else if flag flags GN_BASE_8 then 8 else if flag flags GN_BASE_16 then 16 else 10.

Lemma find_base_print flags c l :
  (c = 48 → l = []) → c = 48 ∨ c ≠ 48 →
  (find_base (strtol_base flags) (c :: l)).2 = c :: l ∧
  ((find_base (strtol_base flags) (c :: l)).1 = num_base flags ∨
   c = 48 ∧ l = [] ∧ (find_base (strtol_base flags) (c :: l)).1 = 8).
Proof.
  intros Hz Hc. assert (hex_prefix (c :: l) = None) as Hhex.
  { unfold hex_prefix. destruct l as [|x [|y l]]; try done. destruct (Z.eqb_spec c 48) as [->|]; [by specialize (Hz eq_refl)|done]. }
  unfold find_base, strtol_base, num_base. rewrite Hhex.
  destruct (flag flags GN_ANY_BASE); [|destruct (flag flags GN_BASE_8); [|destruct (flag flags GN_BASE_16)]]; simpl.
  2-4: split; [done|by left].
  split; [done|]. destruct (Z.eqb_spec c 48) as [->|]; [right; by split_and!; [|apply Hz|]|by left].
Qed.

Lemma num_base_range flags : 2 ≤ num_base flags ≤ 16.
Proof. unfold num_base. repeat case_match; lia. Qed.

(** The number after the sign. *)
Lemma strtol_print flags n :
  strtol (print_num (num_base flags) n) (strtol_base flags) =
  if n >? LONG_MAX then (LONG_MAX, [], true) else if n <? LONG_MIN then (LONG_MIN, [], true) else (n, [], false).
Proof.
  pose proof (num_base_range flags) as Hb. set (m := Z.abs n). assert (0 ≤ m < Z.of_nat (S (Z.to_nat m))) as Hm by lia.
  destruct (print_nat_digits _ Hb _ _ Hm) as [_ Hdig]. destruct (print_nat_head _ Hb _ _ Hm) as (c & l & E & Hc & H0).
  assert (split_sign (skip_space (print_num (num_base flags) n)) = (n <? 0, c :: l)) as Hsign.
  { unfold print_num. fold m. rewrite E. destruct (digit_not_space _ _ Hc) as [(Hsp & H1 & H2 & _)|]; [|lia].
    destruct (n <? 0); simpl; [done|]. rewrite Hsp. simpl.
    by rewrite (proj2 (Z.eqb_neq _ _) H1), (proj2 (Z.eqb_neq _ _) H2). }
  rewrite E in Hdig. unfold strtol. rewrite Hsign.
  destruct (find_base_print flags c l) as [H2 H1]; [intros; by apply H0|lia|].
  destruct (find_base (strtol_base flags) (c :: l)) as [b s]. simpl in H1, H2. subst s.
  assert (digits b 0 (c :: l) = (m, []) ∧ is_Some (digit_in b c)) as [Hd [d Hdb]].
  { destruct H1 as [->|(-> & -> & ->)]; [done|]. destruct (H0 eq_refl) as [_ Hm0]. rewrite Hm0. split; [done|by eexists]. }
  rewrite Hdb, Hd. assert ((if n <? 0 then - m else m) = n) as -> by (destruct (Z.ltb_spec n 0); lia). done.
Qed.

(** Whether the flags allow a value. *)
Definition allowed (flags n : Z) : bool :=
  negb (flag flags GN_NONNEG && (n <? 0)) && negb (flag flags GN_GT_0 && (n <=? 0)).

(** C39: A number printed in the base of the flags is read back, by [getLong] when
    it is a [long] and by [getInt] when it is an [int], unless the flags rule it
    out; every other number ends the program. *)
Theorem getNum_roundtrip flags n :
  getLong (Some (print_num (num_base flags) n)) flags =
    (if (LONG_MIN <=? n) && (n <=? LONG_MAX) && allowed flags n then Some n else None) ∧
  getInt (Some (print_num (num_base flags) n)) flags =
    (if (INT_MIN <=? n) && (n <=? INT_MAX) && allowed flags n then Some n else None).
Proof.
  assert (getNum (Some (print_num (num_base flags) n)) flags =
    if (LONG_MIN <=? n) && (n <=? LONG_MAX) && allowed flags n then Some n else None) as H.
  { pose proof (strtol_print flags n) as Hs. destruct (print_num (num_base flags) n) as [|c l] eqn:E.
    - exfalso. unfold print_num in E. apply app_eq_nil in E as [_ E].
      destruct (print_nat_head _ (num_base_range flags) (S (Z.to_nat (Z.abs n))) (Z.abs n)) as (? & ? & Hp & _); [lia|congruence].
    - unfold getNum. fold (strtol_base flags). rewrite Hs, Z.gtb_ltb.
      destruct (Z.ltb_spec LONG_MAX n); [rewrite (proj2 (Z.leb_gt n LONG_MAX)) by done; by rewrite andb_false_r|].
      destruct (Z.ltb_spec n LONG_MIN); [by rewrite (proj2 (Z.leb_gt LONG_MIN n)) by done|].
      rewrite (proj2 (Z.leb_le n LONG_MAX)), (proj2 (Z.leb_le LONG_MIN n)) by done. simpl. unfold allowed.
      destruct (flag flags GN_NONNEG && (n <? 0)); [done|]. by destruct (flag flags GN_GT_0 && (n <=? 0)). }
  split; [done|]. unfold getInt. rewrite H. assert (LONG_MIN < INT_MIN ∧ INT_MAX < LONG_MAX) as [Hmin Hmax] by done.
  destruct (allowed flags n); rewrite ?andb_true_r, ?andb_false_r; [|done].
  destruct (Z.leb_spec LONG_MIN n), (Z.leb_spec n LONG_MAX); simpl; rewrite ?Z.gtb_ltb;
    destruct (Z.leb_spec INT_MIN n), (Z.leb_spec n INT_MAX); simpl; try lia; try done;
    destruct (Z.ltb_spec INT_MAX n), (Z.ltb_spec n INT_MIN); simpl; done || lia.
Qed.
