(* ===== verification/TimeWheel.v ===== *)
(** * timer: the wheel of timers

    [time_wheel.h]: a ring of 60 doubly linked lists of timers; a tick serves
    one list and turns the wheel by one slot.  The timers are objects on the C++
    heap; what the callbacks are called with is recorded. *)
From S2P Require Import Prelude.

(** ** Data *)

Record tw_timer := Tw_timer {
  rotation : Z; time_slot : Z; cb_func : Z; user_data : Z; next : Z; prev : Z;
}.
Definition set_next (n : Z) (x : tw_timer) : tw_timer :=
  Tw_timer (rotation x) (time_slot x) (cb_func x) (user_data x) n (prev x).
Definition set_prev (p : Z) (x : tw_timer) : tw_timer :=
  Tw_timer (rotation x) (time_slot x) (cb_func x) (user_data x) (next x) p.
Definition set_rotation (r : Z) (x : tw_timer) : tw_timer :=
  Tw_timer r (time_slot x) (cb_func x) (user_data x) (next x) (prev x).

Definition N : Z := 60.
Definition SI : Z := 1.

(** [class time_wheel], and the calls of the callbacks. *)
Record time_wheel := Time_wheel { slots : list Z; cur_slot : Z; fired : list (Z * Z) }.
Abbreviation TW := (M (st tw_timer time_wheel)).

Definition slot_get (i : Z) : TW Z := λ s,
  if decide (0 ≤ i) then
    match slots (env s) !! Z.to_nat i with Some t => Ok (t, s) | None => UB end
  else UB.
Definition slot_set (i t : Z) : TW unit := λ s,
  if decide (0 ≤ i < Z.of_nat (length (slots (env s)))) then
    Ok ((), St (mem s) (Time_wheel (<[Z.to_nat i := t]> (slots (env s))) (cur_slot (env s)) (fired (env s))))
  else UB.

(** ** Operations *)

Definition time_wheel_new : time_wheel := Time_wheel (replicate (Z.to_nat N) 0) 0 [].

(** Frees the list in the slot [i]; the number of objects bounds its length. *)
Definition delete_slot (i : Z) : TW unit :=
  s ← get;
  tmp ← slot_get i;
  loop (S (size (mem s))) (λ tmp,
    if tmp =? 0 then mret (inr ()) else
    n ← fget next tmp;
    slot_set i n;;
    free tmp;;
    tmp ← slot_get i;
    mret (inl tmp)) tmp.

Definition time_wheel_delete : TW unit :=
  loop (S (Z.to_nat N)) (λ i,
    if i <? N then delete_slot i;; mret (inl (i + 1)) else mret (inr ())) 0.

(** [new tw_timer(rot, ts)] at the address that [operator new] gives. *)
Definition new_tw_timer (timer rot ts cb data : Z) : TW unit := λ s,
  Ok ((), St (<[timer := Tw_timer rot ts cb data 0 0]> (mem s)) (env s)).

(** [timer] is the address of the new object. *)
Definition add_timer (timer timeout cb data : Z) : TW Z :=
  if timeout <? 0 then mret 0 else
  let ticks := if timeout <? SI then 1 else timeout ÷ SI in
  let rot := ticks ÷ N in
  e ← get_env;
  let ts := Z.rem (cur_slot e + Z.rem ticks N) N in
  new_tw_timer timer rot ts cb data;;
  h ← slot_get ts;
  (if h =? 0 then slot_set ts timer
   else
     fset (set_next h) timer;;
     fset (set_prev timer) h;;
     slot_set ts timer);;
  mret timer.

(** Takes [timer] out of the middle of its list and returns what follows it. *)
Definition unlink (timer : Z) : TW Z :=
  p ← fget prev timer;
  n ← fget next timer;
  fset (set_next n) p;;
  when (negb (n =? 0)) (fset (set_prev p) n);;
  mret n.

Definition del_timer (timer : Z) : TW unit :=
  if timer =? 0 then mret () else
  ts ← fget time_slot timer;
  h ← slot_get ts;
  if timer =? h then
    n ← fget next h;
    slot_set ts n;;
    when (negb (n =? 0)) (fset (set_prev 0) n);;
    free timer
  else
    unlink timer;;
    free timer.

(** The call of a function pointer, which must not be null. *)
Definition call (cb data : Z) : TW unit :=
  assert (negb (cb =? 0));;
  e ← get_env; put_env (Time_wheel (slots e) (cur_slot e) (fired e ++ [(cb, data)])).

(** [cur_slot = ++cur_slot % N]. *)
Definition turn : TW unit :=
  e ← get_env; put_env (Time_wheel (slots e) (Z.rem (cur_slot e + 1) N) (fired e)).

(** A round of the loop of [tick], and [tick]; a list is not longer than the
    number of objects. *)
Definition tick_round (cur tmp : Z) : TW (Z + unit) :=
  if tmp =? 0 then mret (inr ()) else
  r ← fget rotation tmp;
  if r >? 0 then
    fset (set_rotation (r - 1)) tmp;;
    n ← fget next tmp;
    mret (inl n)
  else
    cb ← fget cb_func tmp;
    data ← fget user_data tmp;
    call cb data;;
    h ← slot_get cur;
    if tmp =? h then
      n ← fget next tmp;
      slot_set cur n;;
      free tmp;;
      h ← slot_get cur;
      when (negb (h =? 0)) (fset (set_prev 0) h);;
      mret (inl h)
    else
      n ← unlink tmp;
      free tmp;;
      mret (inl n).

Definition tick : TW unit :=
  s ← get;
  tmp ← slot_get (cur_slot (env s));
  loop (S (size (mem s))) (tick_round (cur_slot (env s))) tmp;;
  turn.

(** ** Executions *)

(** A use of the wheel, and a sequence of them. *)
Inductive op := Add (timer timeout cb data : Z) | Del (timer : Z) | Tick.
Definition exec (o : op) : TW unit :=
  match o with
  | Add t x cb d => add_timer t x cb d;; mret ()
  | Del t => del_timer t
  | Tick => tick
  end.
Fixpoint execs (l : list op) : TW unit :=
  match l with [] => mret () | o :: l => exec o;; execs l end.

Definition init_st : st tw_timer time_wheel := St ∅ time_wheel_new.

Example execs_demo :
  match (execs (Add 8 1 5 6 :: Add 16 1 5 7 :: Add 24 0 5 8 :: Add 32 61 5 9 :: Del 16 :: replicate 62 Tick)) init_st with
  | Ok (_, s) => fired (env s) = [(5, 8); (5, 6); (5, 9)] ∧ mem s = ∅
  | _ => False
  end.
Proof. by vm_compute. Qed.
