(* ===== verification/TimeWheelProps.v ===== *)
(** * timer: the contract of the wheel

    The wheel is a set of countdowns: a timer that was added with the timeout
    [t] waits for [max t 1] ticks and fires in the one after them. *)
From S2P Require Import Prelude TimeWheel.
From Stdlib Require Import ZifyNat.
#[local] Open Scope Z_scope.

Ltac Zify.zify_post_hook ::= Z.to_euclidean_division_equations.

(** ** Doubly linked segments *)

Section segments.
Implicit Types (m : gmap Z tw_timer) (l : list Z) (x : tw_timer).

(** The objects [l], linked from the pointer [h] to the pointer [n]; [p] is
    what the first one has as its predecessor. *)
Fixpoint seg m (p h : Z) l (n : Z) : Prop :=
  match l with
  | [] => h = n
  | t :: l' => h = t ∧ t ≠ 0 ∧ ∃ x, m !! t = Some x ∧ prev x = p ∧ seg m t (next x) l' n
  end.

Lemma seg_live m p h l n t : seg m p h l n → t ∈ l → t ≠ 0 ∧ is_Some (m !! t).
Proof.
  revert p h. induction l as [|u l IH]; intros p h Hs Ht; [by apply not_elem_of_nil in Ht|].
  destruct Hs as (-> & Hu & x & Hx & _ & Hs). apply elem_of_cons in Ht as [->|Ht]; [by split|by eapply IH].
Qed.

(** A segment depends on the links of its objects only. *)
Lemma seg_links m m' p h l n :
  (∀ t x, t ∈ l → m !! t = Some x → ∃ x', m' !! t = Some x' ∧ prev x' = prev x ∧ next x' = next x) →
  seg m p h l n → seg m' p h l n.
Proof.
  revert p h. induction l as [|t l IH]; intros p h Hm; [done|].
  intros (-> & Ht & x & Hx & Hp & Hs). destruct (Hm t x) as (x' & Hx' & Hp' & Hn'); [left|done|].
  split_and!; [done..|]. exists x'. split_and!; [done|congruence|]. rewrite Hn'. apply IH; [|done].
  intros. apply Hm; [by right|done].
Qed.

Lemma seg_frame m m' p h l n : (∀ t, t ∈ l → m' !! t = m !! t) → seg m p h l n → seg m' p h l n.
Proof. intros Hm. apply seg_links. intros t x Ht Hx. exists x. by rewrite Hm. Qed.

Lemma seg_app m p h l1 l2 n :
  seg m p h (l1 ++ l2) n ↔ ∃ h2, seg m p h l1 h2 ∧ seg m (default p (last l1)) h2 l2 n.
Proof.
  revert p h. induction l1 as [|t l1 IH]; intros p h.
  - simpl. split; [by eauto|by intros (? & -> & ?)].
  - assert (default p (last (t :: l1)) = default t (last l1)) as -> by (rewrite last_cons; destruct (last l1); reflexivity).
    simpl. setoid_rewrite IH. naive_solver.
Qed.

Lemma seg_set_prev m p p' t l n x :
  t ∉ l → m !! t = Some x → seg m p t (t :: l) n → seg (<[t := set_prev p' x]> m) p' t (t :: l) n.
Proof.
  intros Hl Hx (_ & Ht & x' & Hx' & Hp & Hs). rewrite Hx in Hx'. injection Hx' as <-. split_and!; [done..|].
  exists (set_prev p' x). rewrite lookup_insert_eq. split_and!; [done..|]. simpl. eapply seg_frame, Hs.
  intros u Hu. apply lookup_insert_ne. by intros ->.
Qed.

Lemma seg_set_next m p h l n q x n' :
  NoDup (l ++ [q]) → m !! q = Some x → seg m p h (l ++ [q]) n → seg (<[q := set_next n' x]> m) p h (l ++ [q]) n'.
Proof.
  intros Hnd Hx Hs. apply seg_app in Hs as (h2 & Hs & -> & Hq & x' & Hx' & Hp & Hn). rewrite Hx in Hx'. injection Hx' as <-.
  apply NoDup_app in Hnd as (_ & Hnd & _). apply seg_app. exists q. split.
  - eapply seg_frame, Hs. intros u Hu. apply lookup_insert_ne. intros ->. apply (Hnd u Hu). left.
  - split_and!; [done..|]. exists (set_next n' x). rewrite lookup_insert_eq. by split_and!.
Qed.
End segments.

(** ** The wheel *)

(** What a timer is but for its place in its list. *)
Definition core (x : tw_timer) : tw_timer := set_next 0 (set_prev 0 x).

(** [ls i] is the list of the slot [i]. *)
Record wheel_lists (ls : Z → list Z) (s : st tw_timer time_wheel) : Prop := {
  w_len : length (slots (env s)) = 60%nat;
  w_cur : 0 ≤ cur_slot (env s) < 60;
  w_seg : ∀ i, 0 ≤ i < 60 → seg (mem s) 0 (slots (env s) !!! Z.to_nat i) (ls i) 0;
  w_nodup : ∀ i, 0 ≤ i < 60 → NoDup (ls i);
  w_slot : ∀ i t, 0 ≤ i < 60 → t ∈ ls i → ∃ x, mem s !! t = Some x ∧ time_slot x = i;
  w_data : ∀ t x, mem s !! t = Some x → 0 ≤ time_slot x < 60 ∧ t ∈ ls (time_slot x) ∧ 0 ≤ rotation x;
}.

(** The 60 lists hold every timer, once, in the slot that it names. *)
Definition wheel_ok (s : st tw_timer time_wheel) : Prop := ∃ ls, wheel_lists ls s.

(** The ticks that a timer lets pass, and what it calls. *)
Definition remaining (cur : Z) (x : tw_timer) : Z := 60 * rotation x + (time_slot x - cur) mod 60.
Definition timers (s : st tw_timer time_wheel) : gmap Z (Z * Z * Z) :=
  (λ x, (remaining (cur_slot (env s)) x, cb_func x, user_data x)) <$> mem s.

Definition upd (ls : Z → list Z) (i : Z) (l : list Z) : Z → list Z := λ j, if decide (j = i) then l else ls j.

Section wheel.
Implicit Types (s : st tw_timer time_wheel) (ls : Z → list Z) (x : tw_timer) (t i : Z).

Lemma slot_get_spec ls s i Q :
  wheel_lists ls s → 0 ≤ i < 60 → Q (slots (env s) !!! Z.to_nat i) s → wp (slot_get i) s Q.
Proof.
  intros [Hlen _ _ _ _ _] Hi HQ. unfold wp, slot_get. rewrite decide_True by lia.
  destruct (lookup_lt_is_Some_2 (slots (env s)) (Z.to_nat i)) as [t Ht]; [lia|]. rewrite Ht.
  by rewrite (list_lookup_total_correct _ _ _ Ht) in HQ.
Qed.

(** The same for any memory, when the array is known. *)
Lemma slot_get_at s i Q :
  length (slots (env s)) = 60%nat → 0 ≤ i < 60 → Q (slots (env s) !!! Z.to_nat i) s → wp (slot_get i) s Q.
Proof.
  intros Hlen Hi HQ. unfold wp, slot_get. rewrite decide_True by lia.
  destruct (lookup_lt_is_Some_2 (slots (env s)) (Z.to_nat i)) as [t Ht]; [lia|]. rewrite Ht.
  by rewrite (list_lookup_total_correct _ _ _ Ht) in HQ.
Qed.

Definition with_slot s (i t : Z) (m : gmap Z tw_timer) : st tw_timer time_wheel :=
  St m (Time_wheel (<[Z.to_nat i := t]> (slots (env s))) (cur_slot (env s)) (fired (env s))).

Lemma slot_set_spec s i t (Q : unit → _ → Prop) :
  length (slots (env s)) = 60%nat → 0 ≤ i < 60 → Q () (with_slot s i t (mem s)) → wp (slot_set i t) s Q.
Proof. intros Hlen Hi HQ. unfold wp, slot_set. by rewrite decide_True by lia. Qed.

Lemma slots_insert (l : list Z) i j t :
  length l = 60%nat → 0 ≤ i < 60 → 0 ≤ j < 60 →
  <[Z.to_nat i := t]> l !!! Z.to_nat j = if decide (j = i) then t else l !!! Z.to_nat j.
Proof.
  intros. case_decide as E; [subst; apply list_lookup_total_insert_eq; lia|]. apply list_lookup_total_insert_ne. lia.
Qed.

(** The list of one slot changes, and the objects of the others do not. *)
Lemma wheel_lists_upd ls s s' i l :
  wheel_lists ls s → 0 ≤ i < 60 → cur_slot (env s') = cur_slot (env s) → length (slots (env s')) = 60%nat →
  (∀ j, 0 ≤ j < 60 → j ≠ i → slots (env s') !!! Z.to_nat j = slots (env s) !!! Z.to_nat j) →
  seg (mem s') 0 (slots (env s') !!! Z.to_nat i) l 0 → NoDup l →
  (∀ t x, mem s !! t = Some x → time_slot x ≠ i → mem s' !! t = Some x) →
  (∀ t x, t ∈ l → mem s' !! t = Some x → time_slot x = i ∧ 0 ≤ rotation x) →
  (∀ t x, t ∉ l → mem s' !! t = Some x → mem s !! t = Some x ∧ time_slot x ≠ i) →
  wheel_lists (upd ls i l) s'.
Proof.
  intros [_ Hcur Hseg Hnd Hslot Hdata] Hi Hc Hlen' Hsl Hl Hndl Hkeep Hin Hout.
  assert (∀ j t, 0 ≤ j < 60 → j ≠ i → t ∈ ls j → ∃ x, mem s !! t = Some x ∧ mem s' !! t = Some x ∧ time_slot x = j) as Hoth.
  { intros j t Hj Hne Ht. destruct (Hslot j t Hj Ht) as (x & Hx & Ex). exists x. split_and!; [done| |done].
    apply Hkeep; [done|congruence]. }
  split; unfold upd.
  - done.
  - by rewrite Hc.
  - intros j Hj. destruct (decide (j = i)) as [->|Hne]; [done|]. rewrite Hsl by done. eapply seg_frame; [|by apply Hseg].
    intros t Ht. destruct (Hoth j t Hj Hne Ht) as (x & -> & -> & _). done.
  - intros j Hj. case_decide; [done|by apply Hnd].
  - intros j t Hj Ht. case_decide as E.
    + subst j. destruct (seg_live _ _ _ _ _ _ Hl Ht) as [_ [x Hx]]. exists x. split; [done|]. by apply (Hin t).
    + destruct (Hoth j t Hj E Ht) as (x & _ & Hx & Ex). by exists x.
  - intros t x Hx. destruct (decide (t ∈ l)) as [Ht|Ht].
    + destruct (Hin t x Ht Hx) as [E Hr]. rewrite E. rewrite decide_True by done. split_and!; [lia..|done|done].
    + destruct (Hout t x Ht Hx) as [Hx0 Hne]. rewrite decide_False by done. by apply Hdata.
Qed.

Lemma seg_head m p h l n : seg m p h l n → h = default n (head l).
Proof. destruct l; [done|by intros [-> _]]. Qed.

(** ** A timer leaves its list *)

(** [s'] is [s] without the timer [t], which was between [k] and [r]. *)
Record removed ls i (k : list Z) t (r : list Z) s s' : Prop := {
  rm_lists : wheel_lists (upd ls i (k ++ r)) s';
  rm_cur : cur_slot (env s') = cur_slot (env s);
  rm_fired : fired (env s') = fired (env s);
  rm_core : ∀ u, core <$> mem s' !! u = if decide (u = t) then None else core <$> mem s !! u;
}.

Lemma core_rest x x' : core x = core x' →
  rotation x = rotation x' ∧ time_slot x = time_slot x' ∧ cb_func x = cb_func x' ∧ user_data x = user_data x'.
Proof. destruct x, x'. unfold core. simpl. intros [=]. done. Qed.

Lemma removed_intro ls i k t r s s' :
  wheel_lists ls s → 0 ≤ i < 60 → ls i = k ++ t :: r →
  cur_slot (env s') = cur_slot (env s) → fired (env s') = fired (env s) → length (slots (env s')) = 60%nat →
  (∀ j, 0 ≤ j < 60 → j ≠ i → slots (env s') !!! Z.to_nat j = slots (env s) !!! Z.to_nat j) →
  seg (mem s') 0 (slots (env s') !!! Z.to_nat i) (k ++ r) 0 →
  (∀ u, u ∉ ls i → mem s' !! u = mem s !! u) →
  (∀ u, core <$> mem s' !! u = if decide (u = t) then None else core <$> mem s !! u) →
  removed ls i k t r s s'.
Proof.
  intros Hok Hi Hl Hc Hf Hlen Hsl Hseg Hout Hcore. pose proof (w_nodup _ _ Hok i Hi) as Hnd. rewrite Hl in Hnd.
  assert (∀ u, u ∈ k ++ r ↔ u ∈ ls i ∧ u ≠ t) as Hin.
  { intros u. rewrite Hl. apply NoDup_app in Hnd as (_ & Hkt & Hr). apply NoDup_cons in Hr as [Hr _].
    rewrite !elem_of_app, elem_of_cons. specialize (Hkt u). rewrite elem_of_cons in Hkt. split; [|tauto].
    intros [?|?]; (split; [tauto|]); intros ->; tauto. }
  assert (∀ u x, mem s' !! u = Some x → u ≠ t ∧ ∃ x0, mem s !! u = Some x0 ∧ core x = core x0) as Hx0.
  { intros u x Hx. specialize (Hcore u). rewrite Hx in Hcore. simpl in Hcore. case_decide; [done|]. split; [done|].
    destruct (mem s !! u) as [x0|]; [|done]. exists x0. split; [done|]. by apply (inj Some) in Hcore. }
  split; [|done..]. eapply wheel_lists_upd; try done.
  - apply NoDup_app in Hnd as (Hk & Hkt & Hr). apply NoDup_cons in Hr as [_ Hr]. apply NoDup_app. split_and!; [done| |done].
    intros u Hu Hur. apply (Hkt u Hu). by right.
  - intros u x Hx Hne. rewrite Hout; [done|]. intros Hu. destruct (w_slot _ _ Hok i u Hi Hu) as (? & ? & ?). by simplify_eq.
  - intros u x Hu Hx. apply Hin in Hu as [Hu _]. destruct (Hx0 u x Hx) as (_ & x0 & Hx' & Hcc).
    apply core_rest in Hcc as (-> & -> & _). destruct (w_slot _ _ Hok i u Hi Hu) as (? & ? & ?). simplify_eq.
    split; [done|]. by apply (w_data _ _ Hok u).
  - intros u x Hu Hx. destruct (Hx0 u x Hx) as (Hne & x0 & Hx' & Hcc).
    assert (u ∉ ls i) as Hui by (rewrite Hin in Hu; tauto). rewrite Hout in Hx by done. split; [done|].
    intros <-. apply Hui. by apply (w_data _ _ Hok u).
Qed.

(** The list of a slot around one of its timers. *)
Lemma wheel_at ls s i k t r :
  wheel_lists ls s → 0 ≤ i < 60 → ls i = k ++ t :: r →
  ∃ x, mem s !! t = Some x ∧ t ≠ 0 ∧ time_slot x = i ∧ prev x = default 0 (last k) ∧ next x = default 0 (head r) ∧
    seg (mem s) 0 (slots (env s) !!! Z.to_nat i) k t ∧ seg (mem s) t (next x) r 0.
Proof.
  intros Hok Hi Hl. pose proof (w_seg _ _ Hok i Hi) as Hs. rewrite Hl in Hs.
  apply seg_app in Hs as (h & Hk & -> & Ht & x & Hx & Hp & Hr).
  destruct (w_slot _ _ Hok i t Hi) as (x' & Hx' & Hsl); [rewrite Hl; apply elem_of_app; right; left|].
  rewrite Hx in Hx'. injection Hx' as <-. exists x. split_and!; try done. by eapply seg_head.
Qed.

Lemma core_insert (m : gmap Z tw_timer) u x x' v :
  m !! u = Some x → core x' = core x → core <$> <[u := x']> m !! v = core <$> m !! v.
Proof. intros Hu Hc. destruct (decide (u = v)) as [<-|]; [rewrite lookup_insert_eq, Hu; simpl; by rewrite Hc|by rewrite lookup_insert_ne]. Qed.

Lemma alter_as_insert (f : tw_timer → tw_timer) (m : gmap Z tw_timer) u x : m !! u = Some x → alter f u m = <[u := f x]> m.
Proof.
  intros Hu. apply map_eq. intros v. destruct (decide (u = v)) as [<-|].
  - by rewrite lookup_alter_eq, lookup_insert_eq, Hu.
  - by rewrite lookup_alter_ne, lookup_insert_ne.
Qed.

Lemma unlink_free_spec ls s i k t r (Q : Z → _ → Prop) :
  wheel_lists ls s → 0 ≤ i < 60 → ls i = k ++ t :: r → k ≠ [] →
  (∀ s', removed ls i k t r s s' → Q (default 0 (head r)) s') →
  wp (n ← unlink t; free t;; mret n) s Q.
Proof.
  intros Hok Hi Hl Hk HQ. destruct (wheel_at _ _ _ _ _ _ Hok Hi Hl) as (x & Hx & Ht0 & Hsl & Hp & Hn & Hsk & Hsr).
  pose proof (w_nodup _ _ Hok i Hi) as Hnd. rewrite Hl in Hnd.
  destruct k as [|p k] using rev_ind; [done|]. clear IHk Hk. rewrite last_snoc in Hp. simpl in Hp.
  pose proof Hnd as (Hndk & Hkt & [Htr Hndr]%NoDup_cons)%NoDup_app.
  assert (p ∈ k ++ [p]) as Hpk by (apply elem_of_app; right; left).
  assert (p ≠ t ∧ p ∉ r) as [Hpt Hpr] by (specialize (Hkt p Hpk); rewrite elem_of_cons in Hkt; tauto).
  destruct (seg_live _ _ _ _ _ _ Hsk Hpk) as [Hp0 [xp Hxp]].
  set (m1 := <[p := set_next (next x) xp]> (mem s)).
  set (m2 := match r with [] => m1 | u :: _ => alter (set_prev p) u m1 end).
  assert (∀ u, u ∉ r → m2 !! u = m1 !! u) as Hm2.
  { intros u Hu. unfold m2. destruct r as [|v r]; [done|]. apply lookup_alter_ne. intros ->. apply Hu. left. }
  assert (seg m1 t (next x) r 0) as Hsr1.
  { eapply seg_frame, Hsr. intros u Hu. apply lookup_insert_ne. by intros ->. }
  assert (wp (unlink t) s (λ n s1, n = next x ∧ s1 = St m2 (env s))) as Hun.
  { unfold unlink. wp_go. eapply wp_fget; [done|]. wp_go. eapply wp_fget; [done|]. wp_go. rewrite Hp.
    eapply wp_fset; [done|]. wp_go. apply wp_when; intros Hn0; wp_go; cycle 1.
    - split; [done|]. f_equal. fold m1. unfold m2. apply negb_false_iff, Z.eqb_eq in Hn0. destruct r as [|u r]; [done|].
      simpl in Hn. destruct Hsr as (? & ? & _). congruence.
    - apply negb_true_iff, Z.eqb_neq in Hn0. destruct r as [|u r]; [done|]. simpl in Hn. fold m1.
      destruct Hsr1 as (_ & Hu0 & y & Hy & _). rewrite Hn. eapply wp_fset; [done|]. wp_go. split; [done|]. f_equal.
      unfold m2. symmetry. by apply alter_as_insert. }
  apply wp_bind. eapply wp_mono; [exact Hun|]. intros n s1 [-> ->]. wp_go.
  eapply wp_free; [done| |]; [simpl; rewrite Hm2 by done; unfold m1; by rewrite lookup_insert_ne by done|].
  wp_go. rewrite Hn. apply HQ. apply removed_intro; try done; simpl.
  - apply (w_len _ _ Hok).
  - apply seg_app. exists (next x). rewrite last_snoc. simpl. split.
    + eapply seg_frame; [|by eapply seg_set_next]. intros u Hu. simpl.
      rewrite lookup_delete_ne by (intros <-; apply (Hkt _ Hu); left). rewrite Hm2; [done|].
      intros Hur. apply (Hkt u Hu). by right.
    + eapply (seg_frame m2). { intros u Hu. apply lookup_delete_ne. by intros <-. }
      unfold m2. destruct r as [|u r]; [done|]. destruct (Hsr1) as (E & _ & y & Hy & _). rewrite E in Hsr1 |- *.
      rewrite (alter_as_insert _ _ _ _ Hy). eapply seg_set_prev; [|done|done]. by apply NoDup_cons in Hndr as [? _].
  - intros u Hu. rewrite Hl in Hu. apply not_elem_of_app in Hu as [Huk [Hut Hur]%not_elem_of_cons].
    rewrite lookup_delete_ne by done. rewrite Hm2 by done. apply lookup_insert_ne. by intros ->.
  - intros u. case_decide as E; [subst; by rewrite lookup_delete_eq|]. rewrite lookup_delete_ne by done.
    assert (∀ v, core <$> m1 !! v = core <$> mem s !! v) as Hm1 by (intros; by eapply core_insert).
    rewrite <-Hm1. unfold m2. destruct r as [|v r]; [done|].
    destruct Hsr1 as (_ & _ & y & Hy & _). rewrite (alter_as_insert _ _ _ _ Hy). by eapply core_insert.
Qed.

(** The first timer of a slot leaves it. *)
Lemma head_removed ls s i t r :
  wheel_lists ls s → 0 ≤ i < 60 → ls i = t :: r →
  removed ls i [] t r s (with_slot s i (default 0 (head r))
    (delete t (match r with [] => mem s | u :: _ => alter (set_prev 0) u (mem s) end))).
Proof.
  intros Hok Hi Hl. destruct (wheel_at ls s i [] t r Hok Hi Hl) as (x & Hx & Ht0 & Hsl & Hp & Hn & Hsk & Hsr).
  pose proof (w_nodup _ _ Hok i Hi) as Hnd. rewrite Hl in Hnd. apply NoDup_cons in Hnd as [Htr Hnd].
  assert (∀ u, u ∉ r → match r with [] => mem s | v :: _ => alter (set_prev 0) v (mem s) end !! u = mem s !! u) as Hout.
  { intros u Hu. destruct r as [|v r]; [done|]. apply lookup_alter_ne. intros ->. apply Hu. left. }
  pose proof (w_len _ _ Hok) as Hlen.
  apply removed_intro; try done; simpl.
  - by rewrite length_insert.
  - intros j Hj Hne. rewrite slots_insert by done. by rewrite decide_False.
  - rewrite slots_insert, decide_True by done.
    eapply (seg_frame (match r with [] => mem s | v :: _ => alter (set_prev 0) v (mem s) end)).
    { intros u Hu. apply lookup_delete_ne. by intros ->. }
    destruct r as [|u r]; [done|]. simpl. rewrite Hn in Hsr. destruct (Hsr) as (_ & _ & y & Hy & _).
    rewrite (alter_as_insert _ _ _ _ Hy). eapply seg_set_prev; [by apply NoDup_cons in Hnd as [? _]|done|exact Hsr].
  - intros u Hu. rewrite Hl in Hu. apply not_elem_of_cons in Hu as [Hut Hur]. rewrite lookup_delete_ne by done. by apply Hout.
  - intros u. case_decide as E; [subst; by rewrite lookup_delete_eq|]. rewrite lookup_delete_ne by done.
    destruct r as [|v r]; [done|]. destruct Hsr as (_ & _ & y & Hy & _).
    rewrite (alter_as_insert _ _ _ _ Hy). by eapply core_insert.
Qed.

(** What [removed] says of the countdowns. *)
Lemma removed_timers ls i k t r s s' : removed ls i k t r s s' → timers s' = delete t (timers s).
Proof.
  intros [_ Hc _ Hcore]. unfold timers. apply map_eq. intros u. specialize (Hcore u). rewrite Hc.
  rewrite lookup_fmap. destruct (decide (u = t)) as [->|Hne].
  - rewrite lookup_delete_eq. by destruct (mem s' !! t).
  - rewrite lookup_delete_ne, lookup_fmap by done.
    destruct (mem s' !! u) as [x'|], (mem s !! u) as [x|]; simpl in *; try done.
    apply (inj Some), core_rest in Hcore as (? & ? & ? & ?). unfold remaining. congruence.
Qed.

(** ** Deleting and adding *)

Lemma removed_size ls i k t r s s' : removed ls i k t r s s' → is_Some (mem s !! t) → size (mem s) = S (size (mem s')).
Proof.
  intros [_ _ _ Hcore] [x Hx].
  assert (core <$> mem s' = delete t (core <$> mem s)) as E.
  { apply map_eq. intros u. rewrite lookup_fmap, Hcore. case_decide as Eu; [subst; by rewrite lookup_delete_eq|].
    by rewrite lookup_delete_ne, lookup_fmap by done. }
  rewrite <-(map_size_fmap core (mem s')), E, map_size_delete_Some by (rewrite lookup_fmap, Hx; by eexists).
  rewrite map_size_fmap. assert (size (mem s) ≠ 0%nat); [|lia].
  rewrite map_size_ne_0_lookup. by exists t, x.
Qed.

(** Where a live timer is. *)
Lemma wheel_find ls s t x : wheel_lists ls s → mem s !! t = Some x →
  0 ≤ time_slot x < 60 ∧ ∃ k r, ls (time_slot x) = k ++ t :: r.
Proof.
  intros Hok Hx. destruct (w_data _ _ Hok t x Hx) as (Hi & Ht & _). split; [done|]. by apply list_elem_of_split in Ht.
Qed.

Lemma del_timer_removes ls s t x :
  wheel_lists ls s → mem s !! t = Some x →
  wp (del_timer t) s (λ _ s', ∃ i k r, removed ls i k t r s s').
Proof.
  intros Hok Hx. destruct (wheel_find _ _ _ _ Hok Hx) as (Hi & k & r & Hl).
  destruct (wheel_at _ _ _ _ _ _ Hok Hi Hl) as (x' & Hx' & Ht0 & _ & _ & Hn & Hsk & Hsr). rewrite Hx in Hx'. injection Hx' as <-.
  unfold del_timer. rewrite (proj2 (Z.eqb_neq t 0)) by done. wp_go. eapply wp_fget; [done|]. wp_go.
  eapply slot_get_spec; [done..|]. rewrite (seg_head _ _ _ _ _ Hsk). destruct k as [|h k]; simpl.
  - rewrite Z.eqb_refl. wp_go. eapply wp_fget; [done|]. wp_go.
    apply slot_set_spec; [by apply (w_len _ _ Hok)|done|]. pose proof (head_removed _ _ _ _ _ Hok Hi Hl) as Hrm.
    wp_go. apply wp_when; intros Hn0.
    + apply negb_true_iff, Z.eqb_neq in Hn0. rewrite Hn in Hn0, Hsr |- *. destruct r as [|u r]; [done|]. simpl in *.
      destruct Hsr as (_ & _ & y & Hy & _). eapply wp_fset; [done|]. simpl.
      assert (u ≠ t) as Hut.
      { pose proof (w_nodup _ _ Hok _ Hi) as Hnd. rewrite Hl in Hnd. apply NoDup_cons in Hnd as [Hnd _].
        intros ->. apply Hnd. left. }
      eapply wp_free; [done|simpl; by rewrite lookup_insert_ne|]. rewrite (alter_as_insert _ _ _ _ Hy) in Hrm.
      by exists (time_slot x), [], (u :: r).
    + apply negb_false_iff, Z.eqb_eq in Hn0. rewrite Hn in Hn0, Hsr |- *.
      destruct r as [|u r]; [|by destruct Hsr as (_ & Hu0 & _)]. simpl in *.
      eapply wp_free; [done|done|]. by exists (time_slot x), [], [].
  - destruct (Z.eqb_spec t h) as [->|Hne].
    { pose proof (w_nodup _ _ Hok _ Hi) as Hnd. rewrite Hl in Hnd. apply NoDup_cons in Hnd as [Hnd _].
      exfalso. apply Hnd, elem_of_app. right; left. }
    pose proof (unlink_free_spec ls s (time_slot x) (h :: k) t r (λ _ s', removed ls (time_slot x) (h :: k) t r s s') Hok Hi Hl
      ltac:(done) ltac:(done)) as Hun.
    apply wp_bind_inv in Hun. wp_go. eapply wp_mono; [exact Hun|]. intros n s1 Hf. apply wp_bind_inv in Hf.
    eapply wp_mono; [exact Hf|]. intros [] s2 H2. by exists (time_slot x), (h :: k), r.
Qed.

(** A new timer [x] at [t], in front of the list of its slot. *)
Lemma pushed_ok ls s i t x m :
  wheel_lists ls s → 0 ≤ i < 60 → mem s !! t = None → time_slot x = i → 0 ≤ rotation x →
  seg m 0 t (t :: ls i) 0 → (∀ u, u ≠ t → u ∉ ls i → m !! u = mem s !! u) →
  (∀ u, core <$> m !! u = if decide (u = t) then Some (core x) else core <$> mem s !! u) →
  wheel_lists (upd ls i (t :: ls i)) (with_slot s i t m).
Proof.
  intros Hok Hi Ht Hsl Hrot Hseg Hout Hcore. pose proof (w_len _ _ Hok) as Hlen.
  assert (∀ u, u ∈ ls i → is_Some (mem s !! u)) as Hlive by (intros u Hu; by eapply seg_live; [apply (w_seg _ _ Hok)|]).
  assert (t ∉ ls i) as Hti by (intros Hti; destruct (Hlive t Hti); congruence).
  assert (∀ u y, m !! u = Some y → u ≠ t → ∃ y0, mem s !! u = Some y0 ∧ core y = core y0) as Hback.
  { intros u y Hy Hne. specialize (Hcore u). rewrite decide_False in Hcore by done. rewrite Hy in Hcore.
    destruct (mem s !! u) as [y0|]; [|done]. exists y0. split; [done|]. by apply (inj Some) in Hcore. }
  eapply wheel_lists_upd; try done; simpl.
  - by rewrite length_insert.
  - intros j Hj Hne. rewrite slots_insert by done. by rewrite decide_False.
  - by rewrite slots_insert, decide_True by done.
  - apply NoDup_cons. split; [done|by apply (w_nodup _ _ Hok)].
  - intros u y Hy Hne. rewrite Hout; [done|congruence|]. intros Hu. destruct (w_slot _ _ Hok i u Hi Hu) as (? & ? & ?). by simplify_eq.
  - intros u y [->|Hu]%elem_of_cons Hy.
    + specialize (Hcore t). rewrite Hy, decide_True in Hcore by done. apply (inj Some), core_rest in Hcore as (-> & -> & _). done.
    + destruct (Hback u y Hy) as (y0 & Hy0 & Hc); [by intros ->|]. apply core_rest in Hc as (-> & -> & _).
      destruct (w_slot _ _ Hok i u Hi Hu) as (? & ? & ?). simplify_eq. split; [done|]. by apply (w_data _ _ Hok u).
  - intros u y [Hut Hu]%not_elem_of_cons Hy. rewrite Hout in Hy by done. split; [done|]. intros <-. apply Hu.
    by apply (w_data _ _ Hok u).
Qed.

Lemma pushed_timers s i t x m :
  (∀ u, core <$> m !! u = if decide (u = t) then Some (core x) else core <$> mem s !! u) →
  timers (with_slot s i t m) = <[t := (remaining (cur_slot (env s)) x, cb_func x, user_data x)]> (timers s).
Proof.
  intros Hcore. unfold timers. simpl. apply map_eq. intros u. specialize (Hcore u). rewrite lookup_fmap.
  destruct (decide (u = t)) as [->|Hne].
  - rewrite lookup_insert_eq. destruct (m !! t) as [y|]; [|done]. apply (inj Some), core_rest in Hcore as (? & ? & ? & ?).
    simpl. unfold remaining. congruence.
  - rewrite lookup_insert_ne, lookup_fmap by done. destruct (m !! u) as [y|], (mem s !! u) as [y0|]; simpl in *; try done.
    apply (inj Some), core_rest in Hcore as (? & ? & ? & ?). unfold remaining. congruence.
Qed.

(** The slot and the rounds of a timer make up its ticks. *)
Lemma place_spec cur ticks :
  0 ≤ cur → 0 ≤ ticks →
  0 ≤ Z.rem (cur + Z.rem ticks N) N < 60 ∧ 0 ≤ ticks ÷ N ∧
  60 * (ticks ÷ N) + (Z.rem (cur + Z.rem ticks N) N - cur) mod 60 = ticks.
Proof.
  intros Hc Ht. unfold N. rewrite Z.quot_div_nonneg, (Z.rem_mod_nonneg ticks) by lia.
  pose proof (Z.mod_pos_bound ticks 60 ltac:(lia)) as Hm. rewrite Z.rem_mod_nonneg by lia. split_and!.
  - by apply Z.mod_pos_bound.
  - by apply Z.mod_pos_bound.
  - by apply Z.div_pos.
  - rewrite Z.add_mod_idemp_r, Zminus_mod_idemp_l by done. replace (cur + ticks - cur) with ticks by lia.
    symmetry. by apply Z.div_mod.
Qed.

Lemma add_timer_adds ls s t timeout cb d :
  wheel_lists ls s → t ≠ 0 → mem s !! t = None → 0 ≤ timeout →
  wp (add_timer t timeout cb d) s (λ r s',
    r = t ∧ wheel_ok s' ∧ timers s' = <[t := (Z.max timeout 1, cb, d)]> (timers s) ∧ fired (env s') = fired (env s)).
Proof.
  intros Hok Ht0 Ht Hto. unfold add_timer. rewrite (proj2 (Z.ltb_ge timeout 0)) by done.
  set (ticks := if timeout <? SI then 1 else timeout ÷ SI).
  assert (ticks = Z.max timeout 1) as Hticks.
  { unfold ticks, SI. destruct (Z.ltb_spec timeout 1); [lia|]. rewrite Z.quot_1_r. lia. }
  clearbody ticks. pose proof (w_cur _ _ Hok) as Hcur. wp_go. set (cur := cur_slot (env s)) in *.
  destruct (place_spec cur ticks) as (Hi & Hrot & Hrem); [lia..|].
  set (ts := Z.rem (cur + Z.rem ticks N) N) in *. set (x := Tw_timer (ticks ÷ N) ts cb d 0 0).
  clearbody ts.
  assert (∀ m, seg m 0 t (t :: ls ts) 0 → (∀ u, u ≠ t → u ∉ ls ts → m !! u = mem s !! u) →
    (∀ u, core <$> m !! u = if decide (u = t) then Some (core x) else core <$> mem s !! u) →
    t = t ∧ wheel_ok (with_slot s ts t m) ∧
    timers (with_slot s ts t m) = <[t := (Z.max timeout 1, cb, d)]> (timers s) ∧ fired (env (with_slot s ts t m)) = fired (env s)) as Hdone.
  { intros m Hseg Hout Hcore. split_and!; [done| | |done].
    - exists (upd ls ts (t :: ls ts)). by apply (pushed_ok _ _ _ _ x).
    - rewrite (pushed_timers _ _ _ x) by done. unfold remaining. cbn [rotation time_slot cb_func user_data x]. fold cur. by rewrite Hrem, Hticks. }
  assert (∀ u, core <$> <[t := x]> (mem s) !! u = if decide (u = t) then Some (core x) else core <$> mem s !! u) as Hcore.
  { intros u. case_decide; [subst; by rewrite lookup_insert_eq|by rewrite lookup_insert_ne]. }
  pose proof (w_len _ _ Hok) as Hlen. pose proof (w_seg _ _ Hok ts Hi) as Hseg.
  assert (∀ u, u ∈ ls ts → u ≠ t ∧ u ≠ 0) as Hne.
  { intros u Hu. destruct (seg_live _ _ _ _ _ _ Hseg Hu) as [? [y Hy]]. split; [congruence|done]. }
  assert (∀ (m : TW Z) Q, wp m (St (<[t := x]> (mem s)) (env s)) Q → wp (new_tw_timer t (ticks ÷ N) ts cb d;; m) s Q) as Hnew by done.
  apply Hnew. wp_go. apply slot_get_at; [done..|]. simpl. rewrite (seg_head _ _ _ _ _ Hseg) in Hseg |- *.
  destruct (ls ts) as [|h l] eqn:El; simpl.
  - wp_go. apply slot_set_spec; [done..|]. wp_go. apply Hdone; [|intros; by apply lookup_insert_ne|done].
    split_and!; [done..|]. exists x. split_and!; [apply lookup_insert_eq|done|done].
  - destruct (Hne h) as [Hht Hh0]; [left|]. rewrite (proj2 (Z.eqb_neq h 0)) by done. wp_go.
    destruct (Hseg) as (_ & _ & y & Hy & _). simpl in Hseg.
    eapply wp_fset; [apply lookup_insert_eq|]. wp_go.
    eapply wp_fset; [simpl; by rewrite !lookup_insert_ne by done|]. wp_go. apply slot_set_spec; [done..|]. wp_go. simpl.
    rewrite insert_insert_eq. apply Hdone.
    + split_and!; [done..|]. exists (set_next h x). rewrite lookup_insert_ne, lookup_insert_eq by done. split_and!; [done..|].
      apply (seg_set_prev _ 0 _ _ _ _ y); [|by rewrite lookup_insert_ne|].
      * pose proof (w_nodup _ _ Hok ts Hi) as Hnd. rewrite El in Hnd. by apply NoDup_cons in Hnd as [? _].
      * eapply seg_frame; [|exact Hseg]. intros u Hu. apply lookup_insert_ne. symmetry. by apply Hne.
    + intros u Hut [Huh _]%not_elem_of_cons. by rewrite !lookup_insert_ne by done.
    + intros u. rewrite (core_insert _ _ y) by (by rewrite ?lookup_insert_ne). case_decide; [subst; by rewrite lookup_insert_eq|].
      by rewrite lookup_insert_ne.
Qed.

(** ** A tick *)

(** The end of the body of the loop: a timer that has fired leaves its slot. *)
Lemma tick_removes ls s cur k t r :
  wheel_lists ls s → 0 ≤ cur < 60 → ls cur = k ++ t :: r →
  wp (h ← slot_get cur;
      if t =? h then
        n ← fget next t;
        slot_set cur n;;
        free t;;
        h ← slot_get cur;
        when (negb (h =? 0)) (fset (set_prev 0) h);;
        mret (inl h : Z + unit)
      else
        n ← unlink t;
        free t;;
        mret (inl n)) s (λ res s', res = inl (default 0 (head r)) ∧ removed ls cur k t r s s').
Proof.
  intros Hok Hi Hl. destruct (wheel_at _ _ _ _ _ _ Hok Hi Hl) as (x & Hx & Ht0 & _ & _ & Hn & Hsk & Hsr).
  pose proof (w_nodup _ _ Hok _ Hi) as Hnd. rewrite Hl in Hnd. pose proof (w_len _ _ Hok) as Hlen.
  wp_go. eapply slot_get_spec; [done..|]. rewrite (seg_head _ _ _ _ _ Hsk). destruct k as [|h k]; simpl.
  - rewrite Z.eqb_refl. wp_go. eapply wp_fget; [done|]. wp_go. apply slot_set_spec; [done..|]. wp_go.
    eapply wp_free; [done|done|]. wp_go. apply slot_get_at; [simpl; by rewrite length_insert|done|]. simpl.
    rewrite slots_insert, decide_True by done. pose proof (head_removed _ _ _ _ _ Hok Hi Hl) as Hrm. rewrite Hn in Hsr |- *.
    apply NoDup_cons in Hnd as [Htr _]. wp_go. apply wp_when; intros Hn0.
    + apply negb_true_iff, Z.eqb_neq in Hn0. destruct r as [|u r]; [done|]. simpl in *.
      destruct Hsr as (_ & _ & y & Hy & _). assert (t ≠ u) as Hut by (intros ->; apply Htr; left).
      eapply wp_fset; [simpl; by rewrite lookup_delete_ne|]. simpl. wp_go. split; [done|].
      rewrite (alter_as_insert _ _ _ _ Hy), delete_insert_ne in Hrm by done. done.
    + apply negb_false_iff, Z.eqb_eq in Hn0. wp_go. split; [done|]. by destruct r as [|u r]; [|destruct Hsr as (_ & ? & _)].
  - destruct (Z.eqb_spec t h) as [->|Hne].
    { apply NoDup_cons in Hnd as [Hnd _]. exfalso. apply Hnd, elem_of_app. right; left. }
    pose proof (unlink_free_spec ls s cur (h :: k) t r
      (λ n s', n = default 0 (head r) ∧ removed ls cur (h :: k) t r s s') Hok Hi Hl ltac:(done) ltac:(done)) as Hun.
    apply wp_bind_inv in Hun. wp_go. eapply wp_mono; [exact Hun|]. intros n s1 Hf. apply wp_bind_inv in Hf. wp_go.
    eapply wp_mono; [exact Hf|]. intros [] s2 [-> H2]. by wp_go.
Qed.

(** One round less for a timer that stays. *)
Lemma rotated_ok ls s t x r :
  wheel_lists ls s → mem s !! t = Some x → 0 ≤ r → wheel_lists ls (St (<[t := set_rotation r x]> (mem s)) (env s)).
Proof.
  intros [Hlen Hcur Hseg Hnd Hslot Hdata] Hx Hr.
  split; simpl; try done.
  - intros i Hi. eapply seg_links; [|by apply Hseg]. intros u y _ Hy. destruct (decide (t = u)) as [<-|].
    + exists (set_rotation r x). rewrite lookup_insert_eq. by simplify_eq.
    + exists y. by rewrite lookup_insert_ne.
  - intros i u Hi Hu. destruct (Hslot i u Hi Hu) as (y & Hy & Ey). destruct (decide (t = u)) as [<-|].
    + exists (set_rotation r x). rewrite lookup_insert_eq. by simplify_eq.
    + exists y. by rewrite lookup_insert_ne.
  - intros u y Hy. destruct (decide (t = u)) as [<-|].
    + rewrite lookup_insert_eq in Hy. simplify_eq. destruct (Hdata _ _ Hx) as (? & ? & _). done.
    + rewrite lookup_insert_ne in Hy by done. by apply Hdata.
Qed.

Lemma live_length (m : gmap Z tw_timer) (l : list Z) : NoDup l → (∀ u, u ∈ l → is_Some (m !! u)) → (length l ≤ size m)%nat.
Proof.
  intros Hnd Hl. rewrite <-size_dom, <-(size_list_to_set (C := gset Z) l) by done. apply subseteq_size.
  intros u Hu. apply elem_of_list_to_set in Hu. apply elem_of_dom. by apply Hl.
Qed.

Lemma wheel_turn ls s c f :
  wheel_lists ls s → 0 ≤ c < 60 → wheel_lists ls (St (mem s) (Time_wheel (slots (env s)) c f)).
Proof. intros [Hlen Hcur Hseg Hnd Hslot Hdata] Hc. by split. Qed.
End wheel.

(** The call that a timer makes when it fires, and a tick on the countdowns. *)
Definition call_of (T : gmap Z (Z * Z * Z)) (t : Z) : Z * Z :=
  match T !! t with Some (_, cb, d) => (cb, d) | None => (0, 0) end.
Definition pass (T : gmap Z (Z * Z * Z)) : gmap Z (Z * Z * Z) :=
  omap (λ '(n, cb, d), if decide (n = 0) then None else Some (n - 1, cb, d)) T.

Lemma remaining_zero cur x :
  0 ≤ cur < 60 → 0 ≤ time_slot x < 60 → 0 ≤ rotation x → remaining cur x = 0 ↔ rotation x = 0 ∧ time_slot x = cur.
Proof. unfold remaining. lia. Qed.

Lemma remaining_next cur x x' :
  0 ≤ cur < 60 → 0 ≤ time_slot x < 60 → time_slot x' = time_slot x →
  rotation x' = (if decide (time_slot x = cur) then rotation x - 1 else rotation x) →
  remaining ((cur + 1) mod 60) x' = remaining cur x - 1.
Proof.
  intros Hc Hs Hs' Hr. unfold remaining. rewrite Hs', Hr, Zminus_mod_idemp_r. case_decide; lia.
Qed.

Section ticking.
Implicit Types (s : st tw_timer time_wheel) (ls : Z → list Z) (x : tw_timer) (t i : Z).
Context (ls0 : Z → list Z) (s0 : st tw_timer time_wheel) (Hok0 : wheel_lists ls0 s0).
Abbreviation cur := (cur_slot (env s0)).

(** The loop of a tick: [L] has fired, [k] stays, [r] is ahead. *)
Record ticking (L k r : list Z) ls s : Prop := {
  tk_lists : wheel_lists ls s;
  tk_cur : cur_slot (env s) = cur;
  tk_list : ls cur = k ++ r;
  tk_perm : L ++ k ++ r ≡ₚ ls0 cur;
  tk_fired : fired (env s) = fired (env s0) ++ (call_of (timers s0) <$> L);
  tk_core : ∀ u, core <$> mem s !! u = if decide (u ∈ L) then None else
    (λ x, if decide (u ∈ k) then set_rotation (rotation x - 1) (core x) else core x) <$> mem s0 !! u;
  tk_due : ∀ u x, u ∈ L → mem s0 !! u = Some x → rotation x = 0;
  tk_stay : ∀ u x, u ∈ k → mem s0 !! u = Some x → 0 < rotation x;
}.

Lemma ticking_init : ticking [] [] (ls0 cur) ls0 s0.
Proof.
  split; try done.
  - by rewrite app_nil_r.
  - by intros u x ?%not_elem_of_nil.
  - by intros u x ?%not_elem_of_nil.
Qed.

(** The next timer is as it was. *)
Lemma ticking_next L k t r ls s x :
  ticking L k (t :: r) ls s → mem s !! t = Some x →
  (t ∉ L) ∧ (t ∉ k) ∧ ∃ x0, mem s0 !! t = Some x0 ∧ core x = core x0.
Proof.
  intros H Hx. assert (NoDup (L ++ k ++ t :: r)) as Hnd.
  { rewrite (tk_perm _ _ _ _ _ H). apply (w_nodup _ _ Hok0), (w_cur _ _ Hok0). }
  apply NoDup_app in Hnd as (_ & HL & (_ & Hk & _)%NoDup_app).
  assert (t ∉ L) as HtL by (intros Ht; apply (HL t Ht), elem_of_app; right; left).
  assert (t ∉ k) as Htk by (intros Ht; apply (Hk t Ht); left).
  split_and!; [done..|]. pose proof (tk_core _ _ _ _ _ H t) as Hc. rewrite Hx, decide_False in Hc by done.
  destruct (mem s0 !! t) as [x0|]; [|done]. simpl in Hc. rewrite decide_False in Hc by done.
  exists x0. split; [done|]. by apply (inj Some) in Hc.
Qed.

Lemma ticking_stay L k t r ls s x :
  ticking L k (t :: r) ls s → mem s !! t = Some x → 0 < rotation x →
  ticking L (k ++ [t]) r ls (St (<[t := set_rotation (rotation x - 1) x]> (mem s)) (env s)).
Proof.
  intros H Hx Hrot. destruct (ticking_next _ _ _ _ _ _ _ H Hx) as (HtL & Htk & x0 & Hx0 & Hc).
  pose proof (core_rest _ _ Hc) as (Hcr & _). destruct H as [Hok Hcur Hl Hp Hf Hcore Hdue Hst].
  split; simpl; try done.
  - eapply rotated_ok; [done..|lia].
  - by rewrite <-app_assoc.
  - by rewrite <-app_assoc.
  - intros u. destruct (decide (u = t)) as [->|Hne].
    + rewrite lookup_insert_eq, Hx0, decide_False by done. simpl. rewrite decide_True by (apply elem_of_app; right; left).
      rewrite <-Hc, <-Hcr. done.
    + rewrite lookup_insert_ne, Hcore by done. case_decide; [done|]. destruct (mem s0 !! u); [|done]. simpl. f_equal.
      apply decide_ext. rewrite elem_of_app, list_elem_of_singleton. tauto.
  - intros u y [Hu|Hu]%elem_of_app Hy; [by eapply Hst|]. apply list_elem_of_singleton in Hu as ->. simplify_eq. lia.
Qed.

Lemma ticking_fire L k t r ls s s' x :
  ticking L k (t :: r) ls s → mem s !! t = Some x → rotation x ≤ 0 →
  removed ls cur k t r (St (mem s) (Time_wheel (slots (env s)) (cur_slot (env s)) (fired (env s) ++ [(cb_func x, user_data x)]))) s' →
  ticking (L ++ [t]) k r (upd ls cur (k ++ r)) s'.
Proof.
  intros H Hx Hrot [Hok' Hcur' Hfired' Hcore']. destruct (ticking_next _ _ _ _ _ _ _ H Hx) as (HtL & Htk & x0 & Hx0 & Hc).
  pose proof (core_rest _ _ Hc) as (Hcr & _ & Hcb & Hcd). destruct H as [Hok Hcur Hl Hp Hf Hcore Hdue Hst].
  simpl in *. split; simpl; try done.
  - congruence.
  - unfold upd. by rewrite decide_True.
  - rewrite <-Hp, <-(assoc_L (++)). simpl. apply Permutation_app_head. apply Permutation_middle.
  - rewrite Hfired', Hf, fmap_app, (assoc_L (++)). simpl. unfold call_of. unfold timers. rewrite lookup_fmap, Hx0. simpl. by rewrite Hcb, Hcd.
  - intros u. rewrite Hcore', Hcore. destruct (decide (u = t)) as [->|Hne].
    + rewrite decide_True; [done|]. apply elem_of_app. right; left.
    + apply decide_ext. rewrite elem_of_app, list_elem_of_singleton. tauto.
  - intros u y [Hu|Hu]%elem_of_app Hy; [by eapply Hdue|]. apply list_elem_of_singleton in Hu as ->. simplify_eq.
    pose proof (w_data _ _ Hok0 t x0 Hx0). lia.
Qed.

(** What the loop has done when nothing is ahead. *)
Lemma ticking_end L k ls s c :
  ticking L k [] ls s → c = (cur + 1) mod 60 →
  timers (St (mem s) (Time_wheel (slots (env s)) c (fired (env s)))) = pass (timers s0) ∧
  NoDup L ∧ (∀ t, t ∈ L ↔ ∃ cb d, timers s0 !! t = Some (0, cb, d)).
Proof.
  intros [Hok Hcur Hl Hp Hf Hcore Hdue Hst] Hc. rewrite app_nil_r in Hp. pose proof (w_cur _ _ Hok0) as Hcur0.
  assert (∀ u x, mem s0 !! u = Some x → 0 ≤ time_slot x < 60 ∧ 0 ≤ rotation x ∧ (time_slot x = cur ↔ u ∈ L ∨ u ∈ k)) as Hdata.
  { intros u x Hx. destruct (w_data _ _ Hok0 u x Hx) as (? & Hu & ?). split_and!; try lia. rewrite <-elem_of_app, Hp. split.
    - by intros <-.
    - intros Hu'. destruct (w_slot _ _ Hok0 cur u Hcur0 Hu') as (? & ? & ?). by simplify_eq. }
  split_and!.
  - unfold timers, pass. simpl. apply map_eq. intros u. rewrite lookup_omap, !lookup_fmap. specialize (Hcore u).
    destruct (mem s0 !! u) as [x0|] eqn:Hx0; simpl in *; [|by destruct (mem s !! u); simpl in Hcore; case_decide].
    destruct (Hdata u x0 Hx0) as (Hs & Hr & Hin). destruct (decide (u ∈ L)) as [HL|HL].
    + destruct (mem s !! u); [done|]. simpl. rewrite decide_True; [done|]. apply remaining_zero; [done..|].
      split; [by apply (Hdue u)|]. apply Hin. by left.
    + destruct (mem s !! u) as [x|]; [|done]. simpl in *. apply (inj Some) in Hcore.
      assert (remaining c x = remaining cur x0 - 1 ∧ cb_func x = cb_func x0 ∧ user_data x = user_data x0) as (-> & -> & ->).
      { rewrite Hc. case_decide as Hk.
        - apply (f_equal core), core_rest in Hcore as (E1 & E2 & E3 & E4). simpl in *. split_and!; [|done..].
          apply remaining_next; [done..|]. simpl. rewrite decide_True by tauto. done.
        - apply core_rest in Hcore as (E1 & E2 & E3 & E4). split_and!; [|done..].
          apply remaining_next; [done..|]. rewrite decide_False by tauto. done. }
      rewrite decide_False; [done|]. rewrite remaining_zero by done. intros [Hr0 Hs0].
      destruct (proj1 Hin Hs0) as [|Hk]; [done|]. specialize (Hst u x0 Hk Hx0). lia.
  - assert (NoDup (L ++ k)) as Hnd by (rewrite Hp; by apply (w_nodup _ _ Hok0)). by apply NoDup_app in Hnd as [? _].
  - intros t. unfold timers. rewrite lookup_fmap. split.
    + intros Ht. assert (t ∈ ls0 cur) as Ht0 by (rewrite <-Hp; apply elem_of_app; by left).
      destruct (w_slot _ _ Hok0 cur t Hcur0 Ht0) as (x & Hx & Hs). rewrite Hx. simpl. exists (cb_func x), (user_data x).
      destruct (Hdata t x Hx) as (? & ? & _). rewrite (proj2 (remaining_zero cur x Hcur0 ltac:(done) ltac:(done))); [done|].
      split; [by apply (Hdue t)|done].
    + intros (cb & d & Ht). destruct (mem s0 !! t) as [x|] eqn:Hx; [|done]. simpl in Ht. injection Ht as Hz _ _.
      destruct (Hdata t x Hx) as (? & ? & Hin). apply remaining_zero in Hz as [Hr0 Hs0]; [|done..].
      destruct (proj1 Hin Hs0) as [|Hk]; [done|]. specialize (Hst t x Hk Hx). lia.
Qed.

Lemma ticking_round L k r ls s :
  (∀ t cb d, timers s0 !! t = Some (0, cb, d) → cb ≠ 0) → ticking L k r ls s →
  wp (tick_round cur (default 0 (head r))) s (λ res s',
    match r with
    | [] => res = inr () ∧ s' = s
    | _ :: r' => ∃ L k ls, res = inl (default 0 (head r')) ∧ ticking L k r' ls s'
    end).
Proof.
  intros Hcb H. pose proof (w_cur _ _ Hok0) as Hcur. unfold tick_round. destruct r as [|t r]; [by wp_go|].
  assert (wheel_lists ls s ∧ ls cur = k ++ t :: r) as [Hok Hl] by (by destruct H).
  destruct (wheel_at _ _ _ _ _ _ Hok Hcur Hl) as (x & Hx & Ht0 & Hsl & _ & Hn & _).
  simpl. rewrite (proj2 (Z.eqb_neq t 0)) by done. wp_go. eapply wp_fget; [done|]. wp_go. rewrite Z.gtb_ltb.
  destruct (Z.ltb_spec 0 (rotation x)) as [Hrot|Hrot].
  - wp_go. eapply wp_fset; [done|]. wp_go. eapply wp_fget; [apply lookup_insert_eq|]. wp_go.
    exists L, (k ++ [t]), ls. split; [by f_equal|]. by apply ticking_stay.
  - wp_go. eapply wp_fget; [done|]. wp_go. eapply wp_fget; [done|]. wp_go. unfold call. wp_go.
    destruct (ticking_next _ _ _ _ _ _ _ H Hx) as (_ & _ & x0 & Hx0 & Hc). apply core_rest in Hc as (Hcr & Hcs & Hcc & _).
    apply wp_assert.
    { apply negb_true_iff, Z.eqb_neq. destruct (w_data _ _ Hok0 _ _ Hx0) as (? & _ & ?). apply (Hcb t _ (user_data x0)).
      unfold timers. rewrite lookup_fmap, Hx0. simpl. rewrite Hcc. do 3 f_equal. apply remaining_zero; [done..|lia]. }
    wp_go. simpl.
    pose proof (wheel_turn _ _ (cur_slot (env s)) (fired (env s) ++ [(cb_func x, user_data x)]) Hok (w_cur _ _ Hok)) as Hok1.
    pose proof (tick_removes _ _ cur k t r Hok1 Hcur Hl) as Hrm. apply wp_bind_inv in Hrm.
    eapply wp_mono; [exact Hrm|]. intros h s1 Hh. eapply wp_mono; [exact Hh|]. intros res s2 [-> Hs2].
    exists (L ++ [t]), k, (upd ls cur (k ++ r)). split; [done|]. by eapply ticking_fire.
Qed.

Lemma tick_passes :
  (∀ t cb d, timers s0 !! t = Some (0, cb, d) → cb ≠ 0) →
  wp tick s0 (λ _ s', wheel_ok s' ∧ timers s' = pass (timers s0) ∧ ∃ L, NoDup L ∧
    (∀ t, t ∈ L ↔ ∃ cb d, timers s0 !! t = Some (0, cb, d)) ∧
    fired (env s') = fired (env s0) ++ (call_of (timers s0) <$> L)).
Proof.
  intros Hcb. pose proof (w_cur _ _ Hok0) as Hcur. pose proof (w_seg _ _ Hok0 _ Hcur) as Hseg.
  unfold tick. wp_go. eapply slot_get_spec; [done..|]. wp_go.
  apply (wp_mono _ _ (λ _ s', ∃ L k ls, ticking L k [] ls s')).
  - eapply (wp_loop (λ n tmp s, ∃ L k r ls, ticking L k r ls s ∧ tmp = default 0 (head r) ∧ n = length r)).
    + intros n tmp s (L & k & r & ls & H & -> & ->). eapply wp_mono; [by eapply ticking_round|]. intros res s' Hres. simpl in Hres.
      destruct r as [|t r]; [destruct Hres as [-> ->]; by exists L, k, ls|]. destruct Hres as (L' & k' & ls' & -> & H').
      exists (length r). split; [simpl; lia|]. by exists L', k', r, ls'.
    + exists [], [], (ls0 cur), ls0. split_and!; [apply ticking_init|by eapply seg_head|done].
    + apply Nat.lt_succ_r, live_length; [by apply (w_nodup _ _ Hok0)|]. intros u Hu. by eapply seg_live.
  - intros [] s' (L & k & ls & H). unfold turn. wp_go. pose proof H as [Hok Hc Hl Hp Hf _ _ _].
    assert (Z.rem (cur_slot (env s') + 1) N = (cur + 1) mod 60) as Hc' by (rewrite Hc; apply Z.rem_mod_nonneg; unfold N; lia).
    rewrite Hc'. destruct (ticking_end _ _ _ _ _ H eq_refl) as (HT & Hnd & HL). split_and!; [|done|by exists L].
    exists ls. apply wheel_turn; [done|]. by apply Z.mod_pos_bound.
Qed.
End ticking.

(** ** The end of the wheel *)

Section deleting.
Implicit Types (s : st tw_timer time_wheel) (ls : Z → list Z) (x : tw_timer) (t i : Z).

Lemma delete_slot_empties ls s i :
  wheel_lists ls s → 0 ≤ i < 60 → wp (delete_slot i) s (λ _ s', wheel_lists (upd ls i []) s').
Proof.
  intros Hok Hi. pose proof (w_nodup _ _ Hok i Hi) as Hnd. pose proof (w_seg _ _ Hok i Hi) as Hseg0.
  unfold delete_slot. wp_go. eapply slot_get_spec; [done..|].
  eapply (wp_loop (λ n tmp s', ∃ d r, ls i = d ++ r ∧ n = length r ∧ tmp = slots (env s') !!! Z.to_nat i ∧
    seg (mem s') (default 0 (last d)) tmp r 0 ∧ length (slots (env s')) = 60%nat ∧ cur_slot (env s') = cur_slot (env s) ∧
    (∀ j, 0 ≤ j < 60 → j ≠ i → slots (env s') !!! Z.to_nat j = slots (env s) !!! Z.to_nat j) ∧
    ∀ u, mem s' !! u = if decide (u ∈ d) then None else mem s !! u)).
  - intros n tmp s' (d & r & Hl & -> & Htmp & Hseg & Hlen & Hc & Hsl & Hm). destruct r as [|t r].
    + simpl in Hseg. rewrite Hseg in Htmp |- *. simpl. wp_go. rewrite app_nil_r in Hl. rewrite <-Hl in Hm.
      eapply wheel_lists_upd; try done.
      * by apply NoDup_nil.
      * intros u x Hx Hne. rewrite Hm, decide_False; [done|]. intros Hu.
        destruct (w_slot _ _ Hok i u Hi Hu) as (? & ? & ?). by simplify_eq.
      * by intros u x ?%not_elem_of_nil.
      * intros u x _. rewrite Hm. case_decide as Hu; [done|]. intros Hx. split; [done|]. intros <-. by apply Hu, (w_data _ _ Hok u).
    + destruct Hseg as (E & Ht0 & x & Hx & Hp & Hseg). rewrite E in Htmp |- *. rewrite (proj2 (Z.eqb_neq t 0)) by done.
      wp_go. eapply wp_fget; [done|]. wp_go. apply slot_set_spec; [done..|]. wp_go. eapply wp_free; [done|done|]. wp_go.
      apply slot_get_at; [simpl; by rewrite length_insert|done|]. wp_go. simpl.
      exists (length r). split; [lia|]. exists (d ++ [t]), r. rewrite slots_insert, decide_True by done.
      rewrite Hl in Hnd. apply NoDup_app in Hnd as (_ & Hdt & [Htr _]%NoDup_cons).
      split_and!; [by rewrite <-app_assoc|done|done| |by rewrite length_insert|done| |].
      * rewrite last_snoc. simpl. eapply seg_frame, Hseg. intros u Hu. apply lookup_delete_ne. by intros ->.
      * intros j Hj Hne. rewrite slots_insert, decide_False by done. by apply Hsl.
      * intros u. destruct (decide (t = u)) as [<-|Hne].
        { rewrite lookup_delete_eq, decide_True; [done|]. apply elem_of_app. right; left. }
        rewrite lookup_delete_ne, Hm by done. apply decide_ext. rewrite elem_of_app, list_elem_of_singleton.
        split; [tauto|]. intros [?|?]; [done|congruence].
  - exists [], (ls i). split_and!; try done. apply (w_len _ _ Hok).
  - apply Nat.lt_succ_r, live_length; [done|]. intros u Hu. by eapply seg_live.
Qed.

Lemma time_wheel_delete_frees s : wheel_ok s → wp time_wheel_delete s (λ _ s', mem s' = ∅).
Proof.
  intros [ls Hok]. unfold time_wheel_delete.
  eapply (wp_loop (λ n i s', 0 ≤ i ≤ 60 ∧ n = Z.to_nat (60 - i) ∧ ∃ ls, wheel_lists ls s' ∧ ∀ j, 0 ≤ j < i → ls j = [])).
  - intros n i s' (Hi & -> & ls' & Hok' & Hnil). destruct (Z.ltb_spec i N) as [Hlt|Hge]; unfold N in *.
    + wp_go. eapply wp_mono; [apply (delete_slot_empties ls'); [done|lia]|]. intros [] s2 H2. wp_go.
      exists (Z.to_nat (60 - (i + 1))). split; [lia|]. split_and!; [lia..|done|]. exists (upd ls' i []). split; [done|].
      intros j Hj. unfold upd. case_decide; [done|]. apply Hnil. lia.
    + wp_go. apply map_eq. intros u. rewrite lookup_empty. destruct (mem s' !! u) as [x|] eqn:Hx; [|done]. exfalso.
      destruct (w_data _ _ Hok' u x Hx) as (Hs & Hu & _). rewrite Hnil in Hu by lia. by apply not_elem_of_nil in Hu.
  - split_and!; [lia..|done|]. exists ls. split; [done|]. intros; lia.
  - unfold N. lia.
Qed.
End deleting.

Lemma wheel_init : wheel_ok init_st.
Proof.
  exists (λ _, []). split; try done.
  - intros i Hi. unfold init_st, time_wheel_new. cbn [seg mem env slots]. apply lookup_total_replicate_2. unfold N. lia.
  - intros. by apply NoDup_nil.
  - by intros i t _ ?%not_elem_of_nil.
Qed.

(** ** The contract *)

(** The countdowns after a use of the wheel, and which uses are allowed: the
    address of a new timer is fresh, a timer that is deleted is live. *)
Definition countdown (T : gmap Z (Z * Z * Z)) (o : op) : gmap Z (Z * Z * Z) :=
  match o with
  | Add t timeout cb d => if timeout <? 0 then T else <[t := (Z.max timeout 1, cb, d)]> T
  | Del t => delete t T
  | Tick => pass T
  end.
Definition allowed1 (T : gmap Z (Z * Z * Z)) (o : op) : Prop :=
  match o with
  | Add t timeout cb d => t ≠ 0 ∧ T !! t = None ∧ cb ≠ 0
  | Del t => t = 0 ∧ T !! t = None ∨ is_Some (T !! t)
  | Tick => True
  end.
Fixpoint allowed (T : gmap Z (Z * Z * Z)) (ops : list op) : Prop :=
  match ops with [] => True | o :: ops => allowed1 T o ∧ allowed (countdown T o) ops end.

(** [L] is the timers whose countdown is at 0, in some order. *)
Definition due (T : gmap Z (Z * Z * Z)) (L : list Z) : Prop :=
  NoDup L ∧ ∀ t, t ∈ L ↔ ∃ cb d, T !! t = Some (0, cb, d).

(** The calls of one use, and of a sequence of uses. *)
Definition fires1 (T : gmap Z (Z * Z * Z)) (o : op) (calls : list (Z * Z)) : Prop :=
  match o with Tick => ∃ L, due T L ∧ calls = call_of T <$> L | _ => calls = [] end.
Fixpoint fires (T : gmap Z (Z * Z * Z)) (ops : list op) (calls : list (Z * Z)) : Prop :=
  match ops with
  | [] => calls = []
  | o :: ops => ∃ c1 c2, calls = c1 ++ c2 ∧ fires1 T o c1 ∧ fires (countdown T o) ops c2
  end.

(** Every timer has a callback. *)
Definition callable (T : gmap Z (Z * Z * Z)) : Prop := ∀ t n cb d, T !! t = Some (n, cb, d) → cb ≠ 0.

Lemma pass_lookup T t : pass T !! t = (T !! t ≫= λ '(n, cb, d), if decide (n = 0) then None else Some (n - 1, cb, d)).
Proof. apply lookup_omap. Qed.

Lemma callable_countdown T o : callable T → allowed1 T o → callable (countdown T o).
Proof.
  intros H Ho u n cb d Hu. destruct o as [t timeout cb' d'|t|]; simpl in *.
  - destruct (timeout <? 0); [by eapply H|]. destruct Ho as (_ & _ & Hcb).
    destruct (decide (t = u)) as [<-|]; [rewrite lookup_insert_eq in Hu; by simplify_eq|].
    rewrite lookup_insert_ne in Hu by done. by eapply H.
  - apply lookup_delete_Some in Hu as [_ Hu]. by eapply H.
  - rewrite pass_lookup in Hu. destruct (T !! u) as [[[m cb'] d']|] eqn:E; [|done]. simpl in Hu. case_decide; simplify_eq. by eapply H.
Qed.

Section contract.
Implicit Types (s : st tw_timer time_wheel) (x : tw_timer) (t : Z).

Lemma timers_None s t : timers s !! t = None ↔ mem s !! t = None.
Proof. unfold timers. rewrite lookup_fmap. by destruct (mem s !! t). Qed.

Lemma exec_refines s o :
  wheel_ok s → callable (timers s) → allowed1 (timers s) o →
  wp (exec o) s (λ _ s', wheel_ok s' ∧ timers s' = countdown (timers s) o ∧
    ∃ calls, fires1 (timers s) o calls ∧ fired (env s') = fired (env s) ++ calls).
Proof.
  intros [ls Hok] Hcall Ho. destruct o as [t timeout cb d|t|]; simpl in *.
  - destruct Ho as (Ht0 & Ht & _). apply timers_None in Ht. destruct (Z.ltb_spec timeout 0) as [Hneg|Hpos].
    + unfold add_timer. rewrite (proj2 (Z.ltb_lt timeout 0)) by done. wp_go. split_and!; [by exists ls|done|].
      exists []. by rewrite app_nil_r.
    + wp_go. eapply wp_mono; [by eapply add_timer_adds|]. intros r s' (_ & H1 & H2 & H3). wp_go. split_and!; [done..|].
      exists []. by rewrite app_nil_r.
  - destruct (timers s !! t) as [y|] eqn:Ht.
    + destruct (mem s !! t) as [x|] eqn:Hx; [|apply timers_None in Hx; congruence].
      eapply wp_mono; [by eapply del_timer_removes|]. intros [] s' (i & k & r & Hrm).
      split_and!; [eexists; by eapply rm_lists|by eapply removed_timers|].
      exists []. rewrite app_nil_r. split; [done|by eapply rm_fired].
    + destruct Ho as [[-> _]|[? ?]]; [|done]. unfold del_timer. wp_go. split_and!; [by exists ls|by rewrite delete_id|].
      exists []. by rewrite app_nil_r.
  - eapply wp_mono; [eapply tick_passes; [done|by intros; eapply Hcall]|]. intros [] s' (H1 & H2 & L & Hnd & HL & Hf).
    split_and!; [done..|]. eexists. split; [by exists L|done].
Qed.

Lemma execs_refine s ops :
  wheel_ok s → callable (timers s) → allowed (timers s) ops →
  wp (execs ops) s (λ _ s', wheel_ok s' ∧ callable (timers s') ∧ timers s' = fold_left countdown ops (timers s) ∧
    ∃ calls, fires (timers s) ops calls ∧ fired (env s') = fired (env s) ++ calls).
Proof.
  revert s. induction ops as [|o ops IH]; intros s Hok Hcall Hall; simpl.
  - wp_go. split_and!; [done..|]. exists []. by rewrite app_nil_r.
  - destruct Hall as [Ho Hall]. wp_go. eapply wp_mono; [by apply exec_refines|]. intros [] s1 (Hok1 & HT1 & c1 & Hc1 & Hf1).
    rewrite <-HT1 in Hall. assert (callable (timers s1)) as Hcall1 by (rewrite HT1; by apply callable_countdown).
    eapply wp_mono; [by apply IH|]. intros [] s2 (Hok2 & Hcall2 & HT2 & c2 & Hc2 & Hf2). rewrite HT1 in HT2, Hc2.
    split_and!; [done..|]. exists (c1 ++ c2). split; [by exists c1, c2|]. by rewrite Hf2, Hf1, (assoc_L (++)).
Qed.

(** C7: Every sequence of uses of a wheel, in which new timers get fresh addresses
    and only live timers are deleted, runs without undefined behaviour and
    as a set of countdowns would: a tick calls the timers at 0, once
    each, and takes 1 from the others; and then the destructor frees
    every timer. *)
Theorem wheel_refines s ops :
  wheel_ok s → callable (timers s) → allowed (timers s) ops →
  wp (execs ops) s (λ _ s', wheel_ok s' ∧ timers s' = fold_left countdown ops (timers s) ∧
    (∃ calls, fires (timers s) ops calls ∧ fired (env s') = fired (env s) ++ calls) ∧
    wp time_wheel_delete s' (λ _ s2, mem s2 = ∅)).
Proof.
  intros Hok Hcall Hall. eapply wp_mono; [by apply execs_refine|]. intros [] s' (H1 & _ & H2 & H3).
  split_and!; [done..|by apply time_wheel_delete_frees].
Qed.

(** A countdown after some ticks. *)
Lemma ticks_lookup T t n k cb d :
  T !! t = Some (n, cb, d) → Z.of_nat k ≤ n →
  fold_left countdown (replicate k Tick) T !! t = Some (n - Z.of_nat k, cb, d).
Proof.
  revert T n. induction k as [|k IH]; intros T n HT Hk; simpl; [by rewrite Z.sub_0_r|].
  rewrite (IH _ (n - 1)); [do 3 f_equal; lia| |lia]. rewrite pass_lookup, HT. simpl. by rewrite decide_False by lia.
Qed.

Lemma allowed_ticks T k : allowed T (replicate k Tick).
Proof. revert T. induction k; intros T; simpl; auto. Qed.

(** A timer that is added with a timeout [n] is still in the wheel after
    [max n 1] ticks, and fires, once and for all, in the tick after them. *)
Theorem wheel_fires_on_time s t n cb d :
  wheel_ok s → callable (timers s) → t ≠ 0 → mem s !! t = None → 0 ≤ n → cb ≠ 0 →
  wp (exec (Add t n cb d);; execs (replicate (Z.to_nat (Z.max n 1)) Tick)) s (λ _ s1,
    is_Some (mem s1 !! t) ∧
    wp tick s1 (λ _ s2, mem s2 !! t = None ∧
      ∃ l1 l2, fired (env s2) = fired (env s1) ++ l1 ++ (cb, d) :: l2)).
Proof.
  intros Hok Hcall Ht0 Ht Hn Hcb. apply timers_None in Ht. assert (allowed1 (timers s) (Add t n cb d)) as Ho by done.
  wp_go. eapply wp_mono; [by apply exec_refines|]. intros [] s0 (Hok0 & HT0 & _).
  assert (callable (timers s0)) as Hcall0 by (rewrite HT0; by apply callable_countdown).
  eapply wp_mono; [apply execs_refine; [done..|apply allowed_ticks]|]. intros [] s1 (Hok1 & Hcall1 & HT1 & _).
  assert (timers s1 !! t = Some (0, cb, d)) as Htm.
  { rewrite HT1, HT0. simpl. rewrite (proj2 (Z.ltb_ge n 0)) by done.
    rewrite (ticks_lookup _ _ (Z.max n 1) _ cb d); [|apply lookup_insert_eq|lia]. by rewrite Z2Nat.id, Z.sub_diag by lia. }
  split.
  { destruct (mem s1 !! t) as [x|] eqn:E; [by exists x|]. apply timers_None in E. congruence. }
  destruct Hok1 as [ls1 Hok1]. eapply wp_mono; [eapply tick_passes; [done|by intros; eapply Hcall1]|].
  intros [] s2 (_ & HT2 & L & Hnd & HL & Hf). split.
  - apply timers_None. rewrite HT2, pass_lookup, Htm. done.
  - assert (t ∈ L) as HtL by (apply HL; by exists cb, d). apply list_elem_of_split in HtL as (l1 & l2 & ->).
    exists (call_of (timers s1) <$> l1), (call_of (timers s1) <$> l2). rewrite Hf, fmap_app. simpl.
    unfold call_of at 2. by rewrite Htm.
Qed.
End contract.

(** ** Witnesses *)

Definition demo_ops : list op := Add 8 1 5 6 :: Add 16 1 5 7 :: Add 24 61 5 8 :: Del 16 :: replicate 3 Tick.

Lemma demo_callable : callable (timers init_st).
Proof. intros t n cb d H. unfold timers, init_st in H. simpl in H. by rewrite fmap_empty, lookup_empty in H. Qed.

Lemma demo_allowed : allowed (timers init_st) demo_ops.
Proof.
  repeat split; try done.
  right. eexists. vm_compute. reflexivity.
Qed.

Lemma wheel_refines_witness :
  wp (execs demo_ops) init_st (λ _ s', timers s' = {[ 24 := (58, 5, 8) ]} ∧ wp time_wheel_delete s' (λ _ s2, mem s2 = ∅)).
Proof.
  eapply wp_mono; [apply (wheel_refines init_st demo_ops wheel_init demo_callable demo_allowed)|].
  intros [] s' (_ & HT & _ & Hd). split; [|exact Hd]. rewrite HT. by vm_compute.
Defined.

Lemma wheel_fires_on_time_witness :
  wp (exec (Add 8 61 5 6);; execs (replicate 61 Tick)) init_st (λ _ s1,
    is_Some (mem s1 !! 8) ∧ wp tick s1 (λ _ s2, mem s2 !! 8 = None ∧
      ∃ l1 l2, fired (env s2) = fired (env s1) ++ l1 ++ (5, 6) :: l2)).
Proof. apply (wheel_fires_on_time init_st 8 61 5 6 wheel_init demo_callable); done. Defined.
