(* ===== verification/CppTimer.v ===== *)
(** * timer: the timers of the C++ wheel

    [Timer.cpp] of the C++ wheel: timers are named by numbers, which are indices
    of the array [timers]; a number that was deleted is kept on a stack for the
    next timer.  The wheel is that of TimeWheel, whose methods [TimeWheel.h] repeats
    with a [TimerHandler] in place of the function and its argument.  Operations
    are atomic here; the code has no lock. *)
From S2P Require Import Prelude TimeWheel TimeWheelProps.
#[local] Open Scope Z_scope.

(** ** Operations *)

(** [class Timer]; an element that was never written is absent. *)
Record Timer := TimerObj { timers_ : gmap Z Z; timer_count : Z; stack : gmap Z Z; stack_index : Z }.
Definition MAX_TIMERS : Z := 65536.

(** An element of an array of [MAX_TIMERS]. *)
Definition array_get (a : gmap Z Z) (i : Z) : TW Z :=
  assert ((0 <=? i) && (i <? MAX_TIMERS));;
  match a !! i with Some x => mret x | None => ub end.
Definition array_set (a : gmap Z Z) (i x : Z) : TW (gmap Z Z) :=
  assert ((0 <=? i) && (i <? MAX_TIMERS));; mret (<[i := x]> a).

Definition Timer_new : Timer := TimerObj ∅ 0 ∅ 0.

(** [p] is the address of the new [tw_timer]; the result is the number. *)
Definition addTimer (t : Timer) (p timeout handler : Z) : TW (Z * Timer) :=
  if stack_index t <=? 0 then
    tw ← add_timer p timeout handler 0;
    a ← array_set (timers_ t) (timer_count t) tw;
    mret (timer_count t, TimerObj a (timer_count t + 1) (stack t) (stack_index t))
  else
    index ← array_get (stack t) (stack_index t - 1);
    tw ← add_timer p timeout handler 0;
    a ← array_set (timers_ t) index tw;
    mret (index, TimerObj a (timer_count t) (stack t) (stack_index t - 1)).

Definition deleteTimer (t : Timer) (timer_n : Z) : TW (Z * Timer) :=
  tw ← array_get (timers_ t) timer_n;
  if negb (tw =? 0) then
    del_timer tw;;
    a ← array_set (stack t) (stack_index t) timer_n;
    mret (0, TimerObj (timers_ t) (timer_count t) a (stack_index t + 1))
  else mret (-1, t).

(** What a program does with its timers, and the numbers it gets. *)
Inductive use := Add_timer (p timeout handler : Z) | Delete_timer (timer_n : Z) | Second.
Definition run_use (t : Timer) (o : use) : TW (Z * Timer) :=
  match o with
  | Add_timer p timeout handler => addTimer t p timeout handler
  | Delete_timer n => deleteTimer t n
  | Second => tick;; mret (0, t)
  end.
Fixpoint run_uses (t : Timer) (l : list use) : TW (list Z * Timer) :=
  match l with
  | [] => mret ([], t)
  | o :: l => '(r, t) ← run_use t o; '(rs, t) ← run_uses t l; mret (r :: rs, t)
  end.

(** ** Numbers of timers *)

(** Every number in use with the address of its timer and its countdown; the
    numbers to use again, the next one last; and how many there have been. *)
Record numbers := Numbers { pending : gmap Z (Z * (Z * Z * Z)); free_numbers : list Z; taken_numbers : Z }.

Definition next_number (a : numbers) : Z := default (taken_numbers a) (last (free_numbers a)).
Definition second (x : Z * (Z * Z * Z)) : option (Z * (Z * Z * Z)) :=
  let '(p, (n, cb, d)) := x in if decide (n = 0) then None else Some (p, (n - 1, cb, d)).
Definition used (a : numbers) (o : use) : Z * numbers :=
  match o with
  | Add_timer p timeout handler =>
      (next_number a, Numbers (<[next_number a := (p, (Z.max timeout 1, handler, 0))]> (pending a)) (removelast (free_numbers a))
        (if free_numbers a is [] then taken_numbers a + 1 else taken_numbers a))
  | Delete_timer n => (0, Numbers (delete n (pending a)) (free_numbers a ++ [n]) (taken_numbers a))
  | Second => (0, Numbers (omap second (pending a)) (free_numbers a) (taken_numbers a))
  end.
(** A new timer has a fresh address, and there is a number for it; only a timer
    that has not fired is deleted. *)
Definition use_ok (a : numbers) (o : use) : Prop :=
  match o with
  | Add_timer p timeout handler =>
      p ≠ 0 ∧ 0 ≤ timeout ∧ handler ≠ 0 ∧ (∀ n x, pending a !! n ≠ Some (p, x)) ∧ (free_numbers a ≠ [] ∨ taken_numbers a < MAX_TIMERS)
  | Delete_timer n => is_Some (pending a !! n)
  | Second => True
  end.
Fixpoint uses_ok (a : numbers) (l : list use) : Prop :=
  match l with [] => True | o :: l => use_ok a o ∧ uses_ok (used a o).2 l end.
Fixpoint all_used (a : numbers) (l : list use) : list Z * numbers :=
  match l with [] => ([], a) | o :: l => let '(r, a) := used a o in let '(rs, a) := all_used a l in (r :: rs, a) end.

Record numbered (t : Timer) (s : st tw_timer time_wheel) (a : numbers) : Prop := {
  nu_wheel : wheel_ok s;
  nu_callable : callable (timers s);
  nu_timers : ∀ p x, timers s !! p = Some x ↔ ∃ n, pending a !! n = Some (p, x);
  nu_pending : ∀ n p x, pending a !! n = Some (p, x) → timers_ t !! n = Some p ∧ 0 ≤ n < taken_numbers a ∧ (n ∉ free_numbers a) ∧ p ≠ 0;
  nu_distinct : ∀ n1 n2 p x1 x2, pending a !! n1 = Some (p, x1) → pending a !! n2 = Some (p, x2) → n1 = n2;
  nu_stack : ∀ j n, free_numbers a !! j = Some n → stack t !! Z.of_nat j = Some n ∧ 0 ≤ n < taken_numbers a;
  nu_free : NoDup (free_numbers a);
  nu_index : stack_index t = Z.of_nat (length (free_numbers a));
  nu_count : timer_count t = taken_numbers a ∧ 0 ≤ taken_numbers a ≤ MAX_TIMERS;
}.

Lemma numbered_new : numbered Timer_new init_st (Numbers ∅ [] 0).
Proof.
  split; try done.
  - apply wheel_init.
  - intros p x. split; [|by intros [n ?]]. unfold timers, init_st. cbn [mem]. by rewrite fmap_empty, lookup_empty.
  - apply NoDup_nil. done.
Qed.

Lemma array_get_ok a i x (s : st tw_timer time_wheel) Q : 0 ≤ i < MAX_TIMERS → a !! i = Some x → Q x s → wp (array_get a i) s Q.
Proof.
  intros Hi Hx HQ. unfold array_get. apply wp_bind, wp_assert; [apply andb_true_iff; split; [apply Z.leb_le|apply Z.ltb_lt]; lia|]. by rewrite Hx.
Qed.
Lemma array_set_ok a i x (s : st tw_timer time_wheel) Q : 0 ≤ i < MAX_TIMERS → Q (<[i := x]> a) s → wp (array_set a i x) s Q.
Proof.
  intros Hi HQ. unfold array_set. apply wp_bind, wp_assert; [apply andb_true_iff; split; [apply Z.leb_le|apply Z.ltb_lt]; lia|]. by apply wp_ret.
Qed.

(** A wheel to which a timer was added under the number [n]. *)
Lemma numbered_add t s s' a n p timeout cb t' F c :
  numbered t s a → use_ok a (Add_timer p timeout cb) → wheel_ok s' → timers s' = <[p := (Z.max timeout 1, cb, 0)]> (timers s) →
  timers_ t' = <[n := p]> (timers_ t) → pending a !! n = None → 0 ≤ n < c → taken_numbers a ≤ c →
  (∀ j m, F !! j = Some m → stack t' !! Z.of_nat j = Some m ∧ m ≠ n) → (F = removelast (free_numbers a)) →
  stack_index t' = Z.of_nat (length F) → timer_count t' = c → c ≤ MAX_TIMERS →
  numbered t' s' (Numbers (<[n := (p, (Z.max timeout 1, cb, 0))]> (pending a)) F c).
Proof.
  intros [Hw Hc Ht Hp Hd Hs Hf Hi Hn] (Hp0 & Hto & Hcb & Hfresh & _) Hw' Et Ea Hnone Hnc Hcle HF EF Ei Ec Hcm.
  assert (∀ j m, F !! j = Some m → free_numbers a !! j = Some m) as Hsub.
  { intros j m Hj. rewrite EF in Hj. destruct (decide (free_numbers a = [])) as [E|E]; [by rewrite E in Hj|].
    rewrite (app_removelast_last 0 E). by apply lookup_app_l_Some. }
  split; cbn [pending free_numbers taken_numbers]; [done| | | | | | |done|split; [done|lia]].
  - intros u k cb' d. rewrite Et. destruct (decide (p = u)) as [<-|Hne]; [rewrite lookup_insert_eq; intros; by simplify_eq|].
    rewrite lookup_insert_ne by done. apply Hc.
  - intros u x. rewrite Et. destruct (decide (p = u)) as [<-|Hne].
    + rewrite lookup_insert_eq. split; [intros [= <-]; exists n; by rewrite lookup_insert_eq|]. intros [m Hm].
      destruct (decide (n = m)) as [<-|Hnm]; [rewrite lookup_insert_eq in Hm; by simplify_eq|]. rewrite lookup_insert_ne in Hm by done. by apply Hfresh in Hm.
    + rewrite lookup_insert_ne, Ht by done. split; intros [m Hm].
      * exists m. rewrite lookup_insert_ne; [done|]. intros <-. congruence.
      * exists m. destruct (decide (n = m)) as [<-|Hnm]; [rewrite lookup_insert_eq in Hm; by simplify_eq|]. by rewrite lookup_insert_ne in Hm.
  - intros m u x Hm. destruct (decide (n = m)) as [<-|Hnm].
    + rewrite lookup_insert_eq in Hm. simplify_eq. rewrite Ea, lookup_insert_eq. split_and!; [done|lia|lia| |done].
      intros (j & Hj)%list_elem_of_lookup. by apply HF in Hj as [_ ?].
    + rewrite lookup_insert_ne in Hm by done. destruct (Hp m u x Hm) as (H1 & H2 & H3 & H4). rewrite Ea, lookup_insert_ne by done. split_and!; [done|lia|lia| |done].
      intros (j & Hj)%list_elem_of_lookup. apply H3. eapply list_elem_of_lookup_2, Hsub, Hj.
  - intros n1 n2 u x1 x2 [[<- E1]|[_ H1]]%lookup_insert_Some [[<- E2]|[_ H2]]%lookup_insert_Some; simplify_eq; try done.
    + by apply Hfresh in H2.
    + by apply Hfresh in H1.
    + by eapply Hd.
  - intros j m Hj. destruct (HF j m Hj) as [? _]. destruct (Hs j m) as [_ ?]; [by apply Hsub|]. split; [done|lia].
  - rewrite EF. destruct (decide (free_numbers a = [])) as [E|E]; [rewrite E; by apply NoDup_nil|].
    rewrite (app_removelast_last 0 E) in Hf. by apply NoDup_app in Hf as [? _].
Qed.

Lemma numbers_bound (l : list Z) c : NoDup l → (∀ n, n ∈ l → 0 ≤ n < c) → 0 ≤ c → Z.of_nat (length l) ≤ c.
Proof.
  intros Hl Hc H0. assert (length l ≤ length (seqZ 0 c))%nat as H; [|rewrite length_seqZ in H; lia].
  apply submseteq_length, NoDup_submseteq; [done|]. intros n Hn. apply elem_of_seqZ. specialize (Hc n Hn). lia.
Qed.

Lemma addTimer_spec t s a p timeout handler :
  numbered t s a → use_ok a (Add_timer p timeout handler) →
  wp (addTimer t p timeout handler) s (λ r s', let '(n, a') := used a (Add_timer p timeout handler) in
    r.1 = n ∧ numbered r.2 s' a' ∧ fired (env s') = fired (env s)).
Proof.
  intros Hnu Hok. pose proof Hnu as [[ls Hw] Hc Ht Hp Hd Hs Hf Hi [Hn1 Hn2]]. pose proof Hok as (Hp0 & Hto & Hcb & Hfresh & Hroom).
  assert (mem s !! p = None) as Hpm.
  { apply timers_None. destruct (timers s !! p) as [x|] eqn:E; [|done]. apply Ht in E as [n E]. by apply Hfresh in E. }
  assert (∀ n, n ∉ free_numbers a → ¬ is_Some (pending a !! n) → pending a !! n = None) as Hnone.
  { intros n _ H. by apply eq_None_not_Some. }
  unfold addTimer, used, next_number. destruct (free_numbers a) as [|m0 F0] eqn:EF.
  - rewrite Hi. cbn [length last default]. change (0 <=? 0) with true. cbn match.
    assert (taken_numbers a < MAX_TIMERS) as Hroom' by (by destruct Hroom). apply wp_bind. eapply wp_mono; [by eapply add_timer_adds|].
    intros r s' (-> & Hw' & Et & Efire). apply wp_bind, array_set_ok; [lia|]. apply wp_ret. cbn [fst snd]. split; [done|]. split; [|done].
    eapply numbered_add; rewrite ?EF; try done; cbn [timers_ timer_count stack stack_index length]; try lia; [by rewrite Hn1|].
    destruct (pending a !! taken_numbers a) as [[q x]|] eqn:E; [|done]. apply Hp in E as (_ & ? & _). lia.
  - rewrite <-EF in *. assert (free_numbers a ≠ []) as Hne by (by rewrite EF).
    assert (last (free_numbers a) = Some (List.last (free_numbers a) 0)) as El.
    { rewrite (app_removelast_last 0 Hne) at 1. by rewrite last_snoc. }
    set (n := List.last (free_numbers a) 0) in *.
    assert (free_numbers a = removelast (free_numbers a) ++ [n]) as ER by (by apply app_removelast_last). set (F := removelast (free_numbers a)) in *.
    assert (stack_index t = Z.of_nat (length F) + 1) as Hidx by (rewrite Hi, ER, length_app; cbn [length]; lia).
    rewrite (proj2 (Z.leb_gt _ _)) by lia. destruct (Hs (length F) n) as [Hstack Hnr]; [rewrite ER; by apply list_lookup_middle|].
    rewrite El. unfold default. replace (stack_index t - 1) with (Z.of_nat (length F)) by lia.
    assert (Z.of_nat (length (free_numbers a)) ≤ taken_numbers a) as Hlen.
    { apply numbers_bound; [done| |lia]. intros u (j & Hj)%list_elem_of_lookup. by apply Hs in Hj as [_ ?]. }
    apply wp_bind. eapply array_get_ok; [lia|done|]. apply wp_bind. eapply wp_mono; [by eapply add_timer_adds|].
    intros r s' (-> & Hw' & Et & Efire). apply wp_bind, array_set_ok; [lia|]. apply wp_ret. cbn [fst snd]. split; [done|]. split; [|done].
    unfold id. eapply numbered_add; try done; cbn [timers_ timer_count stack stack_index]; try lia.
    + destruct (pending a !! n) as [[q x]|] eqn:E; [|done]. apply Hp in E as (_ & _ & Hnot & _). destruct Hnot. rewrite ER. set_solver.
    + intros j u Hj. split; [apply Hs; rewrite ER; by apply lookup_app_l_Some|]. intros ->. rewrite ER in Hf. apply NoDup_app in Hf as (_ & Hf & _).
      eapply Hf; [by eapply list_elem_of_lookup_2|by apply list_elem_of_singleton].
Qed.

Lemma deleteTimer_spec t s a n :
  numbered t s a → is_Some (pending a !! n) →
  wp (deleteTimer t n) s (λ r s', r.1 = 0 ∧ numbered r.2 s' (used a (Delete_timer n)).2 ∧ fired (env s') = fired (env s)).
Proof.
  intros [Hw Hc Ht Hp Hd Hs Hf Hi [Hn1 Hn2]] [[p x] Hx]. destruct (Hp n p x Hx) as (Htn & Hnr & Hnf & Hp0).
  assert (timers s !! p = Some x) as Hpx by (apply Ht; by exists n).
  assert (Z.of_nat (length (free_numbers a ++ [n])) ≤ taken_numbers a) as Hlen.
  { apply numbers_bound; [|intros u [(j & Hj)%list_elem_of_lookup| ->%list_elem_of_singleton]%elem_of_app; [by apply Hs in Hj as [_ ?]|done]|lia].
    apply NoDup_app. split_and!; [done|by intros u Hu ->%list_elem_of_singleton|by apply NoDup_singleton]. }
  rewrite length_app in Hlen. cbn [length] in Hlen.
  unfold deleteTimer. apply wp_bind. eapply array_get_ok; [lia|done|]. rewrite (proj2 (Z.eqb_neq p 0)) by done. cbn [negb].
  apply wp_bind. eapply wp_mono; [apply (exec_refines s (Del p)); [done|done|by right; exists x]|].
  intros [] s' (Hw' & Et & calls & -> & Efire). rewrite app_nil_r in Efire. cbn [countdown] in Et. apply wp_bind, array_set_ok; [lia|]. apply wp_ret. cbn [fst snd].
  split; [done|]. split; [|done]. rewrite Hi. cbn [used snd].
  assert (∀ m q y, delete n (pending a) !! m = Some (q, y) → m ≠ n ∧ q ≠ p ∧ pending a !! m = Some (q, y)) as Hdel.
  { intros m q y [Hne Hm]%lookup_delete_Some. split_and!; [done| |done]. intros ->. apply Hne. by eapply Hd. }
  split; cbn [pending free_numbers taken_numbers timers_ timer_count stack stack_index]; [done| | | | | | | |done].
  - intros u k cb d. rewrite Et. intros [_ Hu]%lookup_delete_Some. by eapply Hc.
  - intros u y. rewrite Et. split.
    + intros [Hne Hu]%lookup_delete_Some. apply Ht in Hu as [m Hm]. exists m. rewrite lookup_delete_ne; [done|]. intros <-. congruence.
    + intros [m (_ & Hne & Hm)%Hdel]. rewrite lookup_delete_ne by done. apply Ht. by exists m.
  - intros m q y (Hne & _ & Hm)%Hdel. destruct (Hp m q y Hm) as (H1 & H2 & H3 & H4). split_and!; try done; try lia. rewrite elem_of_app, list_elem_of_singleton. tauto.
  - intros n1 n2 q x1 x2 (_ & _ & H1)%Hdel (_ & _ & H2)%Hdel. by eapply Hd.
  - intros j m Hj. apply lookup_app_Some in Hj as [Hj|[Hge Hj]].
    + destruct (Hs j m Hj) as [H1 H2]. rewrite lookup_insert_ne; [done|]. apply lookup_lt_Some in Hj. lia.
    + apply list_lookup_singleton_Some in Hj as [Hj <-]. replace j with (length (free_numbers a)) by lia. by rewrite lookup_insert_eq.
  - apply NoDup_app. split_and!; [done|by intros u Hu ->%list_elem_of_singleton|by apply NoDup_singleton].
  - rewrite length_app. cbn [length]. lia.
Qed.

(** The numbers of the timers that are due, in some order, and their calls. *)
Definition handler_of (a : numbers) (n : Z) : Z * Z := match pending a !! n with Some (_, (_, cb, d)) => (cb, d) | None => (0, 0) end.
Definition fires_use (a : numbers) (o : use) (calls : list (Z * Z)) : Prop :=
  match o with
  | Second => ∃ H, calls = handler_of a <$> H ∧ NoDup H ∧ ∀ n, n ∈ H ↔ ∃ p cb d, pending a !! n = Some (p, (0, cb, d))
  | _ => calls = []
  end.
Fixpoint fires_uses (a : numbers) (l : list use) (calls : list (Z * Z)) : Prop :=
  match l with
  | [] => calls = []
  | o :: l => ∃ c1 c2, calls = c1 ++ c2 ∧ fires_use a o c1 ∧ fires_uses (used a o).2 l c2
  end.

Lemma due_numbers t s a L :
  numbered t s a → NoDup L → (∀ p, p ∈ L ↔ ∃ cb d, timers s !! p = Some (0, cb, d)) → fires_use a Second (call_of (timers s) <$> L).
Proof.
  intros Hnu HL Hdue. assert (∃ H, Forall2 (λ p n, ∃ x, pending a !! n = Some (p, x)) L H) as [H HF].
  { clear HL. assert (∀ p, p ∈ L → ∃ n x, pending a !! n = Some (p, x)) as Hn.
    { intros p (cb & d & Hp)%Hdue. apply (nu_timers _ _ _ Hnu) in Hp as [n Hn]. by eauto. }
    clear Hdue. induction L as [|p L IH]; [by exists []|]. destruct (Hn p) as (n & x & Hx); [by left|].
    destruct IH as [H HF]; [intros q Hq; apply Hn; by right|]. exists (n :: H). constructor; [by exists x|done]. }
  exists H. split_and!.
  - clear HL Hdue. induction HF as [|p n L H [x Hx] HF IH]; [done|]. rewrite !fmap_cons, IH. f_equal. unfold call_of, handler_of. rewrite Hx.
    assert (timers s !! p = Some x) as -> by (apply (nu_timers _ _ _ Hnu); by exists n). by destruct x as [[? ?] ?].
  - clear Hdue. revert HL. induction HF as [|p n L H [x Hx] HF IH]; intros HL; [by apply NoDup_nil|]. apply NoDup_cons in HL as [Hp HL].
    apply NoDup_cons. split; [|by apply IH]. intros Hn. apply Hp. apply list_elem_of_lookup in Hn as [j Hj].
    destruct (Forall2_lookup_r _ _ _ _ _ HF Hj) as (q & Hq & y & Hy). rewrite Hx in Hy. injection Hy as -> ->. by eapply list_elem_of_lookup_2.
  - intros n. split.
    + intros (j & Hj)%list_elem_of_lookup. destruct (Forall2_lookup_r _ _ _ _ _ HF Hj) as (p & Hp & x & Hx).
      apply list_elem_of_lookup_2, Hdue in Hp as (cb & d & Hp). exists p, cb, d. rewrite Hx.
      assert (timers s !! p = Some x) as E by (apply (nu_timers _ _ _ Hnu); by exists n). congruence.
    + intros (p & cb & d & Hn). assert (p ∈ L) as (j & Hj)%list_elem_of_lookup by (apply Hdue; exists cb, d; apply (nu_timers _ _ _ Hnu); by exists n).
      destruct (Forall2_lookup_l _ _ _ _ _ HF Hj) as (m & Hm & x & Hx). rewrite (nu_distinct _ _ _ Hnu n m p _ _ Hn Hx). by eapply list_elem_of_lookup_2.
Qed.

Lemma second_Some x q y : second x = Some (q, y) ↔ ∃ n cb d, x = (q, (n, cb, d)) ∧ n ≠ 0 ∧ y = (n - 1, cb, d).
Proof.
  destruct x as [p [[n cb] d]]. unfold second. case_decide; split; [done|intros (? & ? & ? & ? & ? & ?); simplify_eq|intros [= <- <-]; by exists n, cb, d|].
  intros (? & ? & ? & ? & ? & ->). by simplify_eq.
Qed.

Lemma second_spec t s a :
  numbered t s a →
  wp tick s (λ _ s', numbered t s' (used a Second).2 ∧ ∃ calls, fires_use a Second calls ∧ fired (env s') = fired (env s) ++ calls).
Proof.
  intros Hnu. pose proof Hnu as [[ls Hw] Hc Ht Hp Hd Hs Hf Hi Hn]. eapply wp_mono; [eapply tick_passes; [done|intros; by eapply Hc]|].
  intros [] s' (Hw' & Et & L & HL & Hdue & Efire). split; [|exists (call_of (timers s) <$> L); split; [by eapply due_numbers|done]].
  assert (∀ m q y, omap second (pending a) !! m = Some (q, y) → ∃ x, pending a !! m = Some (q, x)) as Hsec.
  { intros m q y. rewrite lookup_omap. intros ([r x] & Hm & (n & cb & d & [= -> ->] & _)%second_Some)%bind_Some. by eauto. }
  cbn [used snd]. split; cbn [pending free_numbers taken_numbers]; [done| | | | |done|done|done|done].
  - intros u k cb d. rewrite Et, pass_lookup. intros ([[n cb'] d'] & Hu & E)%bind_Some. cbn in E. case_decide; [done|]. injection E as _ <- <-. by eapply Hc.
  - intros p x. rewrite Et, pass_lookup. split.
    + intros ([[n cb] d] & Hu & E)%bind_Some. cbn in E. case_decide; [done|]. injection E as <-. apply Ht in Hu as [m Hm]. exists m.
      rewrite lookup_omap, Hm. cbn. by rewrite decide_False.
    + intros [m Hm]. rewrite lookup_omap in Hm. apply bind_Some in Hm as (y & Hm & (n & cb & d & -> & Hn0 & ->)%second_Some).
      assert (timers s !! p = Some (n, cb, d)) as -> by (apply Ht; by exists m). cbn. by rewrite decide_False.
  - intros m q y [x Hm]%Hsec. by eapply Hp.
  - intros n1 n2 q x1 x2 [y1 H1]%Hsec [y2 H2]%Hsec. by eapply Hd.
Qed.

Lemma run_use_spec t s a o :
  numbered t s a → use_ok a o →
  wp (run_use t o) s (λ r s', r.1 = (used a o).1 ∧ numbered r.2 s' (used a o).2 ∧
    ∃ calls, fires_use a o calls ∧ fired (env s') = fired (env s) ++ calls).
Proof.
  intros Hnu Hok. destruct o as [p timeout handler|n|].
  - eapply wp_mono; [by apply addTimer_spec|]. cbn [used fst snd]. intros r s' (H1 & H2 & H3). split_and!; [done|done|]. exists []. by rewrite app_nil_r.
  - eapply wp_mono; [by apply deleteTimer_spec|]. intros r s' (H1 & H2 & H3). split_and!; [done|done|]. exists []. by rewrite app_nil_r.
  - apply wp_bind. eapply wp_mono; [by eapply second_spec|]. intros [] s' (H1 & H2). apply wp_ret. by split_and!.
Qed.

(** C11: Every sequence of uses that [use_ok] allows (timeouts that are not
    negative, handlers that are not null, fresh addresses, a number below 65536
    that is left for each new timer, and only timers that have not fired are
    deleted) runs without undefined behaviour, on the wheel, as a table of
    numbered countdowns would.  A number that [addTimer] gives is not that of a
    timer that waits: the number of the last timer that was deleted, or the next
    new one.  Each second exactly the timers that are due call their handlers, and
    the others wait on. *)
Theorem timers_refine l :
  uses_ok (Numbers ∅ [] 0) l →
  wp (run_uses Timer_new l) init_st (λ r s, let '(rs, a) := all_used (Numbers ∅ [] 0) l in
    r.1 = rs ∧ numbered r.2 s a ∧ fires_uses (Numbers ∅ [] 0) l (fired (env s))).
Proof.
  assert (∀ t s a, numbered t s a → uses_ok a l → wp (run_uses t l) s (λ r s', let '(rs, a') := all_used a l in
    r.1 = rs ∧ numbered r.2 s' a' ∧ ∃ calls, fires_uses a l calls ∧ fired (env s') = fired (env s) ++ calls)) as H.
  { induction l as [|o l IH]; intros t s a Hnu Hok; cbn [run_uses all_used].
    - apply wp_ret. split_and!; [done|done|]. exists []. by rewrite app_nil_r.
    - destruct Hok as [Ho Hok]. apply wp_bind. eapply wp_mono; [by apply run_use_spec|]. intros [r t1] s1 (Hr & Hnu1 & c1 & Hc1 & Hf1). cbn [fst snd] in *.
      apply wp_bind. eapply wp_mono; [by eapply IH|]. intros [rs t2] s2 H2. destruct (used a o) as [r' a1] eqn:Eu. cbn [fst snd] in *.
      destruct (all_used a1 l) as [rs' a2]. destruct H2 as (-> & Hnu2 & c2 & Hc2 & Hf2). cbn [fst snd] in *. apply wp_ret. cbn [fst snd].
      split_and!; [by rewrite Hr|done|]. exists (c1 ++ c2). split; [exists c1, c2; rewrite Eu; by split_and!|]. by rewrite Hf2, Hf1, app_assoc. }
  intros Hok. eapply wp_mono; [by apply H; [apply numbered_new|]|]. intros r s' Hr. destruct (all_used _ l) as [rs a].
  destruct Hr as (H1 & H2 & calls & H3 & H4). split_and!; [done|done|]. by rewrite H4.
Qed.

(** A number is not invalid when its timer has fired: deleting it in the next
    second reads a timer that is gone. *)
Theorem delete_after_fire t s a n p cb d :
  numbered t s a → pending a !! n = Some (p, (0, cb, d)) → wp tick s (λ _ s', deleteTimer t n s' = UB).
Proof.
  intros Hnu Hn. eapply wp_mono; [by eapply second_spec|]. intros [] s' [Hnu' _].
  destruct (nu_pending _ _ _ Hnu n p _ Hn) as (Ht & Hnr & _ & Hp0). pose proof (nu_count _ _ _ Hnu) as [_ Hcount].
  assert (mem s' !! p = None) as Hmem.
  { apply timers_None. destruct (timers s' !! p) as [y|] eqn:E; [|done]. exfalso. apply (nu_timers _ _ _ Hnu') in E as [m Hm].
    cbn [used snd pending] in Hm. rewrite lookup_omap in Hm. apply bind_Some in Hm as (x & Hm & (k & cb' & d' & -> & Hk & _)%second_Some).
    rewrite (nu_distinct _ _ _ Hnu m n p _ _ Hm Hn) in Hm. rewrite Hn in Hm. congruence. }
  unfold deleteTimer, array_get, mbind, M_bind, assert.
  assert ((0 <=? n) && (n <? MAX_TIMERS) = true) as -> by (apply andb_true_iff; split; [apply Z.leb_le|apply Z.ltb_lt]; lia).
  rewrite Ht. unfold mret, M_ret. rewrite (proj2 (Z.eqb_neq p 0)) by done. cbn [negb].
  unfold del_timer, fget, load, mbind, M_bind, fmap, M_fmap. rewrite (proj2 (Z.eqb_neq p 0)) by done. by rewrite Hmem.
Qed.

(** ** The thread *)

(** [run], which looks at [isStart]: it waits for it, ticks every second while it
    is set, and ends. *)
Inductive runner := Waits | Ticks | Ended.
Definition runner_step (isStart : bool) (r : runner) : runner * bool :=
  match r with
  | Waits => (if isStart then Ticks else Waits, false)
  | Ticks => if isStart then (Ticks, true) else (Ended, false)
  | Ended => (Ended, false)
  end.
(** The states of [isStart] that the thread sees, and how often it ticks. *)
Fixpoint run (seen : list bool) (r : runner) : runner * Z :=
  match seen with
  | [] => (r, 0)
  | b :: seen => let '(r, t) := runner_step b r in let '(r, n) := run seen r in (r, n + (if t : bool then 1 else 0))
  end.

(** It ticks while it sees the flag, and never again after it has seen [stop]. *)
Lemma run_stops n m rest : run (replicate n false ++ true :: replicate m true ++ false :: rest) Waits = (Ended, Z.of_nat m).
Proof.
  assert (∀ l, run l Ended = (Ended, 0)) as Hend by (intros l; induction l as [|b l IH]; [done|]; cbn [run runner_step]; by rewrite IH).
  assert (∀ m, run (replicate m true ++ false :: rest) Ticks = (Ended, Z.of_nat m)) as Hticks.
  { intros k. induction k as [|k IH]; cbn [replicate app run runner_step]; [by rewrite Hend|]. rewrite IH. f_equal. lia. }
  induction n as [|n IH]; cbn [replicate app run runner_step]; [rewrite Hticks; f_equal; lia|]. rewrite IH. f_equal. lia.
Qed.

(** ** Witnesses *)

Definition demo_uses : list use := [Add_timer 8 3 5; Add_timer 16 1 6; Delete_timer 0; Add_timer 24 1 7; Second; Second].
Lemma demo_uses_ok : uses_ok (Numbers ∅ [] 0) demo_uses.
Proof.
  cbn -[MAX_TIMERS]. split_and!; try done; try (right; unfold MAX_TIMERS; lia).
  - intros n x H. rewrite lookup_insert_Some, lookup_empty in H. naive_solver.
  - intros n x H. rewrite lookup_delete_Some, !lookup_insert_Some, lookup_empty in H. naive_solver.
Qed.

(** The number 0 is used again. *)
Lemma timers_refine_witness : wp (run_uses Timer_new demo_uses) init_st (λ r s, r.1 = [0; 1; 0; 0; 0; 0]).
Proof.
  eapply wp_mono; [apply (timers_refine demo_uses demo_uses_ok)|]. intros r s H.
  destruct (all_used (Numbers ∅ [] 0) demo_uses) as [rs a] eqn:E. destruct H as (H & _). rewrite H. vm_compute in E. by injection E as <- _.
Defined.

(** The timer 0 has fired in the second second. *)
Lemma delete_after_fire_witness :
  wp (run_uses Timer_new [Add_timer 8 1 5; Second]) init_st (λ r s, wp tick s (λ _ s', deleteTimer r.2 0 s' = UB)).
Proof.
  assert (uses_ok (Numbers ∅ [] 0) [Add_timer 8 1 5; Second]) as Hok.
  { cbn -[MAX_TIMERS]. split_and!; try done. right. unfold MAX_TIMERS. lia. }
  set (a := (used (used (Numbers ∅ [] 0) (Add_timer 8 1 5)).2 Second).2).
  apply (wp_mono _ _ (λ r s, numbered r.2 s a)).
  - cbn [run_uses]. apply wp_bind. eapply wp_mono; [apply (run_use_spec _ _ _ (Add_timer 8 1 5) numbered_new), Hok|]. intros [r1 t1] s1 (_ & H1 & _).
    apply wp_bind, wp_bind. eapply wp_mono; [apply (run_use_spec _ _ _ Second H1); done|]. intros [r2 t2] s2 (_ & H2 & _).
    apply wp_ret, wp_ret. exact H2.
  - intros r s' H. apply (delete_after_fire r.2 s' a 0 8 5 0 H). by vm_compute.
Defined.
