(* ===== verification/HttpFunc.v ===== *)
(** * http_codec: the scanners

    [http_func.cpp].  [data] is the bytes from the pointer to the end of the
    allocation, each between 0 and 255; [None] is undefined behaviour: a byte
    behind the end is read, or one is written outside of a local array.  The
    searches of the C library read up to the match or to a null. *)
From S2P Require Import Prelude GetNum.

Definition str (s : string) : list Z := (λ c, Z.of_N (Ascii.N_of_ascii c)) <$> String.list_ascii_of_string s.
Definition LF : Z := 10.
Definition CR : Z := 13.
Definition SP : Z := 32.
Definition SLASH : Z := 47.
Definition UINT_MAX : Z := 2 ^ 32 - 1.
Abbreviation Zlen l := (Z.of_nat (length l)).

(** [data[i]], and [std::string(data + off, n)]. *)
Definition at_ (data : list Z) (i : Z) : option Z := if decide (0 ≤ i) then data !! Z.to_nat i else None.
Definition bytes (data : list Z) (off n : Z) : option (list Z) :=
  if decide (0 ≤ off ∧ 0 ≤ n ∧ off + n ≤ Zlen data)
  then Some (take (Z.to_nat n) (drop (Z.to_nat off) data)) else None.

(** [for (i = ...; n rounds; i++)]: the body returns, goes on ([None]) or is
    undefined. *)
Fixpoint for_ {R} (n : nat) (i : Z) (body : Z → option (option R)) : option (option R) :=
  match n with
  | O => Some None
  | S n => r ← body i;
           match r with Some x => Some (Some x) | None => for_ n (i + 1) body end
  end.

(** [strstr]: the index of the first occurrence of [pat]. *)
Fixpoint prefix_at (pat s : list Z) : option bool :=
  match pat, s with
  | [], _ => Some true
  | _ :: _, [] => None
  | p :: pat, c :: s => if p =? c then prefix_at pat s else Some false
  end.
Fixpoint strstr_from (s pat : list Z) (i : Z) : option (option Z) :=
  b ← prefix_at pat s;
  if (b : bool) then Some (Some i) else
  match s with
  | [] => None
  | c :: s => if c =? 0 then Some None else strstr_from s pat (i + 1)
  end.
Definition strstr (s pat : list Z) : option (option Z) := strstr_from s pat 0.

(** The characters of a C string in front of its null. *)
Fixpoint c_str (s : list Z) : list Z :=
  match s with [] => [] | c :: s => if c =? 0 then [] else c :: c_str s end.

(** ** Lines *)

(** [line_len] and [tail_len]; both are 0 when there is no line feed. *)
Definition get_line (data : list Z) (data_len : Z) : option (Z * Z) :=
  r ← for_ (Z.to_nat data_len) 0 (λ i,
    c ← at_ data i;
    if c =? LF then
      if i =? 0 then Some (Some (1, 1)) else
      p ← at_ data (i - 1);
      if p =? CR then Some (Some (i + 1, 2)) else Some (Some (i + 1, 1))
    else Some None);
  Some (default (0, 0) r).

(** [word_len]; 0 too when no character is a space. *)
Definition get_first_word (data : list Z) (data_len : Z) : option Z :=
  r ← for_ (Z.to_nat data_len) 0 (λ i,
    c ← at_ data i;
    if isspace c then Some (Some i) else Some None);
  Some (default 0 r).

(** [for (; !isspace(data[v]) && v < data_len; v++)]: the byte is read first. *)
Fixpoint skip_word (fuel : nat) (data : list Z) (data_len v : Z) : option Z :=
  c ← at_ data v;
  match fuel with
  | S f => if negb (isspace c) && (v <? data_len) then skip_word f data data_len (v + 1) else Some v
  | O => Some v
  end.

(** [None] inside: [C_HTTP_HEADER_ERROR_INVALID_FORMAT]; else [name_len],
    [value_offset] and [value_len]. *)
Definition get_name_value (data : list Z) (data_len : Z) : option (option (Z * Z * Z)) :=
  r ← for_ (Z.to_nat data_len) 0 (λ i,
    c ← at_ data i;
    if c =? 58 then Some (Some i) else Some None);
  let pos := default 0 r in
  if pos =? 0 then Some None else
  value_offset ← skip_word (Z.to_nat (data_len - pos)) data data_len (pos + 1);
  Some (Some (pos, value_offset, data_len - value_offset)).

(** ** The request target *)

(** The code and the bytes of [buf]; the bytes behind a % are a C string. *)
Fixpoint decode_from (data : list Z) (buf_size j : Z) : Z * list Z :=
  match data with
  | [] => (0, [])
  | c :: data =>
      if j <? buf_size then
        if c =? 37 then
          match data with
          | a :: b :: data =>
              let '(v, _, _) := strtol (c_str [a; b]) 16 in
              let '(ret, l) := decode_from data buf_size (j + 1) in
              (ret, v mod 256 :: l)
          | _ => (-1, [])
          end
        else let '(ret, l) := decode_from data buf_size (j + 1) in (ret, c :: l)
      else (0, [])
  end.
Definition decode_string (data : list Z) (data_len buf_size : Z) : option (Z * list Z) :=
  s ← bytes data 0 data_len;
  Some (decode_from s buf_size 0).

(** [for (i = end; i != 0; i--) if (data[i-1] == '/')]: a read succeeds at most
    once per byte. *)
Fixpoint last_slash (fuel : nat) (data : list Z) (i : Z) : option (option Z) :=
  if i =? 0 then Some None else
  c ← at_ data (i - 1);
  match fuel with
  | S f => if c =? SLASH then Some (Some (i - 1)) else last_slash f data (i - 1)
  | O => None
  end.

Definition C_MAX_ARG_SIZE : Z := 1024.

(** The index of the first ?, or the length.  [ULONG_MAX] is the one of the
    machine; it is stored in an [unsigned] and compared with one. *)
Definition find_uri_end (ULONG_MAX : Z) (data : list Z) (data_len : Z) : option Z :=
  q ← for_ (Z.to_nat data_len) 0 (λ i, c ← at_ data i; if c =? 63 then Some (Some i) else Some None);
  let uri_end := default (uint ULONG_MAX) q in
  Some (if uri_end =? ULONG_MAX then data_len else uri_end).

(** [path] and [file]; [None] inside when there is no /. *)
Definition path_and_file (ULONG_MAX : Z) (data : list Z) (uri_end : Z) : option (option (list Z * list Z)) :=
  f ← last_slash (length data) data uri_end;
  let file_start := default (uint ULONG_MAX) f in
  if file_start =? ULONG_MAX then Some None else
  path ← bytes data 0 file_start;
  file ← bytes data (file_start + 1) (uint (uri_end - file_start - 1));
  Some (Some (path, file)).

(** The code and [arg]; the null is stored behind the bytes. *)
Definition parse_arg (data : list Z) (data_len uri_end : Z) : option (Z * list Z) :=
  if uri_end =? data_len then Some (0, []) else
  '(ret, sArg) ← decode_string (drop (Z.to_nat (uri_end + 1)) data) (uint (data_len - uri_end - 1)) C_MAX_ARG_SIZE;
  if negb (ret =? 0) then Some (ret, []) else
  if Zlen sArg <? C_MAX_ARG_SIZE then Some (0, c_str sArg) else None.

(** The code, [path], [file] and [arg]. *)
Definition parse_uri (ULONG_MAX : Z) (data : list Z) (data_len : Z) : option (Z * list Z * list Z * list Z) :=
  c0 ← at_ data 0;
  c1 ← (if c0 =? SLASH then at_ data 1 else Some 0);
  if (c0 =? SLASH) && (c1 =? SP) then Some (0, [], [], []) else
  uri_end ← find_uri_end ULONG_MAX data data_len;
  pf ← path_and_file ULONG_MAX data uri_end;
  match pf with
  | None => Some (-1, [], [], [])
  | Some (path, file) =>
      '(ret, arg) ← parse_arg data data_len uri_end;
      Some (ret, path, file, arg)
  end.

(** ** Values *)

(** [from_str<unsigned>]: extraction of an [unsigned] from a stream.  A string
    of nothing but spaces leaves the variable without a value. *)
Definition from_str (s : list Z) : option Z :=
  match skip_space s with
  | [] => None
  | s =>
      let '(neg, s) := split_sign s in
      match s with
      | c :: _ =>
          match digit_in 10 c with
          | Some _ =>
              let '(v, _) := digits 10 0 s in
              Some (if v >? UINT_MAX then UINT_MAX else if (neg : bool) then uint (- v) else v)
          | None => Some 0
          end
      | [] => Some 0
      end
  end.

Definition toupper (c : Z) : Z := if (97 <=? c) && (c <=? 122) then c - 32 else c.

(** [s.find(c, start)]. *)
Definition find (s : list Z) (c start : Z) : option Z :=
  (λ p, start + Z.of_nat p.1) <$> list_find (λ x, x = c) (drop (Z.to_nat start) s).

(** [s.substr(pos, n)] for [pos] within the string; a difference that is
    negative is a large [n]. *)
Definition substr (s : list Z) (pos n : Z) : list Z :=
  let s := drop (Z.to_nat pos) s in
  if n <? 0 then s else take (Z.to_nat n) s.

(** ** Paths *)

(** Whether the path does not go up. *)
Fixpoint path_up_limit (path : list Z) : bool :=
  match path with
  | 46 :: ((46 :: _) as path') => false
  | _ :: path' => path_up_limit path'
  | [] => true
  end.

(** The code and [cgi_name]; [None] is the exception of [std::string::at]. *)
Definition get_cgi_from_path (path cgi_dir_path cgi_name : list Z) : option (Z * list Z) :=
  if negb (bool_decide (take (length cgi_dir_path) path = cgi_dir_path)) then Some (-1, cgi_name) else
  c0 ← at_ path (Zlen cgi_dir_path - 1);
  c1 ← (if c0 =? SLASH then Some 0 else at_ path (Zlen cgi_dir_path));
  if negb (c0 =? SLASH) && negb (c1 =? SLASH) then Some (-1, cgi_name) else
  let cgi_name := drop (length cgi_dir_path + (if c0 =? SLASH then 0 else 1)) path in
  if find cgi_name SLASH 0 is Some _ then Some (-1, cgi_name) else Some (0, cgi_name).

Example get_cgi_demo :
  get_cgi_from_path (str "/cgi/x") (str "/cgi") [] = Some (0, str "x") ∧
  get_cgi_from_path (str "/cgi/x/y") (str "/cgi/") [] = Some (-1, str "x/y") ∧
  get_cgi_from_path (str "/cgi") (str "/cgi") [] = None ∧
  path_up_limit (str "/a/../b") = false.
Proof. by vm_compute. Qed.

Example parse_uri_demo :
  let u := str "/a/b/upload?fname=x%20y&k=%2f HTTP/1.1" in
  parse_uri (2 ^ 64 - 1) u 29 = Some (0, str "/a/b", str "upload", str "fname=x y&k=/").
Proof. by vm_compute. Qed.

Example get_name_value_demo :
  get_name_value (str "Host: abc
") 9 = Some (Some (4, 5, 4)).
Proof. by vm_compute. Qed.
