(* ===== verification/HttpReq.v ===== *)
(** * http_codec: requests

    [http_req.cpp], [http_head.cpp] and the decoding half of
    [http_server_codec.cpp]: a request is taken in as its bytes arrive.  [None] is
    undefined behaviour.  The buffer is an array that is allocated anew when it
    grows; a pointer into it names the allocation and an offset. *)
From S2P Require Import Prelude GetNum HttpFunc.

(** ** Data *)

Definition C_HTTP_REQ_TYPE_GET : Z := 10001.
Definition C_HTTP_REQ_TYPE_POST : Z := 10002.
Definition C_HTTP_ERR_INVALID_REQUEST_LINE : Z := 1000002.
Definition C_HTTP_PROTOCOL_VER_0_9 : Z := 40009.
Definition C_HTTP_PROTOCOL_VER_1_0 : Z := 40010.
Definition C_HTTP_PROTOCOL_VER_1_1 : Z := 40011.

Abbreviation dict := (gmap (list Z) (list Z)).

Record CHttpRequestLine := Request_line {
  line_full : bool; _line : list Z; _req_type : Z; _path : list Z; _file : list Z; _arg : list Z; _ver : Z; url_args : dict;
}.
Definition new_line : CHttpRequestLine := Request_line false [] 0 [] [] [] 0 ∅.

Record CHttpHeader := Header { head_full : bool; _head_attribute : dict }.
Record CReqBody := Body { _content_length : Z; _infused_length : Z; body_buf : option (Z * Z) }.

(** [buf_id] names the allocation [buf]. *)
Record CHttpReq := Http_req {
  buf_size : Z; buf_id : Z; buf : list Z; data_len : Z; inited : bool; parsed_len : Z;
  req_line : CHttpRequestLine; header : CHttpHeader; content_offset : Z; body : CReqBody;
}.
Definition new_req : CHttpReq := Http_req 0 0 [] 0 false 0 new_line (Header false ∅) 0 (Body UINT_MAX 0 None).

(** ** The request line *)

(** [std::map::insert] keeps the value that is there. *)
Definition map_insert (k v : list Z) (m : dict) : dict := match m !! k with Some _ => m | None => <[k := v]> m end.

(** The arguments of a query from [start_pos] on; every round moves it on. *)
Fixpoint args_from (fuel : nat) (arg : list Z) (start_pos : Z) (m : dict) : dict :=
  match fuel with
  | O => m
  | S fuel =>
      match find arg 61 start_pos with
      | None => m
      | Some equal_symbol =>
          let colon_pos := default (Z.of_nat (length arg)) (find arg 38 start_pos) in
          let value := substr arg (equal_symbol + 1) (colon_pos - (equal_symbol + 1)) in
          let name := substr arg start_pos (equal_symbol - start_pos) in
          let m := map_insert name value m in
          if colon_pos + 1 >=? Z.of_nat (length arg) then m else args_from fuel arg (colon_pos + 1) m
      end
  end.
Definition get_url_args (arg : list Z) (m : dict) : dict := args_from (S (length arg)) arg 0 m.

(** The version of [HTTP/a.b], or none that is known. *)
Definition http_version (p : list Z) (word_len : Z) : option (option Z) :=
  s1 ← bytes p 5 1;
  primary_version ← from_str s1;
  s2 ← bytes p 7 (word_len - 7);
  secondary_version ← from_str s2;
  Some (if (primary_version =? 0) && (secondary_version =? 9) then Some C_HTTP_PROTOCOL_VER_0_9
        else if (primary_version =? 1) && (secondary_version =? 0) then Some C_HTTP_PROTOCOL_VER_1_0
        else if (primary_version =? 1) && (secondary_version =? 1) then Some C_HTTP_PROTOCOL_VER_1_1
        else None).

Definition method_type (method : list Z) : option Z :=
  if decide (method = str "GET") then Some C_HTTP_REQ_TYPE_GET
  else if decide (method = str "POST" ∨ method = str "QQPOST") then Some C_HTTP_REQ_TYPE_POST
  else None.

Section request.
Context (ULONG_MAX : Z).

(** The code, [skip_len] and the line. *)
Definition infuse_line (l : CHttpRequestLine) (data : list Z) (data_len : Z) : option (Z * Z * CHttpRequestLine) :=
  if line_full l then Some (0, 0, l) else
  let invalid := Some (C_HTTP_ERR_INVALID_REQUEST_LINE, 0, l) in
  '(line_len, tail_len) ← get_line data data_len;
  if line_len =? 0 then Some (0, 0, l) else
  word_len ← get_first_word data line_len;
  if word_len =? 0 then invalid else
  method ← bytes data 0 word_len;
  match method_type method with
  | None => invalid
  | Some req_type =>
      let p := drop (Z.to_nat (word_len + 1)) data in
      let left_size := line_len - word_len in
      http_p ← strstr p (str " HTTP/");
      if match http_p with Some w => w >? left_size | None => true end then
        nl ← strstr p [LF];
        if nl is Some _ then invalid else Some (0, 0, l)
      else
        let word_len := default 0 http_p in
        '(ret, path, file, arg) ← parse_uri ULONG_MAX p word_len;
        if negb (ret =? 0) then Some (ret, 0, l) else
        let p := drop (Z.to_nat (word_len + 1)) p in
        let left_size := left_size - word_len in
        word_len ← get_first_word p left_size;
        if (word_len =? 0) || (word_len <? 8) then invalid else
        s ← bytes p 0 5;
        if negb (bool_decide (s = str "HTTP/")) then invalid else
        dot ← at_ p 6;
        if negb (dot =? 46) then invalid else
        version ← http_version p word_len;
        match version with
        | None => invalid
        | Some version =>
            line ← bytes data 0 (line_len - tail_len);
            Some (0, line_len, Request_line true line req_type path file arg version (get_url_args arg (url_args l)))
        end
  end.

(** ** The header *)

Definition C_MAX_HEAD_LINE : Z := 8192.

Fixpoint head_lines (fuel : nat) (h : CHttpHeader) (data : list Z) (length skip_len : Z) : option (Z * Z * CHttpHeader) :=
  match fuel with
  | O => Some (0, skip_len, h)
  | S fuel =>
      '(line_len, tail_len) ← get_line data length;
      if line_len =? 0 then Some (0, skip_len, h) else
      let skip_len := skip_len + line_len in
      if line_len =? tail_len then Some (0, skip_len, Header true (_head_attribute h)) else
      r ← get_name_value data (line_len - tail_len);
      match r with
      | None => Some (0, skip_len, h)
      | Some (name_len, value_offset, value_len) =>
          name ← bytes data 0 name_len;
          value ← bytes data value_offset value_len;
          let h := Header (head_full h) (<[c_str (toupper <$> name) := value]> (_head_attribute h)) in
          head_lines fuel h (drop (Z.to_nat line_len) data) (length - line_len) skip_len
      end
  end.
Definition infuse_header (h : CHttpHeader) (data : list Z) (length : Z) : option (Z * Z * CHttpHeader) :=
  head_lines (Z.to_nat C_MAX_HEAD_LINE) h data length 0.
Definition head_get (h : CHttpHeader) (name : list Z) : list Z := default [] (_head_attribute h !! name).

(** ** The body *)

Definition body_full (b : CReqBody) : bool := _content_length b <=? _infused_length b.
Definition infuse_body (b : CReqBody) (data_len : Z) : Z * CReqBody :=
  if uint (data_len + _infused_length b) <=? _content_length b then
    (data_len, Body (_content_length b) (uint (_infused_length b + data_len)) (body_buf b))
  else
    (uint (_content_length b - _infused_length b), Body (_content_length b) (_content_length b) (body_buf b)).

(** ** The request *)

Definition append_data (r : CHttpReq) (data : list Z) : CHttpReq :=
  let n := Z.of_nat (length data) in
  if buf_size r =? 0 then
    Http_req n (buf_id r + 1) data n (inited r) (parsed_len r) (req_line r) (header r) (content_offset r) (body r)
  else if buf_size r <? uint (data_len r + n) then
    Http_req (uint (data_len r + n)) (buf_id r + 1) (take (Z.to_nat (data_len r)) (buf r) ++ data) (uint (data_len r + n))
      (inited r) (parsed_len r) (req_line r) (header r) (content_offset r) (body r)
  else
    Http_req (buf_size r) (buf_id r)
      (take (Z.to_nat (data_len r)) (buf r) ++ data ++ drop (Z.to_nat (data_len r + n)) (buf r)) (data_len r + n)
      (inited r) (parsed_len r) (req_line r) (header r) (content_offset r) (body r).

Definition set_parsed (r : CHttpReq) (n : Z) (l : CHttpRequestLine) (h : CHttpHeader) (off : Z) (b : CReqBody) : CHttpReq :=
  Http_req (buf_size r) (buf_id r) (buf r) (data_len r) (inited r) n l h off b.
Definition set_inited (r : CHttpReq) : CHttpReq :=
  Http_req (buf_size r) (buf_id r) (buf r) (data_len r) true (parsed_len r) (req_line r) (header r) (content_offset r) (body r).

(** The part that is not parsed yet. *)
Definition ahead (r : CHttpReq) : list Z := drop (Z.to_nat (parsed_len r)) (buf r).
Definition ahead_len (r : CHttpReq) : Z := data_len r - parsed_len r.

Definition input_body (r : CHttpReq) : option (Z * CHttpReq) :=
  if body_full (body r) then Some (0, set_inited r) else
  let '(skip_len, b) := infuse_body (body r) (ahead_len r) in
  let r := set_parsed r (parsed_len r + skip_len) (req_line r) (header r) (content_offset r) b in
  if body_full b then Some (0, set_inited r) else Some (0, r).

Definition input_header (r : CHttpReq) : option (Z * CHttpReq) :=
  if head_full (header r) then input_body r else
  '(ret, skip_len, h) ← infuse_header (header r) (ahead r) (ahead_len r);
  if negb (ret =? 0) then Some (ret, set_parsed r (parsed_len r) (req_line r) h (content_offset r) (body r)) else
  let n := parsed_len r + skip_len in
  if negb (head_full h) then Some (0, set_parsed r n (req_line r) h (content_offset r) (body r)) else
  let s_c_l := head_get h (str "CONTENT-LENGTH") in
  cont_len ← (if decide (s_c_l = []) then Some 0 else from_str s_c_l);
  input_body (set_parsed r n (req_line r) h n (Body cont_len (_infused_length (body r)) (Some (buf_id r, n)))).

(** [CHttpReq::input]; the code and the request. *)
Definition input (r : CHttpReq) (data : list Z) : option (Z * CHttpReq) :=
  let r := append_data r data in
  if line_full (req_line r) then input_header r else
  '(ret, skip_len, l) ← infuse_line (req_line r) (ahead r) (ahead_len r);
  if negb (ret =? 0) then Some (ret, r) else
  let r := set_parsed r (parsed_len r + skip_len) l (header r) (content_offset r) (body r) in
  if negb (line_full l) then Some (0, r) else input_header r.

(** The bytes as they arrive, as long as every call succeeds. *)
Fixpoint inputs (r : CHttpReq) (chunks : list (list Z)) : option (Z * CHttpReq) :=
  match chunks with
  | [] => Some (0, r)
  | c :: chunks => '(ret, r) ← input r c; if negb (ret =? 0) then Some (ret, r) else inputs r chunks
  end.
End request.

(** ** The decoder *)

Definition get_cmd_string (r : CHttpReq) : list Z := _file (req_line r).
Definition get_argu (r : CHttpReq) (name : list Z) : list Z := default [] (url_args (req_line r) !! name).

(** [fdata.assign(_body._buf, _body._content_length)]: the pointer must still be
    one into the buffer. *)
Definition assign_body (r : CHttpReq) : option (list Z) :=
  match body_buf (body r) with
  | Some (id, off) => if id =? buf_id r then bytes (buf r) off (_content_length (body r)) else None
  | None => if _content_length (body r) =? 0 then Some [] else None
  end.
Definition decode_upload_file_req (r : CHttpReq) : option (Z * list Z * list Z) :=
  if decide (get_cmd_string r ≠ str "upload") then Some (-1, [], []) else
  let fname := get_argu r (str "fname") in
  fdata ← assign_body r;
  Some (0, fname, fdata).

Definition demo_request : list Z :=
  str "POST /a/upload?fname=x%20y&k=1 HTTP/1.1" ++ [CR; LF] ++ str "Host: h" ++ [CR; LF] ++
  str "Content-Length: 5" ++ [CR; LF; CR; LF] ++ str "hello".

Example input_demo :
  match input (2 ^ 64 - 1) new_req demo_request with
  | Some (ret, r) => ret = 0 ∧ inited r = true ∧ decode_upload_file_req r = Some (0, str "x y", str "hello")
  | None => False
  end.
Proof. by vm_compute. Qed.

(** The same in two pieces: the pointer to the body is into the old buffer. *)
Example input_dangling :
  match inputs (2 ^ 64 - 1) new_req [take 73 demo_request; drop 73 demo_request] with
  | Some (ret, r) => ret = 0 ∧ inited r = true ∧ decode_upload_file_req r = None
  | None => False
  end.
Proof. by vm_compute. Qed.
