(* ===== verification/HttpFacts.v ===== *)
(** * http_codec: lemmas on the scanners *)
From S2P Require Import Prelude GetNum HttpFunc HttpReq.
#[local] Open Scope Z_scope.

(** ** Reading *)

Lemma at_app_l (l1 l2 : list Z) i : i < Zlen l1 → at_ (l1 ++ l2) i = at_ l1 i.
Proof. intros Hi. unfold at_. case_decide; [|done]. apply lookup_app_l. lia. Qed.
Lemma at_app_r (l1 l2 : list Z) i : Zlen l1 ≤ i → at_ (l1 ++ l2) i = at_ l2 (i - Zlen l1).
Proof.
  intros Hi. unfold at_. rewrite !decide_True by lia. rewrite lookup_app_r by lia. f_equal. lia.
Qed.
Lemma at_hd c (l : list Z) : at_ (c :: l) 0 = Some c.
Proof. done. Qed.
Lemma at_middle (l1 l2 : list Z) c i : i = Zlen l1 → at_ (l1 ++ c :: l2) i = Some c.
Proof. intros ->. rewrite at_app_r, Z.sub_diag by lia. done. Qed.

(** A byte of a part all of whose bytes satisfy [P]. *)
Lemma at_Forall (P : Z → Prop) (l : list Z) i : Forall P l → 0 ≤ i < Zlen l → ∃ c, at_ l i = Some c ∧ P c.
Proof.
  intros HP Hi. unfold at_. rewrite decide_True by lia. destruct (lookup_lt_is_Some_2 l (Z.to_nat i)) as [c Hc]; [lia|].
  exists c. split; [done|]. by eapply Forall_lookup_1.
Qed.

Lemma bytes_app (l1 l2 l3 : list Z) off n : off = Zlen l1 → n = Zlen l2 → bytes (l1 ++ l2 ++ l3) off n = Some l2.
Proof.
  intros -> ->. unfold bytes. rewrite decide_True by (rewrite !length_app; lia).
  by rewrite !Nat2Z.id, drop_app_length, take_app_length.
Qed.
Lemma bytes_prefix (l2 l3 : list Z) n : n = Zlen l2 → bytes (l2 ++ l3) 0 n = Some l2.
Proof. intros ->. by apply (bytes_app []). Qed.

Lemma c_str_id (l : list Z) : Forall (λ c, c ≠ 0) l → c_str l = l.
Proof.
  induction l as [|c l IH]; [done|]. intros [Hc Hl]%Forall_cons. simpl. rewrite (proj2 (Z.eqb_neq c 0)) by done.
  by rewrite IH.
Qed.

(** ** Loops *)

Section loops.
Context {R : Type} (body : Z → option (option R)).

Lemma for_none n i : (∀ j, i ≤ j < i + Z.of_nat n → body j = Some None) → for_ n i body = Some None.
Proof.
  revert i. induction n as [|n IH]; intros i Hn; [done|]. simpl. rewrite Hn by lia. simpl. apply IH. intros. apply Hn. lia.
Qed.

Lemma for_first n i k x :
  i ≤ k < i + Z.of_nat n → (∀ j, i ≤ j < k → body j = Some None) → body k = Some (Some x) → for_ n i body = Some (Some x).
Proof.
  revert i. induction n as [|n IH]; intros i Hk Hbefore Hx; [lia|]. simpl. destruct (decide (i = k)) as [->|Hne].
  - by rewrite Hx.
  - rewrite Hbefore by lia. simpl. apply IH; [lia| |done]. intros. apply Hbefore. lia.
Qed.
End loops.

(** A scan for the first byte that satisfies [P]. *)
Lemma scan_first (P : Z → bool) (l1 l2 : list Z) c n :
  Forall (λ c, P c = false) l1 → P c = true → (length l1 < n)%nat →
  for_ n 0 (λ i, c ← at_ (l1 ++ c :: l2) i; if P c then Some (Some i) else Some None) = Some (Some (Zlen l1)).
Proof.
  intros Hl Hc Hn. eapply (for_first _ n 0 (Zlen l1)); [lia| |].
  - intros j Hj. rewrite at_app_l by lia. destruct (at_Forall _ _ j Hl) as (d & -> & Hd); [lia|]. simpl. by rewrite Hd.
  - rewrite at_middle by done. simpl. by rewrite Hc.
Qed.

Lemma scan_none (P : Z → bool) (l1 l2 : list Z) n :
  Forall (λ c, P c = false) l1 → n = length l1 →
  for_ n 0 (λ i, c ← at_ (l1 ++ l2) i; if P c then Some (Some i) else Some None) = Some None.
Proof.
  intros Hl ->. apply for_none. intros j Hj. rewrite at_app_l by lia.
  destruct (at_Forall _ _ j Hl) as (d & -> & Hd); [lia|]. simpl. by rewrite Hd.
Qed.

(** ** Lines *)

Lemma get_line_found l1 l2 n :
  Forall (λ c, c ≠ LF) l1 → Zlen l1 + 2 ≤ n →
  get_line (l1 ++ CR :: LF :: l2) n = Some (Zlen l1 + 2, 2).
Proof.
  intros Hl Hn. unfold get_line.
  assert (∀ c l, l1 ++ CR :: c :: l = (l1 ++ [CR]) ++ c :: l) as E by (intros; by rewrite <-app_assoc). rewrite E.
  assert (Forall (λ c, c ≠ LF) (l1 ++ [CR])) as Hl' by (apply Forall_app; split; [done|by repeat constructor]).
  rewrite (for_first _ _ 0 (Zlen l1 + 1) (Zlen l1 + 2, 2)); [done|lia| |].
  - intros j Hj. rewrite (at_app_l _ _ j) by (rewrite length_app; simpl; lia).
    destruct (at_Forall _ _ j Hl') as (c & -> & Hc); [rewrite length_app; simpl; lia|]. simpl. by rewrite (proj2 (Z.eqb_neq c LF)).
  - rewrite (at_middle _ _ _ (Zlen l1 + 1)) by (rewrite length_app; simpl; lia). simpl.
    rewrite (proj2 (Z.eqb_neq (Zlen l1 + 1) 0)) by lia.
    rewrite <-app_assoc. cbn [app]. rewrite at_middle by lia. simpl. do 3 f_equal. lia.
Qed.

Lemma get_line_none l : Forall (λ c, c ≠ LF) l → get_line l (Zlen l) = Some (0, 0).
Proof.
  intros Hl. unfold get_line. rewrite for_none; [done|]. intros j Hj.
  destruct (at_Forall _ _ j Hl) as (c & -> & Hc); [lia|]. simpl. by rewrite (proj2 (Z.eqb_neq c LF)).
Qed.

Lemma get_first_word_found l1 l2 c n :
  Forall (λ c, isspace c = false) l1 → isspace c = true → Zlen l1 < n → get_first_word (l1 ++ c :: l2) n = Some (Zlen l1).
Proof. intros Hl Hc Hn. unfold get_first_word. rewrite scan_first by (done || lia). done. Qed.

(** A line [name: value]; the value keeps the space in front of it. *)
Lemma get_name_value_found name value l :
  Forall (λ c, c ≠ 58) name → name ≠ [] →
  get_name_value (name ++ 58 :: SP :: value ++ l) (Zlen name + 2 + Zlen value) = Some (Some (Zlen name, Zlen name + 1, Zlen value + 1)).
Proof.
  intros Hn Hne. unfold get_name_value. rewrite (scan_first (λ c, c =? 58)); [|by eapply Forall_impl; [done|]; intros ? ?; apply Z.eqb_neq|done|lia].
  simpl. assert (0 < length name)%nat as Hpos by (by destruct name; simpl; [|lia]).
  rewrite (proj2 (Z.eqb_neq (Zlen name) 0)) by lia.
  assert (∀ f, skip_word f (name ++ 58 :: SP :: value ++ l) (Zlen name + 2 + Zlen value) (Zlen name + 1) = Some (Zlen name + 1)) as Hskip.
  { intros f. assert (name ++ 58 :: SP :: value ++ l = (name ++ [58]) ++ SP :: value ++ l) as -> by (by rewrite <-app_assoc).
    destruct f; simpl; rewrite at_middle by (rewrite length_app; simpl; lia); done. }
  rewrite Hskip. simpl. do 3 f_equal. lia.
Qed.

(** ** Searches *)

Lemma strstr_from_skip (l1 l2 pat : list Z) p i :
  Forall (λ c, c ≠ p ∧ c ≠ 0) l1 → strstr_from (l1 ++ l2) (p :: pat) i = strstr_from l2 (p :: pat) (i + Zlen l1).
Proof.
  revert i. induction l1 as [|c l1 IH]; intros i Hl; [simpl; by rewrite Z.add_0_r|]. apply Forall_cons in Hl as [[H1 H2] Hl].
  simpl. rewrite (proj2 (Z.eqb_neq p c)) by done. simpl. rewrite (proj2 (Z.eqb_neq c 0)) by done.
  rewrite IH by done. f_equal. lia.
Qed.

Lemma prefix_at_app pat l : prefix_at pat (pat ++ l) = Some true.
Proof. induction pat; simpl; [done|]. by rewrite Z.eqb_refl. Qed.

Lemma strstr_found (l1 l2 pat : list Z) p :
  Forall (λ c, c ≠ p ∧ c ≠ 0) l1 → strstr (l1 ++ (p :: pat) ++ l2) (p :: pat) = Some (Some (Zlen l1)).
Proof.
  intros Hl. unfold strstr. rewrite strstr_from_skip by done.
  assert (∀ i, strstr_from ((p :: pat) ++ l2) (p :: pat) i = Some (Some i)) as H; [|by rewrite H].
  intros i. simpl. rewrite Z.eqb_refl, prefix_at_app. done.
Qed.

Lemma last_slash_found (l1 l2 l3 : list Z) fuel :
  Forall (λ c, c ≠ SLASH) l2 → (length l1 + length l2 < fuel)%nat →
  last_slash fuel (l1 ++ SLASH :: l2 ++ l3) (Zlen l1 + 1 + Zlen l2) = Some (Some (Zlen l1)).
Proof.
  revert l3 fuel. induction l2 as [|c l2 IH] using rev_ind; intros l3 fuel Hl Hf.
  - destruct fuel as [|fuel]; [simpl in Hf; lia|]. simpl. rewrite (proj2 (Z.eqb_neq _ 0)) by lia.
    rewrite at_middle by lia. simpl. do 2 f_equal. lia.
  - apply Forall_app in Hl as [Hl [Hc _]%Forall_cons]. rewrite length_app in Hf |- *. simpl in Hf |- *.
    destruct fuel as [|fuel]; [lia|]. simpl. rewrite (proj2 (Z.eqb_neq _ 0)) by lia.
    assert (l1 ++ SLASH :: (l2 ++ [c]) ++ l3 = (l1 ++ SLASH :: l2) ++ c :: l3) as E.
    { rewrite <-!app_assoc. done. }
    rewrite E, at_middle by (rewrite length_app; simpl; lia). simpl. rewrite (proj2 (Z.eqb_neq c SLASH)) by done.
    rewrite <-app_assoc. simpl. replace (Zlen l1 + 1 + Z.of_nat (length l2 + 1) - 1) with (Zlen l1 + 1 + Zlen l2) by lia.
    apply (IH (c :: l3)); [done|lia].
Qed.
