(* ===== verification/HttpLine.v ===== *)
(** * http_codec: the text of a request, and its first line

    What a client sends, and what [infuse_line] makes of its request line. *)
From S2P Require Import Prelude GetNum HttpFunc HttpReq HttpFacts.
#[local] Open Scope Z_scope.

(** ** Requests *)

(** The query is in its encoded form. *)
Record request := Request {
  rq_method : list Z; rq_path : list Z; rq_file : list Z; rq_query : option (list Z); rq_version : list Z;
  rq_headers : list (list Z * list Z); rq_body : list Z;
}.

Definition target (r : request) : list Z :=
  rq_path r ++ SLASH :: rq_file r ++ match rq_query r with Some e => 63 :: e | None => [] end.
Definition line_text (r : request) : list Z := rq_method r ++ SP :: target r ++ str " HTTP/" ++ rq_version r.
Definition print_line (r : request) : list Z := line_text r ++ [CR; LF].
Definition print_header (h : list Z * list Z) : list Z := h.1 ++ 58 :: SP :: h.2 ++ [CR; LF].
Definition all_headers (r : request) : list (list Z * list Z) :=
  rq_headers r ++ [(str "Content-Length", print_num 10 (Zlen (rq_body r)))].
Definition print_head (r : request) : list Z := concat (print_header <$> all_headers r) ++ [CR; LF].
Definition print (r : request) : list Z := print_line r ++ print_head r ++ rq_body r.

(** Bytes that are neither spaces nor nulls. *)
Definition token (l : list Z) : Prop := Forall (λ c, isspace c = false ∧ c ≠ 0) l.

Definition version_code (v : list Z) : option Z :=
  if decide (v = str "0.9") then Some C_HTTP_PROTOCOL_VER_0_9
  else if decide (v = str "1.0") then Some C_HTTP_PROTOCOL_VER_1_0
  else if decide (v = str "1.1") then Some C_HTTP_PROTOCOL_VER_1_1 else None.

Record header_ok (h : list Z * list Z) : Prop := {
  ho_name : h.1 ≠ [];
  ho_colon : Forall (λ c, c ≠ 58) h.1;
  ho_line : Forall (λ c, c ≠ LF) (h.1 ++ h.2);
}.

(** A request as a client may write it. *)
Record request_ok (r : request) : Prop := {
  ro_method : is_Some (method_type (rq_method r));
  ro_path : token (rq_path r) ∧ (63 ∉ rq_path r);
  ro_file : token (rq_file r) ∧ (63 ∉ rq_file r) ∧ (SLASH ∉ rq_file r);
  ro_query : ∀ e, rq_query r = Some e → token e;
  ro_version : is_Some (version_code (rq_version r));
  ro_headers : Forall header_ok (rq_headers r);
  ro_lines : Zlen (rq_headers r) + 2 ≤ C_MAX_HEAD_LINE;
  ro_length : Zlen (print r) < UINT_MAX;
}.

(** The code and the argument of the target, by the [ULONG_MAX] of the machine. *)
Definition target_result (ULONG_MAX : Z) (r : request) : option (Z * list Z) :=
  match rq_query r with
  | Some e =>
      let '(ret, q) := decode_from e C_MAX_ARG_SIZE 0 in
      if negb (ret =? 0) then Some (ret, []) else
      if Zlen q <? C_MAX_ARG_SIZE then Some (0, c_str q) else None
  | None => if decide (ULONG_MAX = UINT_MAX ∨ target r = [SLASH]) then Some (0, []) else None
  end.

Definition line_of (r : request) (arg : list Z) : CHttpRequestLine :=
  Request_line true (line_text r) (default 0 (method_type (rq_method r))) (rq_path r) (rq_file r) arg
    (default 0 (version_code (rq_version r))) (get_url_args arg ∅).

(** ** The target *)

(** A machine whose [unsigned] has 32 bits. *)
Definition machine (ULONG_MAX : Z) : Prop := UINT_MAX ≤ ULONG_MAX ∧ uint ULONG_MAX = UINT_MAX.

Lemma machine_eqb U n : machine U → 0 ≤ n < UINT_MAX → (n =? U) = false.
Proof. intros [? _] ?. apply Z.eqb_neq. lia. Qed.

Section target.
Implicit Types (r : request) (l : list Z).

Lemma not_elem_Forall (x : Z) l : x ∉ l ↔ Forall (λ c, (c =? x) = false) l.
Proof.
  rewrite Forall_forall. split.
  - intros Hx c Hc. apply Z.eqb_neq. by intros ->.
  - intros H Hx. specialize (H x Hx). by rewrite Z.eqb_refl in H.
Qed.

Lemma target_token r : request_ok r → token (target r).
Proof.
  intros [_ [Hp _] (Hf & _) Hq _ _ _ _]. unfold target, token in *. apply Forall_app. split; [done|]. apply Forall_cons.
  split; [done|]. apply Forall_app. split; [done|]. destruct (rq_query r) as [e|]; [|done].
  apply Forall_cons. split; [done|by apply Hq].
Qed.

(** The test for the target "/". *)
Lemma uri_root {A} (t l : list Z) (x y : option A) :
  token t → t ≠ [] →
  (c0 ← at_ (t ++ SP :: l) 0;
   c1 ← (if c0 =? SLASH then at_ (t ++ SP :: l) 1 else Some 0);
   if (c0 =? SLASH) && (c1 =? SP) then x else y) = if decide (t = [SLASH]) then x else y.
Proof.
  intros Ht Hne. destruct t as [|c0 t]; [done|]. cbn [app]. rewrite at_hd. cbn [mbind option_bind].
  destruct (Z.eqb_spec c0 SLASH) as [->|Hc]; cbn [andb mbind option_bind].
  - apply Forall_cons in Ht as [_ Ht]. destruct t as [|c1 t]; [done|]. apply Forall_cons in Ht as [[Hc1 _] _].
    change (at_ (SLASH :: (c1 :: t) ++ SP :: l) 1) with (Some c1). cbn [mbind option_bind].
    rewrite (proj2 (Z.eqb_neq c1 SP)) by (by intros ->). by rewrite decide_False.
  - rewrite decide_False by congruence. done.
Qed.

Definition target_base r : list Z := rq_path r ++ SLASH :: rq_file r.

Lemma target_base_no_query r : request_ok r → Forall (λ c, (c =? 63) = false) (target_base r).
Proof.
  intros [_ [_ Hp] (_ & Hf & _) _ _ _ _ _]. apply not_elem_Forall. unfold target_base. rewrite elem_of_app, elem_of_cons. naive_solver.
Qed.

Lemma target_split r :
  target r = target_base r ++ match rq_query r with Some e => 63 :: e | None => [] end.
Proof. unfold target, target_base. rewrite <-app_assoc. done. Qed.

Lemma target_base_last_slash r l fuel :
  request_ok r → (length (target_base r) ≤ fuel)%nat →
  last_slash fuel (target_base r ++ l) (Zlen (target_base r)) = Some (Some (Zlen (rq_path r))).
Proof.
  intros [_ _ (_ & _ & Hf) _ _ _ _ _] Hfuel. unfold target_base in *. rewrite length_app in Hfuel |- *. simpl in Hfuel |- *.
  rewrite <-app_assoc. cbn [app]. replace (Z.of_nat _) with (Zlen (rq_path r) + 1 + Zlen (rq_file r)) by lia.
  apply last_slash_found; [|lia]. eapply Forall_impl; [by apply not_elem_Forall|]. intros c. apply Z.eqb_neq.
Qed.

Lemma find_uri_end_target U r l :
  request_ok r → machine U → Zlen (target r ++ l) < UINT_MAX →
  find_uri_end U (target r ++ l) (Zlen (target r)) = Some (
    match rq_query r with Some _ => Zlen (target_base r) | None => if decide (U = UINT_MAX) then Zlen (target r) else UINT_MAX end).
Proof.
  intros Hr HU Hlen. pose proof (target_base_no_query r Hr) as Hb. unfold find_uri_end. rewrite target_split in Hlen |- *.
  destruct (rq_query r) as [e|].
  - rewrite <-app_assoc. cbn [app]. rewrite (scan_first (λ c, c =? 63)); [|done|done|rewrite length_app; simpl; lia].
    simpl. rewrite machine_eqb; [done|done|]. rewrite !length_app in Hlen. lia.
  - rewrite app_nil_r in Hlen |- *. rewrite (scan_none (λ c, c =? 63)); [|done|lia]. simpl. destruct HU as [HU ->].
    case_decide as E; [by rewrite E, Z.eqb_refl|]. by rewrite (proj2 (Z.eqb_neq _ _)).
Qed.

Lemma path_and_file_base U r l :
  request_ok r → machine U → Zlen (target_base r ++ l) < UINT_MAX →
  path_and_file U (target_base r ++ l) (Zlen (target_base r)) = Some (Some (rq_path r, rq_file r)).
Proof.
  intros Hr HU Hlen. unfold path_and_file. rewrite target_base_last_slash by (done || rewrite length_app; lia).
  simpl. assert (Zlen (target_base r) = Zlen (rq_path r) + 1 + Zlen (rq_file r)) as Hb.
  { unfold target_base. rewrite length_app. simpl. lia. }
  rewrite length_app in Hlen. rewrite machine_eqb by (done || lia).
  assert (target_base r ++ l = rq_path r ++ (SLASH :: rq_file r ++ l)) as E.
  { unfold target_base. by rewrite <-app_assoc. }
  assert (target_base r ++ l = (rq_path r ++ [SLASH]) ++ rq_file r ++ l) as E2.
  { rewrite E, <-app_assoc. done. }
  rewrite E at 1. rewrite bytes_prefix by done. simpl. rewrite E2, bytes_app; [done|rewrite length_app; simpl; lia|].
  rewrite Hb. replace (_ - _ - 1) with (Zlen (rq_file r)) by lia. unfold uint. rewrite wrap_small; [done|]. unfold UINT_MAX in *. lia.
Qed.

(** The scan for a / starts far behind the buffer. *)
Lemma path_and_file_wild U (data : list Z) : Zlen data < UINT_MAX → path_and_file U data UINT_MAX = None.
Proof.
  intros Hlen. unfold path_and_file.
  assert (last_slash (length data) data UINT_MAX = None) as ->; [|done].
  unfold last_slash. destruct (length data) eqn:E; simpl; (assert (at_ data (UINT_MAX - 1) = None) as ->; [|done]);
    unfold at_; (rewrite decide_True by done); apply lookup_ge_None_2; unfold UINT_MAX in *; lia.
Qed.

(** What follows the target in the buffer starts with a space. *)
Lemma parse_uri_target U r l :
  request_ok r → machine U → Zlen (target r ++ SP :: l) < UINT_MAX →
  parse_uri U (target r ++ SP :: l) (Zlen (target r)) =
    ('(ret, arg) ← target_result U r; Some (ret, rq_path r, rq_file r, arg)).
Proof.
  intros Hr HU Hlen. unfold parse_uri. rewrite uri_root; [|by apply target_token|by unfold target; destruct (rq_path r)].
  case_decide as Ht.
  { unfold target_result. unfold target in Ht. destruct (rq_path r) as [|c p] eqn:Ep; [|by destruct p].
    destruct (rq_file r) as [|c f] eqn:Ef; [|done]. destruct (rq_query r) as [e|] eqn:Eq; [done|].
    rewrite decide_True; [done|]. right. unfold target. by rewrite Ep, Ef, Eq. }
  rewrite find_uri_end_target by done. cbn [mbind option_bind]. unfold target_result.
  pose proof (target_split r) as Hs. destruct (rq_query r) as [e|] eqn:Eq.
  - rewrite Hs, <-app_assoc. cbn [app]. rewrite path_and_file_base; [|done|done|by rewrite Hs, <-app_assoc in Hlen]. simpl.
    unfold parse_arg. rewrite length_app. cbn [length]. rewrite (proj2 (Z.eqb_neq _ _)) by lia.
    replace (Z.to_nat (Zlen (target_base r) + 1)) with (length (target_base r ++ [63])) by (rewrite length_app; simpl; lia).
    assert (target_base r ++ 63 :: e ++ SP :: l = (target_base r ++ [63]) ++ e ++ SP :: l) as -> by (by rewrite <-app_assoc).
    rewrite drop_app_length. unfold decode_string. rewrite Hs in Hlen. rewrite !length_app in Hlen. cbn [length] in Hlen.
    unfold uint. rewrite wrap_small by (unfold UINT_MAX in Hlen; lia). rewrite bytes_prefix by lia. simpl.
    destruct (decode_from e C_MAX_ARG_SIZE 0) as [ret q]. simpl. destruct (negb (ret =? 0)); [done|]. by destruct (Zlen q <? C_MAX_ARG_SIZE).
  - rewrite app_nil_r in Hs. case_decide as HU1.
    + rewrite decide_True by tauto. rewrite Hs at 1 2. rewrite path_and_file_base by (done || by rewrite <-Hs). simpl.
      unfold parse_arg. by rewrite Z.eqb_refl.
    + rewrite decide_False by tauto. by rewrite path_and_file_wild.
Qed.
End target.

(** ** The request line *)

Section line.
Implicit Types (r : request) (l : list Z).

Lemma method_cases m : is_Some (method_type m) → m = str "GET" ∨ m = str "POST" ∨ m = str "QQPOST".
Proof. intros [t Ht]. unfold method_type in Ht. repeat case_decide; try done; tauto. Qed.
Lemma version_cases v : is_Some (version_code v) → v = str "0.9" ∨ v = str "1.0" ∨ v = str "1.1".
Proof. intros [t Ht]. unfold version_code in Ht. repeat case_decide; try done; tauto. Qed.

Lemma method_token m : is_Some (method_type m) → Forall (λ c, isspace c = false) m ∧ m ≠ [].
Proof. intros [->|[->| ->]]%method_cases; (split; [by repeat constructor|done]). Qed.

Lemma token_no_line t : token t → Forall (λ c, c ≠ LF) t.
Proof. intros H. eapply Forall_impl; [exact H|]. intros c [Hc _] ->. done. Qed.

Lemma line_text_one_line r : request_ok r → Forall (λ c, c ≠ LF) (line_text r).
Proof.
  intros Hr. unfold line_text. apply Forall_app. split.
  - destruct (method_cases _ (ro_method _ Hr)) as [->|[->| ->]]; by repeat constructor.
  - apply Forall_cons. split; [done|]. apply Forall_app. split; [apply token_no_line; by apply target_token|].
    apply Forall_app. split; [by repeat constructor|].
    destruct (version_cases _ (ro_version _ Hr)) as [->|[->| ->]]; by repeat constructor.
Qed.

(** The word [HTTP/x.y]. *)
Lemma version_word v l n :
  is_Some (version_code v) → 9 ≤ n →
  let p := str "HTTP/" ++ v ++ CR :: l in
  get_first_word p n = Some 8 ∧ bytes p 0 5 = Some (str "HTTP/") ∧ at_ p 6 = Some 46 ∧
  http_version p 8 = Some (Some (default 0 (version_code v))).
Proof.
  intros Hv Hn p. assert (length v = 3%nat ∧ Forall (λ c, isspace c = false) v) as [Hlen Hsp].
  { destruct (version_cases _ Hv) as [->|[->| ->]]; (split; [done|by repeat constructor]). }
  split_and!.
  - unfold p. rewrite app_assoc. rewrite get_first_word_found; [by rewrite length_app, Hlen| |done|rewrite length_app, Hlen; simpl; lia].
    apply Forall_app. split; [by repeat constructor|done].
  - by apply bytes_prefix.
  - by destruct (version_cases _ Hv) as [E|[E|E]]; unfold p; rewrite E.
  - assert (bytes p 5 1 = Some (take 1 v)) as E5.
    { unfold p. rewrite <-(take_drop 1 v) at 1. rewrite <-app_assoc. apply bytes_app; [done|]. rewrite length_take. lia. }
    assert (bytes p 7 1 = Some (drop 2 v)) as E7.
    { unfold p. rewrite <-(take_drop 2 v) at 1. rewrite <-app_assoc, app_assoc. apply bytes_app.
      - rewrite length_app, length_take, Hlen. done.
      - rewrite length_drop. lia. }
    unfold http_version. rewrite E5. cbn [mbind option_bind]. change (8 - 7) with 1. rewrite E7.
    destruct (version_cases _ Hv) as [->|[->| ->]]; by vm_compute.
Qed.

(** What [infuse_line] makes of a line that has arrived. *)
Lemma infuse_line_print U r q :
  request_ok r → machine U → Zlen (print_line r ++ q) < UINT_MAX →
  infuse_line U new_line (print_line r ++ q) (Zlen (print_line r ++ q)) =
    ('(ret, arg) ← target_result U r;
     if negb (ret =? 0) then Some (ret, 0, new_line) else Some (0, Zlen (print_line r), line_of r arg)).
Proof.
  intros Hr HU Hlen. destruct (method_token _ (ro_method _ Hr)) as [Hm Hm0].
  assert (0 < Zlen (rq_method r)) as Hmpos by (destruct (rq_method r); simpl; [done|lia]).
  assert (Zlen (print_line r) = Zlen (line_text r) + 2) as Hpl by (unfold print_line; rewrite length_app; simpl; lia).
  assert (length (rq_version r) = 3%nat) as Hv.
  { by destruct (version_cases _ (ro_version _ Hr)) as [->|[->| ->]]. }
  assert (Zlen (line_text r) = Zlen (rq_method r) + 1 + Zlen (target r) + 9) as Hll.
  { unfold line_text. rewrite length_app. cbn [length]. rewrite !length_app, Hv. simpl. lia. }
  assert (print_line r ++ q = line_text r ++ CR :: LF :: q) as E1 by (unfold print_line; by rewrite <-app_assoc).
  assert (print_line r ++ q = rq_method r ++ SP :: target r ++ str " HTTP/" ++ rq_version r ++ CR :: LF :: q) as E2.
  { rewrite E1. unfold line_text. rewrite <-app_assoc. cbn [app]. by rewrite <-!app_assoc. }
  set (data := print_line r ++ q) in *.
  assert (get_line data (Zlen data) = Some (Zlen (line_text r) + 2, 2)) as F1.
  { rewrite E1. apply get_line_found; [by apply line_text_one_line|]. rewrite length_app. cbn [length]. lia. }
  assert (get_first_word data (Zlen (line_text r) + 2) = Some (Zlen (rq_method r))) as F2.
  { rewrite E2. apply get_first_word_found; [done|done|lia]. }
  assert (bytes data 0 (Zlen (rq_method r)) = Some (rq_method r)) as F3 by (rewrite E2; by apply bytes_prefix).
  assert (bytes data 0 (Zlen (line_text r) + 2 - 2) = Some (line_text r)) as F4 by (rewrite E1; apply bytes_prefix; lia).
  assert (drop (Z.to_nat (Zlen (rq_method r) + 1)) data = target r ++ str " HTTP/" ++ rq_version r ++ CR :: LF :: q) as F5.
  { rewrite E2. assert (∀ l, rq_method r ++ SP :: l = (rq_method r ++ [SP]) ++ l) as Ea by (intros; by rewrite <-app_assoc).
    rewrite Ea. replace (Z.to_nat _) with (length (rq_method r ++ [SP])) by (rewrite length_app; simpl; lia). apply drop_app_length. }
  set (p := target r ++ str " HTTP/" ++ rq_version r ++ CR :: LF :: q) in *.
  assert (strstr p (str " HTTP/") = Some (Some (Zlen (target r)))) as F6.
  { apply (strstr_found (target r) _ (str "HTTP/") SP). eapply Forall_impl; [by apply target_token|].
    intros c [Hc Hc0]. split; [by intros ->|done]. }
  assert (parse_uri U p (Zlen (target r)) = ('(ret, arg) ← target_result U r; Some (ret, rq_path r, rq_file r, arg))) as F7.
  { apply (parse_uri_target U r (str "HTTP/" ++ rq_version r ++ CR :: LF :: q)); [done|done|].
    assert (length data = length (rq_method r) + 1 + length p)%nat as Hd.
    { rewrite E2. fold p. rewrite length_app. cbn [length]. lia. }
    change (Zlen p < UINT_MAX). lia. }
  assert (drop (Z.to_nat (Zlen (target r) + 1)) p = str "HTTP/" ++ rq_version r ++ CR :: LF :: q) as F8.
  { assert (p = (target r ++ [SP]) ++ str "HTTP/" ++ rq_version r ++ CR :: LF :: q) as -> by (unfold p; by rewrite <-app_assoc).
    replace (Z.to_nat _) with (length (target r ++ [SP])) by (rewrite length_app; simpl; lia). apply drop_app_length. }
  destruct (version_word (rq_version r) (LF :: q) (Zlen (line_text r) + 2 - Zlen (rq_method r) - Zlen (target r))
    (ro_version _ Hr) ltac:(lia)) as (V1 & V2 & V3 & V4).
  unfold infuse_line. cbn [line_full new_line]. rewrite F1. cbn [mbind option_bind].
  rewrite (proj2 (Z.eqb_neq (Zlen (line_text r) + 2) 0)) by lia. rewrite F2. cbn [mbind option_bind].
  rewrite (proj2 (Z.eqb_neq (Zlen (rq_method r)) 0)) by lia. rewrite F3. cbn [mbind option_bind].
  destruct (ro_method _ Hr) as [mt Hmt]. rewrite Hmt, F5, F6. cbn [mbind option_bind default from_option id].
  change (default 0 (Some (Zlen (target r)))) with (Zlen (target r)).
  rewrite Z.gtb_ltb, (proj2 (Z.ltb_ge _ _)) by lia. rewrite F7. destruct (target_result U r) as [[ret arg]|]; [|done].
  cbn [mbind option_bind]. destruct (negb (ret =? 0)); [done|]. rewrite F8, V1. cbn [mbind option_bind].
  change ((8 =? 0) || (8 <? 8)) with false. cbn match. rewrite V2. cbn [mbind option_bind].
  rewrite bool_decide_true by done. cbn [negb]. rewrite V3. cbn [mbind option_bind]. change (negb (46 =? 46)) with false. cbn match.
  rewrite V4. cbn [mbind option_bind]. rewrite F4. cbn [mbind option_bind]. rewrite Hpl. unfold line_of. by rewrite Hmt.
Qed.
End line.
