(* ===== verification/HttpHead.v ===== *)
(** * http_codec: the header, line by line *)
From S2P Require Import Prelude GetNum HttpFunc HttpReq HttpFacts HttpLine.
#[local] Open Scope Z_scope.

(** The text of some header lines, and what they make of the attributes. *)
Definition head_text (hs : list (list Z * list Z)) : list Z := concat (print_header <$> hs).
Definition add_header (m : dict) (h : list Z * list Z) : dict := <[c_str (toupper <$> h.1) := SP :: h.2]> m.
Definition add_headers (m : dict) (hs : list (list Z * list Z)) : dict := foldl add_header m hs.

Lemma head_text_app hs1 hs2 : head_text (hs1 ++ hs2) = head_text hs1 ++ head_text hs2.
Proof. unfold head_text. by rewrite fmap_app, concat_app. Qed.
Lemma head_text_cons h hs : head_text (h :: hs) = print_header h ++ head_text hs.
Proof. done. Qed.
Lemma add_headers_app m hs1 hs2 : add_headers m (hs1 ++ hs2) = add_headers (add_headers m hs1) hs2.
Proof. apply foldl_app. Qed.

(** ** The length of the body *)

Lemma from_str_print n : 0 ≤ n ≤ UINT_MAX → from_str (SP :: print_num 10 n) = Some n.
Proof.
  intros Hn. unfold print_num. rewrite (proj2 (Z.ltb_ge n 0)), Z.abs_eq by lia. cbn [app].
  assert (0 ≤ n < Z.of_nat (S (Z.to_nat n))) as Hf by lia.
  destruct (print_nat_head 10 ltac:(lia) _ _ Hf) as (c & l & E & Hc & _).
  destruct (print_nat_digits 10 ltac:(lia) _ _ Hf) as [_ Hd]. rewrite E in Hd |- *.
  destruct (digit_not_space _ _ Hc) as [(Hsp & H1 & H2 & _)|]; [|lia]. destruct Hc as [d Hc].
  unfold from_str. cbn [skip_space]. change (isspace SP) with true. cbn match. rewrite Hsp. unfold split_sign.
  rewrite (proj2 (Z.eqb_neq c 45)), (proj2 (Z.eqb_neq c 43)) by done. rewrite Hc, Hd.
  by rewrite Z.gtb_ltb, (proj2 (Z.ltb_ge _ _)) by lia.
Qed.

Lemma content_length hs n m :
  0 ≤ n ≤ UINT_MAX →
  let s := head_get (Header true (add_headers m (hs ++ [(str "Content-Length", print_num 10 n)]))) (str "CONTENT-LENGTH") in
  s ≠ [] ∧ from_str s = Some n.
Proof.
  intros Hn s. assert (s = SP :: print_num 10 n) as ->.
  { unfold s, head_get. rewrite add_headers_app. cbn [_head_attribute add_headers foldl]. unfold add_header. cbn [fst snd].
    change (c_str (toupper <$> str "Content-Length")) with (str "CONTENT-LENGTH"). by rewrite lookup_insert_eq. }
  split; [done|by apply from_str_print].
Qed.

Lemma length_header_ok n : header_ok (str "Content-Length", print_num 10 (Z.of_nat n)).
Proof.
  split; cbn [fst snd]; [done|by repeat constructor|].
  apply Forall_app. split; [by repeat constructor|]. unfold print_num. rewrite (proj2 (Z.ltb_ge _ 0)) by lia. cbn [app].
  destruct (print_nat_digits 10 ltac:(lia) (S (Z.to_nat (Z.abs (Z.of_nat n)))) (Z.abs (Z.of_nat n))) as [Hd _]; [lia|].
  eapply Forall_impl; [exact Hd|]. intros c [d Hc] ->. done.
Qed.

(** ** The lines *)

Lemma prefix_line q t rest :
  q `prefix_of` t ++ CR :: LF :: rest → Forall (λ c, c ≠ LF) t →
  Forall (λ c, c ≠ LF) q ∨ ∃ q2, q = t ++ CR :: LF :: q2 ∧ q2 `prefix_of` rest.
Proof.
  intros [k Hk] Ht. apply app_eq_inv in Hk as [(l & E1 & E2)|(l & E1 & E2)].
  - left. rewrite E1 in Ht. by apply Forall_app in Ht as [? _].
  - destruct l as [|c l]; [left; rewrite E1, app_nil_r; done|]. injection E2 as <- E2. destruct l as [|c l].
    + left. rewrite E1. apply Forall_app. split; [done|]. by repeat constructor.
    + injection E2 as <- E2. right. exists l. split; [done|]. by exists k.
Qed.

Lemma print_header_length h : Zlen (print_header h) = Zlen h.1 + Zlen h.2 + 4.
Proof. unfold print_header. rewrite length_app. cbn [length]. rewrite length_app. simpl. lia. Qed.

(** One round: a complete line. *)
Lemma head_line_found fuel m h q skip :
  header_ok h →
  head_lines (S fuel) (Header false m) (print_header h ++ q) (Zlen (print_header h ++ q)) skip =
  head_lines fuel (Header false (add_header m h)) q (Zlen q) (skip + Zlen (print_header h)).
Proof.
  intros [Hne Hcol Hline]. set (t := h.1 ++ 58 :: SP :: h.2).
  assert (print_header h = t ++ [CR; LF]) as Et by (unfold print_header, t; by rewrite <-app_assoc).
  assert (Forall (λ c, c ≠ LF) t) as Ht.
  { unfold t. apply Forall_app in Hline as [? ?]. apply Forall_app. split; [done|]. by repeat constructor. }
  assert (Zlen t = Zlen h.1 + 2 + Zlen h.2) as Htl by (unfold t; rewrite length_app; cbn [length]; lia).
  pose proof (print_header_length h) as Hpl. set (data := print_header h ++ q).
  assert (Zlen data = Zlen (print_header h) + Zlen q) as Hdl by (unfold data; rewrite length_app; lia).
  assert (get_line data (Zlen data) = Some (Zlen t + 2, 2)) as F1.
  { assert (data = t ++ CR :: LF :: q) as -> by (unfold data; rewrite Et; by rewrite <-app_assoc).
    apply get_line_found; [done|]. rewrite length_app. cbn [length]. lia. }
  assert (data = h.1 ++ 58 :: SP :: h.2 ++ CR :: LF :: q) as Ed.
  { unfold data, print_header. rewrite <-app_assoc. cbn [app]. by rewrite <-app_assoc. }
  assert (get_name_value data (Zlen t) = Some (Some (Zlen h.1, Zlen h.1 + 1, Zlen h.2 + 1))) as F2.
  { rewrite Ed, Htl. by apply get_name_value_found. }
  assert (bytes data 0 (Zlen h.1) = Some h.1) as F3 by (rewrite Ed; by apply bytes_prefix).
  assert (bytes data (Zlen h.1 + 1) (Zlen h.2 + 1) = Some (SP :: h.2)) as F4.
  { rewrite Ed. change (h.1 ++ 58 :: SP :: h.2 ++ CR :: LF :: q) with (h.1 ++ [58] ++ (SP :: h.2) ++ CR :: LF :: q).
    rewrite app_assoc. apply bytes_app; [rewrite length_app; simpl; lia|simpl; lia]. }
  cbn [head_lines]. rewrite F1. cbn [mbind option_bind]. rewrite (proj2 (Z.eqb_neq _ 0)), (proj2 (Z.eqb_neq _ 2)) by lia.
  replace (Zlen t + 2 - 2) with (Zlen t) by lia. rewrite F2. cbn [mbind option_bind]. rewrite F3. cbn [mbind option_bind].
  rewrite F4. cbn [mbind option_bind head_full _head_attribute].
  replace (Zlen t + 2) with (Zlen (print_header h)) by lia. rewrite Nat2Z.id. unfold data at 1. rewrite drop_app_length.
  f_equal. lia.
Qed.

Lemma head_line_none fuel m q skip :
  Forall (λ c, c ≠ LF) q → head_lines (S fuel) (Header false m) q (Zlen q) skip = Some (0, skip, Header false m).
Proof. intros Hq. cbn [head_lines]. by rewrite get_line_none. Qed.

Lemma head_line_empty fuel m b skip :
  head_lines (S fuel) (Header false m) (CR :: LF :: b) (Zlen (CR :: LF :: b)) skip = Some (0, skip + 2, Header true m).
Proof.
  assert (get_line (CR :: LF :: b) (Zlen (CR :: LF :: b)) = Some (2, 2)) as E; [|cbn [head_lines]; by rewrite E].
  apply (get_line_found []); [done|]. simpl. lia.
Qed.

(** Any part of the rest of the request: the complete lines are taken in. *)
Lemma head_lines_spec hs rest fuel m q skip :
  Forall header_ok hs → (length hs < fuel)%nat → q `prefix_of` head_text hs ++ CR :: LF :: rest →
  (∃ hs1 hs2 q', hs = hs1 ++ hs2 ∧ q = head_text hs1 ++ q' ∧ Forall (λ c, c ≠ LF) q' ∧
     head_lines fuel (Header false m) q (Zlen q) skip = Some (0, skip + Zlen (head_text hs1), Header false (add_headers m hs1))) ∨
  (∃ b, q = head_text hs ++ CR :: LF :: b ∧ b `prefix_of` rest ∧
     head_lines fuel (Header false m) q (Zlen q) skip = Some (0, skip + Zlen (head_text hs) + 2, Header true (add_headers m hs))).
Proof.
  intros Hhs. revert fuel m q skip. induction Hhs as [|h hs Hh Hhs IH]; intros fuel m q skip Hf Hq;
    (destruct fuel as [|fuel]; [simpl in Hf; lia|]).
  - apply (prefix_line _ []) in Hq as [Hq|(b & -> & Hb)]; [|right|done].
    + left. exists [], [], q. split_and!; [done..|]. rewrite head_line_none by done. by rewrite Z.add_0_r.
    + exists b. split_and!; [done..|]. cbn [app]. rewrite head_line_empty. by rewrite Z.add_0_r.
  - rewrite head_text_cons, <-app_assoc in Hq.
    assert (print_header h = (h.1 ++ 58 :: SP :: h.2) ++ [CR; LF]) as Eh by (unfold print_header; by rewrite <-app_assoc).
    rewrite Eh, <-app_assoc in Hq. cbn [app] in Hq. apply prefix_line in Hq as [Hq|(q2 & -> & Hq2)].
    + left. exists [], (h :: hs), q. split_and!; [done..|]. rewrite head_line_none by done. by rewrite Z.add_0_r.
    + assert ((h.1 ++ 58 :: SP :: h.2) ++ CR :: LF :: q2 = print_header h ++ q2) as -> by (rewrite Eh; by rewrite <-(app_assoc _ [CR; LF])).
      rewrite head_line_found by done. destruct (IH fuel (add_header m h) q2 (skip + Zlen (print_header h))) as
        [(hs1 & hs2 & q' & -> & -> & Hq' & Hr)|(b & -> & Hb & Hr)]; [simpl in Hf; lia|done| |].
      * left. exists (h :: hs1), hs2, q'. rewrite head_text_cons, <-app_assoc. split_and!; [done..|]. rewrite Hr, length_app.
        cbn [add_headers foldl]. do 3 f_equal. lia.
      * right. exists b. rewrite head_text_cons, <-app_assoc. split_and!; [done..|]. rewrite Hr, length_app.
        cbn [add_headers foldl]. do 3 f_equal. lia.
    + apply Forall_app. destruct Hh as [_ _ Hl]. apply Forall_app in Hl as [? ?]. split; [done|]. by repeat constructor.
Qed.
