(* ===== verification/HttpProps.v ===== *)
(** * http_codec: the contract of [CHttpReq]

    A request is taken in the same way in whatever pieces it arrives. *)
From S2P Require Import Prelude GetNum HttpFunc HttpReq HttpFacts HttpLine HttpHead.
#[local] Open Scope Z_scope.

(** ** The state after a part of the request *)

Definition st_line (pre : list Z) (id : Z) : CHttpReq :=
  Http_req (Zlen pre) id pre (Zlen pre) false 0 new_line (Header false ∅) 0 (Body UINT_MAX 0 None).

Section states.
Context (r : request) (arg : list Z).
Implicit Types (pre b : list Z) (hs : list (list Z * list Z)).

(** The lines [hs] of the header have been taken in. *)
Definition st_head (pre : list Z) (hs : list (list Z * list Z)) (id : Z) : CHttpReq :=
  Http_req (Zlen pre) id pre (Zlen pre) false (Zlen (print_line r ++ head_text hs)) (line_of r arg)
    (Header false (add_headers ∅ hs)) 0 (Body UINT_MAX 0 None).

(** The part [b] of the body has arrived; [bid] is the buffer at the end of the
    header. *)
Definition st_body (pre b : list Z) (id bid : Z) : CHttpReq :=
  let off := Zlen (print_line r ++ print_head r) in
  Http_req (Zlen pre) id pre (Zlen pre) (bool_decide (b = rq_body r)) (Zlen pre) (line_of r arg)
    (Header true (add_headers ∅ (all_headers r))) off (Body (Zlen (rq_body r)) (Zlen b) (Some (bid, off))).

(** [fresh]: a pointer to the body is one into the buffer. *)
Inductive taken (pre : list Z) (fresh : bool) (s : CHttpReq) : Prop :=
  | taken_line id : Forall (λ c, c ≠ LF) pre → s = st_line pre id → fresh = true → taken pre fresh s
  | taken_head hs1 hs2 q id :
      all_headers r = hs1 ++ hs2 → pre = print_line r ++ head_text hs1 ++ q → Forall (λ c, c ≠ LF) q →
      s = st_head pre hs1 id → fresh = true → taken pre fresh s
  | taken_body b id bid :
      pre = print_line r ++ print_head r ++ b → s = st_body pre b id bid → bid ≤ id → (fresh = true ↔ bid = id) →
      taken pre fresh s.
End states.

(** ** Receiving *)

(** The new pieces end up behind the old ones; the buffer moves unless nothing
    came. *)
Definition next_id (pre c : list Z) (id : Z) : Z := if decide (c = [] ∧ pre ≠ []) then id else id + 1.

Lemma append_data_spec (pre c : list Z) id ini parsed l h off b :
  Zlen (pre ++ c) < UINT_MAX →
  append_data (Http_req (Zlen pre) id pre (Zlen pre) ini parsed l h off b) c =
  Http_req (Zlen (pre ++ c)) (next_id pre c id) (pre ++ c) (Zlen (pre ++ c)) ini parsed l h off b.
Proof.
  intros Hlen. rewrite length_app in Hlen |- *. unfold append_data, next_id. cbn.
  destruct pre as [|x pre].
  - cbn. rewrite decide_False by tauto. done.
  - rewrite (proj2 (Z.eqb_neq (Zlen (x :: pre)) 0)) by (cbn; lia). unfold uint. rewrite wrap_small by (unfold UINT_MAX in Hlen; lia).
    rewrite Nat2Z.id, take_ge by lia. destruct c as [|y c].
    + rewrite decide_True by done. cbn [length]. rewrite Z.add_0_r. rewrite Z.ltb_irrefl.
      rewrite Nat2Z.id, drop_ge by (cbn; lia). cbn [app]. rewrite Nat.add_0_r. done.
    + rewrite decide_False by naive_solver. rewrite (proj2 (Z.ltb_lt _ _)) by (cbn; lia). by rewrite Nat2Z.inj_add.
Qed.

Section receiving.
Context (U : Z) (r : request) (arg : list Z) (Hr : request_ok r) (HU : machine U).
Implicit Types (pre b c q : list Z) (hs : list (list Z * list Z)).

Lemma all_headers_ok : Forall header_ok (all_headers r) ∧ (length (all_headers r) < Z.to_nat C_MAX_HEAD_LINE)%nat.
Proof.
  split.
  - unfold all_headers. apply Forall_app. split; [apply Hr|]. apply Forall_singleton, length_header_ok.
  - pose proof (ro_lines _ Hr). unfold all_headers. rewrite length_app. cbn [length]. lia.
Qed.

Lemma print_length_body b : b `prefix_of` rq_body r → Zlen b ≤ Zlen (rq_body r).
Proof. intros Hb. apply prefix_length in Hb. lia. Qed.

(** The body takes in what is ahead, when it is not more than it waits for. *)
Lemma input_body_spec pre id ini parsed l h off n i k bb :
  parsed + k = Zlen pre → 0 ≤ k → 0 ≤ i → i + k ≤ n < UINT_MAX → (ini = true → i = n) →
  input_body (Http_req (Zlen pre) id pre (Zlen pre) ini parsed l h off (Body n i bb)) =
  Some (0, Http_req (Zlen pre) id pre (Zlen pre) (bool_decide (i + k = n)) (parsed + k) l h off (Body n (i + k) bb)).
Proof.
  intros Hp Hk Hi Hn Hini. unfold input_body, body_full. cbn.
  destruct (Z.leb_spec n i) as [Hfull|Hfull].
  - assert (k = 0) as -> by lia. rewrite !Z.add_0_r, bool_decide_true by lia. done.
  - assert (ini = false) as -> by (destruct ini; [specialize (Hini eq_refl); lia|done]).
    unfold infuse_body, ahead_len. cbn. replace (Zlen pre - parsed) with k by lia.
    unfold uint. rewrite !wrap_small by (unfold UINT_MAX in Hn; lia). rewrite (proj2 (Z.leb_le (k + i) n)) by lia. cbn.
    destruct (Z.leb_spec n (i + k)).
    + rewrite bool_decide_true by lia. done.
    + rewrite bool_decide_false by lia. done.
Qed.

Lemma body_complete b : b `prefix_of` rq_body r → bool_decide (Zlen b = Zlen (rq_body r)) = bool_decide (b = rq_body r).
Proof.
  intros [k Hk]. apply bool_decide_ext. split; [|by intros ->]. intros Hl. rewrite Hk in Hl |- *. rewrite length_app in Hl.
  destruct k; [by rewrite app_nil_r|simpl in Hl; lia].
Qed.

Lemma print_length : Zlen (print r) = Zlen (print_line r ++ print_head r) + Zlen (rq_body r).
Proof. unfold print. rewrite app_assoc, length_app. lia. Qed.

(** The end of the header. *)
Lemma head_end pre b id ini parsed h off :
  pre = print_line r ++ print_head r ++ b → b `prefix_of` rq_body r → ini = false → parsed = Zlen (print_line r ++ print_head r) →
  h = Header true (add_headers ∅ (all_headers r)) → off = parsed →
  input_body (Http_req (Zlen pre) id pre (Zlen pre) ini parsed (line_of r arg) h off
    (Body (Zlen (rq_body r)) 0 (Some (id, off)))) = Some (0, st_body r arg pre b id id).
Proof.
  intros Hpre Hb -> -> -> ->. pose proof (print_length_body b Hb) as Hbl. pose proof (ro_length _ Hr) as Hlen. rewrite print_length in Hlen.
  assert (Zlen pre = Zlen (print_line r ++ print_head r) + Zlen b) as Hpl by (rewrite Hpre, app_assoc, (length_app _ b); lia).
  rewrite (input_body_spec _ _ _ _ _ _ _ _ _ (Zlen b)) by (done || lia). rewrite Z.add_0_l, body_complete, <-Hpl by done. done.
Qed.

(** A state in which the line has been taken in, with any part of the header. *)
Lemma head_step pre hs1 hs2 q id :
  all_headers r = hs1 ++ hs2 → pre = print_line r ++ head_text hs1 ++ q → pre `prefix_of` print r →
  ∃ s, input_header (st_head r arg pre hs1 id) = Some (0, s) ∧
    ((∃ hs3 hs4 q', all_headers r = hs3 ++ hs4 ∧ pre = print_line r ++ head_text hs3 ++ q' ∧ Forall (λ x, x ≠ LF) q' ∧
        s = st_head r arg pre hs3 id) ∨
     ∃ b, pre = print_line r ++ print_head r ++ b ∧ b `prefix_of` rq_body r ∧ s = st_body r arg pre b id id).
Proof.
  intros Hall Hpre Hprint. destruct all_headers_ok as [Hok Hf].
  assert (q `prefix_of` head_text hs2 ++ CR :: LF :: rq_body r) as Hq.
  { unfold print, print_head in Hprint. fold (head_text (all_headers r)) in Hprint. rewrite Hall, head_text_app, <-!app_assoc, Hpre in Hprint.
    by apply prefix_app_inv, prefix_app_inv in Hprint. }
  assert (ahead (st_head r arg pre hs1 id) = q ∧ ahead_len (st_head r arg pre hs1 id) = Zlen q) as [Ha Hal].
  { unfold ahead, ahead_len. cbn. rewrite Hpre, app_assoc. rewrite Nat2Z.id, drop_app_length.
    split; [done|]. rewrite (length_app _ q). lia. }
  unfold input_header. rewrite Ha, Hal. cbn [header st_head head_full]. unfold infuse_header.
  rewrite Hall in Hok, Hf. apply Forall_app in Hok as [_ Hok]. rewrite length_app in Hf.
  destruct (head_lines_spec hs2 (rq_body r) (Z.to_nat C_MAX_HEAD_LINE) (add_headers ∅ hs1) q 0 Hok ltac:(lia) Hq) as
    [(hs3 & hs4 & q' & E2 & Eq & Hq' & ->)|(b & Eq & Hb & ->)]; cbn [mbind option_bind]; change (negb (0 =? 0)) with false; cbn match.
  - cbn [head_full negb]. eexists. split; [done|]. left. exists (hs1 ++ hs3), hs4, q'. rewrite E2, (assoc_L (++)) in Hall.
    split_and!; [done|by rewrite head_text_app, <-app_assoc, <-Eq|done|]. unfold st_head, set_parsed. cbn.
    rewrite head_text_app, add_headers_app, (app_assoc (print_line r)), (length_app _ (head_text hs3)).
    f_equal. lia.
  - assert (add_headers (add_headers ∅ hs1) hs2 = add_headers ∅ (all_headers r)) as Em by (by rewrite Hall, add_headers_app).
    assert (print_line r ++ print_head r = (print_line r ++ head_text hs1) ++ head_text hs2 ++ [CR; LF]) as Eph.
    { unfold print_head. fold (head_text (all_headers r)). by rewrite Hall, head_text_app, <-!app_assoc. }
    assert (parsed_len (st_head r arg pre hs1 id) + (0 + Zlen (head_text hs2) + 2) = Zlen (print_line r ++ print_head r)) as Eoff.
    { rewrite Eph. cbn [st_head parsed_len]. rewrite (length_app (_ ++ _)), (length_app (head_text hs2)). cbn [length]. lia. }
    assert (pre = print_line r ++ print_head r ++ b) as Eb.
    { rewrite Hpre, Eq. rewrite (app_assoc (print_line r) (print_head r)), Eph, <-!app_assoc. done. }
    rewrite Em, Eoff. cbn [head_full negb].
    pose proof (ro_length _ Hr) as Hlen. rewrite print_length in Hlen.
    destruct (content_length (rq_headers r) (Zlen (rq_body r)) ∅) as [Hne Hcl]; [lia|]. fold (all_headers r) in Hne, Hcl.
    rewrite decide_False by done. rewrite Hcl. cbn [mbind option_bind]. unfold set_parsed. cbn [st_head buf_size buf_id buf data_len inited req_line body _infused_length].
    rewrite (head_end pre b) by done. eexists. split; [done|]. right. by exists b.
Qed.

(** ** One piece *)

Section piece.
Context (pre c : list Z) (id : Z) (Hp : pre ++ c `prefix_of` print r).

Lemma piece_length : Zlen (pre ++ c) < UINT_MAX.
Proof. pose proof (ro_length _ Hr). apply prefix_length in Hp. lia. Qed.

Lemma line_ahead (l : list Z) k : ahead (st_line l k) = l ∧ ahead_len (st_line l k) = Zlen l.
Proof. unfold ahead, ahead_len. cbn. split; [done|lia]. Qed.

(** Without its end the request line waits. *)
Lemma line_waits :
  Forall (λ x, x ≠ LF) (pre ++ c) → input U (st_line pre id) c = Some (0, st_line (pre ++ c) (next_id pre c id)).
Proof.
  intros Hnl. assert (append_data (st_line pre id) c = st_line (pre ++ c) (next_id pre c id)) as Happ.
  { apply append_data_spec, piece_length. }
  unfold input. rewrite Happ. set (s1 := st_line (pre ++ c) (next_id pre c id)). change (req_line s1) with new_line.
  cbn [line_full new_line]. pose proof (line_ahead (pre ++ c) (next_id pre c id)) as [Ha Hal]. fold s1 in Ha, Hal. rewrite Ha, Hal.
  unfold infuse_line. cbn [line_full new_line]. rewrite get_line_none by done. done.
Qed.

(** With its end it is taken in, or refused. *)
Lemma line_arrives q :
  pre ++ c = print_line r ++ q →
  input U (st_line pre id) c = ('(ret, arg) ← target_result U r;
    if negb (ret =? 0) then Some (ret, st_line (pre ++ c) (next_id pre c id))
    else input_header (st_head r arg (pre ++ c) [] (next_id pre c id))).
Proof.
  intros Eq. pose proof piece_length as Hlen.
  assert (append_data (st_line pre id) c = st_line (pre ++ c) (next_id pre c id)) as Happ by (by apply append_data_spec).
  unfold input. rewrite Happ. set (s1 := st_line (pre ++ c) (next_id pre c id)). change (req_line s1) with new_line.
  cbn [line_full new_line]. pose proof (line_ahead (pre ++ c) (next_id pre c id)) as [Ha Hal]. fold s1 in Ha, Hal. rewrite Ha, Hal.
  rewrite Eq in Hlen |- *. rewrite infuse_line_print by done. destruct (target_result U r) as [[ret a]|]; [|done].
  cbn [mbind option_bind]. destruct (negb (ret =? 0)) eqn:E; cbn [mbind option_bind]; [by rewrite E|]. cbn [mbind option_bind].
  change (negb (0 =? 0)) with false. cbn match. cbn [line_full line_of negb]. f_equal. unfold set_parsed, s1, st_line, st_head. cbn.
  rewrite Eq, app_nil_r. done.
Qed.

(** After the line only the header looks at what is ahead. *)
Lemma head_arrives hs1 :
  input U (st_head r arg pre hs1 id) c = input_header (st_head r arg (pre ++ c) hs1 (next_id pre c id)).
Proof.
  assert (append_data (st_head r arg pre hs1 id) c = st_head r arg (pre ++ c) hs1 (next_id pre c id)) as Happ.
  { apply append_data_spec, piece_length. }
  unfold input. by rewrite Happ.
Qed.

Lemma body_arrives b bid :
  pre = print_line r ++ print_head r ++ b →
  input U (st_body r arg pre b id bid) c = Some (0, st_body r arg (pre ++ c) (b ++ c) (next_id pre c id) bid).
Proof.
  intros Hpre. set (off := Zlen (print_line r ++ print_head r)).
  assert (b ++ c `prefix_of` rq_body r) as Hb.
  { rewrite Hpre, <-!app_assoc in Hp. unfold print in Hp. by apply prefix_app_inv, prefix_app_inv in Hp. }
  pose proof (print_length_body _ Hb) as Hbl. pose proof (ro_length _ Hr) as Hlen. rewrite print_length in Hlen.
  rewrite length_app in Hbl.
  assert (append_data (st_body r arg pre b id bid) c =
    Http_req (Zlen (pre ++ c)) (next_id pre c id) (pre ++ c) (Zlen (pre ++ c)) (bool_decide (b = rq_body r)) (Zlen pre) (line_of r arg)
      (Header true (add_headers ∅ (all_headers r))) off (Body (Zlen (rq_body r)) (Zlen b) (Some (bid, off)))) as Happ.
  { apply append_data_spec, piece_length. }
  unfold input. rewrite Happ. cbn [req_line line_full line_of]. unfold input_header. cbn [header head_full].
  rewrite (input_body_spec _ _ _ _ _ _ _ _ _ (Zlen c)); [|rewrite length_app; lia|lia|lia|lia|].
  - unfold st_body. fold off. rewrite <-Nat2Z.inj_add, <-length_app, body_complete by done.
    rewrite <-Nat2Z.inj_add, <-length_app. done.
  - intros Hd%bool_decide_eq_true. by rewrite Hd.
Qed.
End piece.

(** Whether the pointer to the body is one into the buffer afterwards. *)
Definition fresh_after pre c (fresh : bool) : bool :=
  if decide (Zlen pre < Zlen (print_line r ++ print_head r)) then true else fresh && bool_decide (c = []).

Context (Htarget : target_result U r = Some (0, arg)).

Lemma no_line_short (l t rest : list Z) :
  Forall (λ x, x ≠ LF) l → LF ∈ t → l `prefix_of` t ++ rest → Zlen l < Zlen t.
Proof.
  intros Hl Ht Hp. destruct (prefix_weak_total l t (t ++ rest)) as [[k Hk]|[k ->]]; [done|by exists rest| |].
  - destruct k as [|x k]; [|rewrite Hk, length_app; cbn; lia]. rewrite app_nil_r in Hk. subst t.
    exfalso. by apply (proj1 (Forall_forall _ _) Hl LF).
  - apply Forall_app in Hl as [Hl _]. exfalso. by apply (proj1 (Forall_forall _ _) Hl LF).
Qed.

Lemma fresh_before pre c fresh : Zlen pre < Zlen (print_line r ++ print_head r) → fresh_after pre c fresh = true.
Proof. intros. unfold fresh_after. by rewrite decide_True. Qed.

(** The line has arrived before or just now. *)
Lemma head_taken pre c hs1 hs2 q id :
  all_headers r = hs1 ++ hs2 → pre ++ c = print_line r ++ head_text hs1 ++ q → pre ++ c `prefix_of` print r →
  ∃ s', input_header (st_head r arg (pre ++ c) hs1 id) = Some (0, s') ∧ taken r arg (pre ++ c) true s'.
Proof.
  intros Hall Eq Hp. destruct (head_step _ _ _ _ id Hall Eq Hp) as (s' & Hs & [(hs3 & hs4 & q' & H1 & H2 & H3 & ->)|(b & H1 & H2 & ->)]);
    eexists; (split; [exact Hs|]).
  - by eapply taken_head.
  - by eapply taken_body.
Qed.

Lemma LF_in_line : LF ∈ print_line r.
Proof. unfold print_line. apply elem_of_app. right. right. left. Qed.

Lemma input_takes pre c fresh s :
  taken r arg pre fresh s → pre ++ c `prefix_of` print r →
  ∃ s', input U s c = Some (0, s') ∧ taken r arg (pre ++ c) (fresh_after pre c fresh) s'.
Proof.
  intros Ht Hp. assert (pre `prefix_of` print r) as Hp0 by (etrans; [by apply prefix_app_r|exact Hp]).
  destruct Ht as [id Hnl -> ->|hs1 hs2 q id Hall Hpre Hnl -> ->|b id bid Hpre -> Hid Hf].
  - rewrite fresh_before.
    2: { apply (no_line_short _ _ _ Hnl LF_in_line) in Hp0. rewrite length_app. lia. }
    unfold print, print_line in Hp. rewrite <-app_assoc in Hp. pose proof Hp as Hp'.
    apply (prefix_line _ (line_text r)) in Hp' as [Hnl'|(q & Eq & Hq)]; [| |by apply line_text_one_line].
    + eexists. split; [apply line_waits; [|done]; unfold print, print_line; by rewrite <-app_assoc|]. by eapply taken_line.
    + assert (pre ++ c = print_line r ++ q) as Eq' by (rewrite Eq; unfold print_line; by rewrite <-app_assoc).
      assert (pre ++ c `prefix_of` print r) as Hp2 by (unfold print, print_line; by rewrite <-app_assoc).
      rewrite (line_arrives _ _ _ Hp2 q Eq'), Htarget. cbn [mbind option_bind]. change (negb (0 =? 0)) with false. cbn match.
      by eapply (head_taken _ _ [] _ q).
  - rewrite fresh_before.
    2: { unfold print, print_head in *. fold (head_text (all_headers r)) in *. rewrite Hall, head_text_app in *. rewrite Hpre in Hp0.
      rewrite <-!app_assoc in Hp0. apply prefix_app_inv, prefix_app_inv in Hp0. rewrite app_assoc in Hp0.
      apply (no_line_short _ _ _ Hnl) in Hp0; [|apply elem_of_app; right; right; left].
      rewrite Hpre. rewrite !length_app in *. lia. }
    rewrite head_arrives by done. eapply (head_taken _ _ _ _ (q ++ c)); [done| |done]. by rewrite Hpre, <-!app_assoc.
  - rewrite body_arrives by done. eexists. split; [done|].
    assert (pre ≠ []) as Hne.
    { rewrite Hpre. intros E. apply (f_equal length) in E. unfold print_line in E. rewrite !length_app in E. cbn in E. lia. }
    eapply taken_body; [by rewrite Hpre, <-!app_assoc|done| |].
    + unfold next_id. case_decide; lia.
    + unfold fresh_after, next_id. rewrite decide_False by (rewrite Hpre, app_assoc, (length_app _ b); lia).
      rewrite andb_true_iff, bool_decide_eq_true. destruct (decide (c = [])) as [->|Hc].
      * rewrite decide_True by done. tauto.
      * rewrite decide_False by tauto. split; [tauto|]. intros. lia.
Qed.

Lemma inputs_take chunks pre fresh s :
  taken r arg pre fresh s → pre ++ concat chunks `prefix_of` print r →
  ∃ s' fresh', inputs U s chunks = Some (0, s') ∧ taken r arg (pre ++ concat chunks) fresh' s'.
Proof.
  revert pre fresh s. induction chunks as [|c chunks IH]; intros pre fresh s Ht Hp; cbn [concat] in *.
  - exists s, fresh. split; [done|]. by rewrite app_nil_r.
  - rewrite app_assoc in Hp |- *. destruct (input_takes pre c fresh s Ht) as (s1 & H1 & Ht1); [etrans; [by apply prefix_app_r|exact Hp]|].
    destruct (IH _ _ _ Ht1 Hp) as (s2 & fresh2 & H2 & Ht2). exists s2, fresh2. split; [|done].
    cbn [inputs]. rewrite H1. cbn [mbind option_bind]. exact H2.
Qed.

Lemma taken_new : taken r arg [] true new_req.
Proof. by apply (taken_line _ _ _ _ _ 0). Qed.
End receiving.

(** ** Theorems *)

Lemma complete_body r arg s fresh :
  request_ok r → taken r arg (print r) fresh s → ∃ id bid, s = st_body r arg (print r) (rq_body r) id bid ∧ (fresh = true ↔ bid = id).
Proof.
  intros Hr [id Hnl -> _|hs1 hs2 q id Hall Hpre Hnl -> _|b id bid Hpre -> _ Hf].
  - exfalso. apply (proj1 (Forall_forall _ _) Hnl LF); [|done]. unfold print. apply elem_of_app. left. apply LF_in_line.
  - exfalso. unfold print, print_head in Hpre. fold (head_text (all_headers r)) in Hpre. rewrite Hall, head_text_app, <-!app_assoc in Hpre.
    apply app_inv_head, app_inv_head in Hpre. apply (proj1 (Forall_forall _ _) Hnl LF); [|done]. rewrite <-Hpre. set_solver.
  - exists id, bid. split; [|done]. unfold print in Hpre. rewrite !app_assoc in Hpre. apply app_inv_head in Hpre. by rewrite Hpre.
Qed.

Lemma taken_inited r arg pre fresh s : request_ok r → taken r arg pre fresh s → inited s = true → pre = print r.
Proof.
  intros Hr [id Hnl -> _|hs1 hs2 q id Hall Hpre Hnl -> _|b id bid -> -> _ Hf]; try done.
  unfold st_body. cbn [inited]. intros ->%bool_decide_eq_true. done.
Qed.

(** C12: A request is taken in the same way in whatever pieces its bytes
    arrive: every call succeeds, the last byte completes it and none before, and
    the line, the attributes and the body are those that were sent. *)
Theorem request_chunks U r arg chunks :
  request_ok r → machine U → target_result U r = Some (0, arg) → concat chunks `prefix_of` print r →
  ∃ s, inputs U new_req chunks = Some (0, s) ∧ (inited s = true ↔ concat chunks = print r) ∧
    (concat chunks = print r →
       req_line s = line_of r arg ∧ header s = Header true (add_headers ∅ (all_headers r)) ∧ parsed_len s = Zlen (print r) ∧
       bytes (buf s) (content_offset s) (_content_length (body s)) = Some (rq_body r)).
Proof.
  intros Hr HU Ht Hp. destruct (inputs_take U r arg Hr HU Ht chunks [] true new_req (taken_new r arg) Hp) as (s & fresh & Hs & Hk).
  cbn [app] in Hk. exists s. split; [done|]. assert (concat chunks = print r → ∃ id bid, s = st_body r arg (print r) (rq_body r) id bid) as Hc.
  { intros E. rewrite E in Hk. destruct (complete_body _ _ _ _ Hr Hk) as (id & bid & -> & _). by exists id, bid. }
  split; [split|].
  - by eapply taken_inited.
  - intros E. destruct (Hc E) as (id & bid & ->). unfold st_body. cbn [inited]. by rewrite bool_decide_true.
  - intros E. destruct (Hc E) as (id & bid & ->). split_and!; [done..|]. cbn. unfold print. rewrite app_assoc.
    rewrite <-(app_nil_r (rq_body r)) at 1. by apply bytes_app.
Qed.

Lemma inputs_undefined U r chunks pre id :
  request_ok r → machine U → target_result U r = None → Forall (λ x, x ≠ LF) pre →
  pre ++ concat chunks `prefix_of` print r → print_line r `prefix_of` pre ++ concat chunks →
  inputs U (st_line pre id) chunks = None.
Proof.
  intros Hr HU Ht. revert pre id. induction chunks as [|c chunks IH]; intros pre id Hnl Hp Hline; cbn [concat] in *.
  - exfalso. rewrite app_nil_r in Hline. destruct Hline as [k ->]. apply Forall_app in Hnl as [Hnl _].
    by apply (proj1 (Forall_forall _ _) Hnl LF); [apply LF_in_line|].
  - rewrite app_assoc in Hp, Hline. assert (pre ++ c `prefix_of` print r) as Hp1 by (etrans; [by apply prefix_app_r|exact Hp]).
    pose proof Hp1 as Hp2. unfold print, print_line in Hp2. rewrite <-app_assoc in Hp2.
    apply (prefix_line _ (line_text r)) in Hp2 as [Hnl'|(q & Eq & _)]; [| |by apply line_text_one_line]; cbn [inputs].
    + rewrite (line_waits U r Hr pre c id Hp1 Hnl'). cbn [mbind option_bind]. by apply IH.
    + assert (pre ++ c = print_line r ++ q) as Eq' by (rewrite Eq; unfold print_line; by rewrite <-app_assoc).
      by rewrite (line_arrives U r Hr HU pre c id Hp1 q Eq'), Ht.
Qed.

(** C35: On a machine whose [unsigned long] is wider than its [unsigned] every
    request without a query, but for the target "/", reads far behind its buffer
    as soon as its line is complete; on every machine a query of 1024 bytes or
    more writes behind a local array. *)
Theorem request_undefined U r chunks :
  request_ok r → machine U → concat chunks `prefix_of` print r → print_line r `prefix_of` concat chunks →
  (rq_query r = None ∧ U ≠ UINT_MAX ∧ target r ≠ [SLASH] ∨
   ∃ e q, rq_query r = Some e ∧ decode_from e C_MAX_ARG_SIZE 0 = (0, q) ∧ C_MAX_ARG_SIZE ≤ Zlen q) →
  inputs U new_req chunks = None.
Proof.
  intros Hr HU Hp Hl Hbad. apply (inputs_undefined U r chunks [] 0); try done.
  unfold target_result. destruct Hbad as [(-> & HU1 & Ht)|(e & q & -> & -> & Hq)].
  - by rewrite decide_False by tauto.
  - by rewrite (proj2 (Z.ltb_ge _ _)).
Qed.

Lemma inputs_app U s l1 l2 s1 :
  inputs U s l1 = Some (0, s1) → inputs U s (l1 ++ l2) = inputs U s1 l2.
Proof.
  revert s. induction l1 as [|c l1 IH]; intros s Hs; cbn [app inputs] in *; [by simplify_eq|].
  destruct (input U s c) as [[ret s2]|]; [|done]. cbn [mbind option_bind] in *.
  destruct (negb (ret =? 0)) eqn:E; [|by apply IH]. injection Hs as -> ->. done.
Qed.

(** The body of an upload is read through a pointer into the buffer
    that held the end of the header: this gives the body when the last piece
    brings that end too, and is undefined when a piece comes after it. *)
Theorem upload_body_dangles U r arg chunks c :
  request_ok r → machine U → target_result U r = Some (0, arg) → rq_file r = str "upload" →
  concat chunks ++ c = print r → c ≠ [] →
  ∃ s, inputs U new_req (chunks ++ [c]) = Some (0, s) ∧ inited s = true ∧
    decode_upload_file_req s =
      if Zlen (concat chunks) <? Zlen (print_line r ++ print_head r)
      then Some (0, default [] (get_url_args arg ∅ !! str "fname"), rq_body r) else None.
Proof.
  intros Hr HU Ht Hfile Hp Hc.
  destruct (inputs_take U r arg Hr HU Ht chunks [] true new_req (taken_new r arg)) as (s1 & fresh & Hs1 & Hk1); [by exists c|].
  cbn [app] in Hk1. destruct (input_takes U r arg Hr HU Ht (concat chunks) c fresh s1 Hk1) as (s & Hs & Hk); [by rewrite Hp|].
  rewrite Hp in Hk. destruct (complete_body _ _ _ _ Hr Hk) as (id & bid & -> & Hf). eexists. split.
  { rewrite (inputs_app _ _ _ _ _ Hs1). cbn [inputs]. by rewrite Hs. }
  split; [unfold st_body; cbn [inited]; by rewrite bool_decide_true|].
  unfold decode_upload_file_req, get_cmd_string, get_argu, assign_body. cbn [st_body req_line line_of _file url_args body body_buf buf_id buf _content_length].
  rewrite decide_False by tauto. unfold fresh_after in Hf. rewrite (bool_decide_false (c = [])), andb_false_r in Hf by done.
  destruct (Z.ltb_spec (Zlen (concat chunks)) (Zlen (print_line r ++ print_head r))).
  - rewrite decide_True in Hf by done. rewrite (proj2 (Z.eqb_eq bid id)) by tauto. unfold print at 1. rewrite app_assoc.
    rewrite <-(app_nil_r (rq_body r)) at 1. by rewrite bytes_app.
  - rewrite decide_False in Hf by lia. rewrite (proj2 (Z.eqb_neq bid id)); [done|]. intros E. by apply Hf in E.
Qed.
