(* ===== verification/HttpArgs.v ===== *)
(** * http_codec: the arguments of a request *)
From S2P Require Import Prelude GetNum HttpFunc HttpReq HttpFacts HttpLine HttpHead HttpProps.
#[local] Open Scope Z_scope.

(** ** Encoding *)

(** Letters, digits, & and = stand for themselves. *)
Definition plain (c : Z) : bool :=
  ((48 <=? c) && (c <=? 57)) || ((65 <=? c) && (c <=? 90)) || ((97 <=? c) && (c <=? 122)) || (c =? 38) || (c =? 61).
Definition percent (c : Z) : list Z := if plain c then [c] else [37; digit_char (c / 16); digit_char (c mod 16)].
Definition encode (s : list Z) : list Z := concat (percent <$> s).

(** What the proofs need of one byte; it is checked for all of them. *)
Definition percent_ok (c : Z) : bool :=
  forallb (λ x, negb (isspace x) && negb (x =? 0)) (percent c) &&
  if plain c then negb (c =? 37)
  else let '(v, _, _) := strtol (c_str [digit_char (c / 16); digit_char (c mod 16)]) 16 in v mod 256 =? c.

Lemma percent_all c : 0 ≤ c < 256 → percent_ok c = true.
Proof.
  intros Hc. assert (forallb percent_ok (Z.of_nat <$> seq 0 256) = true) as H by (by vm_compute).
  rewrite forallb_forall in H. apply H. apply list_elem_of_In, list_elem_of_fmap. exists (Z.to_nat c).
  split; [lia|]. apply elem_of_seq. lia.
Qed.

Lemma encode_token s : Forall (λ c, 0 ≤ c < 256) s → token (encode s).
Proof.
  intros Hs. unfold encode, token. induction Hs as [|c s Hc Hs IH]; [done|]. rewrite fmap_cons. cbn [concat].
  apply Forall_app. split; [|done]. pose proof (percent_all c Hc) as H. unfold percent_ok in H.
  apply andb_true_iff in H as [H _]. rewrite forallb_forall in H. apply Forall_forall. intros x Hx.
  apply list_elem_of_In, H, andb_true_iff in Hx as [H1 H2]. split; [by apply negb_true_iff|]. by apply negb_true_iff, Z.eqb_neq in H2.
Qed.

Lemma decode_encode s n j :
  Forall (λ c, 0 ≤ c < 256) s → j + Zlen s ≤ n → decode_from (encode s) n j = (0, s).
Proof.
  intros Hs. revert j. induction Hs as [|c s Hc Hs IH]; intros j Hj; [done|]. cbn [length] in Hj.
  pose proof (percent_all c Hc) as H. unfold percent_ok in H. apply andb_true_iff in H as [_ H].
  unfold encode. rewrite fmap_cons. cbn [concat]. fold (encode s). unfold percent. destruct (plain c).
  - cbn [app decode_from]. rewrite (proj2 (Z.ltb_lt j n)) by lia. apply negb_true_iff in H. rewrite H. by rewrite IH by lia.
  - cbn [app decode_from]. rewrite (proj2 (Z.ltb_lt j n)) by lia. change (37 =? 37) with true. cbn match.
    destruct (strtol _ 16) as [[v rest] err]. apply Z.eqb_eq in H. rewrite H. by rewrite IH by lia.
Qed.

(** ** Arguments *)

Definition pair_text (p : list Z * list Z) : list Z := p.1 ++ 61 :: p.2.
Fixpoint join (ps : list (list Z * list Z)) : list Z :=
  match ps with [] => [] | [p] => pair_text p | p :: ps => pair_text p ++ 38 :: join ps end.

(** Names and values without = and &. *)
Definition simple (l : list Z) : Prop := Forall (λ c, c ≠ 61 ∧ c ≠ 38) l.
Definition simple_pair (p : list Z * list Z) : Prop := simple p.1 ∧ simple p.2.

Lemma find_app pre l1 c l2 : Forall (λ x, x ≠ c) l1 → find (pre ++ l1 ++ c :: l2) c (Zlen pre) = Some (Zlen pre + Zlen l1).
Proof.
  intros Hl. unfold find. rewrite Nat2Z.id, drop_app_length.
  assert (list_find (λ x, x = c) (l1 ++ c :: l2) = Some (length l1, c)) as ->; [|done].
  apply list_find_Some. split_and!; [apply list_lookup_middle; done|done|].
  intros j y Hj Hlt. rewrite lookup_app_l in Hj by done. by eapply Forall_lookup_1 in Hl.
Qed.
Lemma find_none pre l c : Forall (λ x, x ≠ c) l → find (pre ++ l) c (Zlen pre) = None.
Proof.
  intros Hl. unfold find. rewrite Nat2Z.id, drop_app_length.
  assert (list_find (λ x, x = c) l = None) as ->; [|done]. by apply list_find_None.
Qed.

Lemma substr_app pre s l n : n = Zlen s → substr (pre ++ s ++ l) (Zlen pre) n = s.
Proof.
  intros ->. unfold substr. rewrite Nat2Z.id, drop_app_length, (proj2 (Z.ltb_ge _ 0)) by lia.
  by rewrite Nat2Z.id, take_app_length.
Qed.

(** The name and the value of the argument in front. *)
Lemma split_pair pre p l :
  let arg := pre ++ pair_text p ++ l in
  substr arg (Zlen pre) (Zlen p.1) = p.1 ∧ substr arg (Zlen pre + Zlen p.1 + 1) (Zlen p.2) = p.2.
Proof.
  intros arg. split.
  - unfold arg, pair_text. rewrite <-app_assoc. by apply substr_app.
  - assert (arg = (pre ++ p.1 ++ [61]) ++ p.2 ++ l) as ->.
    { unfold arg, pair_text. rewrite <-!app_assoc. done. }
    replace (Zlen pre + Zlen p.1 + 1) with (Zlen (pre ++ p.1 ++ [61])) by (rewrite !length_app; cbn; lia). by apply substr_app.
Qed.

Lemma simple_first l : simple l → Forall (λ x, x ≠ 61) l ∧ Forall (λ x, x ≠ 38) l.
Proof. intros H. split; (eapply Forall_impl; [exact H|]; by intros x []). Qed.

Lemma pair_text_length p : Zlen (pair_text p) = Zlen p.1 + Zlen p.2 + 1.
Proof. unfold pair_text. rewrite length_app. cbn. lia. Qed.
Lemma join_length ps : (length ps ≤ length (join ps))%nat.
Proof.
  induction ps as [|p [|p2 ps] IH]; [done| |].
  - cbn [join length]. pose proof (pair_text_length p). lia.
  - change (join (p :: p2 :: ps)) with (pair_text p ++ 38 :: join (p2 :: ps)). rewrite length_app. cbn [length] in *. lia.
Qed.

Lemma pair_no_amp p : simple_pair p → Forall (λ x, x ≠ 38) (pair_text p).
Proof.
  intros [[_ H1]%simple_first [_ H2]%simple_first]. unfold pair_text. apply Forall_app. split; [done|]. by apply Forall_cons.
Qed.

(** One round, with or without another argument behind. *)
Lemma args_round fuel pre p l m c :
  simple_pair p → default (Zlen (pre ++ pair_text p ++ l)) (find (pre ++ pair_text p ++ l) 38 (Zlen pre)) = c →
  c = Zlen pre + Zlen (pair_text p) →
  args_from (S fuel) (pre ++ pair_text p ++ l) (Zlen pre) m =
    if c + 1 >=? Zlen (pre ++ pair_text p ++ l) then map_insert p.1 p.2 m
    else args_from fuel (pre ++ pair_text p ++ l) (c + 1) (map_insert p.1 p.2 m).
Proof.
  intros [Hk%simple_first _] Hc Ec. pose proof (pair_text_length p) as Hpl. destruct (split_pair pre p l) as [H1 H2].
  assert (find (pre ++ pair_text p ++ l) 61 (Zlen pre) = Some (Zlen pre + Zlen p.1)) as Heq.
  { unfold pair_text. rewrite <-app_assoc. apply find_app, Hk. }
  cbn [args_from]. rewrite Heq, Hc. replace (Zlen pre + Zlen p.1 - Zlen pre) with (Zlen p.1) by lia.
  replace (c - (Zlen pre + Zlen p.1 + 1)) with (Zlen p.2) by lia. by rewrite H1, H2.
Qed.

Lemma args_from_join ps pre fuel m :
  Forall simple_pair ps → (length ps < fuel)%nat →
  args_from fuel (pre ++ join ps) (Zlen pre) m = foldl (λ m p, map_insert p.1 p.2 m) m ps.
Proof.
  intros Hps. revert pre fuel m. induction Hps as [|p ps Hp Hps IH]; intros pre fuel m Hf; (destruct fuel as [|fuel]; [cbn in Hf; lia|]).
  - cbn [args_from join]. by rewrite find_none by done.
  - destruct ps as [|p2 ps].
    + cbn [join foldl]. rewrite <-(app_nil_r (pair_text p)).
      assert (find (pre ++ pair_text p ++ []) 38 (Zlen pre) = None) as Hn by (rewrite app_nil_r; by apply find_none, pair_no_amp).
      rewrite (args_round _ _ _ _ _ (Zlen pre + Zlen (pair_text p)) Hp); [|rewrite Hn, app_nil_r, length_app; cbn; lia|done].
      rewrite Z.geb_leb, (proj2 (Z.leb_le _ _)); [done|]. rewrite app_nil_r, length_app. lia.
    + change (join (p :: p2 :: ps)) with (pair_text p ++ 38 :: join (p2 :: ps)). pose proof (join_length (p2 :: ps)) as Hl.
      set (rest := join (p2 :: ps)) in *. cbn [length] in Hl, Hf.
      assert (find (pre ++ pair_text p ++ 38 :: rest) 38 (Zlen pre) = Some (Zlen pre + Zlen (pair_text p))) as Hn.
      { by apply find_app, pair_no_amp. }
      rewrite (args_round _ _ _ _ _ (Zlen pre + Zlen (pair_text p)) Hp); [|by rewrite Hn|done].
      rewrite Z.geb_leb, (proj2 (Z.leb_gt _ _)) by (rewrite !length_app; cbn [length]; lia).
      assert (pre ++ pair_text p ++ 38 :: rest = (pre ++ pair_text p ++ [38]) ++ rest) as -> by (by rewrite <-!app_assoc).
      replace (Zlen pre + Zlen (pair_text p) + 1) with (Zlen (pre ++ pair_text p ++ [38])) by (rewrite !length_app; cbn; lia).
      apply IH. cbn [length]. lia.
Qed.

Lemma insert_all (ps : list (list Z * list Z)) (m : dict) : foldl (λ m p, map_insert p.1 p.2 m) m ps = m ∪ list_to_map ps.
Proof.
  revert m. induction ps as [|[k v] ps IH]; intros m; simpl.
  - by rewrite (right_id_L ∅ (∪)).
  - rewrite IH. unfold map_insert. destruct (m !! k) as [w|] eqn:E.
    + apply map_eq. intros j. destruct (decide (k = j)) as [<-|Hne].
      * by rewrite !(lookup_union_Some_l _ _ k w).
      * by rewrite !lookup_union, lookup_insert_ne.
    + by rewrite <-insert_union_l, insert_union_r.
Qed.

(** C33: Arguments that are encoded byte by byte arrive as they were, the
    first value of a name counts, and the target is accepted, when they are
    shorter than 1024 bytes and have no null, and no & or = in them. *)
Theorem url_args_roundtrip U r ps :
  rq_query r = Some (encode (join ps)) → Forall (λ c, 0 < c < 256) (join ps) → Zlen (join ps) < C_MAX_ARG_SIZE → Forall simple_pair ps →
  token (encode (join ps)) ∧ target_result U r = Some (0, join ps) ∧ url_args (line_of r (join ps)) = list_to_map ps.
Proof.
  intros Hq Hb Hlen Hps. assert (Forall (λ c, 0 ≤ c < 256) (join ps)) as Hb'.
  { eapply Forall_impl; [exact Hb|]. intros c []. split; lia. }
  split_and!.
  - by apply encode_token.
  - unfold target_result. rewrite Hq, decode_encode by (done || lia). cbn. rewrite (proj2 (Z.ltb_lt _ _)) by done.
    rewrite c_str_id; [done|]. eapply Forall_impl; [exact Hb|]. intros c [? _]. lia.
  - cbn [url_args line_of]. unfold get_url_args. rewrite (args_from_join ps []) by (done || (pose proof (join_length ps); lia)).
    rewrite insert_all. by rewrite (left_id_L ∅ (∪)).
Qed.

(** ** Witnesses *)

Definition demo_query : list (list Z * list Z) := [(str "fname", str "x y"); (str "k", str "1")].
Definition demo : request :=
  Request (str "POST") (str "/a") (str "upload") (Some (encode (join demo_query))) (str "1.1") [(str "Host", str "h")] (str "hello").
Definition demo_bare : request := Request (str "GET") (str "/a") (str "b") None (str "1.0") [] [].

Lemma demo_ok : request_ok demo.
Proof.
  split; [by eexists|..]; try (by apply (bool_decide_unpack _); vm_compute).
  - intros e [= <-]. by apply (bool_decide_unpack _); vm_compute.
  - apply Forall_cons. split; [|done]. split; [done|..]; by apply (bool_decide_unpack _); vm_compute.
Qed.
Lemma demo_bare_ok : request_ok demo_bare.
Proof. split; [by eexists|..]; try (by apply (bool_decide_unpack _); vm_compute); done. Qed.
Lemma machine_64 : machine (2 ^ 64 - 1).
Proof. done. Qed.
Lemma demo_target : target_result (2 ^ 64 - 1) demo = Some (0, join demo_query).
Proof. by vm_compute. Qed.
Lemma print_prefix r n : take n (print r) `prefix_of` print r.
Proof. exists (drop n (print r)). by rewrite take_drop. Qed.

Lemma request_chunks_witness :
  ∃ s, inputs (2 ^ 64 - 1) new_req [take 10 (print demo); take 60 (drop 10 (print demo)); drop 70 (print demo)] = Some (0, s) ∧
    inited s = true ∧ bytes (buf s) (content_offset s) (_content_length (body s)) = Some (str "hello").
Proof.
  assert (concat [take 10 (print demo); take 60 (drop 10 (print demo)); drop 70 (print demo)] = print demo) as E by (by vm_compute).
  destruct (request_chunks (2 ^ 64 - 1) demo (join demo_query) _ demo_ok machine_64 demo_target ltac:(by rewrite E))
    as (s & Hs & Hi & Hc). exists s. split; [exact Hs|]. split; [by apply Hi|]. by apply Hc.
Defined.

Lemma request_undefined_witness : inputs (2 ^ 64 - 1) new_req [take 10 (print demo_bare); drop 10 (print demo_bare)] = None.
Proof.
  assert (concat [take 10 (print demo_bare); drop 10 (print demo_bare)] = print demo_bare) as E by (by vm_compute).
  apply (request_undefined (2 ^ 64 - 1) demo_bare _ demo_bare_ok machine_64).
  - by rewrite E.
  - rewrite E. by exists (print_head demo_bare ++ rq_body demo_bare).
  - left. by split_and!.
Defined.

Lemma upload_body_dangles_witness :
  ∃ s, inputs (2 ^ 64 - 1) new_req ([take 73 (print demo)] ++ [drop 73 (print demo)]) = Some (0, s) ∧ inited s = true ∧
    decode_upload_file_req s = None.
Proof.
  destruct (upload_body_dangles (2 ^ 64 - 1) demo (join demo_query) [take 73 (print demo)] (drop 73 (print demo)) demo_ok machine_64
    demo_target) as (s & H1 & H2 & H3); [done|by vm_compute|by vm_compute|].
  exists s. split; [exact H1|]. split; [exact H2|]. rewrite H3. by vm_compute.
Defined.

Lemma url_args_roundtrip_witness :
  token (encode (join demo_query)) ∧ target_result (2 ^ 64 - 1) demo = Some (0, join demo_query) ∧
  url_args (line_of demo (join demo_query)) = list_to_map demo_query.
Proof.
  apply (url_args_roundtrip (2 ^ 64 - 1) demo demo_query); [done|by apply (bool_decide_unpack _); vm_compute|done|].
  by repeat constructor.
Defined.
