(* ===== verification/HttpCodec.v ===== *)
(** * http_codec: the codec of the server

    [http_server_codec.cpp] and [http_respond.cpp]: the length of a message in
    a buffer, the requests of the examples and their responses.  The styled text
    of the JSON object with a return code is a parameter. *)
From S2P Require Import Prelude GetNum HttpFunc HttpReq HttpFacts HttpLine HttpHead HttpProps HttpArgs.
#[local] Open Scope Z_scope.

(** ** The length of a message *)

Definition tolower (c : Z) : Z := if (65 <=? c) && (c <=? 90) then c + 32 else c.

Fixpoint match_at (m s : list Z) : bool :=
  match m, s with
  | [], _ => true
  | _ :: _, [] => false
  | a :: m, b :: s => (tolower b =? tolower a) && match_at m s
  end.
(** The index of the first match, from the index [i] on. *)
Fixpoint match_str_begin (s m : list Z) (i : Z) : option Z :=
  if match_at m s then Some i else match s with [] => None | _ :: s => match_str_begin s m (i + 1) end.

(** [atoi] of the text up to the end of the buffer; [None] when the number runs
    up to the end, or does not fit. *)
Definition atoi (s : list Z) : option Z :=
  let '(neg, s) := split_sign (skip_space s) in
  let '(v, rest) := digits 10 0 s in
  let v := if (neg : bool) then - v else v in
  match rest with [] => None | _ => if (INT_MIN <=? v) && (v <=? INT_MAX) then Some v else None end.

(** 0: more has to come; else the length.  The length of the head is a difference
    of pointers in an [int]. *)
Definition http_complete_func (data : list Z) : option Z :=
  let data_len := Zlen data in
  if data_len <? 4 then Some 0 else
  let head_len :=
    match match_str_begin data [CR; LF; CR; LF] 0 with
    | Some p => Some (to_int (p + 4))
    | None => match match_str_begin data [LF; LF] 0 with Some p => Some (to_int (p + 2)) | None => None end
    end in
  match head_len with
  | None => Some 0
  | Some head_len =>
      match match_str_begin data (str "Content-Length:") 0 with
      | Some p =>
          content_length ← atoi (drop (Z.to_nat (p + 15)) data);
          if (INT_MIN <=? content_length + head_len) && (content_length + head_len <=? INT_MAX) then
            if to_int data_len <? content_length + head_len then Some 0 else Some (content_length + head_len)
          else None
      | None => Some head_len
      end
  end.

(** ** Requests *)

Definition MAX_BUFFER_SIZE : Z := 24 * 1024 * 1024.
Definition ERR_MAX_BUFFER : Z := -100.
Definition ERR_HTTP_DECODE : Z := -101.
Definition ERR_HTTP_CMD_TYPE : Z := -102.

(** [USE_PROTO] is whether [_USE_HTTP_PROTO_] is defined, as it is in the
    makefile. *)
Definition decode_head (U : Z) (USE_PROTO : bool) (r : CHttpReq) (buffer : list Z) : option (Z * CHttpReq) :=
  if Zlen buffer >? MAX_BUFFER_SIZE then Some (ERR_MAX_BUFFER, r) else
  '(ret, r) ← input U r buffer;
  if negb (ret =? 0) || negb (inited r) then Some (ERR_HTTP_DECODE, r) else
  if USE_PROTO then Some (0, r) else
  if decide (get_cmd_string r = []) then Some (ERR_HTTP_CMD_TYPE, r) else Some (0, r).

Definition decode_download_file_req (r : CHttpReq) : Z * list Z :=
  if decide (get_cmd_string r ≠ str "download") then (-1, []) else (0, get_argu r (str "fname")).
(** [atol] of a string, as the C library computes it with [strtol]. *)
Definition atol (s : list Z) : Z := let '(v, _, _) := strtol (c_str s) 10 in v.
Definition decode_sendfile_download_file_req (r : CHttpReq) : Z * list Z * option (Z * Z) :=
  if decide (get_cmd_string r ≠ str "download") then (-1, [], None) else
  (0, get_argu r (str "fname"), Some (atol (get_argu r (str "offset")), uint (atol (get_argu r (str "size"))))).
Definition decode_async_proxy_req (r : CHttpReq) : Z * list Z :=
  if decide (get_cmd_string r ≠ str "echo") then (-1, []) else (0, get_argu r (str "text")).
Definition decode_web_upload_req (r : CHttpReq) : option (Z * list Z * list Z) :=
  body ← assign_body r;
  Some (0, get_argu r (str "fname"), body).

(** ** Responses *)

Definition line (s : string) : list Z := str s ++ [CR; LF].
Definition to_str (n : Z) : list Z := print_num 10 n.
Definition HTTP_CONTENT_TYPE_HTML : list Z := str "text/html".
Definition HTTP_CONTENT_TYPE_BINARY : list Z := str "application/octet-stream".

(** The fields that end every head, and the body. *)
Definition typed_body (body_type http_body : list Z) : list Z :=
  str "Content-Type: " ++ body_type ++ [CR; LF] ++
  str "Content-Length: " ++ to_str (Zlen http_body) ++ [CR; LF; CR; LF] ++ http_body.

Definition Forbidden (http_body body_type : list Z) : list Z := line "HTTP/1.1 403 Forbidden" ++ typed_body body_type http_body.
Definition NormalResponse (http_body body_type : list Z) (mode : Z) : list Z :=
  line "HTTP/1.1 200 OK" ++
  (if mode =? 0 then []
   else line "Server: httpserver" ++ line "Last-Modified: Thu, 14 Dec 2006 07:25:14 GMT" ++
        (if mode =? 1 then line "Cache-Control: max-age=7200" else line "Cache-Control: no-cache")) ++
  typed_body body_type http_body.

Section encode.
Context (styled : Z → list Z).

Definition encode_download_file_rsp (retcode : Z) (fdata : list Z) : list Z :=
  if negb (retcode =? 0) then Forbidden (styled retcode) HTTP_CONTENT_TYPE_HTML
  else NormalResponse fdata HTTP_CONTENT_TYPE_HTML 0.
Definition encode_upload_file_rsp (retcode : Z) : list Z := NormalResponse (styled retcode) HTTP_CONTENT_TYPE_HTML 0.
Definition encode_sendfile_download_file_rsp (retcode filelen : Z) : list Z :=
  if negb (retcode =? 0) || (filelen <=? 0) then Forbidden (styled retcode) HTTP_CONTENT_TYPE_HTML
  else line "HTTP/1.1 200 OK" ++ line "Content-Type: text/html" ++ str "Content-Length: " ++ to_str filelen ++ [CR; LF; CR; LF].
End encode.

Definition encode_async_proxy_rsp (strRspWen : list Z) : list Z := NormalResponse strRspWen HTTP_CONTENT_TYPE_HTML 0.
Definition encode_web_upload_rsp (data : list Z) : list Z := NormalResponse data HTTP_CONTENT_TYPE_BINARY 0.

(** The responses without a body. *)
Definition no_body : list Z := line "Content-Length: 0".
Definition error_line (s : string) (error : Z) : list Z := str s ++ to_str error ++ [CR; LF; CR; LF].
Definition NotFound (error : Z) : list Z :=
  line "HTTP/1.1 404 Not Found" ++ line "Server: httpserver" ++ line "Connection:close" ++ no_body ++ error_line "error:" error.
Definition BadRequest (error : Z) : list Z :=
  line "HTTP/1.1 400 Bad Request" ++ line "Server: httpserver" ++ line "Connection:close" ++ no_body ++ error_line "error:" error.
Definition RedirectResponse (location : list Z) : list Z :=
  line "HTTP/1.1 302 Moved Temporarily" ++ line "Server: httpserver" ++ str "Location: " ++ location ++ [CR; LF] ++
  line "Cache-Control: max-age=7200" ++ line "Connection: close" ++ no_body ++ [CR; LF].
Definition NotModified : list Z :=
  line "HTTP/1.1 304 Not Modified" ++ line "Cache-Control: max-age=7200" ++ line "Server: httpserver" ++ line "Connection: close" ++ no_body ++ [CR; LF].
Definition ServerBusy : list Z :=
  line "HTTP/1.1 500 Server Too Busy" ++ line "Cache-Control: max-age=7200" ++ line "Server: httpserver" ++ line "Connection: close" ++ no_body ++ [CR; LF].
Definition encode_back_proto (ret flow : Z) (strRsp : list Z) : list Z :=
  line "GET / HTTP/1.0" ++ str "RetCode: " ++ to_str ret ++ [CR; LF] ++ str "FlowNo: " ++ to_str flow ++ [CR; LF] ++
  str "Content-Length: " ++ to_str (Zlen strRsp) ++ [CR; LF; CR; LF] ++ strRsp.

(** ** The length and the parser agree *)

(** The first match of [m] in a text is at its end. *)
Definition first_at_end (t m : list Z) : Prop := match_str_begin (t ++ m) m 0 = Some (Zlen t).

Lemma match_at_app m s : match_at m (m ++ s) = true.
Proof. induction m; simpl; [done|]. by rewrite Z.eqb_refl. Qed.

Lemma match_at_more m s l : match_at m s = true → match_at m (s ++ l) = true.
Proof.
  revert s. induction m as [|a m IH]; intros [|b s]; simpl; try done. rewrite !andb_true_iff. intros []. auto.
Qed.

(** A match does not depend on what is behind it. *)
Lemma match_at_enough m s l : (length m ≤ length s)%nat → match_at m (s ++ l) = match_at m s.
Proof.
  revert s. induction m as [|a m IH]; intros [|b s] Hl; simpl in *; try done; [lia|]. by rewrite IH by lia.
Qed.

Lemma match_length m s i p : match_str_begin s m i = Some p → (length m ≤ length s)%nat.
Proof.
  assert (∀ s, match_at m s = true → (length m ≤ length s)%nat) as H.
  { clear. induction m as [|a m IH]; intros [|b s]; simpl; try done; [lia|]. rewrite andb_true_iff. intros [_ Hm]. apply IH in Hm. lia. }
  revert i. induction s as [|b s IH]; intros i; cbn [match_str_begin]; (destruct (match_at m _) eqn:E; [intros _; by apply H|]); [done|].
  intros Hs. apply IH in Hs. simpl. lia.
Qed.

Lemma match_str_begin_app s m i p l : match_str_begin s m i = Some p → match_str_begin (s ++ l) m i = Some p.
Proof.
  revert i. induction s as [|b s IH]; intros i; cbn [match_str_begin app].
  - destruct (match_at m []) eqn:E; [|done]. intros [= <-]. destruct m; [|done]. by destruct l.
  - destruct (match_at m (b :: s)) eqn:E.
    + intros [= <-]. change (b :: s ++ l) with ((b :: s) ++ l). by rewrite match_at_more.
    + intros Hs. pose proof (match_length _ _ _ _ Hs) as Hl. change (b :: s ++ l) with ((b :: s) ++ l).
      rewrite match_at_enough, E by (simpl; lia). by apply IH.
Qed.

Lemma match_str_begin_shift s m i : match_str_begin s m i = (λ p, i + p) <$> match_str_begin s m 0.
Proof.
  assert (∀ j, match_str_begin s m (i + j) = (λ p, i + p) <$> match_str_begin s m j) as H; [|by rewrite <-(Z.add_0_r i) at 1].
  induction s as [|b s IH]; intros j; cbn [match_str_begin]; (destruct (match_at m _); [done|]); [done|].
  rewrite <-Z.add_assoc. apply IH.
Qed.

Lemma tolower_ctrl a c : c = CR ∨ c = LF → (tolower a =? tolower c) = (a =? c).
Proof.
  intros Hc. assert (tolower c = c ∧ c < 65) as [-> Hlt] by (by destruct Hc as [-> | ->]).
  unfold tolower. destruct (Z.leb_spec 65 a), (Z.leb_spec a 90); simpl; try done. rewrite (proj2 (Z.eqb_neq (a + 32) c)), (proj2 (Z.eqb_neq a c)) by lia. done.
Qed.

Definition blank : list Z := [CR; LF; CR; LF].
Definition bare_blank : list Z := [LF; LF].

(** Without a line feed there is no empty line. *)
Lemma no_blank (s : list Z) i : Forall (λ x, x ≠ LF) s → match_str_begin s blank i = None ∧ match_str_begin s bare_blank i = None.
Proof.
  intros Hs. revert i. induction Hs as [|a s Ha Hs IH]; intros i; [done|]. cbn [match_str_begin].
  assert (match_at blank (a :: s) = false ∧ match_at bare_blank (a :: s) = false) as [-> ->]; [|by apply IH].
  unfold blank, bare_blank. cbn [match_at]. rewrite (tolower_ctrl a LF), (proj2 (Z.eqb_neq a LF)) by auto. split; [|done].
  destruct Hs as [|b s Hb Hs]; [by rewrite andb_false_r|]. cbn [match_at]. rewrite (tolower_ctrl b LF), (proj2 (Z.eqb_neq b LF)) by auto.
  by rewrite andb_false_r.
Qed.

(** Past a line: an empty line follows, or the search goes on behind it. *)
Lemma blank_line (t q : list Z) i :
  Forall (λ x, x ≠ LF) t →
  match_str_begin (t ++ CR :: LF :: q) blank i =
    (if match_at [CR; LF] q then Some (i + Zlen t) else match_str_begin q blank (i + Zlen t + 2)) ∧
  match_str_begin (t ++ CR :: LF :: q) bare_blank i =
    (if match_at [LF] q then Some (i + Zlen t + 1) else match_str_begin q bare_blank (i + Zlen t + 2)).
Proof.
  intros Ht. revert i. induction Ht as [|a t Ha Ht IH]; intros i.
  - cbn [app length]. rewrite Z.add_0_r. split; cbn [match_str_begin].
    + change (match_at blank (CR :: LF :: q)) with (match_at [CR; LF] q). destruct (match_at [CR; LF] q); [done|].
      change (match_at blank (LF :: q)) with false. cbn match. f_equal. lia.
    + change (match_at bare_blank (CR :: LF :: q)) with false. cbn match. change (match_at bare_blank (LF :: q)) with (match_at [LF] q).
      destruct (match_at [LF] q); [done|]. f_equal. lia.
  - destruct (IH (i + 1)) as [IH1 IH2]. cbn [app match_str_begin length].
    assert (match_at blank (a :: t ++ CR :: LF :: q) = false ∧ match_at bare_blank (a :: t ++ CR :: LF :: q) = false) as [-> ->].
    { unfold blank, bare_blank. cbn [match_at]. rewrite (tolower_ctrl a LF), (proj2 (Z.eqb_neq a LF)) by auto. split; [|done].
      destruct Ht as [|b t Hb Ht]; [by rewrite andb_false_r|]. cbn [app match_at].
      rewrite (tolower_ctrl b LF), (proj2 (Z.eqb_neq b LF)) by auto. by rewrite andb_false_r. }
    rewrite IH1, IH2. replace (i + 1 + Zlen t) with (i + Z.of_nat (S (length t))) by lia. done.
Qed.

Lemma no_line_match (q : list Z) : Forall (λ x, x ≠ LF) q → match_at [CR; LF] q = false ∧ match_at [LF] q = false.
Proof.
  intros Hq. destruct Hq as [|a q Ha Hq]; [done|]. cbn [match_at]. rewrite (tolower_ctrl a LF), (proj2 (Z.eqb_neq a LF)) by auto.
  split; [|done]. destruct Hq as [|b q Hb Hq]; [by rewrite andb_false_r|]. cbn [match_at].
  rewrite (tolower_ctrl b LF), (proj2 (Z.eqb_neq b LF)) by auto. by rewrite andb_false_r.
Qed.

(** A part without a line feed. *)
Lemma blank_none hs rest t q i :
  Forall (λ x, x ≠ LF) t → Forall (λ x, x ≠ LF) q → q `prefix_of` head_text hs ++ CR :: LF :: rest →
  Zlen q < Zlen (head_text hs) + 2 ∧
    match_str_begin (t ++ CR :: LF :: q) blank i = None ∧ match_str_begin (t ++ CR :: LF :: q) bare_blank i = None.
Proof.
  intros Ht Hnl Hq. destruct (blank_line t q i Ht) as [-> ->].
  destruct (no_line_match q Hnl) as [-> ->], (no_blank q (i + Zlen t + 2) Hnl) as [-> ->]. split; [|done].
  apply (no_line_short _ (head_text hs ++ [CR; LF]) rest) in Hnl;
    [rewrite length_app in Hnl; cbn [length] in Hnl; lia|apply elem_of_app; right; right; left|by rewrite <-app_assoc].
Qed.

(** The search in a part of the request, behind the line [t]. *)
Lemma blank_head hs rest t q i :
  Forall header_ok hs → Forall (λ x, x ≠ LF) t → q `prefix_of` head_text hs ++ CR :: LF :: rest →
  (∃ b, q = head_text hs ++ CR :: LF :: b ∧ b `prefix_of` rest ∧
     match_str_begin (t ++ CR :: LF :: q) blank i = Some (i + Zlen t + Zlen (head_text hs))) ∨
  (Zlen q < Zlen (head_text hs) + 2 ∧
     match_str_begin (t ++ CR :: LF :: q) blank i = None ∧ match_str_begin (t ++ CR :: LF :: q) bare_blank i = None).
Proof.
  intros Hhs. revert t q i. induction Hhs as [|h hs Hh Hhs IH]; intros t q i Ht Hq;
    (destruct (decide (Forall (λ x, x ≠ LF) q)) as [Hnl|Hnl]; [by right; eapply blank_none|]);
    destruct (blank_line t q i Ht) as [-> ->].
  - apply (prefix_line _ []) in Hq as [Hq|(b & -> & Hb)]; [done| |done].
    left. exists b. split_and!; [done..|]. cbn. f_equal. lia.
  - set (t' := h.1 ++ 58 :: SP :: h.2).
    assert (print_header h = t' ++ [CR; LF]) as Eh by (unfold print_header, t'; by rewrite <-app_assoc).
    rewrite head_text_cons, Eh, <-!app_assoc in Hq. cbn [app] in Hq. destruct Hh as [Hne Hcol Hline].
    assert (Forall (λ x, x ≠ LF) t') as Ht'.
    { apply Forall_app in Hline as [? ?]. apply Forall_app. split; [done|]. by repeat constructor. }
    apply prefix_line in Hq as [Hq|(q2 & -> & Hq2)]; [done| |done].
    assert (match_at [CR; LF] (t' ++ CR :: LF :: q2) = false ∧ match_at [LF] (t' ++ CR :: LF :: q2) = false) as [-> ->].
    { assert (∃ a b l, t' = a :: b :: l) as (a & b & l & Et).
      { unfold t'. destruct h as [[|a [|b n]] v]; [done| |]; cbn; eauto. }
      rewrite Et in Ht' |- *. apply Forall_cons in Ht' as [Ha [Hb _]%Forall_cons]. cbn [app match_at].
      rewrite (tolower_ctrl a LF), (tolower_ctrl b LF), (proj2 (Z.eqb_neq a LF)), (proj2 (Z.eqb_neq b LF)) by auto.
      by rewrite andb_false_r. }
    destruct (IH t' q2 (i + Zlen t + 2) Ht' Hq2) as [(b & -> & Hb & ->)|(Hlen & -> & ->)].
    + left. exists b. rewrite head_text_cons, Eh, <-!app_assoc. split_and!; [done..|]. f_equal.
      rewrite !length_app. cbn [length]. lia.
    + right. split; [|done]. rewrite head_text_cons, Eh, !length_app. cbn [length]. lia.
Qed.

Lemma atoi_print n l : 0 ≤ n ≤ INT_MAX → atoi (SP :: print_num 10 n ++ CR :: l) = Some n.
Proof.
  intros Hn. unfold print_num. rewrite (proj2 (Z.ltb_ge n 0)), Z.abs_eq by lia. cbn [app].
  assert (0 ≤ n < Z.of_nat (S (Z.to_nat n))) as Hf by lia.
  destruct (print_nat_head 10 ltac:(lia) _ _ Hf) as (c & k & E & Hc & _).
  destruct (print_nat_digits 10 ltac:(lia) _ _ Hf) as [Hall Hd]. 
  destruct (digit_not_space _ _ Hc) as [(Hsp & H1 & H2 & _)|]; [|lia].
  unfold atoi. cbn [skip_space]. change (isspace SP) with true. cbn match. rewrite E in Hall, Hd |- *. cbn [app skip_space]. rewrite Hsp.
  unfold split_sign. rewrite (proj2 (Z.eqb_neq c 45)), (proj2 (Z.eqb_neq c 43)) by done.
  change (c :: k ++ CR :: l) with ((c :: k) ++ CR :: l). rewrite digits_app by done. rewrite Hd. cbn.
  by rewrite (proj2 (Z.leb_le INT_MIN n)), (proj2 (Z.leb_le n INT_MAX)) by (unfold INT_MIN in *; lia).
Qed.

(** ** Messages *)

(** The fields of a message, the length of its body as the last one. *)
Definition fields (hs : list (list Z * list Z)) (b : list Z) : list (list Z * list Z) :=
  hs ++ [(str "Content-Length", print_num 10 (Zlen b))].
Definition message (t : list Z) (hs : list (list Z * list Z)) (b : list Z) : list Z :=
  t ++ CR :: LF :: head_text (fields hs b) ++ CR :: LF :: b.

Section message.
Context (t : list Z) (hs : list (list Z * list Z)) (b : list Z).
Context (Ht : Forall (λ x, x ≠ LF) t) (Hhs : Forall header_ok hs).
Context (Hint : Zlen (message t hs b) ≤ INT_MAX).
Context (Hfirst : first_at_end (t ++ CR :: LF :: head_text hs) (str "Content-Length:")).

Lemma message_length : Zlen (message t hs b) = Zlen t + 2 + Zlen (head_text (fields hs b)) + 2 + Zlen b.
Proof. unfold message. rewrite length_app. cbn [length]. rewrite length_app. cbn [length]. lia. Qed.

(** The number behind the name of the last field. *)
Lemma length_field b' :
  let l := t ++ CR :: LF :: head_text (fields hs b) ++ CR :: LF :: b' in
  ∃ p, match_str_begin l (str "Content-Length:") 0 = Some p ∧ atoi (drop (Z.to_nat (p + 15)) l) = Some (Zlen b).
Proof.
  intros l. set (t' := t ++ CR :: LF :: head_text hs) in *.
  set (k := SP :: print_num 10 (Zlen b) ++ CR :: LF :: CR :: LF :: b').
  assert (l = (t' ++ str "Content-Length:") ++ k) as ->.
  { assert (head_text [(str "Content-Length", print_num 10 (Zlen b))] ++ CR :: LF :: b' = str "Content-Length:" ++ k) as E.
    { unfold head_text. cbn [fmap list_fmap concat]. rewrite app_nil_r. unfold print_header, k. cbn [fst snd].
      rewrite <-app_assoc. cbn [app]. by rewrite <-app_assoc. }
    unfold l, t', fields. rewrite head_text_app, <-!app_assoc. by rewrite E. }
  exists (Zlen t'). split; [by apply match_str_begin_app|].
  rewrite drop_app_length'; [|rewrite length_app; change (length (str "Content-Length:")) with 15%nat; lia].
  apply atoi_print. pose proof message_length. lia.
Qed.

Lemma fields_ok : Forall header_ok (fields hs b).
Proof. apply Forall_app. split; [done|]. apply Forall_singleton, length_header_ok. Qed.

Lemma complete_message l :
  l `prefix_of` message t hs b →
  http_complete_func l = Some (if decide (l = message t hs b) then Zlen (message t hs b) else 0).
Proof.
  intros Hp. pose proof message_length as Hlen.
  assert (∀ l, Zlen l < Zlen (message t hs b) → (if decide (l = message t hs b) then Zlen (message t hs b) else 0) = 0) as Hpart.
  { intros l' Hl. rewrite decide_False; [done|]. intros ->. lia. }
  unfold http_complete_func. destruct (Z.ltb_spec (Zlen l) 4); [rewrite Hpart by lia; done|]. fold blank bare_blank.
  apply prefix_line in Hp as [Hnl|(q & -> & Hq)]; [| |done].
  - destruct (no_blank l 0 Hnl) as [-> ->]. rewrite decide_False; [done|]. intros ->.
    apply (proj1 (Forall_forall _ _) Hnl LF); [|done]. unfold message. set_solver.
  - destruct (blank_head _ _ _ _ 0 fields_ok Ht Hq) as [(b' & -> & Hb & ->)|(Hshort & -> & ->)].
    + assert (Zlen b' ≤ Zlen b) as Hb' by (destruct Hb as [k ->]; rewrite length_app; lia). rewrite to_int_small by lia.
      destruct (length_field b') as (p & -> & ->). cbn [mbind option_bind].
      rewrite !(proj2 (Z.leb_le _ _)) by (unfold INT_MIN; lia). cbn [andb].
      assert (Zlen (t ++ CR :: LF :: head_text (fields hs b) ++ CR :: LF :: b') = Zlen t + 2 + Zlen (head_text (fields hs b)) + 2 + Zlen b') as Hl.
      { rewrite length_app. cbn [length]. rewrite length_app. cbn [length]. lia. }
      destruct (decide (b' = b)) as [->|Hne].
      * rewrite decide_True by done. rewrite Hl, to_int_small, (proj2 (Z.ltb_ge _ _)) by lia. f_equal. lia.
      * assert (Zlen b' < Zlen b) by (destruct Hb as [[|x k] ->]; [by rewrite app_nil_r in Hne|rewrite length_app; cbn; lia]).
        rewrite Hpart by lia. by rewrite Hl, to_int_small, (proj2 (Z.ltb_lt _ _)) by lia.
    + rewrite Hpart; [done|]. rewrite length_app. cbn [length]. lia.
Qed.
End message.

(** ** Theorems *)

(** C34: The function that waits for a complete message agrees with the
    request: it reports nothing for a part of it and exactly its length for the
    whole, when no earlier line holds the text "Content-Length:". *)
Theorem http_complete_func_spec r l :
  request_ok r → Zlen (print r) ≤ INT_MAX → l `prefix_of` print r →
  first_at_end (print_line r ++ head_text (rq_headers r)) (str "Content-Length:") →
  http_complete_func l = Some (if decide (l = print r) then Zlen (print r) else 0).
Proof.
  intros Hr Hint Hp Hfirst. assert (print r = message (line_text r) (rq_headers r) (rq_body r)) as E.
  { unfold print, print_line, print_head. fold (head_text (all_headers r)). by rewrite <-!app_assoc. }
  unfold print_line in Hfirst. rewrite <-app_assoc in Hfirst. rewrite E in *.
  apply complete_message; [by apply line_text_one_line|apply Hr|done..].
Qed.

(** The fields of [NormalResponse] in front of the length. *)
Definition normal_fields (body_type : list Z) (mode : Z) : list (list Z * list Z) :=
  (if mode =? 0 then []
   else [(str "Server", str "httpserver"); (str "Last-Modified", str "Thu, 14 Dec 2006 07:25:14 GMT");
         (str "Cache-Control", if mode =? 1 then str "max-age=7200" else str "no-cache")]) ++ [(str "Content-Type", body_type)].

Lemma typed_body_message body_type b :
  typed_body body_type b = head_text (fields [(str "Content-Type", body_type)] b) ++ CR :: LF :: b.
Proof.
  unfold typed_body, fields, head_text. cbn [app fmap list_fmap concat]. unfold print_header. cbn [fst snd]. rewrite app_nil_r.
  rewrite <-!app_assoc. cbn [app]. rewrite <-?app_assoc. cbn [app]. rewrite <-?app_assoc. done.
Qed.

(** A response with a body is taken as complete with its last byte and
    not before. *)
Theorem response_length body body_type mode l :
  body_type = HTTP_CONTENT_TYPE_HTML ∨ body_type = HTTP_CONTENT_TYPE_BINARY →
  (∀ m, m = NormalResponse body body_type mode ∨ m = Forbidden body body_type →
     Zlen m ≤ INT_MAX → l `prefix_of` m → http_complete_func l = Some (if decide (l = m) then Zlen m else 0)).
Proof.
  intros Ht m Hm Hint Hp.
  assert (∃ t hs, m = message t hs body ∧ Forall (λ x, x ≠ LF) t ∧ Forall header_ok hs ∧
    first_at_end (t ++ CR :: LF :: head_text hs) (str "Content-Length:")) as (t & hs & -> & H1 & H2 & H3); [|by apply complete_message].
  destruct Hm as [-> | ->].
  - exists (str "HTTP/1.1 200 OK"), (normal_fields body_type mode). unfold NormalResponse, normal_fields, message. rewrite typed_body_message.
    destruct (mode =? 0); [|destruct (mode =? 1)]; (split; [done|]); (split; [by repeat constructor|]);
      destruct Ht as [-> | ->]; (split; [by repeat constructor|by vm_compute]).
  - exists (str "HTTP/1.1 403 Forbidden"), [(str "Content-Type", body_type)]. unfold Forbidden, message. rewrite typed_body_message.
    split; [done|]. split; [by repeat constructor|]. destruct Ht as [-> | ->]; (split; [by repeat constructor|by vm_compute]).
Qed.

(** ** Witnesses *)

Lemma http_complete_func_spec_witness :
  http_complete_func (take 60 (print demo)) = Some 0 ∧ http_complete_func (print demo) = Some (Zlen (print demo)).
Proof.
  assert (first_at_end (print_line demo ++ head_text (rq_headers demo)) (str "Content-Length:")) as Hfirst by (by vm_compute).
  split.
  - rewrite (http_complete_func_spec demo (take 60 (print demo)) demo_ok); [|by vm_compute|by apply print_prefix|done].
    rewrite decide_False; [done|]. by apply (bool_decide_unpack _); vm_compute.
  - rewrite (http_complete_func_spec demo (print demo) demo_ok); [|by vm_compute|done|done]. by rewrite decide_True.
Defined.

Lemma response_length_witness :
  http_complete_func (NormalResponse (str "hello") HTTP_CONTENT_TYPE_HTML 1) = Some (Zlen (NormalResponse (str "hello") HTTP_CONTENT_TYPE_HTML 1)).
Proof.
  rewrite (response_length (str "hello") HTTP_CONTENT_TYPE_HTML 1 (NormalResponse (str "hello") HTTP_CONTENT_TYPE_HTML 1) ltac:(by left)
    _ ltac:(by left) ltac:(by vm_compute) ltac:(reflexivity)). by rewrite decide_True.
Defined.
