(* ===== verification/HttpRsp.v ===== *)
(** * http_codec: responses in parts

    [http_rsp.cpp], and [CHttpHeader::output] of [http_head.h]: a status line, the
    fields in the order of a [std::map], and a body, copied into an array of [size]
    bytes that the caller says has [buf_size].  As in HttpFunc [None] is a byte
    written outside of the array. *)
From stdpp Require Import sorting.
From S2P Require Import Prelude GetNum HttpFunc HttpReq HttpFacts HttpCodec.
#[local] Open Scope Z_scope.

Definition C_HTTP_HEADER_ERROR_ASSENBLY_INCOMPLETE : Z := 120002.
Definition C_HTTP_HEADER_ERROR_BUFF_NOT_ENOUGH : Z := 120003.

(** ** Data *)

Record CHttpStatusLine := Status_line { status_text : list Z; _http_version_primary : Z; _http_version_seconday : Z; _status_code : Z }.
Record CHttpRsp := Http_rsp { _status_line : CHttpStatusLine; rsp_header : CHttpHeader; rsp_body : list Z }.
Definition new_rsp : CHttpRsp := Http_rsp (Status_line [] 1 0 200) (Header false ∅) [].

(** The order of strings. *)
Fixpoint string_le (s t : list Z) : bool :=
  match s, t with
  | [], _ => true
  | _ :: _, [] => false
  | c :: s, d :: t => (c <? d) || ((c =? d) && string_le s t)
  end.
Definition key_le (p q : list Z * list Z) : Prop := string_le p.1 q.1 = true.
#[export] Instance key_le_dec : RelDecision key_le := λ p q, decide (string_le p.1 q.1 = true).
(** The elements of a [std::map]. *)
Definition in_order (m : dict) : list (list Z * list Z) := merge_sort key_le (map_to_list m).

(** ** Operations *)

Definition make_line (l : CHttpStatusLine) : CHttpStatusLine :=
  Status_line (str "HTTP/" ++ to_str (_http_version_primary l) ++ str "." ++ to_str (_http_version_seconday l) ++ str " " ++ to_str (_status_code l) ++ [CR; LF])
    (_http_version_primary l) (_http_version_seconday l) (_status_code l).
Definition simple_rsp (status_code : Z) (r : CHttpRsp) : CHttpRsp :=
  Http_rsp (make_line (Status_line (status_text (_status_line r)) 1 0 status_code)) (rsp_header r) (rsp_body r).

(** The loop of [CHttpHeader::output] with [text] in [room] bytes: the code, and
    the bytes. *)
Fixpoint output_fields (fields : list (list Z * list Z)) (room buff_size : Z) (text : list Z) : option (Z * list Z) :=
  match fields with
  | [] => Some (0, text)
  | (name, value) :: fields =>
      if Zlen text + Zlen name + Zlen value + 4 >? buff_size then Some (- C_HTTP_HEADER_ERROR_BUFF_NOT_ENOUGH, text) else
      let text := text ++ c_str name ++ str ": " ++ c_str value ++ [CR; LF] in
      if Zlen text <? room then output_fields fields room buff_size text else None
  end.
Definition header_output (h : CHttpHeader) (room buff_size : Z) : option (Z * list Z) :=
  if negb (head_full h) then Some (- C_HTTP_HEADER_ERROR_ASSENBLY_INCOMPLETE, []) else
  output_fields (in_order (_head_attribute h)) room buff_size [].

(** The code, [data_len], and what is in [buffer]. *)
Definition rsp_output (r : CHttpRsp) (size buf_size : Z) : option (Z * Z * list Z) :=
  let l := make_line (_status_line r) in
  let offset := Zlen (status_text l) in
  if offset <=? size then
    '(ret, fields) ← header_output (rsp_header r) (size - offset) (uint (buf_size - offset));
    if negb (ret =? 0) then Some (ret, 0, status_text l ++ fields) else
    let text := status_text l ++ fields ++ rsp_body r in
    if Zlen text <=? size then Some (0, Zlen fields, text) else None
  else None.

(** ** What it writes *)

Definition field_text (h : list Z * list Z) : list Z := h.1 ++ str ": " ++ h.2 ++ [CR; LF].
Definition fields_text (hs : list (list Z * list Z)) : list Z := concat (field_text <$> hs).

Lemma field_text_length h : Zlen (field_text h) = Zlen h.1 + Zlen h.2 + 4.
Proof. unfold field_text. rewrite !length_app. change (length (str ": ")) with 2%nat. cbn [length]. lia. Qed.
Lemma fields_text_cons h hs : fields_text (h :: hs) = field_text h ++ fields_text hs.
Proof. done. Qed.

(** The fields fit, with the null behind the last one. *)
Lemma output_fields_fit hs room buff_size text :
  Forall (λ h, Forall (λ c, c ≠ 0) (h.1 ++ h.2)) hs → room ≤ buff_size → hs = [] ∨ Zlen text + Zlen (fields_text hs) < room →
  output_fields hs room buff_size text = Some (0, text ++ fields_text hs).
Proof.
  intros Hhs Hr. revert text. induction Hhs as [|[n v] hs Hh Hhs IH]; intros text Ht; [cbn; by rewrite app_nil_r|].
  destruct Ht as [|Ht]; [done|]. rewrite fields_text_cons, length_app in Ht. pose proof (field_text_length (n, v)) as Hf. cbn [fst snd] in *.
  cbn [output_fields]. rewrite Z.gtb_ltb, (proj2 (Z.ltb_ge _ _)) by lia. apply Forall_app in Hh as [Hn Hv]. rewrite !c_str_id by done.
  change (n ++ str ": " ++ v ++ [CR; LF]) with (field_text (n, v)).
  rewrite (proj2 (Z.ltb_lt _ _)) by (rewrite length_app; lia). rewrite IH by (right; rewrite length_app; lia). by rewrite fields_text_cons, <-app_assoc.
Qed.

(** They fill the array, and the null is behind it. *)
Lemma output_fields_full hs room text :
  Forall (λ h, Forall (λ c, c ≠ 0) (h.1 ++ h.2)) hs → hs ≠ [] → Zlen text + Zlen (fields_text hs) = room → output_fields hs room room text = None.
Proof.
  intros Hhs. revert text. induction Hhs as [|[n v] hs Hh Hhs IH]; intros text Hne Ht; [done|].
  rewrite fields_text_cons, length_app in Ht. pose proof (field_text_length (n, v)) as Hf. cbn [fst snd] in *.
  cbn [output_fields]. rewrite Z.gtb_ltb, (proj2 (Z.ltb_ge _ _)) by lia. apply Forall_app in Hh as [Hn Hv]. rewrite !c_str_id by done.
  change (n ++ str ": " ++ v ++ [CR; LF]) with (field_text (n, v)). rewrite length_app. destruct (decide (hs = [])) as [->|Hhs0].
  - change (length (fields_text [])) with 0%nat in Ht. by rewrite (proj2 (Z.ltb_ge _ _)) by lia.
  - destruct (_ <? room); [|done]. apply IH; [done|]. rewrite length_app. lia.
Qed.

Lemma string_le_total s t : string_le s t = true ∨ string_le t s = true.
Proof.
  revert t. induction s as [|c s IH]; intros [|d t]; simpl; auto. destruct (Z.lt_trichotomy c d) as [H|[->|H]].
  - left. by rewrite (proj2 (Z.ltb_lt c d)).
  - rewrite !Z.ltb_irrefl, !Z.eqb_refl. apply IH.
  - right. by rewrite (proj2 (Z.ltb_lt d c)).
Qed.
#[export] Instance key_le_total : Total key_le.
Proof. intros p q. apply string_le_total. Qed.

(** A response with its header complete is written as its status line, its fields
    in the order of their names, each once, and its body; but the length that is
    reported is that of the fields alone. When the fields just fill the array
    the null behind them is written outside. *)
Theorem rsp_output_spec r size :
  head_full (rsp_header r) = true → size ≤ UINT_MAX →
  let hs := in_order (_head_attribute (rsp_header r)) in
  let line := status_text (make_line (_status_line r)) in
  Forall (λ h, Forall (λ c, c ≠ 0) (h.1 ++ h.2)) hs → Zlen line + Zlen (fields_text hs) + Zlen (rsp_body r) ≤ size →
  Sorted key_le hs ∧ Permutation hs (map_to_list (_head_attribute (rsp_header r))) ∧
  rsp_output r size size =
    if decide (hs = [] ∨ Zlen line + Zlen (fields_text hs) < size) then Some (0, Zlen (fields_text hs), line ++ fields_text hs ++ rsp_body r) else None.
Proof.
  intros Hfull Hsize hs line Hhs Hlen. split; [apply Sorted_merge_sort, _|]. split; [apply merge_sort_Permutation|].
  unfold rsp_output. fold line. rewrite (proj2 (Z.leb_le _ _)) by lia. unfold header_output. rewrite Hfull. cbn [negb]. fold hs.
  assert (uint (size - Zlen line) = size - Zlen line) as -> by (apply wrap_small; unfold UINT_MAX in Hsize; lia).
  case_decide as Hd.
  - rewrite output_fields_fit; [|done|lia|destruct Hd as [->|?]; [by left|right; cbn [length]; lia]]. cbn [mbind option_bind app].
    change (0 =? 0) with true. cbn [negb]. rewrite (proj2 (Z.leb_le _ _)); [done|]. rewrite !length_app. lia.
  - rewrite output_fields_full; [done|done|tauto|]. cbn [length]. destruct (decide (hs = [])); [tauto|]. lia.
Qed.

(** The array has room for the fields but not for the null, and one byte more. *)
Definition demo_rsp : CHttpRsp := Http_rsp (Status_line [] 1 0 200) (Header true {[ str "B" := str "2"; str "A" := str "1" ]}) [].
Lemma demo_order : in_order (_head_attribute (rsp_header demo_rsp)) = [(str "A", str "1"); (str "B", str "2")].
Proof. by vm_compute. Qed.
Lemma rsp_output_spec_witness :
  rsp_output demo_rsp 26 26 = None ∧
  rsp_output demo_rsp 27 27 = Some (0, 12, str "HTTP/1.0 200" ++ [CR; LF] ++ str "A: 1" ++ [CR; LF] ++ str "B: 2" ++ [CR; LF]).
Proof.
  assert (∀ size, 26 ≤ size ≤ 27 → rsp_output demo_rsp size size = if decide (size = 27) then Some (0, 12, str "HTTP/1.0 200" ++ [CR; LF] ++ str "A: 1" ++ [CR; LF] ++ str "B: 2" ++ [CR; LF]) else None) as H.
  { intros size Hs. destruct (rsp_output_spec demo_rsp size eq_refl) as (_ & _ & ->).
    - unfold UINT_MAX. lia.
    - rewrite demo_order. by repeat constructor.
    - rewrite demo_order. vm_compute (Zlen _). lia.
    - rewrite demo_order. destruct (decide (size = 27)) as [->|Hne]; [rewrite decide_True by (right; by vm_compute); by vm_compute|].
      assert (size = 26) as -> by lia. by vm_compute. }
  split; [by rewrite H|by rewrite H].
Defined.
