(* ===== verification/HttpUtil.v ===== *)
(** * http_codec: the parser and the makers of http_util

    [http_util.cpp].  As in HttpFunc an array is its bytes up to the end of the
    allocation, and a read or a write outside of one is undefined.  What a
    [sprintf] or a [strcat] leaves in an array is the text without its null. *)
From S2P Require Import Prelude GetNum HttpFunc HttpReq HttpCodec.
#[local] Open Scope Z_scope.

(** ** Strings of the C library *)

(** The C string at the start of an array; it needs a null. *)
Definition c_string (s : list Z) : option (list Z) :=
  '(n, _) ← list_find (λ c, c = 0) s; Some (take n s).
(** [memcmp(data + i, pat, strlen(pat)) == 0]. *)
Definition mem_eq (data : list Z) (i : Z) (pat : list Z) : option bool :=
  s ← bytes data i (Zlen pat); Some (bool_decide (s = pat)).
(** [sprintf] into an array of [size] bytes. *)
Definition sprintf (size : Z) (text : list Z) : option (list Z) := if Zlen text <? size then Some text else None.
Definition CRLF : list Z := [CR; LF].

(** ** Responses *)

(** The result and the bytes in front of the null in [szBuffer]; [size] is
    how large [szBuffer] is, since nothing looks at [nBufferSize]. *)
Definition make (szContent : list Z) (nContentLen size : Z) (content_type : list Z) : option (Z * list Z) :=
  let nRealContentLen := if 0 <? nContentLen then nContentLen else 0 in
  head ← sprintf size (str "HTTP/1.1 200 OK" ++ CRLF ++ str "Content-Length: " ++ to_str nRealContentLen ++ CRLF ++
    str "Content-Type: " ++ c_str content_type ++ str ";charset=utf-8" ++ CRLF ++ str "Connection: Keep-Alive" ++ CRLF ++ CRLF);
  text ← (if 0 <? nContentLen then body ← bytes szContent 0 nContentLen; sprintf size (head ++ body) else Some head);
  Some (Zlen (c_str text), text).

Definition make_string (strContent content_type add_head : list Z) : list Z :=
  str "HTTP/1.1 200 OK" ++ CRLF ++ str "Content-Length: " ++ to_str (Zlen strContent) ++ CRLF ++
  str "Content-Type: " ++ content_type ++ str ";charset=utf-8" ++ CRLF ++ add_head ++ CRLF ++ strContent.

(** A quote of the source is a byte of its own. *)
Definition quote : list Z := [34].
Definition not_found_page : list Z :=
  line "<html>" ++ line "<head><title>404 Not Found</title></head>" ++
  str "<body bgcolor=" ++ quote ++ str "white" ++ quote ++ line ">" ++
  line "<center><h1>404 Not Found</h1></center>" ++ line "<hr><center>http_util</center>" ++ line "</body>" ++ line "</html>" ++
  concat (replicate 6 (str "<!-- The padding to disable MSIE's friendly error page -->")).
Definition make_404_error : list Z :=
  line "HTTP/1.1 404 Not Found" ++ line "Server: http_util" ++ line "Content-Type: text/html; charset=UTF-8" ++
  str "Content-Length: " ++ to_str (Zlen not_found_page) ++ CRLF ++ line "Connection: keep-alive" ++ CRLF ++ not_found_page.

Definition moved_page (strMoveTo : list Z) : list Z :=
  line "<html><head><title>Object moved</title></head><body>" ++
  str "<h2>Object moved to <a href=" ++ quote ++ strMoveTo ++ quote ++ line ">here</a>.</h2>" ++ line "</body></html>".
Definition make_302_error (strLocation strMoveTo : list Z) : list Z :=
  line "HTTP/1.1 302 Found" ++ line "Server: http_util" ++ line "Content-Type: text/html; charset=UTF-8" ++
  str "Content-Length: " ++ to_str (Zlen (moved_page strMoveTo)) ++ CRLF ++ line "Connection: keep-alive" ++
  str "Location: " ++ strLocation ++ CRLF ++ CRLF ++ moved_page strMoveTo.

(** ** Requests *)

Record CHttpParamStringMaker := Param_maker { m_params : list (list Z * list Z); m_strParamLines : list Z }.
Definition new_maker : CHttpParamStringMaker := Param_maker [] [].
Definition add_param (strKey strValue : list Z) (p : CHttpParamStringMaker) : CHttpParamStringMaker :=
  Param_maker (m_params p ++ [(strKey, strValue)]) (m_strParamLines p).
(** The value is printed with [%u]. *)
Definition add_param_int (strKey : list Z) (nValue : Z) (p : CHttpParamStringMaker) : CHttpParamStringMaker :=
  add_param strKey (to_str (uint nValue)) p.
Definition set_paramlines (strParamLines : list Z) (p : CHttpParamStringMaker) : CHttpParamStringMaker :=
  Param_maker (m_params p) strParamLines.

(** One round of [get_params], from the text in [szParams]. *)
Definition cat_param (szParams : list Z) (param : list Z * list Z) : option (list Z) :=
  szTmp ← sprintf 1024 (c_str param.1 ++ 61 :: c_str param.2 ++ [38]);
  sprintf 4096 (szParams ++ szTmp).
Fixpoint cat_params (szParams : list Z) (params : list (list Z * list Z)) : option (list Z) :=
  match params with [] => Some szParams | p :: params => s ← cat_param szParams p; cat_params s params end.
Definition get_params (p : CHttpParamStringMaker) : option (list Z) :=
  if decide (m_strParamLines p ≠ []) then Some (m_strParamLines p) else
  szParams ← cat_params [] (m_params p);
  c ← at_ szParams (Zlen szParams - 1);
  Some (if c =? 38 then removelast szParams else szParams).

Definition port_text (nPort : Z) : list Z := if nPort =? 80 then [] else 58 :: to_str nPort.
(** The result, and what is in [szBuffer], an array of [size] bytes. *)
Definition GET_make (p : CHttpParamStringMaker) (strHost : list Z) (nPort : Z) (strUri : list Z) (size : Z) : option (Z * list Z) :=
  strParams ← get_params p;
  text ← sprintf size (str "GET " ++ c_str strUri ++ 63 :: c_str strParams ++ line " HTTP/1.1" ++
    str "Host: " ++ c_str strHost ++ port_text nPort ++ CRLF ++ line "Connection: Keep-Alive" ++ line "Accept: */*" ++ line "User-Agent: http_util" ++ CRLF);
  Some (Zlen text, text).
Definition GET_make_string p (strHost : list Z) (nPort : Z) (strUri : list Z) : option (list Z) := snd <$> GET_make p strHost nPort strUri 4096.
Definition POST_make (p : CHttpParamStringMaker) (strHost : list Z) (nPort : Z) (strUri : list Z) (size : Z) : option (Z * list Z) :=
  strParams ← get_params p;
  text ← sprintf size (str "POST " ++ c_str strUri ++ line " HTTP/1.1" ++ str "Host: " ++ c_str strHost ++ port_text nPort ++ CRLF ++
    line "Content-type: application/x-www-form-urlencoded; charset=UTF-8" ++
    str "Content-Length: " ++ to_str (Zlen strParams) ++ CRLF ++ line "Connection: Keep-Alive" ++ CRLF ++ c_str strParams);
  Some (Zlen text, text).
Definition POST_make_string p (strHost : list Z) (nPort : Z) (strUri : list Z) : option (list Z) := snd <$> POST_make p strHost nPort strUri 4096.

(** ** The length of a message *)

(** [szTmp], an array of 30 bytes. *)
Definition content_number (text : list Z) : option Z :=
  if Zlen text <=? 30 then atoi (text ++ replicate (30 - length text) 0) else None.
(** [nContentPos] and [nContentLen] of the head. *)
Definition content_length (szData : list Z) (head : Z) : option (Z * Z) :=
  p ← strstr szData (str "Content-Length: ");
  match p with
  | None => Some (0, 0)
  | Some p =>
      let pContentLen := drop (Z.to_nat (p + 16)) szData in
      e ← strstr pContentLen CRLF;
      match e with
      | None => Some (0, 0)
      | Some e => nContentLen ← content_number (take (Z.to_nat e) pContentLen); Some (head + 4, nContentLen)
      end
  end.

(** The rest of [get_length_ex] for a message whose kind is known: 0 when more has
    to come; [None] inside as long as [nContentPos] and [nContentLen] are not
    set. *)
Definition get_length_of (other : bool) (szData : list Z) (nDataLen : Z) : option (Z * option (Z * Z)) :=
  pHeadEnd ← strstr szData (CRLF ++ CRLF);
  match pHeadEnd with
  | None => Some (0, None)
  | Some head =>
      '(nContentPos, nContentLen) ← (if other then content_length szData head else Some (0, 0));
      let total := head + 4 + nContentLen in
      if total <=? INT_MAX then Some (if nDataLen <? total then 0 else total, Some (nContentPos, nContentLen)) else None
  end.
(** -1: not a message. *)
Definition get_length_ex (szData : list Z) (nDataLen : Z) : option (Z * option (Z * Z)) :=
  bGetType ← mem_eq szData 0 (str "GET ");
  if (bGetType : bool) then get_length_of false szData nDataLen else
  bPostType ← mem_eq szData 0 (str "POST ");
  if (bPostType : bool) then get_length_of true szData nDataLen else
  bRespType ← mem_eq szData 0 (str "HTTP/");
  if (bRespType : bool) then get_length_of true szData nDataLen else Some (-1, None).
Definition get_length (szData : list Z) (nDataLen : Z) : option Z := fst <$> get_length_ex szData nDataLen.

(** ** Parameters *)

(** [szBuffer]: the text with an & at its end; the last byte of an empty text
    is read in front of the array. *)
Definition param_buffer (szHttpParam : list Z) (nLen : Z) : option (list Z) :=
  s ← bytes szHttpParam 0 nLen;
  let szBuffer := c_str s in
  c ← last szBuffer;
  Some (if c =? 38 then szBuffer else szBuffer ++ [38]).

Definition letter (c : Z) : bool := ((97 <=? c) && (c <=? 122)) || ((65 <=? c) && (c <=? 90)).

(** The loop of [parse], which goes on with a shorter text every time. *)
Fixpoint params_from (fuel : nat) (szParam : list Z) (m : dict) : dict :=
  match fuel, szParam with
  | S fuel, c :: next =>
      if negb (letter c) then params_from fuel next m else
      match find szParam 61 0, find szParam 38 0 with
      | Some szValue, Some szSplit =>
          let strKey := take (Z.to_nat szValue) szParam in
          let strValue := if 0 <? szSplit - szValue - 1 then bytes szParam (szValue + 1) (szSplit - szValue - 1) else Some [] in
          params_from fuel (drop (Z.to_nat (szSplit + 1)) szParam)
            (if decide (strKey = []) then m else map_insert strKey (default [] strValue) m)
      | _, _ => m
      end
  | _, _ => m
  end.
Definition params_parse (m : dict) (szHttpParam : list Z) (nLen : Z) : option dict :=
  szBuffer ← param_buffer szHttpParam nLen; Some (params_from (length szBuffer) szBuffer m).
Definition new_params (szHttpParam : list Z) (nLen : Z) : option dict :=
  if 0 <? nLen then params_parse ∅ szHttpParam nLen else Some ∅.
Definition params_get (m : dict) (szKey : list Z) : list Z := default [] (m !! szKey).
Definition params_get_int (m : dict) (szKey : list Z) : option Z := atoi (c_str (params_get m szKey) ++ [0]).

(** ** [UrlDecode] *)

Definition isxdigit (c : Z) : bool := bool_decide (is_Some (digit_in 16 c)).
(** The codes that stay encoded. *)
Definition kept (hex : Z) : bool :=
  ((48 <=? hex) && (hex <=? 57)) || ((97 <=? hex) && (hex <=? 122)) || ((65 <=? hex) && (hex <=? 90)) ||
  bool_decide (hex ∈ [0x21; 0x24; 0x26; 0x27; 0x28; 0x29; 0x2a; 0x2b; 0x2c; 0x2d; 0x2e; 0x2f; 0x3A; 0x3B; 0x3D; 0x3f; 0x40; 0x5f]).
(** A string has a null behind its last character, which is not a digit. *)
Fixpoint UrlDecode (szToDecode : list Z) : list Z :=
  match szToDecode with
  | [] => []
  | c :: rest =>
      if c =? 43 then SP :: UrlDecode rest else
      if c =? 37 then
        match rest with
        | a :: b :: rest' =>
            let '(hex, _, _) := strtol [a; b] 16 in
            if isxdigit a && isxdigit b && negb (kept hex) then hex :: UrlDecode rest' else 37 :: UrlDecode rest
        | _ => 37 :: UrlDecode rest
        end
      else c :: UrlDecode rest
  end.

(** ** The parser *)

Definition HTTP_UTIL_METHOD_NONE : Z := 0.
Definition HTTP_UTIL_METHOD_GET : Z := 1.
Definition HTTP_UTIL_METHOD_POST : Z := 2.
Definition HTTP_UTIL_METHOD_RESP : Z := 3.
Definition HTTP_UTIL_PARAM_ALL : Z := 0.
Definition HTTP_UTIL_PARAM_HEADPARAM : Z := 1.
Definition HTTP_UTIL_PARAM_CONTENT : Z := 2.

(** [m_pszContent] is an offset in the array that was parsed, [m_pszUri] and
    [m_pszActParam] are offsets in [m_szFirstLine]; [None] is a null pointer. *)
Record CHttpParser := Parser {
  m_mapFields : dict; m_szFirstLine : list Z; m_pszContent : option Z; m_nContentLen : Z; m_nHttpMethod : Z;
  m_pszUri : option Z; m_pszActParam : option Z; m_paramParser : dict; m_nExtraParamType : Z;
}.
Definition set_fields x p := Parser x (m_szFirstLine p) (m_pszContent p) (m_nContentLen p) (m_nHttpMethod p) (m_pszUri p) (m_pszActParam p) (m_paramParser p) (m_nExtraParamType p).
Definition set_first_line x p := Parser (m_mapFields p) x (m_pszContent p) (m_nContentLen p) (m_nHttpMethod p) (m_pszUri p) (m_pszActParam p) (m_paramParser p) (m_nExtraParamType p).
Definition set_content x p := Parser (m_mapFields p) (m_szFirstLine p) x (m_nContentLen p) (m_nHttpMethod p) (m_pszUri p) (m_pszActParam p) (m_paramParser p) (m_nExtraParamType p).
Definition set_content_len x p := Parser (m_mapFields p) (m_szFirstLine p) (m_pszContent p) x (m_nHttpMethod p) (m_pszUri p) (m_pszActParam p) (m_paramParser p) (m_nExtraParamType p).
Definition set_method x p := Parser (m_mapFields p) (m_szFirstLine p) (m_pszContent p) (m_nContentLen p) x (m_pszUri p) (m_pszActParam p) (m_paramParser p) (m_nExtraParamType p).
Definition set_uri x p := Parser (m_mapFields p) (m_szFirstLine p) (m_pszContent p) (m_nContentLen p) (m_nHttpMethod p) x (m_pszActParam p) (m_paramParser p) (m_nExtraParamType p).
Definition set_act_param x p := Parser (m_mapFields p) (m_szFirstLine p) (m_pszContent p) (m_nContentLen p) (m_nHttpMethod p) (m_pszUri p) x (m_paramParser p) (m_nExtraParamType p).
Definition set_params x p := Parser (m_mapFields p) (m_szFirstLine p) (m_pszContent p) (m_nContentLen p) (m_nHttpMethod p) (m_pszUri p) (m_pszActParam p) x (m_nExtraParamType p).
Definition set_type x p := Parser (m_mapFields p) (m_szFirstLine p) (m_pszContent p) (m_nContentLen p) (m_nHttpMethod p) (m_pszUri p) (m_pszActParam p) (m_paramParser p) x.

Abbreviation PM := (M CHttpParser).
Definition lift {A} (o : option A) : PM A := match o with Some a => mret a | None => ub end.

(** [CInsertTempZero]: the array while a byte of it is replaced. *)
Definition with_zero (data : list Z) (i : Z) : list Z := <[Z.to_nat i := 0]> data.

(** One line of the head, from the offset [ptr]. *)
Definition field_round (szHttpReq : list Z) (nTotalLen ptr : Z) : PM (Z + Z) :=
  if ptr >? nTotalLen - 4 then mret (inr ptr) else
  b ← lift (mem_eq szHttpReq ptr CRLF);
  if (b : bool) then mret (inr ptr) else
  let rest := drop (Z.to_nat ptr) szHttpReq in
  e ← lift (strstr rest CRLF);
  match e with
  | None => mret (inr ptr)
  | Some pLineEnd =>
      let text := with_zero rest pLineEnd in
      c ← lift (strstr text (str ": "));
      match c with
      | None => mret (inr ptr)
      | Some p =>
          let strFieldName := c_str (with_zero text p) in
          let strValue := c_str (drop (Z.to_nat (p + 2)) text) in
          modify (λ s, set_fields (map_insert strFieldName strValue (m_mapFields s)) s);;
          mret (inl (ptr + pLineEnd + 2))
      end
  end.

(** [strncpy] into the first 4095 bytes of an array. *)
Definition strncpy_line (text old : list Z) : list Z := take 4095 (text ++ replicate 4095 0) ++ drop 4095 old.
(** Every round moves [ptr] on in the array. *)
Definition parseField (szHttpReq : list Z) (nTotalLen : Z) : PM bool :=
  ptr ← lift (strstr szHttpReq CRLF);
  match ptr with
  | None => mret false
  | Some ptr =>
      let data := with_zero szHttpReq ptr in
      modify (λ s, set_first_line (strncpy_line (c_str data) (m_szFirstLine s)) s);;
      ptr ← loop (S (length data)) (field_round data nTotalLen) (ptr + 2);
      when (ptr + 2 <? nTotalLen) (modify (set_content (Some (ptr + 2))));;
      mret true
  end.

Definition parseMethod (szMethod : list Z) (nMethodType : Z) : PM bool :=
  line ← gets m_szFirstLine;
  b ← lift (mem_eq line 0 szMethod);
  if (b : bool) then
    pEnd ← lift (strstr line (str " HTTP"));
    match pEnd with
    | Some pEnd => modify (λ s, set_method nMethodType (set_first_line (with_zero line pEnd) s));; mret true
    | None => mret false
    end
  else mret false.

(** The offset of [pBegin], when a method is found. *)
Definition method_round (_ : unit) : PM (unit + Z) :=
  b ← parseMethod (str "GET ") HTTP_UTIL_METHOD_GET;
  if (b : bool) then mret (inr 4) else
  b ← parseMethod (str "POST ") HTTP_UTIL_METHOD_POST;
  if (b : bool) then mret (inr 5) else
  b ← parseMethod (str "HTTP/") HTTP_UTIL_METHOD_RESP;
  if (b : bool) then mret (inr 5) else mret (inl ()).

(** [fuel] bounds the rounds of [while(1)]. *)
Definition parseFirstLine (fuel : nat) : PM bool :=
  first ← gets m_szFirstLine;
  text ← lift (c_string first);
  if Zlen text <? 10 then mret false else
  pBegin ← loop fuel method_round ();
  method ← gets m_nHttpMethod;
  if method =? HTTP_UTIL_METHOD_NONE then mret false else
  line ← gets m_szFirstLine;
  szParam ← lift (strstr (drop (Z.to_nat pBegin) line) [63]);
  match szParam with
  | Some p => modify (λ s, set_first_line (with_zero line (pBegin + p)) (set_act_param (Some (pBegin + p + 1)) s))
  | None => mret ()
  end;;
  modify (set_uri (Some pBegin));;
  mret true.

Definition parse_head (fuel : nat) (szHttpReq : list Z) (nDataLen nExtraParamType : Z) : PM Z :=
  modify (set_type nExtraParamType);;
  '(nTotalLen, lens) ← lift (get_length_ex szHttpReq nDataLen);
  match lens with Some (_, n) => modify (set_content_len n) | None => mret () end;;
  if nTotalLen <=? 0 then mret nTotalLen else
  b ← parseField szHttpReq nTotalLen;
  if negb b then mret (-1) else
  b ← parseFirstLine fuel;
  if negb b then mret (-1) else
  s ← get;
  match m_pszActParam s with
  | Some off =>
      when ((nExtraParamType =? HTTP_UTIL_PARAM_ALL) || (nExtraParamType =? HTTP_UTIL_PARAM_HEADPARAM))
        (let param := drop (Z.to_nat off) (m_szFirstLine s) in
         text ← lift (c_string param);
         m ← lift (params_parse (m_paramParser s) param (Zlen text));
         modify (set_params m))
  | None => mret ()
  end;;
  mret nTotalLen.

(** The constructor; [garbage] is what is in the array [m_szFirstLine] before,
    and without a request [szHttpReq] is [None]. *)
Definition new_parser (garbage : list Z) : CHttpParser :=
  Parser ∅ garbage None 0 HTTP_UTIL_METHOD_NONE None None ∅ HTTP_UTIL_PARAM_ALL.
Definition construct (fuel : nat) (szHttpReq : option (list Z)) (nDataLen nExtraParamType : Z) : PM unit :=
  match szHttpReq with
  | Some req => assert (0 <? nDataLen);; parse_head fuel req nDataLen nExtraParamType;; mret ()
  | None => mret ()
  end;;
  modify (λ s, set_first_line (with_zero (m_szFirstLine s) 0) s).

Definition parse_form_body (szHttpReq : list Z) : PM unit :=
  s ← get;
  match m_pszContent s with
  | Some off => m ← lift (params_parse (m_paramParser s) (drop (Z.to_nat off) szHttpReq) (m_nContentLen s)); modify (set_params m)
  | None => mret ()
  end.

Definition get_head_field (p : CHttpParser) (strFieldName : list Z) : list Z := default [] (m_mapFields p !! strFieldName).
Definition get_cookie (p : CHttpParser) : list Z := get_head_field p (str "Cookie").
Definition get_param (p : CHttpParser) (szKey : list Z) : list Z := params_get (m_paramParser p) szKey.
Definition get_param_int (p : CHttpParser) (szKey : list Z) : option Z := params_get_int (m_paramParser p) szKey.
Definition get_uri (p : CHttpParser) : option (list Z) :=
  match m_pszUri p with None => Some [] | Some off => c_string (drop (Z.to_nat off) (m_szFirstLine p)) end.
Definition get_object (p : CHttpParser) : option (list Z) :=
  match m_pszUri p with
  | None => Some []
  | Some off =>
      uri ← c_string (drop (Z.to_nat off) (m_szFirstLine p));
      Some (match last_slash (length uri) uri (Zlen uri) with Some (Some i) => drop (Z.to_nat (i + 1)) uri | _ => [] end)
  end.
Definition get_param_string (p : CHttpParser) (szHttpReq : list Z) : option (list Z) :=
  let wants t := (m_nExtraParamType p =? HTTP_UTIL_PARAM_ALL) || (m_nExtraParamType p =? t) in
  match m_pszActParam p, m_pszContent p with
  | Some off, content =>
      if wants HTTP_UTIL_PARAM_HEADPARAM then c_string (drop (Z.to_nat off) (m_szFirstLine p)) else
      match content with
      | Some off => if wants HTTP_UTIL_PARAM_CONTENT then c_string (drop (Z.to_nat off) szHttpReq) else Some []
      | None => Some []
      end
  | None, Some off => if wants HTTP_UTIL_PARAM_CONTENT then c_string (drop (Z.to_nat off) szHttpReq) else Some []
  | None, None => Some []
  end.

(** ** Examples *)

Definition garbage : list Z := replicate 4096 170.
Definition demo_maker : CHttpParamStringMaker := add_param_int (str "n") 7 (add_param (str "user") (str "a=b") new_maker).
Definition demo_get : list Z := default [] (GET_make_string demo_maker (str "host") 8080 (str "/cgi/x")).
Definition demo_post : list Z := default [] (POST_make_string demo_maker (str "host") 80 (str "/cgi/x")).

Example demo_params : get_params demo_maker = Some (str "user=a=b&n=7").
Proof. by vm_compute. Qed.
(** Nothing to print: the byte in front of [szParams] is read. *)
Example no_params : get_params new_maker = None ∧ GET_make new_maker (str "host") 80 (str "/") 4096 = None.
Proof. by vm_compute. Qed.
(** A parameter without = takes the next one into its name. *)
Example flag_param : params_parse ∅ (str "flag&a=1") 8 = Some {[ str "flag&a" := []; str "a" := str "1" ]}.
Proof. by vm_compute. Qed.
Example decode_demo : UrlDecode (str "a+b%20c%2b%41%4") = str "a b c%2b%41%4".
Proof. by vm_compute. Qed.

Definition summary (o : outcome (Z * CHttpParser)) : option (Z * option (list Z) * list Z * option (list Z) * Z) :=
  match o with Ok (n, s) => Some (n, get_uri s, get_param s (str "user"), get_object s, m_nHttpMethod s) | _ => None end.
Example parse_get_demo :
  summary (parse_head 1 (demo_get ++ [0]) (Zlen demo_get) 0 (new_parser garbage)) =
    Some (Zlen demo_get, Some (str "/cgi/x"), str "a=b", Some (str "x"), HTTP_UTIL_METHOD_GET).
Proof. by vm_compute. Qed.
(** A line of the head without a colon and a space ends it: what follows its
    first two bytes is taken as the content. *)
Example short_line_demo :
  let req := str "GET /a HTTP/1.1" ++ CRLF ++ str "Host:h" ++ CRLF ++ CRLF in
  (λ r, match r with Ok (n, s) => get_param_string s (req ++ [0]) | _ => None end)
    (parse_head 1 (req ++ [0]) (Zlen req) 0 (new_parser garbage)) = Some (str "st:h" ++ CRLF ++ CRLF).
Proof. by vm_compute. Qed.
(** The beginning of a request is not taken for one, a negative length is, and a
    length of more than 29 characters does not fit into [szTmp]. *)
Definition demo_length (n : list Z) : list Z := str "POST / HTTP/1.1" ++ CRLF ++ str "Content-Length: " ++ n ++ CRLF ++ CRLF ++ [0].
Example get_length_demo :
  get_length (str "GE" ++ replicate 3 0) 2 = Some (-1) ∧ get_length (demo_length (str "-5")) 41 = Some 34 ∧
  get_length (demo_length (replicate 31 49)) 60 = None.
Proof. by vm_compute. Qed.
(** Parameters that are empty: the byte in front of their copy is read. *)
Example empty_params_demo :
  let req := str "GET /a? HTTP/1.1" ++ CRLF ++ CRLF in parse_head 1 (req ++ [0]) (Zlen req) 0 (new_parser garbage) = UB.
Proof. by vm_compute. Qed.
