(* ===== verification/HttpUtilFacts.v ===== *)
(** * http_codec: lemmas on http_util *)
From S2P Require Import Prelude GetNum HttpFunc HttpReq HttpFacts HttpLine HttpHead HttpProps HttpArgs HttpCodec HttpUtil.
#[local] Open Scope Z_scope.

(** A weaker property of every byte. *)
Ltac weaken H := eapply Forall_impl; [exact H|]; cbn beta; intros; tauto.

(** ** Searches *)

Lemma prefix_at_more pat s l b : prefix_at pat s = Some b → prefix_at pat (s ++ l) = Some b.
Proof.
  revert s. induction pat as [|p pat IH]; intros [|c s]; simpl; try done. destruct (p =? c); [apply IH|done].
Qed.

(** What is found is found whatever is behind it. *)
Lemma strstr_from_more s pat i p l : strstr_from s pat i = Some (Some p) → strstr_from (s ++ l) pat i = Some (Some p).
Proof.
  revert i. induction s as [|c s IH]; intros i; cbn [strstr_from app].
  - destruct (prefix_at pat []) as [[]|] eqn:E; [|done..]. intros [= <-]. destruct pat; [|done]. by destruct l.
  - destruct (prefix_at pat (c :: s)) as [b|] eqn:E; [|done]. change (c :: s ++ l) with ((c :: s) ++ l).
    rewrite (prefix_at_more _ _ _ _ E). cbn [mbind option_bind]. destruct b; [done|]. destruct (c =? 0); [done|]. apply IH.
Qed.
Lemma strstr_more s pat p l : strstr s pat = Some (Some p) → strstr (s ++ l) pat = Some (Some p).
Proof. apply strstr_from_more. Qed.

(** One byte that is not the start of a match. *)
Lemma strstr_step c l pat i : prefix_at pat (c :: l) = Some false → c ≠ 0 → strstr_from (c :: l) pat i = strstr_from l pat (i + 1).
Proof. intros Hp Hc. cbn [strstr_from]. rewrite Hp. cbn [mbind option_bind]. by rewrite (proj2 (Z.eqb_neq c 0)). Qed.

(** A pattern against a text with a null behind it. *)
Lemma prefix_at_null pat s l :
  Forall (λ c, c ≠ 0) pat → ∃ b, prefix_at pat (s ++ 0 :: l) = Some b ∧ (b = true → (length pat ≤ length s)%nat ∧ prefix_at pat s = Some true).
Proof.
  intros Hp. revert s. induction Hp as [|p pat Hp Hpat IH]; intros s; [exists true; by split; [destruct s|split; [simpl; lia|destruct s]]|].
  destruct s as [|c s]; simpl; [exists false; by rewrite (proj2 (Z.eqb_neq p 0))|].
  destruct (p =? c); [|by exists false]. destruct (IH s) as (b & Hb & Ht). exists b. split; [done|]. intros Htrue. destruct (Ht Htrue). split; [lia|done].
Qed.

(** A text that is shorter than the pattern, or ends within the first match, has
    none. *)
Lemma strstr_from_short s pat i l :
  Forall (λ c, c ≠ 0) s → Forall (λ c, c ≠ 0) pat → (length s < length pat)%nat → strstr_from (s ++ 0 :: l) pat i = Some None.
Proof.
  intros Hs Hpat. revert i. induction Hs as [|c s Hc Hs IH]; intros i Hlen; cbn [app strstr_from].
  - destruct (prefix_at_null pat [] l Hpat) as (b & Hb & Ht). cbn [app] in Hb. rewrite Hb. cbn [mbind option_bind]. destruct b; [|done].
    destruct (Ht eq_refl). simpl in *. lia.
  - destruct (prefix_at_null pat (c :: s) l Hpat) as (b & Hb & Ht). cbn [app] in Hb. rewrite Hb. cbn [mbind option_bind]. destruct b.
    + destruct (Ht eq_refl). lia.
    + rewrite (proj2 (Z.eqb_neq c 0)) by done. apply IH. cbn [length] in Hlen. lia.
Qed.

Lemma strstr_from_cut s x pat i p l :
  strstr_from (s ++ x) pat i = Some (Some p) → Forall (λ c, c ≠ 0) s → Forall (λ c, c ≠ 0) pat → i + Zlen s < p + Zlen pat →
  strstr_from (s ++ 0 :: l) pat i = Some None.
Proof.
  intros Hfound Hs Hpat. revert i Hfound. induction Hs as [|c s Hc Hs IH]; intros i Hfound Hlen.
  - apply strstr_from_short; [done..|]. destruct pat; [|simpl; lia]. destruct x; cbn in Hfound; injection Hfound as <-; cbn in Hlen; lia.
  - destruct (decide (length (c :: s) < length pat)%nat) as [Hlt|Hge]; [apply strstr_from_short; [by constructor|done..]|].
    cbn [app strstr_from] in Hfound |- *. destruct (prefix_at_null pat (c :: s) l Hpat) as (b & Hb & Ht). cbn [app] in Hb. rewrite Hb. cbn [mbind option_bind].
    destruct (prefix_at pat (c :: s ++ x)) as [b'|] eqn:Eb; [|done]. cbn [mbind option_bind] in Hfound. destruct b'.
    + injection Hfound as <-. lia.
    + destruct b; [destruct (Ht eq_refl) as [_ Htrue]; apply (prefix_at_more _ _ x) in Htrue; cbn [app] in Htrue; congruence|].
      rewrite (proj2 (Z.eqb_neq c 0)) in Hfound |- * by done. apply IH; [done|]. cbn [length] in Hlen. lia.
Qed.
Lemma strstr_cut s x pat p l :
  strstr (s ++ x) pat = Some (Some p) → Forall (λ c, c ≠ 0) s → Forall (λ c, c ≠ 0) pat → Zlen s < p + Zlen pat → strstr (s ++ 0 :: l) pat = Some None.
Proof. intros. eapply strstr_from_cut; [done..|lia]. Qed.

(** ** Parameters *)

(** A parameter that [get_params] and [parse] agree on: the name starts with a
    letter. *)
Record sendable (p : list Z * list Z) : Prop := {
  se_letter : ∃ c l, p.1 = c :: l ∧ letter c = true;
  se_name : Forall (λ c, c ≠ 61 ∧ c ≠ 38 ∧ c ≠ 0) p.1;
  se_value : Forall (λ c, c ≠ 38 ∧ c ≠ 0) p.2;
  se_length : Zlen (pair_text p) < 1023;
}.
(** What is in [szParams]. *)
Definition amp_text (ps : list (list Z * list Z)) : list Z := concat ((λ p, pair_text p ++ [38]) <$> ps).

Lemma amp_cons p ps : amp_text (p :: ps) = pair_text p ++ 38 :: amp_text ps.
Proof. unfold amp_text. rewrite fmap_cons. cbn [concat]. by rewrite <-app_assoc. Qed.
Lemma amp_join ps : ps ≠ [] → amp_text ps = join ps ++ [38].
Proof.
  induction ps as [|p ps IH]; [done|]. intros _. rewrite amp_cons. destruct ps as [|p2 ps]; [done|].
  rewrite IH by done. cbn [join]. rewrite <-app_assoc. done.
Qed.

Lemma pair_no_null p : sendable p → Forall (λ c, c ≠ 0) (pair_text p) ∧ Forall (λ c, c ≠ 38) (pair_text p).
Proof.
  intros [_ Hn Hv _]. unfold pair_text. split; apply Forall_app; (split; [weaken Hn|]);
    (constructor; [done|]; weaken Hv).
Qed.
Lemma join_no_null ps : Forall sendable ps → Forall (λ c, c ≠ 0) (join ps).
Proof.
  intros Hps. induction Hps as [|p ps Hp Hps IH]; [done|]. destruct (pair_no_null p Hp) as [H0 _].
  cbn [join]. destruct ps; [done|]. apply Forall_app. by split; [|constructor].
Qed.

Lemma cat_params_spec ps s : Forall sendable ps → Zlen s + Zlen (amp_text ps) < 4096 → cat_params s ps = Some (s ++ amp_text ps).
Proof.
  intros Hps. revert s. induction Hps as [|p ps Hp Hps IH]; intros s Hs; [by rewrite app_nil_r|].
  rewrite amp_cons in Hs |- *. rewrite length_app in Hs. cbn [length] in Hs. pose proof (se_length p Hp) as Hlen.
  cbn [cat_params]. unfold cat_param. destruct Hp as [_ Hn Hv _].
  rewrite (c_str_id p.1), (c_str_id p.2) by (weaken Hn || weaken Hv).
  assert (p.1 ++ 61 :: p.2 ++ [38] = pair_text p ++ [38]) as -> by (unfold pair_text; by rewrite <-app_assoc).
  unfold sprintf. rewrite (proj2 (Z.ltb_lt _ _)) by (rewrite length_app; cbn [length]; lia). cbn [mbind option_bind].
  rewrite (proj2 (Z.ltb_lt _ _)) by (rewrite !length_app; cbn [length]; lia). cbn [mbind option_bind].
  rewrite IH by (rewrite !length_app; cbn [length]; lia). f_equal. by rewrite <-!app_assoc.
Qed.

Lemma get_params_spec ps : Forall sendable ps → ps ≠ [] → Zlen (join ps) < 4095 → get_params (Param_maker ps []) = Some (join ps).
Proof.
  intros Hps Hne Hlen. pose proof (amp_join ps Hne) as E. unfold get_params. cbn [m_strParamLines m_params]. rewrite decide_False by (by intros []).
  rewrite cat_params_spec by (done || (rewrite E, length_app; cbn [length]; lia)). cbn [mbind option_bind app].
  rewrite E, at_middle by (rewrite length_app; cbn [length]; lia). cbn [mbind option_bind]. by rewrite Z.eqb_refl, removelast_last.
Qed.

(** The end of the text is never an &. *)
Lemma join_last ps : Forall sendable ps → ps ≠ [] → ∃ c, last (join ps) = Some c ∧ c ≠ 38.
Proof.
  intros Hps. induction Hps as [|p ps Hp Hps IH]; [done|]. intros _. cbn [join]. destruct ps as [|p2 ps].
  - destruct (pair_no_null p Hp) as [_ H]. unfold pair_text in *. rewrite last_app. destruct (last (61 :: p.2)) as [c|] eqn:E.
    + exists c. split; [done|]. apply Forall_app in H as [_ H]. apply last_Some_elem_of in E. by eapply Forall_forall in H.
    + by apply last_None in E.
  - destruct IH as (c & Hc & Hne); [done|]. exists c. split; [|done]. rewrite last_app, last_cons. by rewrite Hc.
Qed.

Lemma param_buffer_join ps l : Forall sendable ps → ps ≠ [] → param_buffer (join ps ++ l) (Zlen (join ps)) = Some (amp_text ps).
Proof.
  intros Hps Hne. unfold param_buffer. rewrite bytes_prefix by done. cbn [mbind option_bind]. rewrite c_str_id by (by apply join_no_null).
  destruct (join_last ps Hps Hne) as (c & -> & Hc). cbn [mbind option_bind]. rewrite (proj2 (Z.eqb_neq c 38)) by done. by rewrite amp_join.
Qed.

Lemma params_from_amp ps fuel m :
  Forall sendable ps → (length ps ≤ fuel)%nat → params_from fuel (amp_text ps) m = foldl (λ m p, map_insert p.1 p.2 m) m ps.
Proof.
  intros Hps. revert fuel m. induction Hps as [|p ps Hp Hps IH]; intros fuel m Hf; [by destruct fuel|].
  destruct fuel as [|fuel]; cbn [length] in Hf; [lia|]. rewrite amp_cons. destruct (pair_no_null p Hp) as [_ Hamp].
  destruct Hp as [(c & k & Ek & Hc) Hn _ _]. set (rest := amp_text ps) in *.
  assert (find (pair_text p ++ 38 :: rest) 61 0 = Some (Zlen p.1)) as E1.
  { unfold pair_text. rewrite <-app_assoc. apply (find_app [] p.1 61). weaken Hn. }
  assert (find (pair_text p ++ 38 :: rest) 38 0 = Some (Zlen (pair_text p))) as E2 by (by apply (find_app [])).
  assert (∃ t, pair_text p ++ 38 :: rest = c :: t) as [t Et] by (unfold pair_text; rewrite Ek; cbn; eauto).
  rewrite Et. cbn [params_from]. rewrite Hc. cbn [negb]. rewrite <-Et, E1, E2. pose proof (pair_text_length p) as Hpl.
  assert (take (Z.to_nat (Zlen p.1)) (pair_text p ++ 38 :: rest) = p.1) as ->.
  { rewrite Nat2Z.id. unfold pair_text. by rewrite <-app_assoc, take_app_length. }
  assert (drop (Z.to_nat (Zlen (pair_text p) + 1)) (pair_text p ++ 38 :: rest) = rest) as ->.
  { replace (Z.to_nat (Zlen (pair_text p) + 1)) with (length (pair_text p ++ [38])) by (rewrite length_app; cbn [length]; lia).
    change (38 :: rest) with ([38] ++ rest). by rewrite app_assoc, drop_app_length. }
  rewrite decide_False by (by rewrite Ek).
  assert (default [] (if 0 <? Zlen (pair_text p) - Zlen p.1 - 1 then bytes (pair_text p ++ 38 :: rest) (Zlen p.1 + 1) (Zlen (pair_text p) - Zlen p.1 - 1) else Some []) = p.2) as ->.
  { destruct (Z.ltb_spec 0 (Zlen (pair_text p) - Zlen p.1 - 1)) as [_|H].
    - assert (pair_text p ++ 38 :: rest = (p.1 ++ [61]) ++ p.2 ++ 38 :: rest) as -> by (unfold pair_text; by rewrite <-!app_assoc).
      rewrite bytes_app; [done|rewrite length_app; cbn [length]; lia|lia].
    - destruct p as [k1 [|? ?]]; [done|]. cbn [fst snd length] in *. lia. }
  cbn [foldl]. apply IH. lia.
Qed.

Lemma params_parse_join ps l m :
  Forall sendable ps → ps ≠ [] → params_parse m (join ps ++ l) (Zlen (join ps)) = Some (m ∪ list_to_map ps).
Proof.
  intros Hps Hne. unfold params_parse. rewrite param_buffer_join by done. cbn [mbind option_bind]. f_equal.
  rewrite params_from_amp; [by apply insert_all|done|]. rewrite amp_join, length_app by done. pose proof (join_length ps). lia.
Qed.
