(* ===== verification/HttpUtilHead.v ===== *)
(** * http_codec: the head of a message in http_util *)
From S2P Require Import Prelude GetNum HttpFunc HttpReq HttpFacts HttpLine HttpHead HttpProps HttpArgs HttpCodec HttpUtil HttpUtilFacts.
#[local] Open Scope Z_scope.

(** ** Messages *)

(** A line, and a field of the head, without nulls and carriage returns. *)
Definition one_line (l : list Z) : Prop := Forall (λ c, c ≠ CR ∧ c ≠ 0) l.
Definition field_ok (h : list Z * list Z) : Prop := Forall (λ c, c ≠ 58 ∧ c ≠ CR ∧ c ≠ 0) h.1 ∧ one_line h.2.

Definition head_of (t : list Z) (hs : list (list Z * list Z)) : list Z := t ++ CR :: LF :: head_text hs ++ [CR; LF].
Definition field_line (h : list Z * list Z) : list Z := h.1 ++ 58 :: SP :: h.2.

Lemma print_field h : print_header h = field_line h ++ [CR; LF].
Proof. unfold print_header, field_line. by rewrite <-app_assoc. Qed.
Lemma field_one_line h : field_ok h → one_line (field_line h).
Proof.
  intros [Hn Hv]. apply Forall_app. split; [weaken Hn|]. by repeat constructor.
Qed.
Lemma field_line_cons h : field_ok h → ∃ c d l, field_line h = c :: d :: l ∧ c ≠ CR.
Proof.
  intros Hh. pose proof (field_one_line h Hh) as Hl. unfold field_line in *.
  destruct h as [[|c [|d n]] v]; cbn in *; apply Forall_cons in Hl as [[? _] _]; eauto.
Qed.

Lemma blank_found t hs rest i :
  one_line t → Forall field_ok hs →
  strstr_from (t ++ CR :: LF :: head_text hs ++ CR :: LF :: rest) (CRLF ++ CRLF) i = Some (Some (i + Zlen t + Zlen (head_text hs))).
Proof.
  intros Ht Hhs. revert t i Ht. induction Hhs as [|h hs Hh Hhs IH]; intros t i Ht; unfold CRLF; cbn [app]; rewrite strstr_from_skip by done.
  - cbn. do 2 f_equal. lia.
  - rewrite head_text_cons, print_field, <-!app_assoc. cbn [app]. destruct (field_line_cons h Hh) as (c & d & k & E & Hc).
    assert (∀ x, prefix_at [CR; LF; CR; LF] (CR :: LF :: field_line h ++ x) = Some false) as Hno.
    { intros x. rewrite E. cbn [app prefix_at]. rewrite !Z.eqb_refl. by rewrite (proj2 (Z.eqb_neq CR c)) by congruence. }
    rewrite strstr_step by done. unfold CRLF in IH. cbn [app] in IH.
    change (LF :: field_line h ++ CR :: LF :: head_text hs ++ CR :: LF :: rest) with ((LF :: field_line h) ++ CR :: LF :: head_text hs ++ CR :: LF :: rest).
    rewrite IH by (apply Forall_cons; split; [done|by apply field_one_line]). do 2 f_equal. cbn [length]. rewrite !length_app. cbn [length]. lia.
Qed.

Lemma head_of_found t hs rest :
  one_line t → Forall field_ok hs → strstr (head_of t hs ++ rest) (CRLF ++ CRLF) = Some (Some (Zlen (head_of t hs) - 4)).
Proof.
  intros Ht Hhs. unfold head_of. rewrite <-app_assoc. cbn [app]. rewrite <-app_assoc. cbn [app]. unfold strstr. rewrite blank_found by done. do 2 f_equal.
  rewrite length_app. cbn [length]. rewrite length_app. cbn [length]. lia.
Qed.

Lemma head_one_line t hs : one_line t → Forall field_ok hs → Forall (λ c, c ≠ 0) (head_of t hs).
Proof.
  intros Ht Hhs. apply Forall_app. split; [weaken Ht|]. do 2 (constructor; [done|]). apply Forall_app. split; [|by repeat constructor].
  induction Hhs as [|h hs Hh Hhs IH]; [done|]. rewrite head_text_cons, print_field. apply Forall_app. split; [|done].
  pose proof (field_one_line h Hh) as Hf. apply Forall_app. split; [weaken Hf|by repeat constructor].
Qed.

(** ** The number of the field Content-Length *)

Lemma print_nat_length k fuel n : 0 ≤ n < 10 ^ Z.of_nat k → (0 < k)%nat → (length (print_nat fuel 10 n) ≤ k)%nat.
Proof.
  revert k n. induction fuel as [|fuel IH]; intros k n Hn Hk; cbn [print_nat length]; [lia|].
  destruct (Z.ltb_spec n 10); [cbn; lia|]. rewrite length_app. cbn [length]. destruct k as [|[|k]]; [lia|cbn in Hn; lia|].
  assert (length (print_nat fuel 10 (n / 10)) ≤ S k)%nat; [|lia]. apply IH; [|lia]. split; [apply Z.div_pos; lia|].
  apply Z.div_lt_upper_bound; [lia|]. rewrite <-Z.pow_succ_r by lia. replace (Z.succ (Z.of_nat (S k))) with (Z.of_nat (S (S k))) by lia. lia.
Qed.

Lemma to_str_digits n : 0 ≤ n ≤ INT_MAX → one_line (to_str n) ∧ Zlen (to_str n) ≤ 10.
Proof.
  intros Hn. unfold to_str, print_num. rewrite (proj2 (Z.ltb_ge n 0)), Z.abs_eq by lia. cbn [app]. split.
  - destruct (print_nat_digits 10 ltac:(lia) (S (Z.to_nat n)) n) as [Hd _]; [lia|].
    eapply Forall_impl; [exact Hd|]. intros c [d Hc]. by split; intros ->.
  - pose proof (print_nat_length 10 (S (Z.to_nat n)) n) as H. change (10 ^ Z.of_nat 10) with 10000000000 in H. unfold INT_MAX in Hn. lia.
Qed.

Lemma atoi_number n l : 0 ≤ n ≤ INT_MAX → atoi (to_str n ++ 0 :: l) = Some n.
Proof.
  intros Hn. unfold to_str, print_num. rewrite (proj2 (Z.ltb_ge n 0)), Z.abs_eq by lia. cbn [app].
  assert (0 ≤ n < Z.of_nat (S (Z.to_nat n))) as Hf by lia.
  destruct (print_nat_head 10 ltac:(lia) _ _ Hf) as (c & k & E & Hc & _).
  destruct (print_nat_digits 10 ltac:(lia) _ _ Hf) as [Hall Hd].
  destruct (digit_not_space _ _ Hc) as [(Hsp & H1 & H2 & _)|]; [|lia].
  unfold atoi. rewrite E in Hall, Hd |- *. cbn [app skip_space]. rewrite Hsp.
  unfold split_sign. rewrite (proj2 (Z.eqb_neq c 45)), (proj2 (Z.eqb_neq c 43)) by done.
  change (c :: k ++ 0 :: l) with ((c :: k) ++ 0 :: l). rewrite digits_app by done. rewrite Hd. cbn.
  by rewrite (proj2 (Z.leb_le INT_MIN n)), (proj2 (Z.leb_le n INT_MAX)) by (unfold INT_MIN in *; lia).
Qed.

Lemma content_number_print n : 0 ≤ n ≤ INT_MAX → content_number (to_str n) = Some n.
Proof.
  intros Hn. destruct (to_str_digits n Hn) as [_ Hlen]. unfold content_number. rewrite (proj2 (Z.leb_le _ _)) by lia.
  replace (30 - length (to_str n))%nat with (S (29 - length (to_str n))) by lia. cbn [replicate]. by apply atoi_number.
Qed.

(** The first occurrence of the name of the field is the field. *)
Definition length_name : list Z := str "Content-Length: ".
Definition first_length (before : list Z) : Prop := strstr (before ++ length_name) length_name = Some (Some (Zlen before)).

Lemma content_length_found before n after head :
  0 ≤ n ≤ INT_MAX → first_length before → content_length (before ++ length_name ++ to_str n ++ CR :: LF :: after) head = Some (head + 4, n).
Proof.
  intros Hn Hfirst. unfold content_length. fold length_name. rewrite app_assoc, (strstr_more _ _ _ _ Hfirst). cbn [mbind option_bind].
  replace (Z.to_nat (Zlen before + 16)) with (length (before ++ length_name)) by (rewrite length_app; change (length length_name) with 16%nat; lia).
  rewrite drop_app_length. destruct (to_str_digits n Hn) as [Hd _]. pose proof (strstr_found (to_str n) after [LF] CR Hd) as E. cbn [app] in E. unfold CRLF. rewrite E. cbn [mbind option_bind]. rewrite Nat2Z.id, take_app_length, content_number_print by done. done.
Qed.
