(* ===== verification/HttpUtilProps.v ===== *)
(** * http_codec: what http_util sends and reads *)
From S2P Require Import Prelude GetNum HttpFunc HttpReq HttpFacts HttpLine HttpHead HttpProps HttpArgs HttpCodec HttpUtil HttpUtilFacts HttpUtilHead.
#[local] Open Scope Z_scope.

(** ** The length of a message *)

Lemma mem_eq_app (s y pat : list Z) : (length pat ≤ length s)%nat → mem_eq (s ++ y) 0 pat = Some (bool_decide (take (length pat) s = pat)).
Proof.
  intros Hp. unfold mem_eq. assert (bytes (s ++ y) 0 (Zlen pat) = Some (take (length pat) s)) as ->; [|done].
  rewrite <-(take_drop (length pat) s) at 1. rewrite <-app_assoc. apply bytes_prefix. rewrite length_take. lia.
Qed.

(** A message by its first line, its fields and its body: the length of the body
    is that of its field, and a GET has none. *)
Inductive framed (t : list Z) (hs : list (list Z * list Z)) (body : list Z) : Prop :=
  | framed_get k : t = str "GET " ++ k → body = [] → framed t hs body
  | framed_length kind k hs1 hs2 :
      kind = str "POST " ∨ kind = str "HTTP/" → t = kind ++ k →
      hs = hs1 ++ (str "Content-Length", to_str (Zlen body)) :: hs2 → first_length (t ++ CR :: LF :: head_text hs1) → framed t hs body.

Section message.
Context (t : list Z) (hs : list (list Z * list Z)) (body : list Z).
Context (Hframed : framed t hs body) (Ht : one_line t) (Hhs : Forall field_ok hs).
Context (Hint : Zlen (head_of t hs ++ body) ≤ INT_MAX).

(** The kind of the message, and what is found in its head. *)
Lemma get_length_kind : ∃ kind k other, t = kind ++ k ∧ (length kind ≤ 5)%nat ∧
  (∀ y n, get_length_ex (kind ++ y) n = get_length_of other (kind ++ y) n) ∧
  ∀ x head, ∃ pos, (if (other : bool) then content_length (head_of t hs ++ x) head else Some (0, 0)) = Some (pos, Zlen body).
Proof.
  destruct Hframed as [k Hk Hb|kind k hs1 hs2 Hkind Hk Eh Hfirst].
  - exists (str "GET "), k, false. split_and!; [done|by apply Nat.leb_le| |by rewrite Hb; eauto]. intros y n. unfold get_length_ex.
    by rewrite (mem_eq_app _ _ (str "GET ")) by (vm_compute; lia).
  - exists kind, k, true. split_and!; [done|by destruct Hkind as [-> | ->]; apply Nat.leb_le| |].
    + intros y n. unfold get_length_ex. by destruct Hkind as [-> | ->]; rewrite !mem_eq_app by (vm_compute; lia).
    + intros x head. exists (head + 4). rewrite length_app in Hint.
      assert (head_of t hs ++ x = (t ++ CR :: LF :: head_text hs1) ++ length_name ++ to_str (Zlen body) ++ CR :: LF :: (head_text hs2 ++ CR :: LF :: x)) as ->.
      { unfold head_of. rewrite Eh, head_text_app, head_text_cons. unfold print_header, length_name. cbn [fst snd].
        change (str "Content-Length: ") with (str "Content-Length" ++ [58; SP]). rewrite <-!app_assoc. cbn [app]. rewrite <-!app_assoc. cbn [app]. rewrite <-!app_assoc. cbn [app]. by rewrite <-!app_assoc. }
      apply content_length_found; [lia|done].
Qed.

(** With the whole head in the array. *)
Lemma get_length_head x n : ∃ pos,
  get_length_ex (head_of t hs ++ x) n =
    Some (if n <? Zlen (head_of t hs ++ body) then 0 else Zlen (head_of t hs ++ body), Some (pos, Zlen body)).
Proof.
  destruct get_length_kind as (kind & k & other & Hk & _ & E & Hcontent).
  assert (get_length_ex (head_of t hs ++ x) n = get_length_of other (head_of t hs ++ x) n) as ->.
  { unfold head_of. rewrite Hk, <-!app_assoc. apply E. }
  unfold get_length_of. rewrite head_of_found by done. cbn [mbind option_bind].
  destruct (Hcontent x (Zlen (head_of t hs) - 4)) as [pos ->]. cbn [mbind option_bind]. exists pos.
  replace (Zlen (head_of t hs) - 4 + 4 + Zlen body) with (Zlen (head_of t hs ++ body)) by (rewrite length_app; lia).
  by rewrite (proj2 (Z.leb_le _ _)).
Qed.

(** The first part of a message, from its fifth byte on, is not complete; the whole
    of it is. *)
Theorem util_length_spec l junk :
  l `prefix_of` head_of t hs ++ body → 5 ≤ Zlen l →
  get_length (l ++ 0 :: junk) (Zlen l) = Some (if decide (l = head_of t hs ++ body) then Zlen l else 0).
Proof.
  intros [z Hz] Hlen. unfold get_length. apply app_eq_inv in Hz as [(l' & E1 & E2)|(b & E1 & E2)].
  - destruct (decide (l' = [])) as [->|Hne].
    { rewrite app_nil_r in E1. subst l. destruct (get_length_head (0 :: junk) (Zlen (head_of t hs))) as [pos ->]. cbn [fmap option_fmap option_map fst]. f_equal. cbn in E2. subst z.
      case_decide as Hd; [rewrite Hd at 1|].
      - rewrite Z.ltb_irrefl. by rewrite Hd at 2.
      - rewrite (proj2 (Z.ltb_lt _ _)); [done|]. rewrite length_app. destruct body; [by rewrite app_nil_r in Hd|cbn; lia]. }
    assert (∃ m, l = m ∧ Zlen l < Zlen (head_of t hs)) as (_ & _ & Hshort).
    { exists l. split; [done|]. rewrite E1, length_app. destruct l'; [done|cbn; lia]. }
    rewrite decide_False by (intros ->; rewrite length_app in Hshort; lia).
    destruct get_length_kind as (kind & k & other & Hk & Hkl & E & _).
    assert (∃ m, l = kind ++ m) as [m Hm].
    { unfold head_of in E1. rewrite Hk, <-app_assoc in E1. symmetry in E1. apply app_eq_inv in E1 as [(m & -> & _)|(m & -> & _)]; [by eauto|].
      rewrite length_app in Hkl. destruct m; [exists []; by rewrite !app_nil_r|]. cbn in *. lia. }
    rewrite Hm, <-app_assoc, E, app_assoc, <-Hm. unfold get_length_of.
    pose proof (head_one_line t hs Ht Hhs) as Hnz. pose proof (head_of_found t hs [] Ht Hhs) as Hf. rewrite app_nil_r in Hf. rewrite E1 in Hf, Hnz.
    apply Forall_app in Hnz as [Hnz _]. rewrite (strstr_cut l l' (CRLF ++ CRLF) _ junk Hf Hnz); [done|by repeat constructor|].
    rewrite <-E1. change (Zlen (CRLF ++ CRLF)) with 4. lia.
  - subst l. rewrite <-app_assoc. destruct (get_length_head (b ++ 0 :: junk) (Zlen (head_of t hs ++ b))) as [pos ->]. cbn [fmap option_fmap option_map fst]. f_equal.
    case_decide as Hd.
    + rewrite Hd, Z.ltb_irrefl. done.
    + rewrite (proj2 (Z.ltb_lt _ _)); [done|]. rewrite !length_app. rewrite E2, length_app. destruct z; [rewrite app_nil_r in E2; by subst|cbn; lia].
Qed.
End message.
