(* ===== verification/HttpUtilParse.v ===== *)
(** * http_codec: the parser of http_util on the requests of its makers *)
From S2P Require Import Prelude GetNum HttpFunc HttpReq HttpFacts HttpLine HttpHead HttpProps HttpArgs HttpCodec HttpUtil HttpUtilFacts HttpUtilHead HttpUtilProps.
#[local] Open Scope Z_scope.

(** ** Strings and arrays *)

Lemma wp_some {A} (o : option A) a s (Q : A → CHttpParser → Prop) : o = Some a → Q a s → wp (lift o) s Q.
Proof. by intros ->. Qed.

Lemma c_str_null l x : Forall (λ c, c ≠ 0) l → c_str (l ++ 0 :: x) = l.
Proof. intros Hl. induction Hl as [|c l Hc Hl IH]; [done|]. simpl. rewrite (proj2 (Z.eqb_neq c 0)) by done. by rewrite IH. Qed.
Lemma c_string_text l x : Forall (λ c, c ≠ 0) l → c_string (l ++ 0 :: x) = Some l.
Proof.
  intros Hl. unfold c_string. assert (list_find (λ c, c = 0) (l ++ 0 :: x) = Some (length l, 0)) as ->.
  { apply list_find_Some. split_and!; [by apply list_lookup_middle|done|].
    intros j y Hj Hlt. rewrite lookup_app_l in Hj by done. by eapply Forall_lookup_1 in Hl. }
  cbn [mbind option_bind]. by rewrite take_app_length.
Qed.
Lemma with_zero_app (l1 l2 : list Z) c i : i = Zlen l1 → with_zero (l1 ++ c :: l2) i = l1 ++ 0 :: l2.
Proof. intros ->. unfold with_zero. rewrite Nat2Z.id. by rewrite insert_app_r_alt, Nat.sub_diag by lia. Qed.
Lemma drop_Zlen (l1 l2 : list Z) i : i = Zlen l1 → drop (Z.to_nat i) (l1 ++ l2) = l2.
Proof. intros ->. by rewrite Nat2Z.id, drop_app_length. Qed.
Lemma strchr_found l1 c l2 : Forall (λ x, x ≠ c ∧ x ≠ 0) l1 → strstr (l1 ++ c :: l2) [c] = Some (Some (Zlen l1)).
Proof. intros Hl. apply (strstr_found l1 l2 []). done. Qed.
Lemma strchr_none l1 c l2 : Forall (λ x, x ≠ c ∧ x ≠ 0) l1 → c ≠ 0 → strstr (l1 ++ 0 :: l2) [c] = Some None.
Proof.
  intros Hl Hc. unfold strstr. rewrite strstr_from_skip by done. cbn [strstr_from prefix_at]. rewrite (proj2 (Z.eqb_neq c 0)) by done. done.
Qed.
Lemma crlf_found l1 l2 : one_line l1 → strstr (l1 ++ CR :: LF :: l2) CRLF = Some (Some (Zlen l1)).
Proof. apply (strstr_found l1 l2 [LF] CR). Qed.

(** ** The fields *)

Definition keep_first (m : dict) (hs : list (list Z * list Z)) : dict := foldl (λ m p, map_insert p.1 p.2 m) m hs.

Lemma field_round_spec pre h rest nTotalLen s :
  field_ok h → Zlen pre + Zlen (print_header h) + 2 ≤ nTotalLen →
  wp (field_round (pre ++ print_header h ++ rest) nTotalLen (Zlen pre)) s (λ r s',
    r = inl (Zlen pre + Zlen (print_header h)) ∧ s' = set_fields (map_insert h.1 h.2 (m_mapFields s)) s).
Proof.
  intros Hh Hlen. pose proof (field_one_line h Hh) as Hl. destruct (field_line_cons h Hh) as (c & d & k & E & Hc).
  rewrite print_field in Hlen |- *. rewrite length_app in Hlen. cbn [length] in Hlen.
  assert (2 ≤ Zlen (field_line h)) as H2 by (rewrite E; cbn [length]; lia).
  unfold field_round. rewrite Z.gtb_ltb, (proj2 (Z.ltb_ge _ _)) by lia. apply wp_bind, (wp_some _ false).
  { unfold mem_eq. rewrite E. change (((c :: d :: k) ++ [CR; LF]) ++ rest) with ([c; d] ++ (k ++ [CR; LF]) ++ rest).
    rewrite bytes_app by done. cbn [mbind option_bind]. f_equal. apply bool_decide_eq_false. by intros [= ->]. }
  cbn match. apply wp_bind. rewrite drop_Zlen by done. rewrite <-app_assoc. cbn [app]. eapply wp_some; [by apply crlf_found|]. cbn match.
  rewrite with_zero_app by done. destruct Hh as [Hn Hv]. apply wp_bind. unfold field_line at 1 2 3. rewrite <-app_assoc. cbn [app].
  eapply wp_some; [apply (strstr_found h.1 (h.2 ++ 0 :: LF :: rest) [SP] 58); weaken Hn|]. cbn match.
  apply wp_bind, wp_modify, wp_ret. cbn [app]. split.
  - f_equal. fold (field_line h). rewrite length_app. cbn [length]. lia.
  - rewrite with_zero_app, c_str_null by (done || weaken Hn).
    assert (field_line h ++ 0 :: LF :: rest = (h.1 ++ [58; SP]) ++ h.2 ++ 0 :: LF :: rest) as -> by (unfold field_line; by rewrite <-!app_assoc).
    rewrite drop_Zlen by (rewrite length_app; cbn [length]; lia). rewrite c_str_null by weaken Hv. done.
Qed.

Lemma field_round_end pre rest nTotalLen s :
  wp (field_round (pre ++ CR :: LF :: rest) nTotalLen (Zlen pre)) s (λ r s', r = inr (Zlen pre) ∧ s' = s).
Proof.
  unfold field_round. destruct (_ >? _); [by apply wp_ret|]. apply wp_bind, (wp_some _ true); [|by apply wp_ret].
  unfold mem_eq. change (CR :: LF :: rest) with ([CR; LF] ++ rest). rewrite bytes_app by done. cbn [mbind option_bind]. done.
Qed.

Lemma fields_spec hs pre rest nTotalLen fuel s :
  Forall field_ok hs → Zlen pre + Zlen (head_text hs) + 2 ≤ nTotalLen → (length hs < fuel)%nat →
  wp (loop fuel (field_round (pre ++ head_text hs ++ CR :: LF :: rest) nTotalLen) (Zlen pre)) s (λ r s',
    r = Zlen pre + Zlen (head_text hs) ∧ s' = set_fields (keep_first (m_mapFields s) hs) s).
Proof.
  intros Hhs. revert pre fuel s. induction Hhs as [|h hs Hh Hhs IH]; intros pre fuel s Hlen Hf; (destruct fuel as [|fuel]; [cbn in Hf; lia|]); cbn [loop].
  - apply wp_bind. eapply wp_mono; [apply field_round_end|]. intros r s' [-> ->]. apply wp_ret. split; [cbn; lia|by destruct s].
  - rewrite head_text_cons in Hlen |- *. rewrite length_app in Hlen |- *. rewrite <-app_assoc. apply wp_bind.
    eapply wp_mono; [apply field_round_spec; [done|lia]|]. intros r s' [-> ->].
    rewrite app_assoc. replace (Zlen pre + Zlen (print_header h)) with (Zlen (pre ++ print_header h)) by (rewrite length_app; lia).
    eapply wp_mono; [apply IH; [rewrite length_app; lia|cbn in Hf; lia]|]. intros r s' [-> ->]. split; [rewrite length_app; lia|done].
Qed.

(** The first line in its array. *)
Lemma strncpy_short t old : Zlen t < 4095 → ∃ z, strncpy_line t old = t ++ 0 :: z.
Proof.
  intros Ht. unfold strncpy_line. assert (length t < 4095)%nat as Hn by lia. clear Ht. revert Hn. generalize 4095%nat as n. intros n Hn.
  rewrite take_app_ge by lia. rewrite take_replicate, Nat.min_l by lia. destruct (n - length t)%nat as [|m] eqn:E; [lia|]. cbn [replicate]. rewrite <-app_assoc. cbn [app]. eauto.
Qed.

Lemma head_text_length hs : (length hs ≤ length (head_text hs))%nat.
Proof.
  induction hs as [|h hs IH]; [done|]. rewrite head_text_cons, length_app. unfold print_header. rewrite length_app. cbn [length]. lia.
Qed.

Lemma parseField_spec t hs body x s :
  one_line t → Forall field_ok hs →
  wp (parseField (head_of t hs ++ body ++ x) (Zlen (head_of t hs ++ body))) s (λ r s',
    r = true ∧
    let s1 := set_fields (keep_first (m_mapFields s) hs) (set_first_line (strncpy_line t (m_szFirstLine s)) s) in
    s' = if decide (body = []) then s1 else set_content (Some (Zlen (head_of t hs))) s1).
Proof.
  intros Ht Hhs. unfold parseField. apply wp_bind. unfold head_of. rewrite <-!app_assoc. cbn [app]. rewrite <-!app_assoc. cbn [app].
  eapply wp_some; [by apply crlf_found|]. cbn match. rewrite with_zero_app by done.
  rewrite c_str_null by weaken Ht. apply wp_bind, wp_modify, wp_bind.
  generalize (strncpy_line t (m_szFirstLine s)). intros first.
  assert (t ++ 0 :: LF :: head_text hs ++ CR :: LF :: body ++ x = (t ++ [0; LF]) ++ head_text hs ++ CR :: LF :: body ++ x) as -> by (by rewrite <-app_assoc).
  replace (Zlen t + 2) with (Zlen (t ++ [0; LF])) by (rewrite length_app; cbn [length]; lia).
  eapply wp_mono; [apply fields_spec; [done| |]|].
  - rewrite !length_app. cbn [length]. rewrite !length_app. cbn [length]. lia.
  - rewrite !length_app. pose proof (head_text_length hs). lia.
  - intros r s' [-> ->]. apply wp_bind.
    assert (Zlen (t ++ [0; LF]) + Zlen (head_text hs) + 2 = Zlen (t ++ CR :: LF :: head_text hs ++ [CR; LF])) as -> by (rewrite !length_app; cbn [length]; rewrite !length_app; cbn [length]; lia).
    set (n := Zlen (t ++ CR :: LF :: head_text hs ++ [CR; LF])).
    assert (Zlen (t ++ CR :: LF :: head_text hs ++ CR :: LF :: body) = n + Zlen body) as -> by (unfold n; rewrite !length_app; cbn [length]; rewrite !length_app; cbn [length]; lia).
    apply wp_when; intros Hb; repeat (apply wp_modify || apply wp_bind || apply wp_ret); (split; [done|]); case_decide as Hd; try done.
    + apply Z.ltb_lt in Hb. rewrite Hd in Hb. cbn in Hb. lia.
    + apply Z.ltb_ge in Hb. destruct body; [done|cbn in Hb; lia].
Qed.

(** ** The first line *)

Definition target (uri : list Z) (q : option (list Z)) : list Z := uri ++ match q with Some q => 63 :: q | None => [] end.

(** A target without spaces that starts with a slash, without ? in front of the
    parameters. *)
Definition target_ok (uri : list Z) (q : option (list Z)) : Prop :=
  (∃ u, uri = SLASH :: u) ∧ Forall (λ c, c ≠ 63 ∧ c ≠ 0) uri ∧ Forall (λ c, c ≠ SP ∧ c ≠ 0) (target uri q).

Lemma http_found w uri q v :
  Forall (λ c, c ≠ SP ∧ c ≠ 0) w → target_ok uri q →
  strstr ((w ++ [SP]) ++ target uri q ++ str " HTTP" ++ v) (str " HTTP") = Some (Some (Zlen (w ++ [SP]) + Zlen (target uri q))).
Proof.
  intros Hw ([u ->] & _ & Ht). unfold strstr. rewrite <-app_assoc. change (str " HTTP") with (SP :: str "HTTP").
  rewrite strstr_from_skip by done. cbn [app]. rewrite strstr_step by done.
  pose proof (strstr_from_skip (target (SLASH :: u) q) (SP :: str "HTTP" ++ v) (str "HTTP") SP) as Hskip. rewrite Hskip by done.
  cbn [strstr_from]. change (SP :: str "HTTP" ++ v) with ((SP :: str "HTTP") ++ v). rewrite prefix_at_app. cbn [mbind option_bind].
  do 2 f_equal. rewrite length_app. cbn [length]. lia.
Qed.

(** What the first line says, and that nothing else changes. *)
Record line_read (uri : list Z) (q : option (list Z)) (ty : Z) (s s' : CHttpParser) : Prop := {
  lr_uri : get_uri s' = Some uri;
  lr_method : m_nHttpMethod s' = ty;
  lr_param : match q with
             | Some q => ∃ off z, m_pszActParam s' = Some off ∧ drop (Z.to_nat off) (m_szFirstLine s') = q ++ 0 :: z
             | None => m_pszActParam s' = m_pszActParam s
             end;
  lr_fields : m_mapFields s' = m_mapFields s;
  lr_content : m_pszContent s' = m_pszContent s;
  lr_length : m_nContentLen s' = m_nContentLen s;
  lr_params : m_paramParser s' = m_paramParser s;
}.

Inductive method : list Z → Z → Prop :=
  | method_get : method (str "GET") HTTP_UTIL_METHOD_GET
  | method_post : method (str "POST") HTTP_UTIL_METHOD_POST.

Lemma parseMethod_yes w ty uri q v s :
  Forall (λ c, c ≠ SP ∧ c ≠ 0) w → target_ok uri q → m_szFirstLine s = (w ++ [SP]) ++ target uri q ++ str " HTTP" ++ v →
  wp (parseMethod (w ++ [SP]) ty) s (λ r s', r = true ∧
    s' = set_method ty (set_first_line ((w ++ [SP]) ++ target uri q ++ 0 :: str "HTTP" ++ v) s)).
Proof.
  intros Hw Ht Hs. unfold parseMethod. apply wp_bind, wp_gets, wp_bind. rewrite Hs.
  eapply wp_some; [unfold mem_eq; rewrite bytes_prefix by done; cbn [mbind option_bind]; by rewrite bool_decide_eq_true_2|]. cbn match.
  apply wp_bind. eapply wp_some; [by apply http_found|]. cbn match. apply wp_bind, wp_modify, wp_ret. split; [done|].
  f_equal. f_equal. change (str " HTTP" ++ v) with (SP :: str "HTTP" ++ v). rewrite !(app_assoc (w ++ [SP]) (target uri q)). apply with_zero_app. rewrite !length_app. lia.
Qed.

Lemma method_round_spec w ty uri q v s :
  method w ty → target_ok uri q → m_szFirstLine s = (w ++ [SP]) ++ target uri q ++ str " HTTP" ++ v →
  wp (method_round ()) s (λ r s', r = inr (Zlen (w ++ [SP])) ∧
    s' = set_method ty (set_first_line ((w ++ [SP]) ++ target uri q ++ 0 :: str "HTTP" ++ v) s)).
Proof.
  intros Hm Ht Hs. unfold method_round. destruct Hm; apply wp_bind.
  - eapply wp_mono; [apply (parseMethod_yes (str "GET") HTTP_UTIL_METHOD_GET uri q v); [by repeat constructor|done..]|].
    intros r s' [-> ->]. by apply wp_ret.
  - unfold parseMethod at 1. apply wp_bind, wp_gets, wp_bind. rewrite Hs. apply (wp_some _ false).
    { rewrite mem_eq_app by (apply Nat.leb_le; reflexivity). done. }
    apply wp_ret, wp_bind.
    eapply wp_mono; [apply (parseMethod_yes (str "POST") HTTP_UTIL_METHOD_POST uri q v); [by repeat constructor|done..]|].
    intros r s' [-> ->]. by apply wp_ret.
Qed.

Lemma parseFirstLine_spec f w ty uri q v z s :
  method w ty → target_ok uri q → Forall (λ c, c ≠ 0) v → 3 ≤ Zlen v →
  m_szFirstLine s = (w ++ [SP]) ++ target uri q ++ str " HTTP" ++ v ++ 0 :: z →
  wp (parseFirstLine (S f)) s (λ r s', r = true ∧ line_read uri q ty s s').
Proof.
  intros Hm Hok Hv Hlen Hs. unfold parseFirstLine. apply wp_bind, wp_gets, wp_bind.
  assert (Forall (λ c, c ≠ 0) (w ++ [SP])) as Hw by (destruct Hm; by repeat constructor).
  pose proof Hok as ([u Hu] & Huri & Ht).
  eapply (wp_some _ ((w ++ [SP]) ++ target uri q ++ str " HTTP" ++ v)).
  { rewrite Hs, !app_assoc. apply c_string_text. rewrite <-!app_assoc. apply Forall_app. split; [by apply Forall_app in Hw as [? _]|].
    apply Forall_cons. split; [done|]. apply Forall_app. split; [weaken Ht|]. apply Forall_app. split; [by repeat constructor|done]. }
  rewrite (proj2 (Z.ltb_ge _ _)).
  2: { rewrite !length_app. change (length (str " HTTP")) with 5%nat. cbn [length]. destruct Hm; cbn [length]; vm_compute (length (str _)); lia. }
  apply wp_bind. cbn [loop]. apply wp_bind. eapply wp_mono; [by eapply method_round_spec|]. intros r s' [-> ->]. apply wp_ret. cbn match.
  apply wp_bind, wp_gets. cbn [m_nHttpMethod set_method]. assert (ty =? HTTP_UTIL_METHOD_NONE = false) as -> by (by destruct Hm).
  apply wp_bind, wp_gets. cbn [m_szFirstLine set_method set_first_line]. set (x := str "HTTP" ++ v ++ 0 :: z).
  apply wp_bind. rewrite drop_Zlen by done. unfold target. destruct q as [q|].
  - rewrite <-app_assoc. cbn [app]. eapply wp_some; [by apply strchr_found|]. cbn match. apply wp_bind, wp_modify, wp_bind, wp_modify, wp_ret.
    rewrite (app_assoc (w ++ [SP]) uri), with_zero_app by (rewrite !length_app; lia). split; [done|].
    split; try done; unfold get_uri; cbn [m_pszUri set_uri m_szFirstLine set_first_line set_act_param m_pszActParam].
    + rewrite <-app_assoc, drop_Zlen by done. apply c_string_text. weaken Huri.
    + eexists _, x. split; [done|]. change (0 :: q ++ 0 :: x) with ([0] ++ q ++ 0 :: x). rewrite app_assoc. apply drop_Zlen. rewrite !length_app. cbn [length]. lia.
  - rewrite app_nil_r. eapply wp_some; [by apply strchr_none|]. cbn match. apply wp_bind, wp_ret, wp_bind, wp_modify, wp_ret. split; [done|].
    split; try done; unfold get_uri; cbn [m_pszUri set_uri m_szFirstLine set_method set_first_line].
    rewrite drop_Zlen by done. apply c_string_text. weaken Huri.
Qed.
