(* ===== verification/HttpUtilTrip.v ===== *)
(** * http_codec: what the makers of http_util send arrives *)
From S2P Require Import Prelude GetNum HttpFunc HttpReq HttpFacts HttpLine HttpHead HttpProps HttpArgs HttpCodec HttpUtil HttpUtilFacts HttpUtilHead HttpUtilProps HttpUtilParse.
#[local] Open Scope Z_scope.

(** The length of a text, its literals computed. *)
Ltac text_length :=
  repeat (rewrite !length_app || cbn [length]);
  repeat match goal with |- context [length (str ?s)] => let n := eval vm_compute in (length (str s)) in change (length (str s)) with n end.

(** Two texts with the same bytes in the same order. *)
Ltac same_text :=
  unfold line, CRLF, CR, LF, SP, SLASH;
  repeat match goal with |- context [str ?s] => let l := eval vm_compute in (str s) in change (str s) with l end;
  repeat (progress (rewrite <-?app_assoc; cbn [app])); reflexivity.

(** ** A request *)

Section request.
Context (w : list Z) (ty : Z) (uri : list Z) (q : option (list Z)) (v : list Z) (hs : list (list Z * list Z)) (body : list Z).
Definition first_of : list Z := (w ++ [SP]) ++ target uri q ++ str " HTTP" ++ v.
Context (Hmethod : method w ty) (Htarget : target_ok uri q) (Hline : one_line first_of) (Hversion : 3 ≤ Zlen v).
Context (Hhs : Forall field_ok hs) (Hframed : framed first_of hs body).
Context (Hint : Zlen (head_of first_of hs ++ body) ≤ INT_MAX) (Hshort : Zlen first_of < 4095).
Context (m : dict) (Hm : match q with Some q => ∀ z, params_parse ∅ (q ++ 0 :: z) (Zlen q) = Some m | None => m = ∅ end).

(** What [parse_head] has read. *)
Record request_read (s : CHttpParser) : Prop := {
  rr_uri : get_uri s = Some uri;
  rr_method : m_nHttpMethod s = ty;
  rr_fields : ∀ name, get_head_field s name = default [] ((list_to_map hs : dict) !! name);
  rr_params : m_paramParser s = m;
  rr_length : m_nContentLen s = Zlen body;
  rr_content : m_pszContent s = if decide (body = []) then None else Some (Zlen (head_of first_of hs));
}.

Lemma head_read f x garbage :
  wp (parse_head (S f) (head_of first_of hs ++ body ++ x) (Zlen (head_of first_of hs ++ body)) HTTP_UTIL_PARAM_ALL) (new_parser garbage) (λ r s,
    r = Zlen (head_of first_of hs ++ body) ∧ request_read s).
Proof.
  unfold parse_head. apply wp_bind, wp_modify, wp_bind. set (n := Zlen (head_of first_of hs ++ body)).
  destruct (get_length_head first_of hs body Hframed Hline Hhs Hint (body ++ x) n) as [pos E]. eapply wp_some; [exact E|]. fold n. rewrite Z.ltb_irrefl. cbn match.
  apply wp_bind, wp_modify. assert (0 < n) as Hn by (unfold n, head_of; rewrite !length_app; cbn [length]; lia).
  rewrite (proj2 (Z.leb_gt n 0)) by done. apply wp_bind. eapply wp_mono; [by apply parseField_spec|]. intros r s1 [-> Hs1]. cbn [negb].
  destruct (strncpy_short first_of garbage Hshort) as [z Hz].
  assert (m_szFirstLine s1 = (w ++ [SP]) ++ target uri q ++ str " HTTP" ++ v ++ 0 :: z) as Hfirst.
  { assert (m_szFirstLine s1 = strncpy_line first_of garbage) as -> by (rewrite Hs1; by case_decide). rewrite Hz. unfold first_of. by rewrite <-!app_assoc. }
  apply wp_bind. eapply wp_mono; [eapply parseFirstLine_spec; [done..| |done|exact Hfirst]|].
  { unfold first_of in Hline. apply Forall_app in Hline as [_ Hl]. apply Forall_app in Hl as [_ Hl]. apply Forall_app in Hl as [_ Hl]. weaken Hl. }
  intros r s2 [-> [Huri Hmeth Hparam Hfields Hcontent Hlength Hparams]]. cbn [negb]. apply wp_bind, wp_get, wp_bind.
  assert (m_mapFields s1 = keep_first ∅ hs ∧ m_pszContent s1 = (if decide (body = []) then None else Some (Zlen (head_of first_of hs))) ∧
    m_nContentLen s1 = Zlen body ∧ m_paramParser s1 = ∅ ∧ m_pszActParam s1 = None) as (F1 & F2 & F3 & F4 & F5) by (rewrite Hs1; by case_decide).
  assert (∀ s, s = set_params m s2 → request_read s) as Hread.
  { intros s ->. split; cbn [m_nHttpMethod set_params m_mapFields m_paramParser m_nContentLen m_pszContent]; [exact Huri|done| |done|congruence|congruence].
    intros name. unfold get_head_field. cbn [set_params m_mapFields]. rewrite Hfields, F1. unfold keep_first. by rewrite insert_all, (left_id_L ∅ (∪)). }
  destruct q as [q'|].
  - destruct Hparam as (off & z' & -> & Hd). cbn match. apply wp_when; [|done]. intros _. rewrite Hd. apply wp_bind.
    destruct Htarget as (_ & _ & Ht). unfold target in Ht. apply Forall_app in Ht as [_ [_ Ht]%Forall_cons].
    eapply wp_some; [apply c_string_text; weaken Ht|]. apply wp_bind. rewrite Hparams, F4. eapply wp_some; [apply Hm|]. apply wp_modify, wp_ret. by split; [|apply Hread].
  - rewrite Hparam, F5. apply wp_ret, wp_ret. split; [done|]. apply Hread. rewrite Hm. destruct s2; unfold set_params; cbn in *. congruence.
Qed.
End request.

(** ** The makers and the parser *)

(** A maker to which the parameters have been added. *)
Definition maker (ps : list (list Z * list Z)) : CHttpParamStringMaker := foldl (λ q p, add_param p.1 p.2 q) new_maker ps.

Lemma maker_params ps : maker ps = Param_maker ps [].
Proof.
  unfold maker, new_maker. assert (∀ l, foldl (λ q p, add_param p.1 p.2 q) (Param_maker l []) ps = Param_maker (l ++ ps) []) as H; [|apply (H [])].
  induction ps as [|[k v] ps IH]; intros l; cbn [foldl]; [by rewrite app_nil_r|]. unfold add_param at 2. cbn [m_params m_strParamLines fst snd]. rewrite IH, <-app_assoc. done.
Qed.

(** A target that a first line can carry, and a line without spaces. *)
Definition in_line (l : list Z) : Prop := Forall (λ c, c ≠ SP ∧ c ≠ CR ∧ c ≠ 0) l.

Section trip.
Context (ps : list (list Z * list Z)) (host uri : list Z) (port size : Z).
Context (Hps : Forall sendable ps) (Hne : ps ≠ []) (Hhost : one_line host) (Hport : 0 ≤ port < 2 ^ 16).
Context (Huri : (∃ u, uri = SLASH :: u) ∧ (63 ∉ uri) ∧ in_line uri).
Context (Hline : Zlen uri + Zlen (join ps) + 16 < 4095) (Hsize : Zlen uri + Zlen (join ps) + Zlen host + 200 < size) (Hint : size ≤ INT_MAX).

Lemma port_field : one_line (host ++ port_text port) ∧ Zlen (port_text port) ≤ 11.
Proof.
  destruct (to_str_digits port) as [Hd Hl]; [unfold INT_MAX; lia|]. unfold port_text. destruct (port =? 80).
  - rewrite app_nil_r. split; [done|cbn; lia].
  - split; [apply Forall_app; split; [done|by apply Forall_cons]|cbn [length]; lia].
Qed.

Lemma uri_target q : in_line (match q with Some q => 63 :: q | None => [] end) → target_ok uri q.
Proof.
  destruct Huri as (Hu & Hq & Hl). intros Hp. split; [done|]. unfold in_line in Hl, Hp. split.
  - apply Forall_forall. intros c Hc. split; [by intros ->|]. by eapply Forall_forall in Hl as (_ & _ & ?).
  - apply Forall_app. split; [weaken Hl|weaken Hp].
Qed.

Lemma one_line_of l : in_line l → one_line l.
Proof. intros Hl. unfold in_line in Hl. weaken Hl. Qed.

Definition get_fields : list (list Z * list Z) :=
  [(str "Host", host ++ port_text port); (str "Connection", str "Keep-Alive"); (str "Accept", str "*/*"); (str "User-Agent", str "http_util")].

Lemma get_fields_ok : Forall field_ok get_fields.
Proof.
  destruct port_field as [Hp _]. unfold get_fields, field_ok. apply Forall_cons. split; [split; [by repeat constructor|done]|]. by repeat constructor.
Qed.

Definition get_text : list Z := head_of (first_of (str "GET") uri (Some (join ps)) (str "/1.1")) get_fields.

Lemma GET_text : GET_make (maker ps) host port uri size = Some (Zlen get_text, get_text) ∧ Zlen get_text < size.
Proof.
  assert (Zlen get_text < size) as Hlt.
  { destruct port_field as [_ Hp]. unfold get_text, head_of, first_of, target, get_fields, head_text, print_header. cbn [fmap list_fmap concat fst snd].
    text_length. lia. }
  split; [|done]. unfold GET_make. rewrite maker_params, get_params_spec by (done || lia). cbn [mbind option_bind].
  destruct Huri as (_ & _ & Hl). pose proof (join_no_null ps Hps) as Hj. unfold in_line in Hl.
  rewrite !c_str_id by (done || weaken Hl || weaken Hhost).
  assert (str "GET " ++ uri ++ 63 :: join ps ++ line " HTTP/1.1" ++ str "Host: " ++ host ++ port_text port ++ CRLF ++
    line "Connection: Keep-Alive" ++ line "Accept: */*" ++ line "User-Agent: http_util" ++ CRLF = get_text) as ->.
  { unfold get_text, head_of, first_of, target, get_fields, head_text, print_header. cbn [fmap list_fmap concat fst snd]. same_text. }
  unfold sprintf. by rewrite (proj2 (Z.ltb_lt _ _)).
Qed.

(** C15: A GET request that [CHttpMaker] makes is read back by [CHttpParser] from any
    array that starts with it: the target, every parameter, the host. *)
Theorem get_roundtrip f x garbage :
  in_line (join ps) →
  ∃ text, GET_make (maker ps) host port uri size = Some (Zlen text, text) ∧
    wp (parse_head (S f) (text ++ x) (Zlen text) HTTP_UTIL_PARAM_ALL) (new_parser garbage) (λ r s,
      r = Zlen text ∧ get_uri s = Some uri ∧ m_nHttpMethod s = HTTP_UTIL_METHOD_GET ∧ m_pszContent s = None ∧
      (∀ k, get_param s k = default [] ((list_to_map ps : dict) !! k)) ∧ get_head_field s (str "Host") = host ++ port_text port).
Proof.
  intros Hj. exists get_text. destruct GET_text as [E Hlt]. split; [done|].
  assert (target_ok uri (Some (join ps))) as Ht by (apply uri_target, Forall_cons; done).
  assert (one_line (first_of (str "GET") uri (Some (join ps)) (str "/1.1"))) as Hl.
  { apply Forall_app. split; [by repeat constructor|]. apply Forall_app. split; [|by repeat constructor].
    apply Forall_app. split; [apply one_line_of, Huri|]. apply Forall_cons. split; [done|by apply one_line_of]. }
  assert (Zlen get_text = Zlen (get_text ++ [])) as El by (by rewrite app_nil_r). rewrite El. change x with ([] ++ x).
  eapply wp_mono; [apply (head_read (str "GET") HTTP_UTIL_METHOD_GET uri (Some (join ps)) (str "/1.1")) with (m := list_to_map ps : dict)|].
  - constructor.
  - done.
  - done.
  - by vm_compute.
  - apply get_fields_ok.
  - eapply framed_get; [|done]. unfold first_of. same_text.
  - fold get_text. lia.
  - unfold first_of, target. text_length. lia.
  - intros z. rewrite params_parse_join by done. by rewrite (left_id_L ∅ (∪)).
  - intros r s [-> [R1 R2 R3 R4 R5 R6]]. split_and!; [done|done|done|done| |by rewrite R3].
    intros k. unfold get_param, params_get. by rewrite R4.
Qed.

(** The fields of a POST, those in front of the length first. *)
Definition post_before : list (list Z * list Z) :=
  [(str "Host", host ++ port_text port); (str "Content-type", str "application/x-www-form-urlencoded; charset=UTF-8")].
Definition post_fields : list (list Z * list Z) :=
  post_before ++ (str "Content-Length", to_str (Zlen (join ps))) :: [(str "Connection", str "Keep-Alive")].
Definition post_line : list Z := first_of (str "POST") uri None (str "/1.1").
Definition post_text : list Z := head_of post_line post_fields ++ join ps.

Lemma post_fields_ok : Forall field_ok post_fields.
Proof.
  destruct port_field as [Hp _]. destruct (to_str_digits (Zlen (join ps))) as [Hd _]; [lia|]. unfold post_fields, post_before, field_ok.
  apply Forall_cons. split; [split; [by repeat constructor|done]|]. apply Forall_cons. split; [by repeat constructor|].
  apply Forall_cons. split; [split; [by repeat constructor|done]|]. by repeat constructor.
Qed.

Lemma POST_text : POST_make (maker ps) host port uri size = Some (Zlen post_text, post_text) ∧ Zlen post_text < size.
Proof.
  assert (Zlen post_text < size) as Hlt.
  { destruct port_field as [_ Hp]. destruct (to_str_digits (Zlen (join ps))) as [_ Hd]; [lia|].
    unfold post_text, post_line, head_of, first_of, target, post_fields, post_before, head_text, print_header. cbn [app fmap list_fmap concat fst snd].
    text_length. lia. }
  split; [|done]. unfold POST_make. rewrite maker_params, get_params_spec by (done || lia). cbn [mbind option_bind].
  destruct Huri as (_ & _ & Hl). pose proof (join_no_null ps Hps) as Hj. unfold in_line in Hl.
  rewrite !c_str_id by (done || weaken Hl || weaken Hhost).
  assert (str "POST " ++ uri ++ line " HTTP/1.1" ++ str "Host: " ++ host ++ port_text port ++ CRLF ++
    line "Content-type: application/x-www-form-urlencoded; charset=UTF-8" ++
    str "Content-Length: " ++ to_str (Zlen (join ps)) ++ CRLF ++ line "Connection: Keep-Alive" ++ CRLF ++ join ps = post_text) as ->.
  { unfold post_text, post_line, head_of, first_of, target, post_fields, post_before, head_text, print_header. cbn [app fmap list_fmap concat fst snd]. same_text. }
  unfold sprintf. by rewrite (proj2 (Z.ltb_lt _ _)).
Qed.

(** A POST request that [CHttpMaker] makes is read back: the target from the
    head, every parameter from the body, which [parse_form_body] is asked for. *)
Theorem post_roundtrip f x garbage :
  first_length (post_line ++ CR :: LF :: head_text post_before) →
  ∃ text, POST_make (maker ps) host port uri size = Some (Zlen text, text) ∧
    wp (r ← parse_head (S f) (text ++ x) (Zlen text) HTTP_UTIL_PARAM_ALL; parse_form_body (text ++ x);; mret r) (new_parser garbage) (λ r s,
      r = Zlen text ∧ get_uri s = Some uri ∧ m_nHttpMethod s = HTTP_UTIL_METHOD_POST ∧
      (∀ k, get_param s k = default [] ((list_to_map ps : dict) !! k)) ∧ get_head_field s (str "Host") = host ++ port_text port).
Proof.
  intros Hfirst. exists post_text. destruct POST_text as [E Hlt]. split; [done|]. apply wp_bind. unfold post_text. rewrite <-app_assoc.
  assert (target_ok uri None) as Ht by (by apply uri_target, Forall_nil).
  assert (one_line post_line) as Hl.
  { apply Forall_app. split; [by repeat constructor|]. apply Forall_app. split; [|by repeat constructor]. unfold target. rewrite app_nil_r. apply one_line_of, Huri. }
  eapply wp_mono; [apply (head_read (str "POST") HTTP_UTIL_METHOD_POST uri None (str "/1.1")) with (m := ∅ : dict)|].
  - constructor.
  - done.
  - done.
  - by vm_compute.
  - apply post_fields_ok.
  - apply (framed_length _ _ _ (str "POST ") (uri ++ str " HTTP/1.1") post_before [(str "Connection", str "Keep-Alive")]); [by left| |done|done].
    unfold first_of, target. rewrite app_nil_r. same_text.
  - fold post_line. fold post_text. lia.
  - unfold first_of, target. text_length. lia.
  - done.
  - intros r s [-> [R1 R2 R3 R4 R5 R6]]. apply wp_bind. unfold parse_form_body. apply wp_bind, wp_get. rewrite R6.
    assert (join ps ≠ []) as Hj. { destruct (join_last ps Hps Hne) as (c & Hc & _). by intros Ej; rewrite Ej in Hc. }
    rewrite decide_False by done. apply wp_bind. fold post_line. rewrite drop_Zlen by done. rewrite R5, R4.
    eapply wp_some; [by apply params_parse_join|]. rewrite (left_id_L ∅ (∪)). apply wp_modify, wp_ret.
    split_and!; [done|exact R1|exact R2| |].
    + intros k. done.
    + change (get_head_field s (str "Host") = host ++ port_text port). by rewrite R3.
Qed.
End trip.

(** ** A first line without a version *)

Lemma strstr_none_more s pat i l : strstr_from s pat i = Some None → strstr_from (s ++ l) pat i = Some None.
Proof.
  revert i. induction s as [|c s IH]; intros i; cbn [strstr_from app].
  - destruct (prefix_at pat []) as [[]|]; done.
  - destruct (prefix_at pat (c :: s)) as [b|] eqn:E; [|done]. change (c :: s ++ l) with ((c :: s) ++ l).
    rewrite (prefix_at_more _ _ _ _ E). cbn [mbind option_bind]. destruct b; [done|]. destruct (c =? 0); [done|]. apply IH.
Qed.

Lemma parseMethod_no szMethod ty t z s :
  m_szFirstLine s = t ++ 0 :: z → (length szMethod ≤ length t)%nat → strstr (t ++ [0]) (str " HTTP") = Some None →
  parseMethod szMethod ty s = Ok (false, s).
Proof.
  intros Hs Hlen Hno. unfold parseMethod, mbind, M_bind, gets. rewrite Hs, mem_eq_app by done. cbn [lift]. unfold mret, M_ret.
  destruct (bool_decide _); [|done]. change (0 :: z) with ([0] ++ z). rewrite app_assoc. unfold strstr in Hno |- *. by rewrite strstr_none_more.
Qed.

(** [parseFirstLine] goes round for ever when it finds no method. *)
Lemma parse_head_no_method t hs body x fuel ty s :
  framed t hs body → one_line t → Forall field_ok hs → Zlen (head_of t hs ++ body) ≤ INT_MAX →
  10 ≤ Zlen t < 4095 → strstr (t ++ [0]) (str " HTTP") = Some None →
  parse_head fuel (head_of t hs ++ body ++ x) (Zlen (head_of t hs ++ body)) ty s = NoFuel.
Proof.
  intros Hframed Ht Hhs Hint Hlen Hno. unfold parse_head. set (n := Zlen (head_of t hs ++ body)).
  destruct (get_length_head t hs body Hframed Ht Hhs Hint (body ++ x) n) as [pos E]. rewrite E. fold n. rewrite Z.ltb_irrefl.
  assert (0 < n) as Hn by (unfold n, head_of; rewrite !length_app; cbn [length]; lia).
  set (s0 := set_content_len (Zlen body) (set_type ty s)).
  pose proof (parseField_spec t hs body x s0 Ht Hhs) as H. apply wp_ok in H as (r & s1 & Hfield & -> & Hs1). fold n in Hfield.
  destruct (strncpy_short t (m_szFirstLine s0)) as [z Hz]; [lia|].
  assert (m_szFirstLine s1 = t ++ 0 :: z) as Hfirst by (rewrite <-Hz, Hs1; by case_decide).
  unfold mbind, M_bind, modify. cbn [lift]. unfold mret at 1, M_ret at 1. fold s0.
  rewrite (proj2 (Z.leb_gt n 0)) by done. change (set_content_len (Zlen body) (set_type ty s)) with s0. rewrite Hfield. cbn [negb].
  assert (parseFirstLine fuel s1 = NoFuel) as ->; [|done].
  unfold parseFirstLine, mbind, M_bind, gets. rewrite Hfirst, c_string_text by (weaken Ht). cbn [lift]. unfold mret at 1, M_ret at 1.
  rewrite (proj2 (Z.ltb_ge _ _)) by lia.
  assert (∀ fuel, loop fuel method_round () s1 = NoFuel) as ->; [|done].
  intros k. induction k as [|k IH]; [done|]. cbn [loop]. unfold mbind, M_bind.
  assert (method_round () s1 = Ok (inl (), s1)) as ->; [|exact IH].
  unfold method_round, mbind, M_bind. rewrite !(parseMethod_no _ _ t z s1 Hfirst) by (done || (vm_compute (length (str _)); lia)). done.
Qed.

(** The first line of [make_string], and the fields behind it. *)
Definition ok_line : list Z := str "HTTP/1.1 200 OK".
Definition ok_fields (strContent content_type : list Z) (add_head : list (list Z * list Z)) : list (list Z * list Z) :=
  (str "Content-Length", to_str (Zlen strContent)) :: (str "Content-Type", content_type ++ str ";charset=utf-8") :: add_head.

Lemma make_string_head strContent content_type add_head :
  make_string strContent content_type (head_text add_head) = head_of ok_line (ok_fields strContent content_type add_head) ++ strContent.
Proof.
  unfold make_string, head_of, ok_line, ok_fields. rewrite !head_text_cons. unfold print_header. cbn [fst snd].
  change (str "Content-Length: ") with (str "Content-Length" ++ [58; SP]). change (str "Content-Type: ") with (str "Content-Type" ++ [58; SP]).
  unfold CRLF. repeat (rewrite <-?app_assoc; cbn [app]). done.
Qed.
Lemma ok_fields_ok strContent content_type add_head :
  Zlen strContent ≤ INT_MAX → one_line content_type → Forall field_ok add_head → Forall field_ok (ok_fields strContent content_type add_head).
Proof.
  intros Hlen Hct Hadd. unfold ok_fields. rewrite !Forall_cons. split; [|split; [|done]].
  - split; [by repeat constructor|]. destruct (to_str_digits (Zlen strContent)) as [Hd _]; [lia|]. weaken Hd.
  - split; [by repeat constructor|]. apply Forall_app. split; [done|by repeat constructor].
Qed.

(** C31: A message that is complete, whose first line has 10 to 4094 bytes and no
    [" HTTP"] in it, is never done: [parseFirstLine] goes round for ever,
    whatever the number of rounds.  Every response that [make_string] gives, of
    any content, type and further fields, is such a message. *)
Theorem parse_head_hangs x fuel ty s :
  (∀ t hs body, framed t hs body → one_line t → Forall field_ok hs → Zlen (head_of t hs ++ body) ≤ INT_MAX →
    10 ≤ Zlen t < 4095 → strstr (t ++ [0]) (str " HTTP") = Some None →
    parse_head fuel (head_of t hs ++ body ++ x) (Zlen (head_of t hs ++ body)) ty s = NoFuel) ∧
  (∀ strContent content_type add_head, one_line content_type → Forall field_ok add_head →
    let msg := make_string strContent content_type (head_text add_head) in
    Zlen msg ≤ INT_MAX → parse_head fuel (msg ++ x) (Zlen msg) ty s = NoFuel).
Proof.
  split; [intros; by apply parse_head_no_method|]. intros strContent content_type add_head Hct Hadd msg Hint.
  unfold msg in *. rewrite make_string_head in *. rewrite <-app_assoc.
  assert (Zlen strContent ≤ INT_MAX) as Hlen by (rewrite length_app in Hint; lia).
  apply parse_head_no_method; [|by repeat constructor|by apply ok_fields_ok|done|by vm_compute|by vm_compute].
  eapply (framed_length _ _ _ (str "HTTP/") (str "1.1 200 OK") []); [by right|done|done|by vm_compute].
Qed.

(** ** [UrlDecode] *)

Definition url_char (c : Z) : list Z := if kept c && negb (c =? 43) then [c] else [37; digit_char (c / 16); digit_char (c mod 16)].
Definition url_encode (s : list Z) : list Z := concat (url_char <$> s).

(** What the proof needs of one byte; it is checked for all of them. *)
Definition url_ok (c : Z) : bool :=
  if kept c && negb (c =? 43) then negb (c =? 43) && negb (c =? 37)
  else (c =? 43) || let a := digit_char (c / 16) in let b := digit_char (c mod 16) in
    let '(v, _, _) := strtol [a; b] 16 in (v =? c) && isxdigit a && isxdigit b && negb (kept c).

Lemma url_all c : 0 ≤ c < 256 → url_ok c = true.
Proof.
  intros Hc. assert (forallb url_ok (Z.of_nat <$> seq 0 256) = true) as H by (by vm_compute).
  rewrite forallb_forall in H. apply H. apply list_elem_of_In, list_elem_of_fmap. exists (Z.to_nat c).
  split; [lia|]. apply elem_of_seq. lia.
Qed.

(** No string decodes to one with a +, since a + is a space and %2b stays as it
    is; every other string is what its encoding decodes to. *)
Theorem UrlDecode_range s :
  (∀ t, 43 ∉ UrlDecode t) ∧ (Forall (λ c, 0 ≤ c < 256) s → 43 ∉ s → UrlDecode (url_encode s) = s).
Proof.
  split.
  - intros t. remember (length t) as n eqn:Hn. assert (length t ≤ n)%nat as Hle by lia. clear Hn. revert t Hle.
    induction n as [|n IH]; intros [|c t] Hle; cbn [length] in Hle; try lia; try apply not_elem_of_nil.
    assert (∀ d l, d ≠ 43 → (length l ≤ n)%nat → 43 ∉ d :: UrlDecode l) as Hcons.
    { intros d l Hd Hl [<-|Hin]%elem_of_cons; [done|]. by eapply IH. }
    cbn [UrlDecode]. destruct (Z.eqb_spec c 43) as [|Hc]; [by apply Hcons; [|lia]|]. destruct (c =? 37); [|by apply Hcons; [|lia]].
    destruct t as [|a [|b t]]; [apply Hcons; [done|simpl; lia]|apply Hcons; [done|simpl in *; lia]|]. destruct (strtol [a; b] 16) as [[v rest] err].
    destruct (isxdigit a && isxdigit b && negb (kept v)) eqn:E; [|by apply Hcons; [|lia]].
    apply Hcons; [|cbn in Hle; lia]. intros ->. by rewrite andb_false_r in E.
  - intros Hs. induction Hs as [|c s Hc Hs IH]; [done|]. intros [Hne Hn]%not_elem_of_cons. pose proof (url_all c Hc) as H.
    unfold url_encode. rewrite fmap_cons. cbn [concat]. fold (url_encode s). unfold url_ok in H. unfold url_char. destruct (kept c && negb (c =? 43)).
    + apply andb_true_iff in H as [_ H%negb_true_iff]. cbn [app UrlDecode]. rewrite (proj2 (Z.eqb_neq c 43)), H by done. by rewrite IH.
    + rewrite (proj2 (Z.eqb_neq c 43)) in H by done. cbn [orb] in H. cbn [app UrlDecode]. change (37 =? 43) with false. change (37 =? 37) with true. cbn match.
      destruct (strtol _ 16) as [[v rest] err]. rewrite !andb_true_iff in H. destruct H as [[[Hv%Z.eqb_eq ->] ->] Hk]. subst v. rewrite Hk. cbn. by rewrite IH.
Qed.

(** ** Witnesses *)

Definition demo_params_list : list (list Z * list Z) := [(str "user", str "a=b"); (str "n", str "7")].
Lemma demo_sendable : Forall sendable demo_params_list.
Proof.
  unfold demo_params_list. repeat (apply Forall_cons; split); [| |apply Forall_nil; done]; (split; cbn [fst snd]; [by repeat eexists|by repeat constructor|by repeat constructor|by vm_compute]).
Qed.
Lemma demo_uri : (∃ u, str "/cgi/x" = SLASH :: u) ∧ (63 ∉ str "/cgi/x") ∧ in_line (str "/cgi/x").
Proof.
  split; [by eexists|]. split; [|by repeat constructor]. intros H. apply list_elem_of_In in H. cbn in H. lia.
Qed.

Lemma get_roundtrip_witness :
  ∃ text, GET_make (maker demo_params_list) (str "host") 8080 (str "/cgi/x") 4096 = Some (Zlen text, text) ∧
    wp (parse_head 1 (text ++ [0]) (Zlen text) HTTP_UTIL_PARAM_ALL) (new_parser garbage) (λ r s, get_param s (str "user") = str "a=b").
Proof.
  destruct (get_roundtrip demo_params_list (str "host") (str "/cgi/x") 8080 4096 demo_sendable ltac:(done) ltac:(by repeat constructor) ltac:(lia) demo_uri
    ltac:(by vm_compute) ltac:(by vm_compute) ltac:(by vm_compute) 0%nat [0] garbage ltac:(by repeat constructor)) as (text & E & H).
  exists text. split; [exact E|]. eapply wp_mono; [exact H|]. intros r s (_ & _ & _ & _ & Hk & _). by rewrite Hk.
Defined.

Lemma post_roundtrip_witness :
  ∃ text, POST_make (maker demo_params_list) (str "host") 80 (str "/cgi/x") 4096 = Some (Zlen text, text) ∧
    wp (r ← parse_head 1 (text ++ [0]) (Zlen text) HTTP_UTIL_PARAM_ALL; parse_form_body (text ++ [0]);; mret r) (new_parser garbage)
      (λ r s, get_param s (str "n") = str "7").
Proof.
  destruct (post_roundtrip demo_params_list (str "host") (str "/cgi/x") 80 4096 demo_sendable ltac:(done) ltac:(by repeat constructor) ltac:(lia) demo_uri
    ltac:(by vm_compute) ltac:(by vm_compute) ltac:(by vm_compute) 0%nat [0] garbage ltac:(by vm_compute)) as (text & E & H).
  exists text. split; [exact E|]. eapply wp_mono; [exact H|]. intros r s (_ & _ & _ & Hk & _). by rewrite Hk.
Defined.

Lemma parse_head_hangs_witness :
  parse_head 1000 (make_string (str "body") (str "text/html") (head_text [(str "Server", str "s")]) ++ [0])
    (Zlen (make_string (str "body") (str "text/html") (head_text [(str "Server", str "s")]))) HTTP_UTIL_PARAM_ALL (new_parser garbage) = NoFuel ∧
  parse_head 1000 (head_of ok_line [(str "Content-Length", str "2")] ++ str "ok" ++ [0])
    (Zlen (head_of ok_line [(str "Content-Length", str "2")] ++ str "ok")) HTTP_UTIL_PARAM_ALL (new_parser garbage) = NoFuel.
Proof.
  split.
  - apply (proj2 (parse_head_hangs [0] 1000 HTTP_UTIL_PARAM_ALL (new_parser garbage))); [by repeat constructor|by repeat constructor|by vm_compute].
  - apply (proj1 (parse_head_hangs [0] 1000 HTTP_UTIL_PARAM_ALL (new_parser garbage))); [|by repeat constructor|by repeat constructor|by vm_compute|by vm_compute|by vm_compute].
    eapply (framed_length _ _ _ (str "HTTP/") (str "1.1 200 OK") [] []); [by right|done|done|by vm_compute].
Defined.

Lemma util_length_spec_witness :
  let m := head_of (str "GET / HTTP/1.1") [(str "Host", str "h")] in
  get_length (m ++ [0]) (Zlen m) = Some (Zlen m) ∧ get_length (take 20 m ++ [0]) 20 = Some 0.
Proof.
  intros m. assert (framed (str "GET / HTTP/1.1") [(str "Host", str "h")] []) as Hf by (by eapply (framed_get _ _ _ (str "/ HTTP/1.1"))).
  assert (m ++ [] = m) as Em by apply app_nil_r.
  pose proof (util_length_spec _ _ [] Hf ltac:(by repeat constructor) ltac:(by repeat constructor) ltac:(by vm_compute)) as H.
  fold m in H. rewrite Em in H. split.
  - rewrite (H m []); [|done|by vm_compute]. by rewrite decide_True by done.
  - change 20 with (Zlen (take 20 m)). rewrite (H (take 20 m) []); [|exists (drop 20 m); by rewrite take_drop|by vm_compute]. by rewrite decide_False by (by vm_compute).
Defined.

Lemma UrlDecode_range_witness : UrlDecode (url_encode (str "a b%")) = str "a b%".
Proof. apply (UrlDecode_range (str "a b%")); [by repeat constructor|]. intros H%list_elem_of_In. cbn in H. lia. Defined.
