(* ===== verification/ProcessPool.v ===== *)
(** * ProcessPool: the pool of processes

    [processpool.h] with [cgi_conn] of cgin_conn.cpp as its argument [T]: the
    parent that hands connections to its children in turn, the children that
    accept and serve them.  The kernel is a class: what a call returns and how
    it changes the kernel, with the results that are passed in memory.  Each
    process has a pool of its own; the calls that it made are kept, the latest
    last.  Diagnostics ([printf]) are left out, but for what they read. *)
From S2P Require Import Prelude.
#[local] Open Scope Z_scope.

(** ** System calls *)

Inductive call :=
  | Socketpair
  | Fork
  | Close (fd : Z)
  | Epoll_create
  | Epoll_add (ep fd : Z)
  | Epoll_del (ep fd : Z)
  | Fcntl_getfl (fd : Z)
  | Fcntl_setfl (fd flags : Z)
  | Sigaction (sig : Z) (ignore : bool)
  | Epoll_wait (ep n : Z)
  | Send (fd : Z) (data : list Z)
  | Recv (fd n : Z)
  | Accept (fd : Z)
  | Waitpid
  | Kill (pid sig : Z)
  | Access (path : list Z)
  | Dup (fd : Z)
  | Execl (path : list Z).

#[export] Instance call_eq_dec : EqDecision call.
Proof. solve_decision. Defined.

Definition SIGINT : Z := 2.
Definition SIGPIPE : Z := 13.
Definition SIGTERM : Z := 15.
Definition SIGCHLD : Z := 17.
Definition EPOLLIN : Z := 1.
Definition EINTR : Z := 4.
Definition EAGAIN : Z := 11.
Definition O_NONBLOCK : Z := 2048.
Definition STDOUT_FILENO : Z := 1.

(** The descriptors of the last [socketpair], the events of the last
    [epoll_wait], the bytes of the last [recv], the error number, and the
    children that have exited and are not waited for. *)
Class Kernel (K : Type) := {
  syscall : call → K → Z * K;
  k_fds : K → Z * Z;
  k_events : K → list (Z * Z);
  k_data : K → list Z;
  k_errno : K → Z;
  k_exited : K → list Z;
}.

(** What the pool relies on. *)
Class KernelLaws (K : Type) `{Kernel K} := {
  recv_law fd n k r k' : syscall (Recv fd n) k = (r, k') → r ≤ Z.max 0 n ∧ (0 < r → Z.of_nat (length (k_data k')) = r);
  wait_law k : match k_exited k with
    | [] => (syscall Waitpid k).1 ≤ 0
    | pid :: l => (syscall Waitpid k).1 = pid ∧ 0 < pid ∧ k_exited (syscall Waitpid k).2 = l
    end;
  close_law fd k : k_exited (syscall (Close fd) k).2 = k_exited k;
}.

(** ** Data *)

(** [class process]: [m_pipefd[0]] and [m_pipefd[1]]. *)
Record process := Process { m_pid : Z; m_pipefd0 : Z; m_pipefd1 : Z }.

Definition BUFFER_SIZE : Z := 1024.
Record cgi_conn := Cgi_conn { m_sockfd : Z; m_buf : list Z; m_read_idx : Z }.

Definition MAX_PROCESS_NUMBER : Z := 16.
Definition USER_PER_PROCESS : Z := 65536.
Definition MAX_EVENT_NUMBER : Z := 10000.

(** The pool of one process, the objects that its connections have been given,
    the static [m_epollfd] of [cgi_conn] and the pipe of the signals. *)
Record processpool (K : Type) := Pool {
  m_process_number : Z; m_idx : Z; m_epollfd : Z; m_listenfd : Z; m_stop : bool;
  m_sub_process : list process; sig_pipefd : Z * Z;
  user : gmap Z cgi_conn; cgi_epollfd : Z;
  kern : K; calls : list (call * Z);
}.
Arguments Pool {K} _ _ _ _ _ _ _ _ _ _ _.
Arguments m_process_number {K} _.
Arguments m_idx {K} _.
Arguments m_epollfd {K} _.
Arguments m_listenfd {K} _.
Arguments m_stop {K} _.
Arguments m_sub_process {K} _.
Arguments sig_pipefd {K} _.
Arguments user {K} _.
Arguments cgi_epollfd {K} _.
Arguments kern {K} _.
Arguments calls {K} _.

Definition set_pid (pid : Z) (p : process) : process := Process pid (m_pipefd0 p) (m_pipefd1 p).
Definition set_pipefd (fds : Z * Z) (p : process) : process := Process (m_pid p) fds.1 fds.2.

Section pool.
Context {K : Type} `{Kernel K}.
Abbreviation PP := (M (processpool K)).
Implicit Types s : processpool K.

Definition with_idx (i : Z) s := Pool (m_process_number s) i (m_epollfd s) (m_listenfd s) (m_stop s) (m_sub_process s) (sig_pipefd s) (user s) (cgi_epollfd s) (kern s) (calls s).
Definition with_epollfd (e : Z) s := Pool (m_process_number s) (m_idx s) e (m_listenfd s) (m_stop s) (m_sub_process s) (sig_pipefd s) (user s) (cgi_epollfd s) (kern s) (calls s).
Definition with_stop (b : bool) s := Pool (m_process_number s) (m_idx s) (m_epollfd s) (m_listenfd s) b (m_sub_process s) (sig_pipefd s) (user s) (cgi_epollfd s) (kern s) (calls s).
Definition with_subs (l : list process) s := Pool (m_process_number s) (m_idx s) (m_epollfd s) (m_listenfd s) (m_stop s) l (sig_pipefd s) (user s) (cgi_epollfd s) (kern s) (calls s).
Definition with_sig (p : Z * Z) s := Pool (m_process_number s) (m_idx s) (m_epollfd s) (m_listenfd s) (m_stop s) (m_sub_process s) p (user s) (cgi_epollfd s) (kern s) (calls s).
Definition with_user (u : gmap Z cgi_conn) (e : Z) s := Pool (m_process_number s) (m_idx s) (m_epollfd s) (m_listenfd s) (m_stop s) (m_sub_process s) (sig_pipefd s) u e (kern s) (calls s).
Definition with_kern (k : K) (c : list (call * Z)) s := Pool (m_process_number s) (m_idx s) (m_epollfd s) (m_listenfd s) (m_stop s) (m_sub_process s) (sig_pipefd s) (user s) (cgi_epollfd s) k c.

(** The state after a call. *)
Definition after (c : call) s : processpool K :=
  with_kern (syscall c (kern s)).2 (calls s ++ [(c, (syscall c (kern s)).1)]) s.
Definition sys (c : call) : PP Z := λ s, Ok ((syscall c (kern s)).1, after c s).
Definition do_ (c : call) : PP unit := sys c;; mret ().
Definition errno : PP Z := gets (λ s, k_errno (kern s)).

(** [m_sub_process[i]] within the array. *)
Definition sub_get (i : Z) : PP process := λ s,
  if decide (0 ≤ i) then match m_sub_process s !! Z.to_nat i with Some p => Ok (p, s) | None => UB end else UB.
Definition sub_set (i : Z) (f : process → process) : PP unit :=
  p ← sub_get i; modify (λ s, with_subs (<[Z.to_nat i := f p]> (m_sub_process s)) s).

(** [for (i = 0; i < m_process_number; i++)]. *)
Fixpoint for_subs (n : nat) (i : Z) (body : Z → PP unit) : PP unit :=
  match n with
  | O => mret ()
  | S n => body i;; for_subs n (i + 1) body
  end.
Definition all_subs (body : Z → PP unit) : PP unit :=
  n ← gets m_process_number; for_subs (Z.to_nat n) 0 body.

(** ** Descriptors and signals *)

Definition setnonblocking (fd : Z) : PP Z :=
  old_option ← sys (Fcntl_getfl fd);
  sys (Fcntl_setfl fd (Z.lor old_option O_NONBLOCK));;
  mret old_option.
Definition addfd (epollfd fd : Z) : PP unit :=
  do_ (Epoll_add epollfd fd);; setnonblocking fd;; mret ().
Definition removefd (epollfd fd : Z) : PP unit :=
  do_ (Epoll_del epollfd fd);; do_ (Close fd).
Definition addsig (sig : Z) (ignore : bool) : PP unit :=
  ret ← sys (Sigaction sig ignore); assert (negb (ret =? -1)).
(** The handler: the byte of the signal goes to the pipe. *)
Definition sig_handler (sig : Z) : PP unit :=
  fds ← gets sig_pipefd; do_ (Send fds.2 [sig mod 256]).

(** ** The constructor *)

Definition fork_round (i : Z) : PP (Z + unit) :=
  n ← gets m_process_number;
  if negb (i <? n) then mret (inr ()) else
  ret ← sys Socketpair;
  fds ← gets (λ s, k_fds (kern s));
  sub_set i (set_pipefd fds);;
  assert (ret =? 0);;
  pid ← sys Fork;
  sub_set i (set_pid pid);;
  assert (pid >=? 0);;
  if pid >? 0 then do_ (Close fds.2);; mret (inl (i + 1))
  else do_ (Close fds.1);; modify (with_idx i);; mret (inr ()).

(** [uninit] is what the pipes of a new array hold. *)
Definition processpool_new (uninit : Z * Z) (process_number : Z) : PP unit :=
  assert ((process_number >? 0) && (process_number <=? MAX_PROCESS_NUMBER));;
  modify (with_subs (replicate (Z.to_nat process_number) (Process (-1) uninit.1 uninit.2)));;
  loop (S (Z.to_nat process_number)) fork_round 0.

Definition setup_sig_pipe : PP unit :=
  epollfd ← sys Epoll_create;
  modify (with_epollfd epollfd);;
  assert (negb (epollfd =? -1));;
  ret ← sys Socketpair;
  modify (λ s, with_sig (k_fds (kern s)) s);;
  assert (negb (ret =? -1));;
  fds ← gets sig_pipefd;
  setnonblocking fds.2;;
  addfd epollfd fds.1;;
  addsig SIGCHLD false;;
  addsig SIGTERM false;;
  addsig SIGINT false;;
  addsig SIGPIPE true.

(** ** The parent *)

(** The loop that looks for a child from [sub_process_counter] on. *)
Definition free_round (sub_process_counter i : Z) : PP (Z + Z) :=
  n ← gets m_process_number;
  p ← sub_get i;
  if negb (m_pid p =? -1) then mret (inr i) else
  let i := Z.rem (i + 1) n in
  mret (if negb (i =? sub_process_counter) then inl i else inr i).

(** [new_conn] is 1 in the bytes of an [int]. *)
Definition new_conn : list Z := [1; 0; 0; 0].

(** A new connection: the next counter, and whether the loop over the events is
    left. *)
Definition on_listen (sub_process_counter : Z) : PP (Z * bool) :=
  n ← gets m_process_number;
  i ← loop (S (Z.to_nat n)) (free_round sub_process_counter) sub_process_counter;
  p ← sub_get i;
  if m_pid p =? -1 then modify (with_stop true);; mret (sub_process_counter, true) else
  do_ (Send (m_pipefd0 p) new_conn);;
  mret (Z.rem (i + 1) n, false).

(** The children that have exited, one after the other. *)
Definition reap_sub (pid i : Z) : PP unit :=
  p ← sub_get i;
  when (m_pid p =? pid) (do_ (Close (m_pipefd0 p));; sub_set i (set_pid (-1))).
Definition reap_round (_ : unit) : PP (unit + unit) :=
  pid ← sys Waitpid;
  if pid >? 0 then all_subs (reap_sub pid);; mret (inl ()) else mret (inr ()).
Definition stop_unless_living (i : Z) : PP unit :=
  p ← sub_get i; when (negb (m_pid p =? -1)) (modify (with_stop false)).
Definition on_chld : PP unit :=
  n ← gets (λ s, length (k_exited (kern s)));
  loop (S n) reap_round ();;
  modify (with_stop true);;
  all_subs stop_unless_living.

Definition kill_sub (i : Z) : PP unit :=
  p ← sub_get i; when (negb (m_pid p =? -1)) (do_ (Kill (m_pid p) SIGTERM)).

(** One byte of the pipe of the signals. *)
Definition parent_signal (sig : Z) : PP unit :=
  if sig =? SIGCHLD then on_chld
  else if (sig =? SIGTERM) || (sig =? SIGINT) then all_subs kill_sub
  else mret ().
Fixpoint for_signals (f : Z → PP unit) (l : list Z) : PP unit :=
  match l with [] => mret () | sig :: l => f sig;; for_signals f l end.
(** The bytes that [recv] gives, if any. *)
Definition recv_signals (f : Z → PP unit) : PP unit :=
  fds ← gets sig_pipefd;
  ret ← sys (Recv fds.1 1024);
  if ret <=? 0 then mret () else
  data ← gets (λ s, k_data (kern s));
  for_signals f (take (Z.to_nat ret) data).

Definition parent_event (sub_process_counter : Z) (ev : Z * Z) : PP (Z * bool) :=
  listenfd ← gets m_listenfd;
  fds ← gets sig_pipefd;
  if ev.1 =? listenfd then on_listen sub_process_counter
  else if (ev.1 =? fds.1) && negb (Z.land ev.2 EPOLLIN =? 0) then
    recv_signals parent_signal;; mret (sub_process_counter, false)
  else mret (sub_process_counter, false).
Fixpoint parent_events (sub_process_counter : Z) (evs : list (Z * Z)) : PP Z :=
  match evs with
  | [] => mret sub_process_counter
  | ev :: evs =>
      '(c, leave) ← parent_event sub_process_counter ev;
      if (leave : bool) then mret c else parent_events c evs
  end.

(** The events of an [epoll_wait]; [None] when it failed. *)
Definition wait_events : PP (option (list (Z * Z))) :=
  epollfd ← gets m_epollfd;
  number ← sys (Epoll_wait epollfd MAX_EVENT_NUMBER);
  e ← errno;
  if (number <? 0) && negb (e =? EINTR) then mret None else
  evs ← gets (λ s, k_events (kern s));
  mret (Some (take (Z.to_nat number) evs)).

(** One round of the loop over [epoll_wait]. *)
Definition parent_round (sub_process_counter : Z) : PP (Z + unit) :=
  stop ← gets m_stop;
  if (stop : bool) then mret (inr ()) else
  evs ← wait_events;
  match evs with
  | None => mret (inr ())
  | Some evs => c ← parent_events sub_process_counter evs; mret (inl c)
  end.
Definition run_parent (rounds : nat) : PP unit :=
  setup_sig_pipe;;
  epollfd ← gets m_epollfd;
  listenfd ← gets m_listenfd;
  addfd epollfd listenfd;;
  loop rounds parent_round 0;;
  do_ (Close epollfd).

(** ** A connection *)

(** [user[i]] within the array, after it was initialised. *)
Definition user_get (i : Z) : PP cgi_conn := λ s,
  if decide (0 ≤ i < USER_PER_PROCESS) then match user s !! i with Some c => Ok (c, s) | None => UB end else UB.
Definition user_put (i : Z) (c : cgi_conn) : PP unit := λ s,
  if decide (0 ≤ i < USER_PER_PROCESS) then Ok ((), with_user (<[i := c]> (user s)) (cgi_epollfd s) s) else UB.

Definition cgi_init (i epollfd sockfd : Z) : PP unit :=
  modify (λ s, with_user (user s) epollfd s);;
  user_put i (Cgi_conn sockfd (replicate (Z.to_nat BUFFER_SIZE) 0) 0).

(** The index behind the first CR and LF from [idx] on, or the end. *)
Fixpoint find_crlf (fuel : nat) (m_buf : list Z) (idx m_read_idx : Z) : option Z :=
  if negb (idx <? m_read_idx) then Some idx else
  match fuel with
  | O => None
  | S fuel =>
      c ← m_buf !! Z.to_nat idx;
      if negb (1 <=? idx) then find_crlf fuel m_buf (idx + 1) m_read_idx else
      p ← m_buf !! Z.to_nat (idx - 1);
      if (p =? 13) && (c =? 10) then Some idx else find_crlf fuel m_buf (idx + 1) m_read_idx
  end.

(** The characters up to the null; there must be one. *)
Fixpoint c_string (l : list Z) : option (list Z) :=
  match l with [] => None | c :: l => if c =? 0 then Some [] else (c ::.) <$> c_string l end.
Definition lift {A} (o : option A) : PP A := match o with Some a => mret a | None => ub end.

(** The program that a complete line names; the result tells whether this
    process goes on (it is not the new child). *)
Definition cgi_run (i : Z) : PP bool :=
  c ← user_get i;
  ep ← gets cgi_epollfd;
  file_name ← lift (c_string (m_buf c));
  a ← sys (Access file_name);
  if a =? -1 then removefd ep (m_sockfd c);; mret true else
  ret ← sys Fork;
  if ret =? -1 then removefd ep (m_sockfd c);; mret true
  else if ret >? 0 then removefd ep (m_sockfd c);; mret true
  else do_ (Close STDOUT_FILENO);; do_ (Dup (m_sockfd c));; do_ (Execl file_name);; mret false.

(** One [recv] of [process]: go round again, or leave. *)
Definition cgi_round (i : Z) (_ : unit) : PP (unit + bool) :=
  c ← user_get i;
  ep ← gets cgi_epollfd;
  let idx := m_read_idx c in
  ret ← sys (Recv (m_sockfd c) (BUFFER_SIZE - 1 - idx));
  if ret <? 0 then
    e ← errno;
    when (negb (e =? EAGAIN)) (removefd ep (m_sockfd c));; mret (inr true)
  else if ret =? 0 then removefd ep (m_sockfd c);; mret (inr true)
  else
    data ← gets (λ s, k_data (kern s));
    let buf := take (Z.to_nat idx) (m_buf c) ++ data ++ drop (Z.to_nat idx + length data) (m_buf c) in
    assert (length buf =? Z.to_nat BUFFER_SIZE)%nat;;
    let m_read_idx := idx + ret in
    lift (c_string buf);;
    idx ← lift (find_crlf (Z.to_nat BUFFER_SIZE) buf idx m_read_idx);
    if idx =? m_read_idx then user_put i (Cgi_conn (m_sockfd c) buf m_read_idx);; mret (inl ())
    else
      user_put i (Cgi_conn (m_sockfd c) (<[Z.to_nat (idx - 1) := 0]> buf) m_read_idx);;
      b ← cgi_run i; mret (inr b).
(** Every round but the last takes a byte in. *)
Definition cgi_process (i : Z) : PP bool := loop (S (Z.to_nat BUFFER_SIZE)) (cgi_round i) ().

(** ** The children *)

Definition child_signal (sig : Z) : PP unit :=
  if sig =? SIGCHLD then
    n ← gets (λ s, length (k_exited (kern s)));
    loop (S n) (λ _, pid ← sys Waitpid; mret (if pid >? 0 then inl () else inr ())) ()
  else if (sig =? SIGTERM) || (sig =? SIGINT) then modify (with_stop true)
  else mret ().

(** A byte of the parent: a connection is accepted. *)
Definition on_notify (sockfd : Z) : PP unit :=
  ret ← sys (Recv sockfd 4);
  e ← errno;
  if ((ret <? 0) && negb (e =? EAGAIN)) || (ret =? 0) then mret () else
  listenfd ← gets m_listenfd;
  connfd ← sys (Accept listenfd);
  if connfd <? 0 then mret () else
  epollfd ← gets m_epollfd;
  addfd epollfd connfd;;
  cgi_init connfd epollfd connfd.

(** Whether this process goes on. *)
Definition child_event (pipefd : Z) (ev : Z * Z) : PP bool :=
  fds ← gets sig_pipefd;
  let readable := negb (Z.land ev.2 EPOLLIN =? 0) in
  if (ev.1 =? pipefd) && readable then on_notify ev.1;; mret true
  else if (ev.1 =? fds.1) && readable then recv_signals child_signal;; mret true
  else if readable then cgi_process ev.1
  else mret true.
Fixpoint child_events (pipefd : Z) (evs : list (Z * Z)) : PP bool :=
  match evs with
  | [] => mret true
  | ev :: evs => b ← child_event pipefd ev; if (b : bool) then child_events pipefd evs else mret false
  end.
Definition child_round (pipefd : Z) (_ : unit) : PP (unit + bool) :=
  stop ← gets m_stop;
  if (stop : bool) then mret (inr true) else
  evs ← wait_events;
  match evs with
  | None => mret (inr true)
  | Some evs => b ← child_events pipefd evs; mret (if (b : bool) then inl () else inr false)
  end.
Definition run_child (rounds : nat) : PP unit :=
  setup_sig_pipe;;
  idx ← gets m_idx;
  p ← sub_get idx;
  epollfd ← gets m_epollfd;
  addfd epollfd (m_pipefd1 p);;
  b ← loop rounds (child_round (m_pipefd1 p)) ();
  if (b : bool) then
    modify (λ s, with_user ∅ (cgi_epollfd s) s);;
    do_ (Close (m_pipefd1 p));;
    epollfd ← gets m_epollfd; do_ (Close epollfd)
  else mret ().

Definition run (rounds : nat) : PP unit :=
  idx ← gets m_idx; if negb (idx =? -1) then run_child rounds else run_parent rounds.
End pool.
