(* ===== verification/ProcessPoolFacts.v ===== *)
(** * ProcessPool: the order of the children

    The children that live in the order in which the parent comes to them, and
    what its loops over the array of children do. *)
From S2P Require Import Prelude ProcessPool.
#[local] Open Scope Z_scope.

Definition living (p : process) : bool := negb (m_pid p =? -1).
Definition sub_living (subs : list process) (i : Z) : bool :=
  match subs !! Z.to_nat i with Some p => living p | None => false end.

(** The indices from [c] on, around the array, and those of living children. *)
Definition turn (n c : Z) : list Z := (λ k, (c + k) mod n) <$> seqZ 0 n.
Definition order (subs : list process) (c : Z) : list Z :=
  List.filter (sub_living subs) (turn (Z.of_nat (length subs)) c).

Section turn.
Context (n c : Z) (Hn : 0 < n) (Hc : 0 ≤ c < n).

Lemma turn_length : length (turn n c) = Z.to_nat n.
Proof. unfold turn. by rewrite length_fmap, length_seqZ. Qed.

(** Starting [m] places later is a rotation. *)
Lemma turn_rotate (m : Z) :
  0 ≤ m ≤ n → turn n ((c + m) mod n) = drop (Z.to_nat m) (turn n c) ++ take (Z.to_nat m) (turn n c).
Proof.
  intros Hm. unfold turn. rewrite <-fmap_drop, <-fmap_take.
  assert (seqZ 0 n = seqZ 0 m ++ seqZ m (n - m)) as E.
  { rewrite <-(Z.add_0_l m) at 2. rewrite <-seqZ_app by lia. f_equal. lia. }
  rewrite E at 2 3. rewrite drop_app_length' by (by rewrite length_seqZ). rewrite take_app_length' by (by rewrite length_seqZ).
  assert (seqZ 0 n = seqZ 0 (n - m) ++ seqZ (n - m) m) as ->.
  { rewrite <-(Z.add_0_l (n - m)) at 2. rewrite <-seqZ_app by lia. f_equal. lia. }
  rewrite fmap_app. f_equal.
  - assert (seqZ m (n - m) = Z.add m <$> seqZ 0 (n - m)) as -> by (by rewrite fmap_add_seqZ, Z.add_0_r). rewrite <-list_fmap_compose. apply list_fmap_ext. intros _ k _. simpl.
    rewrite Z.add_mod_idemp_l by lia. f_equal. lia.
  - assert (seqZ (n - m) m = Z.add (n - m) <$> seqZ 0 m) as -> by (by rewrite fmap_add_seqZ, Z.add_0_r). rewrite <-list_fmap_compose. apply list_fmap_ext. intros _ k _. simpl.
    rewrite Z.add_mod_idemp_l by lia. replace (c + m + (n - m + k)) with (c + k + 1 * n) by lia. by rewrite Z_mod_plus_full.
Qed.

Lemma turn_lookup (k : nat) : Z.of_nat k < n → turn n c !! k = Some ((c + Z.of_nat k) mod n).
Proof. intros Hk. unfold turn. rewrite list_lookup_fmap, lookup_seqZ_lt by lia. simpl. by rewrite Z.add_0_l. Qed.
End turn.

(** After the first of the order has had its turn, it is the last. *)
Lemma order_next subs c i o :
  0 ≤ c < Z.of_nat (length subs) → order subs c = i :: o →
  0 ≤ i < Z.of_nat (length subs) ∧ order subs ((i + 1) mod Z.of_nat (length subs)) = o ++ [i].
Proof.
  intros Hc Ho. set (n := Z.of_nat (length subs)) in *. assert (0 < n) as Hn by lia. unfold order in *. fold n in Ho |- *.
  assert (∃ k : nat, turn n c !! k = Some i ∧ List.filter (sub_living subs) (take k (turn n c)) = []) as (k & Hk & Hpre).
  { clear Hc Hn. revert Ho. generalize (turn n c). intros l. induction l as [|j l IH]; [done|]. simpl. destruct (sub_living subs j) eqn:E.
    - intros [= -> _]. by exists 0%nat.
    - intros Hl. destruct (IH Hl) as (k & H1 & H2). exists (S k). simpl. by rewrite E. }
  assert (Z.of_nat k < n) as Hkn. { apply lookup_lt_Some in Hk. rewrite turn_length in Hk. lia. }
  rewrite turn_lookup in Hk by done. injection Hk as Hi. split; [rewrite <-Hi; by apply Z.mod_pos_bound|].
  pose proof (turn_lookup n c k Hkn) as Hk. rewrite Hi in Hk.
  assert ((i + 1) mod n = (c + Z.of_nat (S k)) mod n) as ->.
  { rewrite <-Hi, Z.add_mod_idemp_l by lia. f_equal. lia. }
  rewrite turn_rotate by lia. rewrite Nat2Z.id. rewrite List.filter_app.
  rewrite (take_S_r _ _ i) by done. rewrite List.filter_app, Hpre. rewrite <-(take_drop k (turn n c)), List.filter_app, Hpre in Ho.
  rewrite (drop_S _ i) in Ho by done. cbn [app List.filter] in Ho |- *. destruct (sub_living subs i) eqn:E.
  - injection Ho as ->. done.
  - exfalso. assert (i ∈ List.filter (sub_living subs) (drop (S k) (turn n c))) as Hin by (rewrite Ho; left).
    apply list_elem_of_In, List.filter_In in Hin as [_ ?]. congruence.
Qed.

(** ** What the parent did with its pipes *)

Definition closes (fd : Z) (t : list (call * Z)) : nat :=
  length (List.filter (λ e, bool_decide (e.1 = Close fd)) t).

(** The parent's end of every pipe has been closed once when the child has
    been reaped, and else not at all; nothing was sent after it. *)
Record pipes_ok (subs : list process) (t : list (call * Z)) : Prop := {
  po_nodup : NoDup (m_pipefd0 <$> subs);
  po_closed : ∀ p, p ∈ subs → closes (m_pipefd0 p) t = if living p then 0%nat else 1%nat;
  po_sends : ∀ t1 e t2 p d, p ∈ subs → t = t1 ++ e :: t2 → e.1 = Send (m_pipefd0 p) d → closes (m_pipefd0 p) t1 = 0%nat;
}.

Lemma closes_snoc fd t e : closes fd (t ++ [e]) = (closes fd t + if decide (e.1 = Close fd) then 1 else 0)%nat.
Proof. unfold closes. rewrite List.filter_app, length_app. simpl. case_decide; [by rewrite bool_decide_true|by rewrite bool_decide_false]. Qed.

Lemma snoc_split {A} (t t1 t2 : list A) x e : t ++ [x] = t1 ++ e :: t2 → (t1 = t ∧ e = x ∧ t2 = []) ∨ ∃ t3, t = t1 ++ e :: t3.
Proof.
  revert t. induction t2 as [|y t2 _] using rev_ind; intros t Ht.
  - apply app_inj_tail in Ht as [-> ->]. by left.
  - rewrite app_comm_cons, app_assoc in Ht. apply app_inj_tail in Ht as [-> _]. right. by eexists.
Qed.

(** Any other call, and a message to a child that lives. *)
Lemma pipes_call subs t c r :
  pipes_ok subs t → (∀ p, p ∈ subs → c ≠ Close (m_pipefd0 p)) →
  (∀ p d, p ∈ subs → c = Send (m_pipefd0 p) d → living p = true) → pipes_ok subs (t ++ [(c, r)]).
Proof.
  intros [Hnd Hcl Hse] Hc Hs. split; [done|..].
  - intros p Hp. rewrite closes_snoc, Hcl by done. rewrite decide_False by (by apply Hc). lia.
  - intros t1 e t2 p d Hp [(-> & -> & _)|[t3 ->]]%snoc_split He.
    + simpl in He. rewrite Hcl by done. by rewrite (Hs p d).
    + by eapply Hse.
Qed.

(** A child that lived is reaped. *)
Lemma pipes_reap subs t i p r :
  pipes_ok subs t → subs !! i = Some p → living p = true →
  pipes_ok (<[i := set_pid (-1) p]> subs) (t ++ [(Close (m_pipefd0 p), r)]).
Proof.
  intros [Hnd Hcl Hse] Hp Hl.
  assert (∀ q, q ∈ <[i := set_pid (-1) p]> subs → q = set_pid (-1) p ∨ q ∈ subs ∧ m_pipefd0 q ≠ m_pipefd0 p) as Hin.
  { intros q (j & Hj)%list_elem_of_lookup. destruct (decide (i = j)) as [<-|Hne].
    - rewrite list_lookup_insert_eq in Hj by (by eapply lookup_lt_Some). left. congruence.
    - rewrite list_lookup_insert_ne in Hj by done. right. split; [by eapply list_elem_of_lookup_2|]. intros E. apply Hne.
      eapply (NoDup_lookup _ _ _ (m_pipefd0 p) Hnd); by rewrite list_lookup_fmap, ?Hp, ?Hj; simpl; rewrite ?E. }
  assert (p ∈ subs) as Hps by (by eapply list_elem_of_lookup_2). split.
  - rewrite list_fmap_insert. simpl. rewrite list_insert_id; [done|]. by rewrite list_lookup_fmap, Hp.
  - intros q [->|[Hq Hne]]%Hin; rewrite closes_snoc; simpl.
    + rewrite Hcl, Hl by done. by rewrite decide_True.
    + rewrite decide_False by congruence. rewrite Hcl by done. lia.
  - intros t1 e t2 q d Hq [(-> & -> & _)|[t3 ->]]%snoc_split He; [done|].
    apply Hin in Hq as [->|[Hq _]]; [by eapply (Hse _ _ _ p)|by eapply (Hse _ _ _ q)].
Qed.

Section facts.
Context {K : Type} `{Kernel K}.
Implicit Types s : processpool K.

Definition pool_ok s : Prop :=
  m_process_number s = Z.of_nat (length (m_sub_process s)) ∧ 0 < m_process_number s ≤ MAX_PROCESS_NUMBER.

Lemma wp_sys c s (Q : Z → processpool K → Prop) : Q (syscall c (kern s)).1 (after c s) → wp (sys c) s Q.
Proof. done. Qed.
Lemma wp_do c s (Q : unit → processpool K → Prop) : Q () (after c s) → wp (do_ c) s Q.
Proof. done. Qed.
Lemma wp_sub_get i p s (Q : process → processpool K → Prop) :
  0 ≤ i → m_sub_process s !! Z.to_nat i = Some p → Q p s → wp (sub_get i) s Q.
Proof. intros Hi Hp HQ. unfold wp, sub_get. by rewrite decide_True, Hp by done. Qed.
Lemma wp_sub_set i f p s (Q : unit → processpool K → Prop) :
  0 ≤ i → m_sub_process s !! Z.to_nat i = Some p → Q () (with_subs (<[Z.to_nat i := f p]> (m_sub_process s)) s) → wp (sub_set i f) s Q.
Proof. intros. apply wp_bind. by eapply wp_sub_get. Qed.

Lemma sub_in_range s i : pool_ok s → 0 ≤ i < m_process_number s → ∃ p, m_sub_process s !! Z.to_nat i = Some p.
Proof. intros [E _] Hi. apply lookup_lt_is_Some. lia. Qed.

(** The search stops at the first of the order, or comes back to its start. *)
Lemma free_loop s c :
  pool_ok s → 0 ≤ c < m_process_number s →
  wp (loop (S (Z.to_nat (m_process_number s))) (free_round c) c) s (λ i s', s' = s ∧ i = default c (head (order (m_sub_process s) c))).
Proof.
  intros Hs Hc. pose proof Hs as [Hn Hpos]. set (n := m_process_number s) in *.
  set (l := turn n c). set (f := sub_living (m_sub_process s)).
  apply (wp_loop (λ m i s', s' = s ∧ ∃ k : nat, l !! k = Some i ∧ (m + S k)%nat = Z.to_nat n ∧ List.filter f (take k l) = [])
    _ _) with (n := pred (Z.to_nat n)); [|split; [done|]; exists 0%nat|lia].
  - intros m i s' (-> & k & Hk & Hm & Hpre). assert (Z.of_nat k < n) as Hkn by lia.
    pose proof Hk as Hk'. unfold l in Hk'. rewrite turn_lookup in Hk' by lia. injection Hk' as Hi.
    assert (0 ≤ i < n) as Hir by (rewrite <-Hi; apply Z.mod_pos_bound; lia).
    destruct (sub_in_range s i Hs Hir) as [p Hp]. unfold free_round. wp_go. eapply wp_sub_get; [lia|done|].
    assert (f i = negb (m_pid p =? -1)) as Hf by (unfold f, sub_living; by rewrite Hp).
    assert (order (m_sub_process s) c = (if f i then [i] else []) ++ List.filter f (drop (S k) l)) as Ho.
    { unfold order. rewrite <-Hn. fold l f. rewrite <-(take_drop k l) at 1. rewrite List.filter_app, Hpre, (drop_S l i) by done. simpl.
      by destruct (f i). }
    rewrite <-Hf. destruct (f i) eqn:Ef; [wp_go; split; [done|]; by rewrite Ho|]. fold n.
    assert (Z.rem (i + 1) n = (c + Z.of_nat (S k)) mod n) as ->.
    { rewrite Z.rem_mod_nonneg by lia. rewrite <-Hi, Z.add_mod_idemp_l by lia. f_equal. lia. }
    wp_go. destruct (Z.eqb_spec ((c + Z.of_nat (S k)) mod n) c) as [E|E]; simpl.
    + split; [done|]. rewrite Ho, E. simpl. rewrite drop_ge; [done|]. unfold l. rewrite turn_length.
      destruct (decide (Z.of_nat (S k) < n)); [|lia]. exfalso.
      assert (Z.of_nat (S k) = 0 ∨ n ≤ Z.of_nat (S k)); [|lia]. destruct (Z.lt_ge_cases (c + Z.of_nat (S k)) n).
      * rewrite Z.mod_small in E by lia. lia.
      * rewrite <-(Z_mod_plus_full _ (-1)), Z.mod_small in E by lia. lia.
    + exists (pred m). assert (Z.of_nat (S k) ≠ n) as Hne.
      { intros Heq. rewrite Heq in E. rewrite <-(Z.mul_1_l n) in E at 1. rewrite Z_mod_plus_full, Z.mod_small in E by lia. lia. }
      split; [lia|]. split; [done|]. exists (S k). split; [unfold l; apply turn_lookup; lia|]. split; [lia|].
      rewrite (take_S_r _ _ i) by done. rewrite List.filter_app, Hpre. simpl. by rewrite Ef.
  - split; [unfold l; rewrite turn_lookup by lia; simpl; by rewrite Z.add_0_r, Z.mod_small by lia|]. split; [lia|done].
Qed.

Lemma order_living subs c i o : order subs c = i :: o → ∃ p, subs !! Z.to_nat i = Some p ∧ m_pid p ≠ -1.
Proof.
  intros Ho. assert (i ∈ order subs c) as Hin by (rewrite Ho; left).
  apply list_elem_of_In, List.filter_In in Hin as [_ Hf]. unfold sub_living, living in Hf. destruct (subs !! Z.to_nat i) as [p|]; [|done].
  exists p. split; [done|]. by apply negb_true_iff, Z.eqb_neq in Hf.
Qed.

(** The parent's end of the pipe of a child. *)
Definition pipe0 (subs : list process) (i : Z) : Z := from_option m_pipefd0 0 (subs !! Z.to_nat i).
Definition notify s (i : Z) : processpool K := after (Send (pipe0 (m_sub_process s) i) new_conn) s.

Lemma order_nil_dead s c :
  pool_ok s → 0 ≤ c < m_process_number s → order (m_sub_process s) c = [] →
  ∃ p, m_sub_process s !! Z.to_nat c = Some p ∧ m_pid p = -1.
Proof.
  intros Hs Hc Ho. destruct (sub_in_range s c Hs Hc) as [p Hp]. exists p. split; [done|].
  destruct (decide (m_pid p = -1)); [done|exfalso]. assert (c ∈ order (m_sub_process s) c) as Hin.
  { apply list_elem_of_In, List.filter_In. split.
    - apply list_elem_of_In. apply list_elem_of_lookup. exists 0%nat. destruct Hs as [<- _]. rewrite turn_lookup by lia.
      by rewrite Z.add_0_r, Z.mod_small by lia.
    - unfold sub_living. rewrite Hp. unfold living. by rewrite (proj2 (Z.eqb_neq _ _)). }
  rewrite Ho in Hin. by apply not_elem_of_nil in Hin.
Qed.

Lemma on_listen_ok s c :
  pool_ok s → 0 ≤ c < m_process_number s →
  wp (on_listen c) s (λ r s',
    match order (m_sub_process s) c with
    | [] => r = (c, true) ∧ s' = with_stop true s
    | i :: _ => r = ((i + 1) mod m_process_number s, false) ∧ s' = notify s i
    end).
Proof.
  intros Hs Hc. unfold on_listen. wp_go. eapply wp_mono; [by apply free_loop|]. intros i s' [-> ->].
  destruct (order (m_sub_process s) c) as [|i o] eqn:Ho; simpl.
  - destruct (order_nil_dead s c Hs Hc Ho) as (p & Hp & Hd). wp_go. eapply wp_sub_get; [lia|done|]. rewrite Hd. simpl. by wp_go.
  - destruct (order_living _ _ _ _ Ho) as (p & Hp & Hl). pose proof Hs as [Hn _]. rewrite Hn in Hc. destruct (order_next _ _ _ _ Hc Ho) as [Hi _].
    wp_go. eapply wp_sub_get; [lia|done|]. rewrite (proj2 (Z.eqb_neq _ _)) by done. wp_go. apply wp_do. wp_go.
    split; [by rewrite Z.rem_mod_nonneg by lia|]. unfold notify, pipe0. by rewrite Hp.
Qed.

(** ** Loops over the children *)

Lemma wp_for_subs (I : Z → processpool K → Prop) n i body s :
  I i s → (∀ j s', i ≤ j < i + Z.of_nat n → I j s' → wp (body j) s' (λ _, I (j + 1))) →
  wp (for_subs n i body) s (λ _, I (i + Z.of_nat n)).
Proof.
  revert i s. induction n as [|n IH]; intros i s Hi Hbody; cbn [for_subs]; wp_go; [by rewrite Z.add_0_r|].
  eapply wp_mono; [apply Hbody; [lia|done]|]. intros [] s' Hs'. simpl.
  replace (i + Z.of_nat (S n)) with (i + 1 + Z.of_nat n) by lia. apply IH; [done|]. intros j s'' Hj. apply Hbody. lia.
Qed.

Lemma wp_all_subs (I : Z → processpool K → Prop) body s :
  pool_ok s → I 0 s → (∀ j s', 0 ≤ j < m_process_number s → I j s' → wp (body j) s' (λ _, I (j + 1))) →
  wp (all_subs body) s (λ _, I (m_process_number s)).
Proof.
  intros [_ Hn] H0 Hbody. pose proof (wp_for_subs I (Z.to_nat (m_process_number s)) 0 body s H0) as Hf.
  rewrite Z2Nat.id, Z.add_0_l in Hf by lia. unfold all_subs. wp_go. apply Hf, Hbody.
Qed.

Definition parent_inv s : Prop := pool_ok s ∧ pipes_ok (m_sub_process s) (calls s).
(** What the parent's handlers leave alone. *)
Definition same_pool s s' : Prop :=
  m_process_number s' = m_process_number s ∧ m_listenfd s' = m_listenfd s ∧ m_epollfd s' = m_epollfd s ∧ sig_pipefd s' = sig_pipefd s.

Definition reap1 (pid : Z) (p : process) : process := if m_pid p =? pid then set_pid (-1) p else p.

Lemma living_pid p pid : 0 < pid → (m_pid p =? pid) = true → living p = true.
Proof. intros Hpid E%Z.eqb_eq. unfold living. by rewrite E, (proj2 (Z.eqb_neq pid (-1))) by lia. Qed.

Context `{!KernelLaws K}.

Lemma reap_all s pid :
  parent_inv s → 0 < pid →
  wp (all_subs (reap_sub pid)) s (λ _ s', parent_inv s' ∧ same_pool s s' ∧ k_exited (kern s') = k_exited (kern s) ∧
    m_sub_process s' = reap1 pid <$> m_sub_process s).
Proof.
  intros [Hs Hpo] Hpid. pose proof Hs as [Hn Hpos].
  eapply wp_mono; [apply (wp_all_subs (λ j s', parent_inv s' ∧ same_pool s s' ∧ k_exited (kern s') = k_exited (kern s) ∧
    m_sub_process s' = (reap1 pid <$> take (Z.to_nat j) (m_sub_process s)) ++ drop (Z.to_nat j) (m_sub_process s))); [done|..]|].
  - split_and!; done.
  - intros j s' Hj ((Hs' & Hpo') & Hsame & Hex & Hsub). pose proof Hsame as (Hnum & _). rewrite <-Hnum in Hj.
    destruct (sub_in_range s' j Hs' Hj) as [p Hp]. unfold reap_sub. wp_go. eapply wp_sub_get; [lia|done|].
    assert (m_sub_process s !! Z.to_nat j = Some p) as Hp0.
    { rewrite Hsub, lookup_app_r, length_fmap, length_take in Hp by (rewrite length_fmap, length_take; lia).
      rewrite lookup_drop in Hp. rewrite <-Hp. f_equal. lia. }
    replace (Z.to_nat (j + 1)) with (S (Z.to_nat j)) by lia. rewrite (take_S_r _ _ p), fmap_app, <-app_assoc by done.
    rewrite (drop_S _ p) in Hsub by done. simpl. unfold reap1 at 2.
    apply wp_when; intros Hpp; rewrite Hpp.
    + wp_go. apply wp_do. eapply wp_sub_set; [lia|done|]. simpl. split_and!.
      * split; [|simpl; apply pipes_reap; [done..|]; by eapply living_pid].
        destruct Hs' as [E1 E2]. split; [|done]. simpl. by rewrite length_insert.
      * done.
      * simpl. by rewrite close_law.
      * rewrite Hsub. rewrite insert_app_r_alt by (rewrite length_fmap, length_take; lia). rewrite length_fmap, length_take.
        by replace (Z.to_nat j - (Z.to_nat j `min` length (m_sub_process s)))%nat with 0%nat by lia.
    + split_and!; done.
  - intros [] s' (H1 & H2 & H3 & ->). split_and!; [done..|]. rewrite Hn, Nat2Z.id, firstn_all, drop_all. by rewrite app_nil_r.
Qed.

Definition reaped (pids : list Z) (subs : list process) : list process :=
  (λ p, if decide (m_pid p ∈ pids) then set_pid (-1) p else p) <$> subs.

Lemma reaped_cons pid pids subs : 0 < pid → reaped pids (reap1 pid <$> subs) = reaped (pid :: pids) subs.
Proof.
  intros Hpid. unfold reaped. rewrite <-list_fmap_compose. apply list_fmap_ext. intros _ p _. unfold reap1. simpl.
  destruct (Z.eqb_spec (m_pid p) pid) as [E|E].
  - rewrite (decide_True (P := m_pid p ∈ pid :: pids)) by (rewrite E; left). by case_decide.
  - destruct (decide (m_pid p ∈ pids)); [by rewrite decide_True by (by right)|]. rewrite decide_False; [done|].
    intros [?|?]%elem_of_cons; done.
Qed.
Lemma reaped_nil subs : reaped [] subs = subs.
Proof. unfold reaped. rewrite <-(list_fmap_id subs) at 2. apply list_fmap_ext. intros _ p _. rewrite decide_False; [done|]. apply not_elem_of_nil. Qed.

Lemma call_inv c s :
  parent_inv s → (∀ fd, c ≠ Close fd) → (∀ fd d, c ≠ Send fd d) → parent_inv (after c s) ∧ same_pool s (after c s).
Proof.
  intros [Hs Hp] H1 H2. split; [|done]. split; [done|]. simpl. apply pipes_call; [done|..].
  - intros p _. apply H1.
  - intros p d _ E. by apply H2 in E.
Qed.

Lemma same_pool_trans s1 s2 s3 : same_pool s1 s2 → same_pool s2 s3 → same_pool s1 s3.
Proof. unfold same_pool. intuition congruence. Qed.

Lemma stop_all s :
  pool_ok s → m_stop s = true → wp (all_subs stop_unless_living) s (λ _ s', s' = with_stop (forallb (λ p, negb (living p)) (m_sub_process s)) s).
Proof.
  intros Hs Hstop. pose proof Hs as [Hn Hpos].
  eapply wp_mono; [apply (wp_all_subs (λ j s', s' = with_stop (forallb (λ p, negb (living p)) (take (Z.to_nat j) (m_sub_process s))) s)); [done|..]|].
  - simpl. destruct s; simpl in *. by rewrite Hstop.
  - intros j s' Hj ->. destruct (sub_in_range s j Hs Hj) as [p Hp]. unfold stop_unless_living. wp_go. eapply wp_sub_get; [lia|done|].
    replace (Z.to_nat (j + 1)) with (S (Z.to_nat j)) by lia. rewrite (take_S_r _ _ p), forallb_app by done. simpl.
    fold (living p). rewrite andb_true_r. destruct (living p); simpl; wp_go; [by rewrite andb_false_r|by rewrite andb_true_r].
  - intros [] s' ->. by rewrite Hn, Nat2Z.id, firstn_all.
Qed.

Lemma on_chld_ok s :
  parent_inv s →
  wp on_chld s (λ _ s', parent_inv s' ∧ same_pool s s' ∧ m_sub_process s' = reaped (k_exited (kern s)) (m_sub_process s) ∧
    m_stop s' = forallb (λ p, negb (living p)) (m_sub_process s')).
Proof.
  intros Hs. unfold on_chld. wp_go. eapply wp_mono.
  { apply (wp_loop (λ n _ s', n = length (k_exited (kern s')) ∧ parent_inv s' ∧ same_pool s s' ∧
      reaped (k_exited (kern s')) (m_sub_process s') = reaped (k_exited (kern s)) (m_sub_process s)) _
      (λ _ s', parent_inv s' ∧ same_pool s s' ∧ m_sub_process s' = reaped (k_exited (kern s)) (m_sub_process s)))
      with (n := length (k_exited (kern s))); [|by split_and!|lia].
    intros n [] s' (-> & Hinv & Hsame & Hre). unfold reap_round. wp_go. apply wp_sys. pose proof (wait_law (kern s')) as Hw.
    destruct (call_inv Waitpid s' Hinv) as [Hinv1 Hsame1]; [done..|]. destruct (k_exited (kern s')) as [|pid l].
    - rewrite Z.gtb_ltb, (proj2 (Z.ltb_ge _ _)) by done. wp_go. split_and!; [done|by eapply same_pool_trans|]. simpl. by rewrite <-Hre, reaped_nil.
    - destruct Hw as (-> & Hpid & Hl). rewrite Z.gtb_ltb, (proj2 (Z.ltb_lt _ _)) by done. wp_go.
      eapply wp_mono; [by apply reap_all|]. intros [] s2 (Hinv2 & Hsame2 & Hex2 & Hsub2). simpl. wp_go.
      change (kern (after Waitpid s')) with (syscall Waitpid (kern s')).2 in Hex2. rewrite Hl in Hex2.
      exists (length l). split; [simpl; lia|]. rewrite Hex2. split_and!; [done|done| |].
      + eapply same_pool_trans; [done|]. by eapply same_pool_trans.
      + rewrite <-Hre, Hsub2. simpl. by apply reaped_cons. }
  intros [] s1 (Hinv1 & Hsame1 & Hsub1). simpl. wp_go. eapply wp_mono; [apply stop_all; [apply Hinv1|done]|].
  intros [] s2 ->. simpl. split_and!; [|done..]. split; [apply Hinv1|apply Hinv1].
Qed.

Lemma kill_all s :
  parent_inv s →
  wp (all_subs kill_sub) s (λ _ s', parent_inv s' ∧ same_pool s s' ∧ m_sub_process s' = m_sub_process s ∧ m_stop s' = m_stop s).
Proof.
  intros Hs. eapply (wp_all_subs (λ _ s', parent_inv s' ∧ same_pool s s' ∧ m_sub_process s' = m_sub_process s ∧ m_stop s' = m_stop s)); [apply Hs|done|].
  intros j s' Hj (Hinv & Hsame & Hsub & Hst). destruct Hsame as (Hnum & Hr). rewrite <-Hnum in Hj. destruct Hinv as [Hok Hpo].
  destruct (sub_in_range s' j Hok Hj) as [p Hp]. unfold kill_sub. wp_go. eapply wp_sub_get; [lia|done|].
  apply wp_when; intros _; [|by split_and!]. apply wp_do. destruct (call_inv (Kill (m_pid p) SIGTERM) s') as [H1 H2]; [done..|]. by split_and!.
Qed.
End facts.
