(* ===== verification/ProcessPoolProps.v ===== *)
(** * ProcessPool: what the parent does

    The parent hands connections to the living children in turn, keeps its
    descriptors in order, and stops with its last child. *)
From S2P Require Import Prelude ProcessPool ProcessPoolFacts.
#[local] Open Scope Z_scope.

Section parent.
Context {K : Type} `{Kernel K}.
Implicit Types s : processpool K.

Lemma listen_event s c e rest :
  parent_events c ((m_listenfd s, e) :: rest) s =
  ('(c, leave) ← on_listen c; if (leave : bool) then mret c else parent_events c rest) s.
Proof. cbn [parent_events]. unfold parent_event, mbind, M_bind, gets. simpl. by rewrite Z.eqb_refl. Qed.

Lemma notify_pool s i : m_sub_process (notify s i) = m_sub_process s ∧ m_listenfd (notify s i) = m_listenfd s ∧
  m_process_number (notify s i) = m_process_number s.
Proof. done. Qed.

(** The next events for as many children as there are in the order, and what
    comes after them. *)
Lemma listen_some s c o1 o2 e rest (Q : Z → processpool K → Prop) :
  pool_ok s → 0 ≤ c < m_process_number s → order (m_sub_process s) c = o1 ++ o2 →
  (∀ c', 0 ≤ c' < m_process_number s → order (m_sub_process s) c' = o2 ++ o1 →
     wp (parent_events c' rest) (foldl notify s o1) Q) →
  wp (parent_events c (replicate (length o1) (m_listenfd s, e) ++ rest)) s Q.
Proof.
  revert s c o2. induction o1 as [|i o1 IH]; intros s c o2 Hs Hc Ho HQ; cbn [length replicate app].
  - apply HQ; [done|]. by rewrite app_nil_r.
  - pose proof Hs as [Hn _]. unfold wp. rewrite listen_event. apply wp_bind. eapply wp_mono; [by apply on_listen_ok|].
    rewrite Ho. cbn [app]. intros r s' [-> ->]. rewrite Hn in Hc |- *. destruct (order_next _ _ _ _ Hc Ho) as [Hi Hnext].
    change (m_listenfd s) with (m_listenfd (notify s i)). apply (IH (notify s i) _ (o2 ++ [i])).
    + done.
    + change (m_process_number (notify s i)) with (m_process_number s). rewrite Hn. apply Z.mod_pos_bound. lia.
    + change (m_sub_process (notify s i)) with (m_sub_process s). rewrite Hnext. by rewrite app_assoc.
    + intros c' Hc' Ho'. apply HQ; [done|]. change (m_sub_process (notify s i)) with (m_sub_process s) in Ho'.
      by rewrite Ho', <-app_assoc.
Qed.

Lemma foldl_notify_pool l s :
  m_sub_process (foldl notify s l) = m_sub_process s ∧ m_listenfd (foldl notify s l) = m_listenfd s ∧
  m_process_number (foldl notify s l) = m_process_number s.
Proof. revert s. induction l as [|i l IH]; intros s; [done|]. apply (IH (notify s i)). Qed.

(** C28: Round robin: [m] new connections for every living child give each of
    them exactly [m] messages, in turn; without a living child the first one
    stops the parent. *)
Theorem listen_round_robin s c o m e :
  pool_ok s → 0 ≤ c < m_process_number s → order (m_sub_process s) c = o →
  wp (parent_events c (replicate (m * length o) (m_listenfd s, e))) s (λ c' s',
    s' = foldl notify s (concat (replicate m o)) ∧ order (m_sub_process s) c' = o) ∧
  (o = [] → wp (parent_events c [(m_listenfd s, e)]) s (λ c' s', c' = c ∧ s' = with_stop true s)).
Proof.
  intros Hs Hc Ho. split.
  - revert s c Hs Hc Ho. induction m as [|m IH]; intros s c Hs Hc Ho; [by wp_go|].
    change (S m * length o)%nat with (length o + m * length o)%nat. rewrite replicate_add.
    apply (listen_some s c o []); [done|done|by rewrite app_nil_r|].
    intros c' Hc' Ho'. destruct (foldl_notify_pool o s) as (E1 & E2 & E3). rewrite <-E2. cbn [replicate concat]. rewrite foldl_app, <-E1.
    apply IH; [|by rewrite E3|by rewrite E1]. destruct Hs as [Hn Hpos]. split; rewrite E3; [by rewrite E1|done].
  - intros ->. unfold wp. rewrite listen_event. apply wp_bind. eapply wp_mono; [by apply on_listen_ok|]. rewrite Ho. by intros r s' [-> ->].
Qed.

Context `{!KernelLaws K}.

Lemma signals_inv s l :
  parent_inv s → wp (for_signals parent_signal l) s (λ _ s', parent_inv s' ∧ same_pool s s').
Proof.
  revert s. induction l as [|sig l IH]; intros s Hs; cbn [for_signals]; wp_go; [done|].
  assert (wp (parent_signal sig) s (λ _ s', parent_inv s' ∧ same_pool s s')) as Hsig.
  { unfold parent_signal. destruct (sig =? SIGCHLD); [|destruct ((sig =? SIGTERM) || (sig =? SIGINT))].
    - eapply wp_mono; [by apply on_chld_ok|]. by intros [] s' (? & ? & _).
    - eapply wp_mono; [by apply kill_all|]. by intros [] s' (? & ? & _).
    - by wp_go. }
  eapply wp_mono; [exact Hsig|]. intros [] s1 [H1 H2]. eapply wp_mono; [by apply IH|]. intros [] s2 [H3 H4]. split; [done|].
  by eapply same_pool_trans.
Qed.

Lemma recv_signals_inv s :
  parent_inv s → wp (recv_signals parent_signal) s (λ _ s', parent_inv s' ∧ same_pool s s').
Proof.
  intros Hs. unfold recv_signals. wp_go. apply wp_sys. destruct (call_inv (Recv (sig_pipefd s).1 1024) s) as [H1 H2]; [done..|].
  destruct (_ <=? 0); wp_go; [done|]. eapply wp_mono; [by apply signals_inv|]. intros [] s2 [H3 H4]. split; [done|]. by eapply same_pool_trans.
Qed.

Lemma notify_inv s c i o :
  parent_inv s → order (m_sub_process s) c = i :: o → parent_inv (notify s i).
Proof.
  intros [Hs Hp] Ho. split; [done|]. simpl. apply pipes_call; [done|by intros|]. intros p d Hin [= E _].
  destruct (order_living _ _ _ _ Ho) as (q & Hq & Hl). unfold pipe0 in E. rewrite Hq in E. simpl in E.
  apply list_elem_of_lookup in Hin as [j Hj]. assert (j = Z.to_nat i) as ->.
  { eapply (NoDup_lookup _ _ _ (m_pipefd0 p) (po_nodup _ _ Hp)); by rewrite list_lookup_fmap, ?Hj, ?Hq; simpl; rewrite ?E. }
  assert (p = q) as -> by congruence. unfold living. by rewrite (proj2 (Z.eqb_neq _ _)).
Qed.

Lemma parent_event_inv s c ev :
  parent_inv s → 0 ≤ c < m_process_number s →
  wp (parent_event c ev) s (λ r s', parent_inv s' ∧ same_pool s s' ∧ 0 ≤ r.1 < m_process_number s).
Proof.
  intros Hs Hc. unfold parent_event. wp_go. destruct (ev.1 =? m_listenfd s).
  - eapply wp_mono; [apply on_listen_ok; [apply Hs|done]|]. intros r s' Hr. destruct (order (m_sub_process s) c) as [|i o] eqn:Ho; destruct Hr as [-> ->].
    + split; [exact Hs|]. done.
    + split; [by eapply notify_inv|]. split; [done|]. apply Z.mod_pos_bound. lia.
  - destruct (_ && _); wp_go; [|done]. eapply wp_mono; [by apply recv_signals_inv|]. intros [] s' [? ?]. wp_go. done.
Qed.

Lemma parent_events_inv evs s c :
  parent_inv s → 0 ≤ c < m_process_number s →
  wp (parent_events c evs) s (λ c' s', parent_inv s' ∧ same_pool s s' ∧ 0 ≤ c' < m_process_number s).
Proof.
  revert s c. induction evs as [|ev evs IH]; intros s c Hs Hc; cbn [parent_events]; wp_go; [done|].
  eapply wp_mono; [by apply parent_event_inv|]. intros [c1 leave] s1 (H1 & H2 & H3). destruct leave; wp_go; [done|].
  pose proof H2 as (E & _). rewrite <-E in H3. eapply wp_mono; [by apply IH|]. intros c2 s2 (H4 & H5 & H6). rewrite E in H6.
  split_and!; [done| |lia..]. by eapply same_pool_trans.
Qed.

(** C13: Every round of the parent, whatever the kernel reports, ends without
    undefined behaviour and keeps its descriptors in order: its end of a
    pipe is closed exactly once, when the child has been reaped, and nothing is
    sent to it afterwards. *)
Theorem parent_round_invariant s c :
  parent_inv s → 0 ≤ c < m_process_number s →
  wp (parent_round c) s (λ r s', parent_inv s' ∧ same_pool s s' ∧ ∀ c', r = inl c' → 0 ≤ c' < m_process_number s).
Proof.
  intros Hs Hc. unfold parent_round. wp_go. destruct (m_stop s); wp_go; [done|]. unfold wait_events. wp_go. apply wp_sys.
  destruct (call_inv (Epoll_wait (m_epollfd s) MAX_EVENT_NUMBER) s Hs) as [H1 H2]; [done..|]. unfold errno. wp_go. destruct (_ && _); wp_go; [done|].
  eapply wp_mono; [by apply parent_events_inv|]. intros c1 s1 (H3 & H4 & H5). wp_go. split_and!; [done|by eapply same_pool_trans|].
  intros ? [= <-]. done.
Qed.

(** The death of children: exactly those that have exited are marked, and
    the parent stops exactly when no child lives. *)
Theorem sigchld_spec s :
  parent_inv s →
  wp (parent_signal SIGCHLD) s (λ _ s', parent_inv s' ∧
    m_sub_process s' = reaped (k_exited (kern s)) (m_sub_process s) ∧
    m_stop s' = bool_decide (Forall (λ p, m_pid p = -1) (m_sub_process s'))).
Proof.
  intros Hs. unfold parent_signal. simpl. eapply wp_mono; [by apply on_chld_ok|]. intros [] s' (H1 & H2 & H3 & ->). split_and!; [done..|].
  clear. induction (m_sub_process s') as [|p l IH]; [done|]. cbn [forallb]. rewrite IH. unfold living. rewrite negb_involutive.
  destruct (Z.eqb_spec (m_pid p) (-1)) as [E|E]; cbn [andb].
  - apply bool_decide_ext. rewrite Forall_cons. tauto.
  - symmetry. apply bool_decide_eq_false. rewrite Forall_cons. tauto.
Qed.
End parent.
