(* ===== verification/CgiConn.v ===== *)
(** * ProcessPool: a connection

    [cgi_conn] of cgin_conn.cpp: the name of the program is the text in front of
    the first CR and LF, in whatever pieces it arrives. *)
From S2P Require Import Prelude ProcessPool ProcessPoolFacts.
#[local] Open Scope Z_scope.

Abbreviation Zlen l := (Z.of_nat (length l)).

(** No line ends in the text. *)
Definition no_crlf (t : list Z) : Prop := ∀ i : nat, t !! i = Some 13 → t !! S i = Some 10 → False.

(** A connection that has taken the text in. *)
Definition conn (fd : Z) (t : list Z) : cgi_conn := Cgi_conn fd (t ++ replicate (1024 - length t) 0) (Zlen t).

Lemma c_string_null t l : ∃ name, c_string (t ++ 0 :: l) = Some name ∧ c_string (t ++ [0]) = Some name.
Proof.
  induction t as [|c t (name & H1 & H2)]; simpl; [eauto|]. destruct (c =? 0); [eauto|]. rewrite H1, H2. simpl. eauto.
Qed.

(** The search from [idx] on stops at the first end of a line. *)
Lemma find_crlf_spec fuel (t l : list Z) (idx j : nat) :
  (idx ≤ j ≤ length t)%nat → (j - idx < fuel)%nat →
  (∀ k : nat, (idx ≤ k < j)%nat → t !! pred k = Some 13 → t !! k = Some 10 → (1 ≤ k)%nat → False) →
  ((j < length t)%nat → (1 ≤ j)%nat ∧ t !! pred j = Some 13 ∧ t !! j = Some 10) →
  find_crlf fuel (t ++ l) (Z.of_nat idx) (Zlen t) = Some (Z.of_nat j).
Proof.
  intros Hj Hf. revert idx Hj Hf. induction fuel as [|fuel IH]; intros idx Hj Hf Hno Hyes; [lia|]. cbn [find_crlf].
  destruct (Z.ltb_spec (Z.of_nat idx) (Zlen t)) as [Hlt|]; simpl; [|f_equal; lia].
  destruct (lookup_lt_is_Some_2 t idx ltac:(lia)) as [c Hc]. rewrite Nat2Z.id, (lookup_app_l t l idx) by lia. rewrite Hc. cbn [mbind option_bind].
  assert (idx = j → (1 ≤ idx)%nat ∧ t !! pred idx = Some 13 ∧ c = 10) as Hend.
  { intros ->. destruct (Hyes ltac:(lia)) as (? & ? & E). split_and!; [done..|congruence]. }
  assert (idx ≠ j → find_crlf fuel (t ++ l) (Z.of_nat idx + 1) (Zlen t) = Some (Z.of_nat j)) as Hgo.
  { intros Hne. replace (Z.of_nat idx + 1) with (Z.of_nat (S idx)) by lia. apply IH; [lia|lia| |done]. intros k Hk. apply Hno. lia. }
  destruct (Z.leb_spec 1 (Z.of_nat idx)) as [H1|H1]; simpl; [|apply Hgo; intros ->; lia].
  destruct (lookup_lt_is_Some_2 t (pred idx) ltac:(lia)) as [p Hp].
  replace (Z.to_nat (Z.of_nat idx - 1)) with (pred idx) by lia. rewrite (lookup_app_l t l (pred idx)) by lia. rewrite Hp. cbn [mbind option_bind].
  destruct (decide (idx = j)) as [E|E].
  - destruct (Hend E) as (_ & Hp' & ->). rewrite Hp in Hp'. injection Hp' as ->. simpl. by rewrite E.
  - destruct (Z.eqb_spec p 13) as [->|]; [destruct (Z.eqb_spec c 10) as [->|]|]; simpl; try by apply Hgo.
    exfalso. apply (Hno idx); [lia|done|done|lia].
Qed.

Lemma no_crlf_cons c t : no_crlf (c :: t) ↔ ¬ (c = 13 ∧ t !! 0%nat = Some 10) ∧ no_crlf t.
Proof.
  split.
  - intros H. split; [intros [-> Ht]; by apply (H 0%nat)|]. intros i. apply (H (S i)).
  - intros [H1 H2] [|i]; simpl; [intros [= ->] ?; by apply H1|]. apply H2.
Qed.

Lemma no_crlf_app t u : no_crlf (t ++ u) → no_crlf t.
Proof. intros H i H1 H2. apply (H i); apply lookup_app_l_Some; done. Qed.

Lemma crlf_cases t : no_crlf t ∨ ∃ l rest, t = l ++ 13 :: 10 :: rest ∧ no_crlf (l ++ [13]).
Proof.
  induction t as [|c t IH]; [by left|]. destruct (decide (c = 13 ∧ t !! 0%nat = Some 10)) as [[-> Ht]|Hc].
  - right. destruct t as [|c t]; [done|]. injection Ht as ->. exists [], t. split; [done|]. by intros [|i].
  - destruct IH as [Ht|(l & rest & -> & Hl)]; [left; by apply no_crlf_cons|]. right. exists (c :: l), rest. split; [done|].
    cbn [app]. apply no_crlf_cons. split; [|done]. intros [-> Hx]. apply Hc. split; [done|]. by destruct l.
Qed.

(** In a text without the end of a line up to [idx] the search finds the first
    one, or none. *)
Lemma find_crlf_none (t d l : list Z) :
  no_crlf (t ++ d) → (length d < 1024)%nat → find_crlf (Z.to_nat BUFFER_SIZE) ((t ++ d) ++ l) (Zlen t) (Zlen (t ++ d)) = Some (Zlen (t ++ d)).
Proof.
  intros Hno Hd. rewrite length_app. rewrite <-length_app. apply find_crlf_spec; rewrite ?length_app; [lia|change (Z.to_nat BUFFER_SIZE) with 1024%nat; lia| |lia].
  intros [|k] Hk H1 H2 H3; [lia|]. by eapply Hno.
Qed.

Lemma find_crlf_first (t d l rest k : list Z) :
  no_crlf t → t ++ d = l ++ 13 :: 10 :: rest → no_crlf (l ++ [13]) → (length d < 1024)%nat →
  find_crlf (Z.to_nat BUFFER_SIZE) ((t ++ d) ++ k) (Zlen t) (Zlen (t ++ d)) = Some (Zlen l + 1).
Proof.
  intros Ht E Hl Hd. assert (length (t ++ d) = (length l + 2 + length rest)%nat) as Hlen by (rewrite E, length_app; simpl; lia).
  pose proof (length_app t d) as Hlen'.
  assert ((t ++ d) !! length l = Some 13 ∧ (t ++ d) !! S (length l) = Some 10) as [H13 H10].
  { rewrite E. split; [by rewrite lookup_app_r, Nat.sub_diag by lia|]. rewrite lookup_app_r by lia. by replace (S (length l) - length l)%nat with 1%nat by lia. }
  assert (length t ≤ S (length l))%nat as Htl.
  { destruct (decide (S (length l) < length t)%nat); [|lia]. exfalso. rewrite lookup_app_l in H13, H10 by lia. by eapply Ht. }
  replace (Zlen l + 1) with (Z.of_nat (S (length l))) by lia. apply find_crlf_spec; [lia|change (Z.to_nat BUFFER_SIZE) with 1024%nat; lia| |].
  - intros [|j] Hj H1 H2 H3; [lia|]. simpl in H1. rewrite E in H1, H2.
    assert (∀ n, (n ≤ length l)%nat → (l ++ [13]) !! n = (l ++ 13 :: 10 :: rest) !! n) as Hsame.
    { intros n Hn. destruct (decide (n = length l)) as [->|]; [by rewrite !lookup_app_r, Nat.sub_diag by lia|]. by rewrite !lookup_app_l by lia. }
    apply (Hl j); rewrite Hsame by lia; done.
  - intros _. split_and!; [lia|done|done].
Qed.

Lemma crlf_at (l rest : list Z) : (l ++ 13 :: 10 :: rest) !! length l = Some 13 ∧ (l ++ 13 :: 10 :: rest) !! S (length l) = Some 10.
Proof. rewrite !lookup_app_r, Nat.sub_diag by lia. by replace (S (length l) - length l)%nat with 1%nat by lia. Qed.
Lemma crlf_some (l rest : list Z) : ¬ no_crlf (l ++ 13 :: 10 :: rest).
Proof. intros H. destruct (crlf_at l rest) as [H1 H2]. by eapply H. Qed.

Lemma crlf_le (l1 l2 rest1 rest2 : list Z) :
  l1 ++ 13 :: 10 :: rest1 = l2 ++ 13 :: 10 :: rest2 → no_crlf (l2 ++ [13]) → (length l2 ≤ length l1)%nat.
Proof.
  intros E H2. destruct (decide (length l1 < length l2)%nat) as [Hlt|]; [exfalso|lia]. destruct (crlf_at l1 rest1) as [A B]. rewrite E in A, B.
  assert (∀ n, (n ≤ length l2)%nat → (l2 ++ [13]) !! n = (l2 ++ 13 :: 10 :: rest2) !! n) as Hsame.
  { intros n Hn. destruct (decide (n = length l2)) as [->|]; [by rewrite !lookup_app_r, Nat.sub_diag by lia|]. by rewrite !lookup_app_l by lia. }
  apply (H2 (length l1)); rewrite Hsame by lia; done.
Qed.
Lemma crlf_unique (l1 l2 rest1 rest2 : list Z) :
  l1 ++ 13 :: 10 :: rest1 = l2 ++ 13 :: 10 :: rest2 → no_crlf (l1 ++ [13]) → no_crlf (l2 ++ [13]) → l1 = l2.
Proof.
  intros E H1 H2. pose proof (crlf_le _ _ _ _ E H2). pose proof (crlf_le _ _ _ _ (eq_sym E) H1).
  apply app_inj_1 in E as [-> _]; [done|lia].
Qed.

Section conn.
Context {K : Type} `{Kernel K}.
Implicit Types (s : processpool K) (t d l : list Z).

(** The pieces that [recv] gives, one after the other, behind the text [t]. *)
Inductive pieces (fd : Z) : list Z → K → list (list Z) → K → list (call * Z) → Prop :=
  | pieces_nil t k : pieces fd t k [] k []
  | pieces_cons t k d ds k1 k2 tr :
      syscall (Recv fd (1023 - Zlen t)) k = (Zlen d, k1) → k_data k1 = d → d ≠ [] →
      pieces fd (t ++ d) k1 ds k2 tr → pieces fd t k (d :: ds) k2 ((Recv fd (1023 - Zlen t), Zlen d) :: tr).

(** What happens when the line is there: the connection leaves this process, or
    this is the new process that runs the program. *)
Inductive served (ep fd : Z) (name : list Z) : list (call * Z) → bool → Prop :=
  | served_missing a r1 r2 : a = -1 → served ep fd name [(Access name, a); (Epoll_del ep fd, r1); (Close fd, r2)] true
  | served_parent a pid r1 r2 : a ≠ -1 → pid = -1 ∨ 0 < pid →
      served ep fd name [(Access name, a); (Fork, pid); (Epoll_del ep fd, r1); (Close fd, r2)] true
  | served_child a pid r1 r2 r3 : a ≠ -1 → pid ≠ -1 → pid ≤ 0 →
      served ep fd name [(Access name, a); (Fork, pid); (Close STDOUT_FILENO, r1); (Dup fd, r2); (Execl name, r3)] false.

Lemma wp_user_get i c s (Q : cgi_conn → processpool K → Prop) :
  0 ≤ i < USER_PER_PROCESS → user s !! i = Some c → Q c s → wp (user_get i) s Q.
Proof. intros Hi Hc HQ. unfold wp, user_get. by rewrite decide_True, Hc by done. Qed.
Lemma wp_user_put i c s (Q : unit → processpool K → Prop) :
  0 ≤ i < USER_PER_PROCESS → Q () (with_user (<[i := c]> (user s)) (cgi_epollfd s) s) → wp (user_put i c) s Q.
Proof. intros Hi HQ. unfold wp, user_put. by rewrite decide_True by done. Qed.
Lemma wp_lift {A} (o : option A) a s (Q : A → processpool K → Prop) : o = Some a → Q a s → wp (lift o) s Q.
Proof. by intros ->. Qed.

Lemma cgi_run_ok i c name s :
  0 ≤ i < USER_PER_PROCESS → user s !! i = Some c → c_string (m_buf c) = Some name →
  wp (cgi_run i) s (λ b s', user s' = user s ∧ ∃ tr, calls s' = calls s ++ tr ∧ served (cgi_epollfd s) (m_sockfd c) name tr b).
Proof.
  intros Hi Hc Hname. unfold cgi_run, removefd. wp_go. eapply wp_user_get; [done..|]. wp_go. eapply wp_lift; [done|]. wp_go. apply wp_sys.
  destruct (Z.eqb_spec (syscall (Access name) (kern s)).1 (-1)) as [Ha|Ha].
  { wp_go. apply wp_do. wp_go. apply wp_do. wp_go. simpl. split; [done|]. eexists. rewrite <-!app_assoc. split; [done|].
    by apply served_missing. }
  wp_go. apply wp_sys. set (s1 := after (Access name) s). destruct (Z.eqb_spec (syscall Fork (kern s1)).1 (-1)) as [Hf|Hf].
  { wp_go. apply wp_do. wp_go. apply wp_do. wp_go. simpl. split; [done|]. eexists. rewrite <-!app_assoc. split; [done|].
    apply served_parent; [done|by left]. }
  rewrite Z.gtb_ltb. destruct (Z.ltb_spec 0 (syscall Fork (kern s1)).1) as [Hp|Hp].
  { wp_go. apply wp_do. wp_go. apply wp_do. wp_go. simpl. split; [done|]. eexists. rewrite <-!app_assoc. split; [done|].
    apply served_parent; [done|by right]. }
  wp_go. apply wp_do. wp_go. apply wp_do. wp_go. apply wp_do. wp_go. simpl. split; [done|]. eexists. rewrite <-!app_assoc. split; [done|].
  by apply served_child.
Qed.

(** The buffer with a piece in it. *)
Lemma conn_piece t d :
  (length t + length d ≤ 1023)%nat →
  take (length t) (t ++ replicate (1024 - length t) 0) ++ d ++ drop (length t + length d) (t ++ replicate (1024 - length t) 0) =
    (t ++ d) ++ replicate (1024 - length (t ++ d)) 0.
Proof.
  intros Hl. rewrite take_app_length, drop_app_ge by lia. rewrite drop_replicate, length_app, <-app_assoc. do 3 f_equal. lia.
Qed.

Lemma zeros_cons n : (n < 1024)%nat → replicate (1024 - n) 0 = 0 :: replicate (1023 - n) 0.
Proof. intros. by replace (1024 - n)%nat with (S (1023 - n)) by lia. Qed.

(** One piece. *)
Lemma cgi_piece i fd t d k1 s (Q : unit + bool → processpool K → Prop) :
  0 ≤ i < USER_PER_PROCESS → user s !! i = Some (conn fd t) → no_crlf t → (length t + length d ≤ 1023)%nat → d ≠ [] →
  syscall (Recv fd (1023 - Zlen t)) (kern s) = (Zlen d, k1) → k_data k1 = d →
  (no_crlf (t ++ d) → Q (inl ()) (with_user (<[i := conn fd (t ++ d)]> (user s)) (cgi_epollfd s) (after (Recv fd (1023 - Zlen t)) s))) →
  (∀ l rest name s' tr b, t ++ d = l ++ 13 :: 10 :: rest → no_crlf (l ++ [13]) → c_string (l ++ [0]) = Some name →
     calls s' = calls s ++ (Recv fd (1023 - Zlen t), Zlen d) :: tr → served (cgi_epollfd s) fd name tr b → Q (inr b) s') →
  wp (cgi_round i ()) s Q.
Proof.
  intros Hi Hc Ht Hlen Hd Hrecv Hdata Hmore Hline. unfold cgi_round. wp_go. eapply wp_user_get; [done..|]. wp_go. apply wp_sys.
  change (BUFFER_SIZE - 1 - m_read_idx (conn fd t)) with (1023 - Zlen t). change (m_sockfd (conn fd t)) with fd.
  set (s1 := after (Recv fd (1023 - Zlen t)) s). assert (kern s1 = k1) as Hk1 by (unfold s1; simpl; by rewrite Hrecv).
  assert (0 < Zlen d) as Hpos by (destruct d; [done|simpl; lia]).
  rewrite Hrecv. cbn [fst]. rewrite (proj2 (Z.ltb_ge _ _)), (proj2 (Z.eqb_neq _ _)) by lia. wp_go. rewrite Hk1, Hdata.
  cbn [m_read_idx m_buf conn]. rewrite Nat2Z.id, conn_piece by done. set (t' := t ++ d). assert (length t' = (length t + length d)%nat) as Hl' by (unfold t'; by rewrite length_app).
  rewrite length_app, length_replicate. apply wp_assert; [apply Nat.eqb_eq; change (Z.to_nat BUFFER_SIZE) with 1024%nat; lia|].
  rewrite (zeros_cons (length t')) by lia. destruct (c_string_null t' (replicate (1023 - length t') 0)) as (name0 & Hn0 & _).
  wp_go. eapply wp_lift; [done|]. wp_go. replace (Zlen t + Zlen d) with (Zlen t') by lia.
  set (z := replicate (1023 - length t') 0) in *. destruct (crlf_cases t') as [Hno|(l & rest & E & Hl)].
  - eapply wp_lift; [apply find_crlf_none; [done|lia]|]. rewrite Z.eqb_refl. wp_go. apply wp_user_put; [done|]. wp_go.
    unfold z. rewrite <-zeros_cons by lia. by apply Hmore.
  - eapply wp_lift; [eapply find_crlf_first; [done|exact E|done|lia]|].
    assert (length t' = (length l + 2 + length rest)%nat) as Hlen2 by (rewrite E, length_app; simpl; lia).
    rewrite (proj2 (Z.eqb_neq _ _)) by lia. wp_go. apply wp_user_put; [done|]. wp_go.
    replace (Z.to_nat (Zlen l + 1 - 1)) with (length l) by lia.
    assert (<[length l := 0]> (t' ++ 0 :: z) = l ++ 0 :: 10 :: rest ++ 0 :: z) as ->.
    { rewrite E, <-app_assoc. cbn [app]. rewrite insert_app_r_alt, Nat.sub_diag by lia. done. }
    destruct (c_string_null l (10 :: rest ++ 0 :: z)) as (name & Hn1 & Hn2).
    eapply wp_mono; [eapply cgi_run_ok; [done|by apply lookup_insert_eq|exact Hn1]|]. intros b s' (_ & tr & Hcalls & Hserved). wp_go.
    eapply Hline; [exact E|done|done| |done]. rewrite Hcalls. unfold s1. simpl. rewrite Hrecv. simpl. by rewrite <-app_assoc.
Qed.
Lemma loop_more {S L R} fuel (body : L → M S (L + R)) (x : L) (v : S) Q :
  wp (body x) v (λ r v', match r with inl x' => wp (loop fuel body x') v' Q | inr y => Q y v' end) → wp (loop (Datatypes.S fuel) body x) v Q.
Proof. intros H1. cbn [loop]. apply wp_bind. eapply wp_mono; [exact H1|]. by intros [x'|y] v'. Qed.

Context `{!KernelLaws K}.

Lemma recv_length fd t k d k1 :
  (length t ≤ 1023)%nat → syscall (Recv fd (1023 - Zlen t)) k = (Zlen d, k1) → (length t + length d ≤ 1023)%nat.
Proof. intros Ht Hr. destruct (recv_law _ _ _ _ _ Hr) as [? _]. lia. Qed.

(** The pieces without the end of a line are taken in. *)
Lemma cgi_pieces i fd t ds k k' tr s fuel Q :
  0 ≤ i < USER_PER_PROCESS → user s !! i = Some (conn fd t) → (length t ≤ 1023)%nat → pieces fd t k ds k' tr → kern s = k →
  no_crlf (t ++ concat ds) →
  (∀ s', user s' !! i = Some (conn fd (t ++ concat ds)) → (length (t ++ concat ds) ≤ 1023)%nat → kern s' = k' → calls s' = calls s ++ tr →
     cgi_epollfd s' = cgi_epollfd s → wp (loop fuel (cgi_round i) ()) s' Q) →
  (length ds ≤ 1023 - length t)%nat ∧ wp (loop (length ds + fuel) (cgi_round i) ()) s Q.
Proof.
  intros Hi Hu Hlt Hp. revert s Hu Hlt. induction Hp as [t k|t k d ds k1 k2 tr Hr Hd Hne Hp IH]; intros s Hu Hlt Hk Hno HQ.
  - cbn [concat] in *. rewrite app_nil_r in HQ. split; [simpl; lia|]. apply HQ; [done..|by rewrite app_nil_r|done].
  - pose proof (recv_length _ _ _ _ _ Hlt Hr) as Hlen. cbn [concat] in Hno, HQ. rewrite app_assoc in Hno, HQ.
    assert (length d ≠ 0%nat) by (by destruct d). subst k. rewrite <-length_app in Hlen.
    set (s1 := with_user (<[i := conn fd (t ++ d)]> (user s)) (cgi_epollfd s) (after (Recv fd (1023 - Zlen t)) s)).
    destruct (IH s1) as [Hn Hloop]; [by apply lookup_insert_eq|done|by unfold s1; simpl; rewrite Hr|done| |].
    + intros s' H1 H2 H3 H4 H5. apply HQ; [done..| |done]. rewrite H4. unfold s1. simpl. rewrite Hr. simpl. by rewrite <-app_assoc.
    + rewrite length_app in Hn, Hlen. cbn [length]. split; [lia|]. apply loop_more.
      eapply cgi_piece; [done..|by eapply no_crlf_app, no_crlf_app|done|done|done|done| |].
      * intros _. exact Hloop.
      * intros l rest name s' tr' b E _ _ _ _. exfalso. apply (crlf_some l rest). rewrite <-E. by eapply no_crlf_app.
Qed.

(** C14: A line is found in whatever pieces it arrives: when the last of them
    brings the first end of a line, the program that is looked up is named by
    the text in front of it, up to a null, and the connection is served. *)
Theorem cgi_line i fd t ds d k k' tr s l rest :
  0 ≤ i < USER_PER_PROCESS → user s !! i = Some (conn fd t) → (length t ≤ 1023)%nat →
  pieces fd t (kern s) ds k tr → no_crlf (t ++ concat ds) →
  syscall (Recv fd (1023 - Zlen (t ++ concat ds))) k = (Zlen d, k') → k_data k' = d →
  (t ++ concat ds) ++ d = l ++ 13 :: 10 :: rest → no_crlf (l ++ [13]) →
  ∃ name, c_string (l ++ [0]) = Some name ∧
    wp (cgi_process i) s (λ b s', ∃ tr', served (cgi_epollfd s) fd name tr' b ∧
      calls s' = calls s ++ tr ++ (Recv fd (1023 - Zlen (t ++ concat ds)), Zlen d) :: tr').
Proof.
  intros Hi Hu Hlt Hp Hno Hr Hd E Hl. destruct (c_string_null l []) as (name & _ & Hname). exists name. split; [done|].
  assert (d ≠ []) as Hne. { intros ->. rewrite app_nil_r in E. apply (crlf_some l rest). by rewrite <-E. }
  set (Q := λ (b : bool) s', ∃ tr', served (cgi_epollfd s) fd name tr' b ∧
    calls s' = calls s ++ tr ++ (Recv fd (1023 - Zlen (t ++ concat ds)), Zlen d) :: tr').
  assert (∀ fuel, (length ds ≤ 1023 - length t)%nat ∧ wp (loop (length ds + Datatypes.S fuel) (cgi_round i) ()) s Q) as Hall.
  { intros fuel. eapply cgi_pieces; [done..|]. intros s' H1 H2 H3 H4 H5. apply loop_more. subst k. eapply cgi_piece; [done|done|done|by eapply recv_length|done|done|done|..].
    - intros Hx. exfalso. apply (crlf_some l rest). by rewrite <-E.
    - intros l' rest' name' s2 tr2 b E' Hl' Hname' Hcalls Hserved. rewrite E in E'.
      assert (l' = l) as -> by (by eapply crlf_unique).
      assert (name' = name) as -> by congruence. exists tr2. split; [by rewrite <-H5|]. rewrite Hcalls, H4. by rewrite <-app_assoc. }
  destruct (Hall 0%nat) as [Hn _]. unfold cgi_process.
  replace (Datatypes.S (Z.to_nat BUFFER_SIZE)) with (length ds + Datatypes.S (Z.to_nat BUFFER_SIZE - length ds))%nat
    by (change (Z.to_nat BUFFER_SIZE) with 1024%nat; lia). apply Hall.
Qed.

(** Without the end of a line the connection waits with the text that has
    arrived when nothing more can be read. *)
Theorem cgi_waits i fd t ds k tr s r k' :
  0 ≤ i < USER_PER_PROCESS → user s !! i = Some (conn fd t) → (length t ≤ 1023)%nat →
  pieces fd t (kern s) ds k tr → no_crlf (t ++ concat ds) →
  syscall (Recv fd (1023 - Zlen (t ++ concat ds))) k = (r, k') → r < 0 → k_errno k' = EAGAIN →
  wp (cgi_process i) s (λ b s', b = true ∧ user s' !! i = Some (conn fd (t ++ concat ds)) ∧
    calls s' = calls s ++ tr ++ [(Recv fd (1023 - Zlen (t ++ concat ds)), r)]).
Proof.
  intros Hi Hu Hlt Hp Hno Hr Hneg He.
  set (Q := λ (b : bool) s', b = true ∧ user s' !! i = Some (conn fd (t ++ concat ds)) ∧
    calls s' = calls s ++ tr ++ [(Recv fd (1023 - Zlen (t ++ concat ds)), r)]).
  assert (∀ fuel, (length ds ≤ 1023 - length t)%nat ∧ wp (loop (length ds + Datatypes.S fuel) (cgi_round i) ()) s Q) as Hall.
  { intros fuel. eapply cgi_pieces; [done..|]. intros s' H1 H2 H3 H4 H5. apply loop_more. subst k. unfold cgi_round.
    wp_go. eapply wp_user_get; [done..|]. wp_go. apply wp_sys.
    change (BUFFER_SIZE - 1 - m_read_idx (conn fd (t ++ concat ds))) with (1023 - Zlen (t ++ concat ds)).
    change (m_sockfd (conn fd (t ++ concat ds))) with fd. rewrite Hr. cbn [fst]. rewrite (proj2 (Z.ltb_lt _ _)) by done. unfold errno. wp_go.
    set (s1 := after (Recv fd (1023 - Zlen (t ++ concat ds))) s'). assert (k_errno (kern s1) = EAGAIN) as -> by (unfold s1; cbn [after with_kern kern]; by rewrite Hr).
    rewrite Z.eqb_refl. cbn [negb when]. wp_go. split_and!; [done|done|]. unfold s1. cbn [after with_kern calls]. by rewrite Hr, H4, <-app_assoc. }
  destruct (Hall 0%nat) as [Hn _]. unfold cgi_process.
  replace (Datatypes.S (Z.to_nat BUFFER_SIZE)) with (length ds + Datatypes.S (Z.to_nat BUFFER_SIZE - length ds))%nat
    by (change (Z.to_nat BUFFER_SIZE) with 1024%nat; lia). apply Hall.
Qed.
End conn.
