(* ===== verification/ProcessChild.v ===== *)
(** * ProcessPool: the rounds of a child

    Whatever clients send and the parent asks for, a child goes on without
    undefined behaviour: every descriptor that its epoll watches is a pipe or a
    connection whose object is there, and the buffer of a connection never
    overflows.  What is relied on of epoll and of [accept] is a class. *)
From S2P Require Import Prelude ProcessPool ProcessPoolFacts CgiConn.
#[local] Open Scope Z_scope.

(** ** epoll *)

(** The descriptors that an epoll instance watches: only [epoll_ctl] adds to
    them, only they are reported, each once in a call of [epoll_wait]; and
    descriptors are below the limit of the process. *)
Class EpollLaws (K : Type) `{Kernel K} := {
  k_watched : K → Z → gset Z;
  watched_law c k ep : k_watched (syscall c k).2 ep ⊆
    match c with Epoll_add ep' fd => if decide (ep' = ep) then k_watched k ep ∪ {[fd]} else k_watched k ep | _ => k_watched k ep end;
  events_law ep n k : let r := syscall (Epoll_wait ep n) k in
    (∀ ev, ev ∈ take (Z.to_nat r.1) (k_events r.2) → ev.1 ∈ k_watched k ep) ∧ NoDup (take (Z.to_nat r.1) (k_events r.2)).*1;
  accept_law fd k : (syscall (Accept fd) k).1 < USER_PER_PROCESS;
}.

(** ** The invariant *)






Section child.
Context {K : Type} `{KernelLaws K} `{!EpollLaws K}.
Context (pipefd : Z).
Implicit Types s : processpool K.





(** ** A connection *)






(** ** Signals and the parent *)




(** ** Rounds *)





End child.
