(* ===== verification/ProcessNet.v ===== *)
(** * ProcessPool: a kernel to run the pool on

    A kernel that satisfies the laws the theorems rely on, with which their
    witnesses are concrete: one listening socket, the pipes of the children and
    epoll instances that report an edge, that is, a descriptor once after
    something arrived, however much it was.  No program is found on it and no
    process can be made.  The example at the end runs a parent and two children
    on it. *)
From S2P Require Import Prelude ProcessPool ProcessPoolFacts ProcessPoolProps CgiConn ProcessChild.
#[local] Open Scope Z_scope.

(** ** The kernel *)

(** The connections that wait to be accepted and the descriptor of the next one;
    for every pipe the other end and the messages in it; which epoll watches a
    descriptor and what it will report; the pieces that clients have sent; and
    the results in memory. *)
Record net := Net {
  backlog : Z; next_fd : Z; accepted : list Z;
  peer : gmap Z Z; pend : gmap Z Z; watch : gmap Z Z; ready : gmap Z (list Z); input : gmap Z (list (list Z));
  n_data : list Z; n_events : list (Z * Z); n_errno : Z; n_exited : list Z;
}.

Definition pending (k : net) (fd : Z) : Z := default 0 (pend k !! fd).
Definition reports (k : net) (ep : Z) : list Z := default [] (ready k !! ep).

Definition with_pend p k := Net (backlog k) (next_fd k) (accepted k) (peer k) p (watch k) (ready k) (input k) (n_data k) (n_events k) (n_errno k) (n_exited k).
Definition with_watch w k := Net (backlog k) (next_fd k) (accepted k) (peer k) (pend k) w (ready k) (input k) (n_data k) (n_events k) (n_errno k) (n_exited k).
Definition with_ready r k := Net (backlog k) (next_fd k) (accepted k) (peer k) (pend k) (watch k) r (input k) (n_data k) (n_events k) (n_errno k) (n_exited k).
Definition with_input i k := Net (backlog k) (next_fd k) (accepted k) (peer k) (pend k) (watch k) (ready k) i (n_data k) (n_events k) (n_errno k) (n_exited k).
Definition with_data d k := Net (backlog k) (next_fd k) (accepted k) (peer k) (pend k) (watch k) (ready k) (input k) d (n_events k) (n_errno k) (n_exited k).
Definition with_events e k := Net (backlog k) (next_fd k) (accepted k) (peer k) (pend k) (watch k) (ready k) (input k) (n_data k) e (n_errno k) (n_exited k).
Definition with_errno e k := Net (backlog k) (next_fd k) (accepted k) (peer k) (pend k) (watch k) (ready k) (input k) (n_data k) (n_events k) e (n_exited k).
Definition with_exited l k := Net (backlog k) (next_fd k) (accepted k) (peer k) (pend k) (watch k) (ready k) (input k) (n_data k) (n_events k) (n_errno k) l.
Definition with_clients b n a k := Net b n a (peer k) (pend k) (watch k) (ready k) (input k) (n_data k) (n_events k) (n_errno k) (n_exited k).

(** What an [epoll_wait] reports: what is watched, once. *)
Definition reported (k : net) (ep : Z) : list Z := remove_dups (List.filter (λ fd, bool_decide (watch k !! fd = Some ep)) (reports k ep)).
Definition arrived (k : net) (fd : Z) : bool := (0 <? pending k fd) || match input k !! fd with Some (_ :: _) => true | _ => false end.

(** Something arrives at [fd]: its epoll will report it. *)
Definition edge (fd : Z) (k : net) : net :=
  match watch k !! fd with
  | Some ep => if decide (fd ∈ reports k ep) then k else with_ready (<[ep := reports k ep ++ [fd]]> (ready k)) k
  | None => k
  end.

Definition net_recv (fd n : Z) (k : net) : Z * net :=
  if 0 <? pending k fd then
    let d := take (Z.to_nat n) new_conn in
    (Zlen d, with_data d (with_pend (<[fd := pending k fd - 1]> (pend k)) k))
  else match input k !! fd with
    | Some (d :: ds) =>
        let d' := take (Z.to_nat n) d in
        (Zlen d', with_data d' (with_input (<[fd := match drop (Z.to_nat n) d with [] => ds | r => r :: ds end]> (input k)) k))
    | _ => (-1, with_errno EAGAIN k)
    end.

Definition net_syscall (c : call) (k : net) : Z * net :=
  match c with
  | Send fd d =>
      match peer k !! fd with
      | Some q => (Zlen d, edge q (with_pend (<[q := pending k q + 1]> (pend k)) k))
      | None => (-1, k)
      end
  | Recv fd n => net_recv fd n k
  | Accept _ =>
      if (0 <? backlog k) && (next_fd k <? USER_PER_PROCESS) then (next_fd k, with_clients (backlog k - 1) (next_fd k + 1) (accepted k ++ [next_fd k]) k)
      else (-1, with_errno EAGAIN k)
  | Epoll_wait ep n =>
      let fds := reported k ep in
      (Zlen fds, with_events ((λ fd, (fd, EPOLLIN)) <$> fds) (with_ready (<[ep := []]> (ready k)) k))
  | Epoll_add ep fd =>
      let k := with_watch (<[fd := ep]> (watch k)) k in (0, if arrived k fd then edge fd k else k)
  | Waitpid => match n_exited k with pid :: l => (Z.abs pid + 1, with_exited l k) | [] => (0, k) end
  | Access _ | Fork => (-1, k)
  | _ => (0, k)
  end.

#[export] Instance net_kernel : Kernel net := {|
  syscall := net_syscall; k_fds _ := (0, 0); k_events := n_events; k_data := n_data; k_errno := n_errno;
  k_exited k := (λ pid, Z.abs pid + 1) <$> n_exited k;
|}.

#[export] Instance net_laws : KernelLaws net.
Proof.
  split.
  - intros fd n k r k'. simpl. unfold net_recv. destruct (0 <? pending k fd); [|destruct (input k !! fd) as [[|d ds]|]].
    + intros [= <- <-]. cbn [n_data with_data]. split; [|done]. rewrite length_take. lia.
    + intros [= <- _]. lia.
    + intros [= <- <-]. cbn [n_data with_data]. split; [|done]. rewrite length_take. lia.
    + intros [= <- _]. lia.
  - intros k. simpl. destruct (n_exited k) as [|pid l]; simpl; [lia|]. split_and!; [done|lia|done].
  - done.
Qed.


(** New clients: the listening socket has an edge. *)
Definition arrive (listenfd m : Z) (k : net) : net :=
  edge listenfd (with_clients (backlog k + m) (next_fd k) (accepted k) k).

(** ** The processes together *)

Record system := System { s_net : net; s_parent : processpool net; s_counter : Z; s_children : list (processpool net) }.

(** A process goes on with the kernel as the others have left it. *)
Definition on {A} (k : net) (p : processpool net) (m : M (processpool net) A) : option (A * net * processpool net) :=
  match m (with_kern k (calls p) p) with Ok (a, p') => Some (a, kern p', p') | _ => None end.

Definition pipe1 (p : processpool net) : Z := from_option m_pipefd1 0 (m_sub_process p !! Z.to_nat (m_idx p)).

(** Every child to which something is reported runs a round. *)
Fixpoint run_children (k : net) (l : list (processpool net)) : option (net * list (processpool net)) :=
  match l with
  | [] => Some (k, [])
  | p :: l =>
      if decide (reports k (m_epollfd p) = []) then '(k, l) ← run_children k l; Some (k, p :: l) else
      '(_, k, p) ← on k p (child_round (pipe1 p) ());
      '(k, l) ← run_children k l; Some (k, p :: l)
  end.

(** [m] clients connect at once; the parent runs a round and then the children. *)
Definition burst (m : Z) (y : system) : option system :=
  '(r, k, p) ← on (arrive (m_listenfd (s_parent y)) m (s_net y)) (s_parent y) (parent_round (s_counter y));
  '(k, l) ← run_children k (s_children y);
  Some (System k p (match r with inl c => c | inr _ => s_counter y end) l).
Fixpoint bursts (ms : list Z) (y : system) : option system :=
  match ms with [] => Some y | m :: ms => y ← burst m y; bursts ms y end.

(** ** Witnesses *)

Definition demo_subs : list process := [Process 100 10 11; Process 101 12 13].
Definition demo_net : net :=
  Net 0 50 [] {[10 := 11; 12 := 13]} ∅ {[3 := 5; 11 := 21; 13 := 22]} ∅ {[60 := [[47; 120]; [13]; [10; 65]]; 61 := [[47]; [120]]]} [] [] 0 [99].
Definition demo_process (idx ep : Z) : processpool net := Pool 2 idx ep 3 false demo_subs (7, 8) ∅ 0 demo_net [].
Definition demo_system : system := System demo_net (demo_process (-1) 5) 0 [demo_process 0 21; demo_process 1 22].
Definition demo_serving (fd : Z) : processpool net := Pool 2 0 21 3 false demo_subs (7, 8) {[fd := conn fd []]} 21 demo_net [].

Lemma demo_pool : pool_ok (demo_process (-1) 5).
Proof. done. Qed.
Lemma demo_parent : parent_inv (demo_process (-1) 5).
Proof.
  split; [done|]. split.
  - by apply (bool_decide_unpack _).
  - intros p Hp. cbn [m_sub_process demo_process demo_subs] in Hp. by apply elem_of_cons in Hp as [->|[->|[]%not_elem_of_nil]%elem_of_cons].
  - by intros [|].
Qed.

Lemma listen_round_robin_witness :
  wp (parent_events 0 (replicate 4 (3, EPOLLIN))) (demo_process (-1) 5)
    (λ _ s', s' = foldl notify (demo_process (-1) 5) [0; 1; 0; 1]).
Proof.
  destruct (listen_round_robin (demo_process (-1) 5) 0 [0; 1] 2 EPOLLIN demo_pool ltac:(done) ltac:(by vm_compute)) as [H1 _].
  eapply wp_mono; [exact H1|]. by intros c' s' [-> _].
Defined.

Lemma parent_round_invariant_witness :
  wp (parent_round 0) (demo_process (-1) 5) (λ r s', parent_inv s').
Proof.
  eapply wp_mono; [apply (parent_round_invariant (demo_process (-1) 5) 0 demo_parent); done|]. by intros r s' (? & _).
Defined.

Lemma sigchld_spec_witness :
  wp (parent_signal SIGCHLD) (demo_process (-1) 5) (λ _ s', m_sub_process s' = [Process (-1) 10 11; Process 101 12 13] ∧ m_stop s' = false).
Proof.
  eapply wp_mono; [apply (sigchld_spec (demo_process (-1) 5) demo_parent)|]. intros [] s' (_ & E & ->). rewrite E. split; [by vm_compute|].
  by vm_compute.
Defined.

Lemma cgi_line_witness :
  wp (cgi_process 60) (demo_serving 60) (λ b s', ∃ tr', served 21 60 [47; 120] tr' b ∧
    calls s' = [(Recv 60 1023, 2); (Recv 60 1021, 1)] ++ (Recv 60 1020, 2) :: tr').
Proof.
  assert (∃ k k', pieces 60 [] demo_net [[47; 120]; [13]] k [(Recv 60 1023, 2); (Recv 60 1021, 1)] ∧
    net_syscall (Recv 60 1020) k = (2, k') ∧ n_data k' = [10; 65]) as (k & k' & H1 & H2 & H3).
  { eexists _, _. split.
    - econstructor; [by vm_compute|by vm_compute|done|]. econstructor; [by vm_compute|by vm_compute|done|]. constructor.
    - split; by vm_compute. }
  destruct (cgi_line 60 60 [] [[47; 120]; [13]] [10; 65] k k' [(Recv 60 1023, 2); (Recv 60 1021, 1)] (demo_serving 60) [47; 120] [65])
    as (name & Hn & Hwp); [done|done|simpl; lia|exact H1|by intros [|[|[|]]]|exact H2|exact H3|done|by intros [|[|[|]]]|].
  injection Hn as <-. exact Hwp.
Defined.

Lemma cgi_waits_witness :
  wp (cgi_process 61) (demo_serving 61) (λ b s', b = true ∧ user s' !! 61 = Some (conn 61 [47; 120])).
Proof.
  eapply wp_mono; [eapply (cgi_waits 61 61 [] [[47]; [120]] _ _ (demo_serving 61))|].
  - done.
  - done.
  - simpl. lia.
  - econstructor; [by vm_compute|by vm_compute|done|]. econstructor; [by vm_compute|by vm_compute|done|]. constructor.
  - by intros [|[|]].
  - by vm_compute.
  - done.
  - by vm_compute.
  - intros b s' (H1 & H2 & _). done.
Defined.



(** One edge, one connection: of the clients that come together one is accepted,
    and the others wait although nothing is reported to any process. *)
Example bursts_demo :
  (λ y, (length (accepted (s_net y)), backlog (s_net y), map (reported (s_net y)) [5; 21; 22])) <$> bursts [1; 3; 2] demo_system = Some (3%nat, 3, [[]; []; []]).
Proof. by vm_compute. Qed.
