(* ===== verification/ProcessTask.v ===== *)
(** * ProcessPool: the watched process

    [Process.h] of process_task: a process forks a child that runs a task, waits for
    it and is meant to start it again when it fails.  What [fork] and [wait] will
    give in this process is part of the state; without a result left they
    block. *)
From S2P Require Import Prelude.
#[local] Open Scope Z_scope.

(** ** The program *)

(** What [wait] reports about a child. *)
Inductive status := Exited (code : Z) | Signaled (number : Z) | Stopped (number : Z).

(** The results of [fork] and [wait] to come ([None]: [wait] fails), the member
    [process_id], how often the task was initialised and run, and whether the
    process has called [exit]. *)
Record process := ProcessObj {
  forks : list Z; waits : list (option status); process_id : Z; task_inits : Z; task_runs : Z; exited : bool;
}.
Abbreviation PT := (M process).

Definition Process_new (fs : list Z) (ws : list (option status)) : process := ProcessObj fs ws (-1) 0 0 false.
Definition task_init : PT unit := modify (λ p, ProcessObj (forks p) (waits p) (process_id p) (task_inits p + 1) (task_runs p) (exited p)).
Definition task_run : PT unit := modify (λ p, ProcessObj (forks p) (waits p) (process_id p) (task_inits p) (task_runs p + 1) (exited p)).
Definition exit_failure : PT unit := modify (λ p, ProcessObj (forks p) (waits p) (process_id p) (task_inits p) (task_runs p) true).
(** [process_id = fork()]. *)
Definition fork : PT Z := λ p,
  match forks p with
  | [] => NoFuel
  | f :: fs => Ok (f, ProcessObj fs (waits p) f (task_inits p) (task_runs p) (exited p))
  end.
Definition wait : PT (option status) := λ p,
  match waits p with
  | [] => NoFuel
  | w :: ws => Ok (w, ProcessObj (forks p) ws (process_id p) (task_inits p) (task_runs p) (exited p))
  end.

(** [init] and [parent_process] call each other; each round takes a result of
    [wait]. *)
Fixpoint init (fuel : nat) : PT unit :=
  task_init;;
  pid ← fork;
  if pid <? 0 then mret () else
  when (pid >? 0)
    match fuel with
    | O => λ _, NoFuel
    | S fuel =>
        ret ← wait;
        match ret with
        | None => exit_failure
        | Some (Exited _) => mret ()
        | Some (Signaled _) => mret ()
        | Some (Stopped _) => init fuel
        end
    end.
Definition start : PT unit :=
  p ← get; when (process_id p =? 0) task_run.
(** What [main] does with its process. *)
Definition watch (fuel : nat) : PT unit :=
  init fuel;; p ← get; if exited p then mret () else start.

(** ** What it does *)

(** How a process ends: it is the last child, or could not make one, or its child
    ended, or [wait] failed. *)
Inductive ending := Child | No_child (pid : Z) | Child_ended (pid : Z) (s : option status).
Definition ending_ok (e : ending) : Prop := match e with Child_ended pid s => 0 < pid ∧ (∀ n, s ≠ Some (Stopped n)) | No_child pid => pid < 0 | Child => True end.
Definition ending_fork (e : ending) : Z := match e with Child => 0 | No_child pid => pid | Child_ended pid _ => pid end.
Definition ending_wait (e : ending) : list (option status) := match e with Child_ended _ s => [s] | _ => [] end.
Definition ending_exits (e : ending) : bool := match e with Child_ended _ None => true | _ => false end.
Definition ending_runs (e : ending) : Z := match e with Child => 1 | _ => 0 end.

(** [l] is the children that were reported as stopped, and the signals. *)
Definition forked (l : list (Z * Z)) (e : ending) (fs : list Z) : list Z := (fst <$> l) ++ ending_fork e :: fs.
Definition waited (l : list (Z * Z)) (e : ending) (ws : list (option status)) : list (option status) :=
  ((λ c, Some (Stopped c.2)) <$> l) ++ ending_wait e ++ ws.

Lemma init_spec l e fs ws id ni :
  Forall (λ c, 0 < c.1) l → ending_ok e →
  init (S (length l)) (ProcessObj (forked l e fs) (waited l e ws) id ni 0 false) =
    Ok ((), ProcessObj fs ws (ending_fork e) (ni + 1 + Z.of_nat (length l)) 0 (ending_exits e)).
Proof.
  intros Hl He. revert id ni. induction Hl as [|[pid sig] l Hpid Hl IH]; intros id ni.
  - replace (ni + 1 + Z.of_nat (length [])) with (ni + 1) by (cbn [length]; lia). destruct e as [|pid|pid s]; [done| |].
    { cbn [init forked waited ending_fork ending_wait fmap list_fmap app length]. unfold mbind, M_bind, task_init, modify, fork. cbn [forks].
      by rewrite (proj2 (Z.ltb_lt pid 0)). }
    destruct He as [Hp Hs]. cbn [init forked waited ending_fork ending_wait fmap list_fmap app length]. unfold mbind, M_bind, task_init, modify, fork. cbn [forks].
    rewrite (proj2 (Z.ltb_ge pid 0)), Z.gtb_ltb, (proj2 (Z.ltb_lt 0 pid)) by lia. cbn [when]. unfold wait. cbn [waits process_id task_inits task_runs exited].
    destruct s as [[c|c|c]|]; try done. by destruct (Hs c).
  - cbn [fst] in Hpid. unfold forked, waited in *. rewrite !fmap_cons. cbn [app length fst snd]. remember (S (length l)) as k eqn:Ek. cbn [init].
    unfold mbind, M_bind, task_init, modify, fork. cbn [forks].
    rewrite (proj2 (Z.ltb_ge pid 0)), Z.gtb_ltb, (proj2 (Z.ltb_lt 0 pid)) by lia. cbn [when]. unfold wait. cbn [waits forks process_id task_inits task_runs exited].
    rewrite IH. do 3 f_equal. lia.
Qed.

Lemma watch_spec l e fs ws :
  Forall (λ c, 0 < c.1) l → ending_ok e →
  watch (S (length l)) (Process_new (forked l e fs) (waited l e ws)) =
    Ok ((), ProcessObj fs ws (ending_fork e) (1 + Z.of_nat (length l)) (ending_runs e) (ending_exits e)).
Proof.
  intros Hl He. unfold watch, Process_new, mbind, M_bind. rewrite init_spec by done. unfold get. cbn [exited].
  assert (∀ pid ni b, pid ≠ 0 → start (ProcessObj fs ws pid ni 0 b) = Ok ((), ProcessObj fs ws pid ni 0 b)) as Hstart.
  { intros pid ni b Hp. unfold start, mbind, M_bind, get. cbn [process_id]. by rewrite (proj2 (Z.eqb_neq pid 0)). }
  destruct e as [|pid|pid s]; cbn [ending_exits ending_fork ending_runs ending_ok] in *; [done|by rewrite Hstart by lia|].
  by destruct s; [rewrite Hstart by lia|].
Qed.

(** C30: [wait] reports a stopped child only to a process that traces it, and never to
    this one: so the process makes one child, initialises the task once, and when
    the child ends, however it ends, that is all; nothing is started again. *)
Theorem watch_never_restarts f s fs ws :
  (∀ n, s ≠ Some (Stopped n)) →
  ∃ p, watch 1 (Process_new (f :: fs) (s :: ws)) = Ok ((), p) ∧ task_inits p = 1 ∧ forks p = fs ∧
    (task_runs p = 1 ↔ f = 0) ∧ (0 < f → waits p = ws ∧ (exited p = true ↔ s = None)).
Proof.
  intros Hs. destruct (Z.lt_trichotomy f 0) as [Hf|[->|Hf]].
  - pose proof (watch_spec [] (No_child f) fs (s :: ws) ltac:(done) Hf) as E. eexists. split; [exact E|]. cbn. split_and!; [done|done|split; [done|lia]|lia].
  - pose proof (watch_spec [] Child fs (s :: ws) ltac:(done) I) as E. eexists. split; [exact E|]. cbn. split_and!; [done|done|done|lia].
  - pose proof (watch_spec [] (Child_ended f s) fs ws ltac:(done) (conj Hf Hs)) as E. eexists. split; [exact E|]. cbn.
    split_and!; [done|done|split; [done|lia]|]. intros _. split; [done|]. by destruct s.
Qed.

(** A child that is killed by a signal. *)
Lemma watch_never_restarts_witness :
  ∃ p, watch 1 (Process_new [7; 8] [Some (Signaled 11); Some (Exited 0)]) = Ok ((), p) ∧ task_inits p = 1 ∧ forks p = [8].
Proof.
  destruct (watch_never_restarts 7 (Some (Signaled 11)) [8] [Some (Exited 0)] ltac:(done)) as (p & H1 & H2 & H3 & _). by exists p.
Defined.
