(* ===== verification/InetSockets.v ===== *)
(** * socket_lib: sockets for a service

    [inet_sockets.c] over a class of kernels: what the calls of the socket
    library return, which descriptors are open and how many lists of addresses
    are not freed yet. *)
From S2P Require Import Prelude.
#[local] Open Scope Z_scope.

Definition SOCK_STREAM : Z := 1.
Definition AF_UNSPEC : Z := 0.
Definition AI_PASSIVE : Z := 1.
Definition ENOSYS : Z := 38.

(** [struct addrinfo] without the link to the next one, and the fields of
    [hints] that are set. *)
Record addrinfo := Addrinfo { ai_family : Z; ai_socktype : Z; ai_protocol : Z; ai_addr : list Z; ai_addrlen : Z }.
Record hints := Hints { h_family : Z; h_socktype : Z; h_flags : Z }.

(** [None] for a null pointer. *)
Class Sockets (K : Type) := {
  getaddrinfo : option (list Z) → option (list Z) → hints → K → Z * list addrinfo * K;
  freeaddrinfo : K → K;
  socket : Z → Z → Z → K → Z * K;
  connect : Z → list Z → Z → K → Z * K;
  setsockopt_reuseaddr : Z → K → Z * K;
  bind : Z → list Z → Z → K → Z * K;
  listen : Z → Z → K → Z * K;
  accept : Z → K → Z * K;
  close : Z → K → K;
  getnameinfo : list Z → Z → K → option (list Z * list Z);
  opened : K → gset Z;
  address_lists : K → Z;
}.

Class SocketsLaws (K : Type) `{Sockets K} := {
  getaddrinfo_law h s hi k : let '(r, l, k') := getaddrinfo h s hi k in
    opened k' = opened k ∧ address_lists k' = address_lists k + (if r =? 0 then 1 else 0);
  freeaddrinfo_law k : opened (freeaddrinfo k) = opened k ∧ address_lists (freeaddrinfo k) = address_lists k - 1;
  socket_law f t p k : let '(r, k') := socket f t p k in
    address_lists k' = address_lists k ∧
    (r = -1 ∧ opened k' = opened k ∨ 0 ≤ r ∧ (r ∉ opened k) ∧ opened k' = opened k ∪ {[r]});
  connect_law fd a n k : opened (connect fd a n k).2 = opened k ∧ address_lists (connect fd a n k).2 = address_lists k;
  setsockopt_law fd k : opened (setsockopt_reuseaddr fd k).2 = opened k ∧ address_lists (setsockopt_reuseaddr fd k).2 = address_lists k;
  bind_law fd a n k : opened (bind fd a n k).2 = opened k ∧ address_lists (bind fd a n k).2 = address_lists k;
  listen_law fd b k : opened (listen fd b k).2 = opened k ∧ address_lists (listen fd b k).2 = address_lists k;
  accept_law fd k : let '(r, k') := accept fd k in
    address_lists k' = address_lists k ∧
    (r = -1 ∧ opened k' = opened k ∨ 0 ≤ r ∧ (r ∉ opened k) ∧ opened k' = opened k ∪ {[r]});
  close_law fd k : opened (close fd k) = opened k ∖ {[fd]} ∧ address_lists (close fd k) = address_lists k;
}.

Section sockets.
Context {K : Type} `{Sockets K}.
Implicit Types (k : K) (service : list Z) (result : list addrinfo).

(** ** Connecting *)

(** The walk over the addresses: the socket that was connected. *)
Fixpoint connect_first result k : option Z * K :=
  match result with
  | [] => (None, k)
  | rp :: result =>
      let '(sfd, k) := socket (ai_family rp) (ai_socktype rp) (ai_protocol rp) k in
      if sfd =? -1 then connect_first result k else
      let '(r, k) := connect sfd (ai_addr rp) (ai_addrlen rp) k in
      if negb (r =? -1) then (Some sfd, k) else connect_first result (close sfd k)
  end.

(** The descriptor, and [errno] where it is set. *)
Definition inetConnect (host : option (list Z)) service (type : Z) k : Z * option Z * K :=
  let '(s, result, k) := getaddrinfo host (Some service) (Hints AF_UNSPEC type 0) k in
  if negb (s =? 0) then (-1, Some ENOSYS, k) else
  let '(sfd, k) := connect_first result k in
  (default (-1) sfd, None, freeaddrinfo k).

(** ** Listening *)

(** How the walk over the addresses ended. *)
Inductive bound :=
  | Bound (sfd addrlen : Z)
  | No_address
  | No_reuse.

Fixpoint bind_first (doListen : bool) result k : bound * K :=
  match result with
  | [] => (No_address, k)
  | rp :: result =>
      let '(sfd, k) := socket (ai_family rp) (ai_socktype rp) (ai_protocol rp) k in
      if sfd =? -1 then bind_first doListen result k else
      let '(r, k) := if doListen then setsockopt_reuseaddr sfd k else (0, k) in
      if r =? -1 then (No_reuse, close sfd k) else
      let '(r, k) := bind sfd (ai_addr rp) (ai_addrlen rp) k in
      if r =? 0 then (Bound sfd (ai_addrlen rp), k) else bind_first doListen result (close sfd k)
  end.

(** The descriptor, and what is stored in [*addrlen]. *)
Definition inetPassiveSocket service (type : Z) (doListen : bool) (backlog : Z) k : Z * option Z * K :=
  let '(s, result, k) := getaddrinfo None (Some service) (Hints AF_UNSPEC type AI_PASSIVE) k in
  if negb (s =? 0) then (-1, None, k) else
  let '(b, k) := bind_first doListen result k in
  match b with
  | No_reuse => (-1, None, freeaddrinfo k)
  | No_address => (-1, None, freeaddrinfo k)
  | Bound sfd addrlen =>
      let '(r, k) := if doListen then listen sfd backlog k else (0, k) in
      if r =? -1 then (-1, None, freeaddrinfo k) else (sfd, Some addrlen, freeaddrinfo k)
  end.
Definition inetListen service (backlog : Z) k : Z * option Z * K := inetPassiveSocket service SOCK_STREAM true backlog k.
Definition inetBind service (type : Z) k : Z * option Z * K := inetPassiveSocket service type false 0 k.

(** [snprintf] of a text into [n] bytes. *)
Definition snprintf (n : Z) (text : list Z) : list Z := if n <=? 0 then [] else take (Z.to_nat (n - 1)) text ++ [0].
Definition inetAddressStr (addr : list Z) (addrlen addrStrLen : Z) k : list Z :=
  match getnameinfo addr addrlen k with
  | Some (host, service) => snprintf addrStrLen ([40] ++ host ++ [44; 32] ++ service ++ [41])
  | None => snprintf addrStrLen [40; 63; 85; 78; 75; 78; 79; 87; 78; 63; 41]
  end.

(** ** Accepting *)

Fixpoint accept_first (sockfd : Z) result (acfd : Z) k : Z * K :=
  match result with
  | [] => (acfd, k)
  | _ :: result =>
      let '(acfd, k) := accept sockfd k in
      if acfd >? 0 then (acfd, k) else accept_first sockfd result acfd k
  end.
(** [rp_null] is what the variable [rp], which is read before it is set, is
    compared to null with; [None] when it is followed. *)
Definition inetAccept (rp_null : bool) (sockfd : Z) service (addrlen_null : bool) k : option (Z * K) :=
  let '(s, result, k) := getaddrinfo None (Some service) (Hints AF_UNSPEC SOCK_STREAM AI_PASSIVE) k in
  if negb (s =? 0) then Some (-1, k) else
  if negb rp_null && negb addrlen_null then None else
  let '(acfd, k) := accept_first sockfd result (-1) k in
  Some (acfd, freeaddrinfo k).

(** ** What stays open *)

Context `{!SocketsLaws K}.

(** One more descriptor, or none. *)
Definition opens k k' (r : Z) : Prop :=
  r = -1 ∧ opened k' = opened k ∨ 0 ≤ r ∧ (r ∉ opened k) ∧ opened k' = opened k ∪ {[r]}.

Lemma close_opened k k1 k2 r :
  r ∉ opened k → opened k1 = opened k ∪ {[r]} → opened k2 = opened k1 → opened (close r k2) = opened k.
Proof. intros Hr E1 E2. destruct (close_law r k2) as [-> _]. rewrite E2, E1. set_solver. Qed.

Lemma connect_first_ok result k :
  let '(sfd, k') := connect_first result k in opens k k' (default (-1) sfd) ∧ address_lists k' = address_lists k.
Proof.
  revert k. induction result as [|rp result IH]; intros k; cbn [connect_first]; [split; [by left|done]|].
  pose proof (socket_law (ai_family rp) (ai_socktype rp) (ai_protocol rp) k) as Hs. destruct (socket _ _ _ k) as [sfd k1].
  destruct Hs as [Hl1 [[-> Ho]|(Hpos & Hnew & Ho)]]; simpl.
  - specialize (IH k1). destruct (connect_first result k1) as [r k']. unfold opens in *. rewrite Ho, Hl1 in IH. done.
  - rewrite (proj2 (Z.eqb_neq sfd (-1))) by lia. pose proof (connect_law sfd (ai_addr rp) (ai_addrlen rp) k1) as [Hc1 Hc2].
    destruct (connect sfd _ _ k1) as [r k2]. simpl in Hc1, Hc2. destruct (negb (r =? -1)).
    + split; [|congruence]. right. simpl. rewrite Hc1. done.
    + specialize (IH (close sfd k2)). destruct (connect_first result (close sfd k2)) as [r2 k']. unfold opens in *.
      rewrite (close_opened k k1 k2 sfd) in IH by done. destruct (close_law sfd k2) as [_ E]. rewrite E, Hc2, Hl1 in IH. done.
Qed.

(** [inetConnect] leaves nothing behind: on success exactly the descriptor
    that it returns is new, on an error none, and every list of addresses is
    freed. *)
Theorem inetConnect_no_leak host service type k :
  let '(fd, errno, k') := inetConnect host service type k in
  opens k k' fd ∧ address_lists k' = address_lists k ∧ (errno = None ∨ errno = Some ENOSYS ∧ fd = -1).
Proof.
  unfold inetConnect. pose proof (getaddrinfo_law host (Some service) (Hints AF_UNSPEC type 0) k) as Hg.
  destruct (getaddrinfo _ _ _ k) as [[s result] k1]. destruct Hg as [Ho Hl]. destruct (s =? 0); simpl.
  - pose proof (connect_first_ok result k1) as Hc. destruct (connect_first result k1) as [sfd k2]. destruct Hc as [Hc1 Hc2].
    destruct (freeaddrinfo_law k2) as [Hf1 Hf2]. split; [|split; [rewrite Hf2, Hc2, Hl; lia|by left]].
    unfold opens in *. rewrite Hf1. rewrite Ho in Hc1. done.
  - split; [by left|]. split; [lia|by right].
Qed.

Lemma bind_first_ok doListen result k :
  let '(b, k') := bind_first doListen result k in
  opens k k' (match b with Bound sfd _ => sfd | _ => -1 end) ∧ address_lists k' = address_lists k ∧
  (∀ sfd n, b = Bound sfd n → 0 ≤ sfd).
Proof.
  revert k. induction result as [|rp result IH]; intros k; cbn [bind_first]; [split; [by left|done]|].
  pose proof (socket_law (ai_family rp) (ai_socktype rp) (ai_protocol rp) k) as Hs. destruct (socket _ _ _ k) as [sfd k1].
  destruct Hs as [Hl1 [[-> Ho]|(Hpos & Hnew & Ho)]]; simpl.
  - specialize (IH k1). destruct (bind_first doListen result k1) as [r k']. unfold opens in *. rewrite Ho, Hl1 in IH. done.
  - rewrite (proj2 (Z.eqb_neq sfd (-1))) by lia.
    assert (let '(r, k2) := if doListen then setsockopt_reuseaddr sfd k1 else (0, k1) in opened k2 = opened k1 ∧ address_lists k2 = address_lists k1) as Hopt.
    { destruct doListen; [|done]. pose proof (setsockopt_law sfd k1) as Hl. by destruct (setsockopt_reuseaddr sfd k1). }
    destruct (if doListen then setsockopt_reuseaddr sfd k1 else (0, k1)) as [r k2]. destruct Hopt as [E1 E2]. destruct (r =? -1).
    + destruct (close_law sfd k2) as [_ E3]. split; [left; split; [done|]; by apply (close_opened k k1 k2)|]. split; [congruence|done].
    + pose proof (bind_law sfd (ai_addr rp) (ai_addrlen rp) k2) as [Hc1 Hc2]. destruct (bind sfd _ _ k2) as [r' k3]. simpl in Hc1, Hc2.
      destruct (r' =? 0).
      * split; [right; split_and!; [done|done|congruence]|]. split; [congruence|]. by intros ? ? [= <- _].
      * specialize (IH (close sfd k3)). destruct (bind_first doListen result (close sfd k3)) as [r2 k']. unfold opens in *.
        rewrite (close_opened k k1 k3 sfd) in IH by (done || congruence). destruct (close_law sfd k3) as [_ E]. rewrite E, Hc2, E2, Hl1 in IH. done.
Qed.

(** C29: What [inetPassiveSocket] returns and leaves open, exactly: the socket that
    was bound, unless it should listen and [listen] fails on it; then -1 is
    returned and nothing stored, but the socket stays open.  When no address is
    found or none can be bound no descriptor stays open.  Every list of
    addresses is freed. *)
Theorem inetPassiveSocket_leaks service type doListen backlog k :
  let '(s, result, k1) := getaddrinfo None (Some service) (Hints AF_UNSPEC type AI_PASSIVE) k in
  let '(b, k2) := bind_first doListen result k1 in
  let '(fd, addrlen, k') := inetPassiveSocket service type doListen backlog k in
  address_lists k' = address_lists k ∧
  match b with
  | Bound sfd n =>
      s = 0 → 0 ≤ sfd ∧ (sfd ∉ opened k) ∧ opened k' = opened k ∪ {[sfd]} ∧
        (fd, addrlen) = (if doListen && ((listen sfd backlog k2).1 =? -1) then (-1, None) else (sfd, Some n))
  | _ => s = 0 → fd = -1 ∧ addrlen = None ∧ opened k' = opened k
  end ∧
  (s ≠ 0 → fd = -1 ∧ addrlen = None ∧ opened k' = opened k).
Proof.
  unfold inetPassiveSocket. pose proof (getaddrinfo_law None (Some service) (Hints AF_UNSPEC type AI_PASSIVE) k) as Hg.
  destruct (getaddrinfo _ _ _ k) as [[s result] k1]. destruct Hg as [Ho Hl].
  pose proof (bind_first_ok doListen result k1) as Hb. destruct (bind_first doListen result k1) as [b k2]. destruct Hb as (Hb1 & Hb2 & Hb3).
  destruct (Z.eqb_spec s 0) as [->|Hs]; simpl; [|split; [lia|]; split; [by destruct b|done]].
  unfold opens in Hb1. rewrite Ho in Hb1.
  destruct b as [sfd n| |]; [|destruct Hb1 as [[_ Hb1]|[? _]]; [|lia]; destruct (freeaddrinfo_law k2) as [-> ->]; by split; [lia|]..].
  specialize (Hb3 _ _ eq_refl). destruct Hb1 as [[? _]|(_ & Hnew & Hop)]; [lia|].
  pose proof (listen_law sfd backlog k2) as [E1 E2]. destruct (listen sfd backlog k2) as [r k3]. simpl in E1, E2.
  destruct doListen; simpl; [destruct (r =? -1)|].
  1,2: destruct (freeaddrinfo_law k3) as [-> ->].
  3: destruct (freeaddrinfo_law k2) as [-> ->].
  all: split; [lia|]; split; [|done]; intros _; split_and!; [done|done|congruence|done].
Qed.
End sockets.

(** ** A kernel *)

(** The open descriptors, the lists, and the addresses of every service; an
    address that starts with 1 works, and [listen] refuses a negative backlog. *)
Record host := Host { ho_open : gset Z; ho_lists : Z; ho_addresses : list addrinfo }.
Definition next_descriptor (k : host) : Z := 1 + foldr Z.max 0 (elements (ho_open k)).
Definition works (addr : list Z) : bool := match addr with 1 :: _ => true | _ => false end.
Definition open_next (k : host) : Z * host := (next_descriptor k, Host (ho_open k ∪ {[next_descriptor k]}) (ho_lists k) (ho_addresses k)).

#[export] Instance host_sockets : Sockets host := {|
  getaddrinfo _ _ _ k := (0, ho_addresses k, Host (ho_open k) (ho_lists k + 1) (ho_addresses k));
  freeaddrinfo k := Host (ho_open k) (ho_lists k - 1) (ho_addresses k);
  socket _ _ _ k := open_next k;
  connect _ a _ k := (if works a then 0 else -1, k);
  setsockopt_reuseaddr _ k := (0, k);
  bind _ a _ k := (if works a then 0 else -1, k);
  listen _ backlog k := (if backlog <? 0 then -1 else 0, k);
  accept _ k := open_next k;
  close fd k := Host (ho_open k ∖ {[fd]}) (ho_lists k) (ho_addresses k);
  getnameinfo _ _ _ := None;
  opened := ho_open;
  address_lists := ho_lists;
|}.

#[export] Instance host_laws : SocketsLaws host.
Proof.
  assert (∀ k, 0 ≤ next_descriptor k ∧ (next_descriptor k ∉ ho_open k)) as Hnext.
  { intros k. unfold next_descriptor. assert (∀ l, 0 ≤ foldr Z.max 0 l) as H0 by (intros l; induction l; simpl; lia).
    split; [specialize (H0 (elements (ho_open k))); lia|]. intros Hin%elem_of_elements%max_fold_le. lia. }
  split; try done.
  - intros f t p k. split; [done|]. right. destruct (Hnext k). by split_and!.
  - intros fd k. split; [done|]. right. destruct (Hnext k). by split_and!.
Qed.

Definition demo_address (w : Z) : addrinfo := Addrinfo 2 SOCK_STREAM 0 [w] 16.
Definition demo_host : host := Host {[0; 1; 2]} 0 [demo_address 0; demo_address 1].

Lemma inetConnect_no_leak_witness :
  let '(fd, _, k') := inetConnect None [56; 48] SOCK_STREAM demo_host in
  opens demo_host k' fd ∧ fd = 3 ∧ address_lists k' = 0.
Proof.
  pose proof (inetConnect_no_leak None [56; 48] SOCK_STREAM demo_host) as Hc.
  assert ((inetConnect None [56; 48] SOCK_STREAM demo_host).1.1 = 3) as E by (by vm_compute).
  destruct (inetConnect None [56; 48] SOCK_STREAM demo_host) as [[fd e] k']. destruct Hc as (H1 & H2 & _). by split_and!.
Defined.

(** A socket that is bound but cannot listen stays open. *)
Lemma inetPassiveSocket_leaks_witness :
  let '(fd, n, k') := inetListen [56; 48] (-1) demo_host in
  address_lists k' = 0 ∧ (fd, n) = (-1, None) ∧ opened k' = opened demo_host ∪ {[3]}.
Proof.
  pose proof (inetPassiveSocket_leaks [56; 48] SOCK_STREAM true (-1) demo_host) as Hc. unfold inetListen.
  destruct (inetPassiveSocket [56; 48] SOCK_STREAM true (-1) demo_host) as [[fd n] k'].
  destruct (getaddrinfo None (Some [56; 48]) (Hints AF_UNSPEC SOCK_STREAM AI_PASSIVE) demo_host) as [[s result] k1] eqn:E1.
  destruct (bind_first true result k1) as [b k2] eqn:E2. simpl in E1. injection E1 as <- <- <-.
  assert (b = Bound 3 16) as -> by (vm_compute in E2; by injection E2 as <- _).
  destruct Hc as (H1 & H2 & _). destruct (H2 eq_refl) as (_ & _ & H3 & H4). by split_and!.
Defined.

(** The variable that is read before it is set: when it is not null by chance it
    is followed. *)
Example inetAccept_uninitialised :
  inetAccept false 5 [56; 48] false demo_host = None ∧
  fst <$> inetAccept true 5 [56; 48] false demo_host = Some 3.
Proof. by vm_compute. Qed.
