(* ===== verification/CppPool.v ===== *)
(** * threadpool: the C++ pool with a semaphore

    [threadpool.h] and [locker.h] of ThreadPool(C++): a list of requests behind a
    mutex and a semaphore that counts them.  The threads are those of a step
    relation; a step that takes the mutex runs up to where it is released, which
    is sound since only such steps touch the list.  A request is its address;
    what its [process] does is not part of the pool.  A [sem_wait] that a signal
    interrupts fails, which [run] does not look at: that is a step of its own, as
    often as there are signals. *)
From stdpp Require Import relations.
From S2P Require Import Prelude.
#[local] Open Scope Z_scope.

(** ** Data *)

(** Where a thread is: in [run] of a worker, or in [append] of a client. *)
Inductive pc :=
  | Run_check
  | Run_wait
  | Run_lock
  | Run_process (request : Z)
  | Run_end
  | Append_lock (request : Z)
  | Append_post
  | Append_end (ret : bool).

(** The list, the semaphore, the signals that will interrupt a [sem_wait], and what
    was put in, taken out and processed, the oldest first. *)
Record threadpool := Threadpool {
  m_max_requests : Z; m_workqueue : list Z; m_queuestat : Z; m_stop : bool; interrupts : nat;
  appended : list Z; taken : list Z; processed : list Z;
}.

Definition with_stop (p : threadpool) : threadpool :=
  Threadpool (m_max_requests p) (m_workqueue p) (m_queuestat p) true (interrupts p) (appended p) (taken p) (processed p).
Definition with_stat (n : Z) (p : threadpool) : threadpool :=
  Threadpool (m_max_requests p) (m_workqueue p) n (m_stop p) (interrupts p) (appended p) (taken p) (processed p).
Definition push_back (r : Z) (p : threadpool) : threadpool :=
  Threadpool (m_max_requests p) (m_workqueue p ++ [r]) (m_queuestat p) (m_stop p) (interrupts p) (appended p ++ [r]) (taken p) (processed p).
Definition pop_front (r : Z) (l : list Z) (p : threadpool) : threadpool :=
  Threadpool (m_max_requests p) l (m_queuestat p) (m_stop p) (interrupts p) (appended p) (taken p ++ [r]) (processed p).
Definition process (r : Z) (p : threadpool) : threadpool :=
  Threadpool (m_max_requests p) (m_workqueue p) (m_queuestat p) (m_stop p) (interrupts p) (appended p) (taken p) (processed p ++ [r]).

Definition with_interrupts (n : nat) (p : threadpool) : threadpool :=
  Threadpool (m_max_requests p) (m_workqueue p) (m_queuestat p) (m_stop p) n (appended p) (taken p) (processed p).

(** The constructor: the pool and where its workers are, or the exception. *)
Definition threadpool_new (thread_number max_requests : Z) : option (threadpool * list pc) :=
  if (thread_number <=? 0) || (max_requests <=? 0) then None
  else Some (Threadpool max_requests [] 0 false 0 [] [] [], replicate (Z.to_nat thread_number) Run_check).

(** ** Steps *)

(** [sem::wait] that is not interrupted; [None] while it blocks. *)
Definition sem_wait (p : threadpool) : option threadpool :=
  if 0 <? m_queuestat p then Some (with_stat (m_queuestat p - 1) p) else None.
Definition sem_post (p : threadpool) : threadpool := with_stat (m_queuestat p + 1) p.

(** [append] with the mutex. *)
Definition append (request : Z) (p : threadpool) : pc * threadpool :=
  if Z.of_nat (length (m_workqueue p)) >? m_max_requests p then (Append_end false, p)
  else (Append_post, push_back request p).
(** [run] with the mutex. *)
Definition run_take (p : threadpool) : pc * threadpool :=
  match m_workqueue p with
  | [] => (Run_check, p)
  | request :: l => (if request =? 0 then Run_check else Run_process request, pop_front request l p)
  end.

(** A step of one thread; [None] when it blocks or has ended. *)
Definition exec (c : pc) (p : threadpool) : option (pc * threadpool) :=
  match c with
  | Run_check => Some (if m_stop p then Run_end else Run_wait, p)
  | Run_wait => p ← sem_wait p; Some (Run_lock, p)
  | Run_lock => Some (run_take p)
  | Run_process request => Some (Run_check, process request p)
  | Append_lock request => Some (append request p)
  | Append_post => Some (Append_end true, sem_post p)
  | Run_end | Append_end _ => None
  end.

Inductive step : threadpool * list pc → threadpool * list pc → Prop :=
  | step_thread p ts i c c' p' :
      ts !! i = Some c → exec c p = Some (c', p') → step (p, ts) (p', <[i := c']> ts)
  | step_interrupt p ts i n :
      ts !! i = Some Run_wait → interrupts p = S n → step (p, ts) (with_interrupts n p, <[i := Run_lock]> ts).

(** [~threadpool]: the members are destroyed after [m_stop] was set; whoever
    waits on the semaphore then or looks at [m_stop] afterwards uses a pool that
    is gone. *)
Definition uses_pool (c : pc) : bool := match c with Run_end | Append_end _ => false | _ => true end.
Definition threadpool_delete (p : threadpool) (ts : list pc) : option threadpool :=
  if existsb uses_pool ts then None else Some (with_stop p).

(** ** Counting threads *)

Definition count (f : pc → bool) (ts : list pc) : Z := Z.of_nat (length (List.filter f ts)).
Definition at_lock (c : pc) : bool := match c with Run_lock => true | _ => false end.
Definition at_post (c : pc) : bool := match c with Append_post => true | _ => false end.
Definition at_accepted (c : pc) : bool := match c with Append_end b => b | _ => false end.
Definition b2z (b : bool) : Z := if b then 1 else 0.

Lemma count_insert f ts i c c' : ts !! i = Some c → count f (<[i := c']> ts) = count f ts - b2z (f c) + b2z (f c').
Proof.
  intros Hi. rewrite <-(take_drop_middle ts i c) at 2 by done. rewrite insert_take_drop by (by eapply lookup_lt_Some).
  unfold count. rewrite !List.filter_app. cbn [List.filter]. rewrite !length_app. destruct (f c), (f c'); simpl; lia.
Qed.
Lemma count_pos f ts i c : ts !! i = Some c → f c = true → 0 < count f ts.
Proof.
  intros Hi Hf. pose proof (count_insert f ts i c Run_end Hi) as E.
  rewrite <-(take_drop_middle ts i c) by done. unfold count. rewrite List.filter_app, length_app. simpl. rewrite Hf. simpl. lia.
Qed.
Lemma count_nonneg f ts : 0 ≤ count f ts.
Proof. unfold count. lia. Qed.
Lemma count_zero f ts : (∀ i c, ts !! i = Some c → f c = false) → count f ts = 0.
Proof.
  intros Hf. unfold count. induction ts as [|c ts IH]; [done|]. simpl. rewrite (Hf 0%nat c) by done. apply IH. intros i. apply (Hf (S i)).
Qed.

(** ** The invariant *)

(** Requests of workers that will process them. *)
Definition in_process (c : pc) : list Z := match c with Run_process r => [r] | _ => [] end.

(** The semaphore, the workers that are behind it and the clients that have not
    posted yet are enough for the list, and too many only by the interrupts that
    there were of [total]; requests leave it in the order in which they
    came; a client has been told of every one; those that were taken, but for null
    pointers, are processed once. *)
Record pool_inv (total : nat) (p : threadpool) (ts : list pc) : Prop := {
  pi_count : Z.of_nat (length (m_workqueue p)) ≤ m_queuestat p + count at_lock ts + count at_post ts;
  pi_excess : m_queuestat p + count at_lock ts + count at_post ts + Z.of_nat (interrupts p) ≤ Z.of_nat (length (m_workqueue p)) + Z.of_nat total;
  pi_interrupts : (interrupts p ≤ total)%nat;
  pi_stat : 0 ≤ m_queuestat p;
  pi_fifo : appended p = taken p ++ m_workqueue p;
  pi_bound : Z.of_nat (length (m_workqueue p)) ≤ m_max_requests p + 1;
  pi_accepted : Z.of_nat (length (appended p)) = count at_accepted ts + count at_post ts;
  pi_running : m_stop p = false ∧ (∀ c, c ∈ ts → c ≠ Run_end);
  pi_processed : Permutation (processed p ++ concat (in_process <$> ts)) (List.filter (λ r, negb (r =? 0)) (taken p));
}.

Lemma in_process_insert ts i c c' :
  ts !! i = Some c → Permutation (in_process c ++ concat (in_process <$> <[i := c']> ts)) (in_process c' ++ concat (in_process <$> ts)).
Proof.
  intros Hi. rewrite <-(take_drop_middle ts i c) at 2 by done. rewrite insert_take_drop by (by eapply lookup_lt_Some).
  rewrite !fmap_app, !concat_app, !fmap_cons. cbn [concat]. solve_Permutation.
Qed.

Lemma in_process_same ts i c c' :
  ts !! i = Some c → in_process c = [] → in_process c' = [] → Permutation (concat (in_process <$> <[i := c']> ts)) (concat (in_process <$> ts)).
Proof. intros Hi E1 E2. pose proof (in_process_insert ts i c c' Hi) as P. by rewrite E1, E2 in P. Qed.

Lemma not_end_insert (ts : list pc) (i : nat) c c' : (∀ x, x ∈ ts → x ≠ Run_end) → ts !! i = Some c → c' ≠ Run_end → ∀ x, x ∈ <[i := c']> ts → x ≠ Run_end.
Proof.
  intros Hts Hi Hc x (j & Hj)%list_elem_of_lookup. destruct (decide (i = j)) as [<-|Hne].
  - rewrite list_lookup_insert_eq in Hj by (by eapply lookup_lt_Some). congruence.
  - rewrite list_lookup_insert_ne in Hj by done. eapply Hts, list_elem_of_lookup_2, Hj.
Qed.

Lemma step_inv total s s' : step s s' → pool_inv total s.1 s.2 → pool_inv total s'.1 s'.2.
Proof.
  intros [p ts i c c' p' Hi He|p ts i n Hi He] [Hcount Hexc Hint Hstat Hfifo Hbound Hacc [Hstop Hend] Hproc]; cbn [fst snd] in *.
  2: { pose proof (count_insert at_lock ts i _ Run_lock Hi) as Hl. pose proof (count_insert at_post ts i _ Run_lock Hi) as Hp.
    pose proof (count_insert at_accepted ts i _ Run_lock Hi) as Ha. simpl in *.
    split; simpl; try done; try lia; [split; [done|by apply (not_end_insert ts i _ Run_lock Hend Hi)]|by rewrite (in_process_same ts i _ Run_lock Hi)]. }
  pose proof (count_insert at_lock ts i c c' Hi) as Hl. pose proof (count_insert at_post ts i c c' Hi) as Hp.
  pose proof (count_insert at_accepted ts i c c' Hi) as Ha. pose proof (not_end_insert ts i c c' Hend Hi) as Hend'.
  pose proof (in_process_insert ts i c c' Hi) as Hin. pose proof (in_process_same ts i c c' Hi) as Hsame.
  destruct c as [| | |r| |r| |b]; simpl in He; simplify_eq.
  - rewrite Hstop in *. simpl in *. split; try done; try lia; [by split; [|apply Hend']|by rewrite Hsame].
  - unfold sem_wait in He. destruct (Z.ltb_spec 0 (m_queuestat p)); [|done]. injection He as <- <-. simpl in *.
    split; simpl; try done; try lia; [by split; [|apply Hend']|by rewrite Hsame].
  - unfold run_take in He. pose proof (count_pos at_lock ts i _ Hi eq_refl). pose proof (count_nonneg at_post ts).
    destruct (m_workqueue p) as [|r l] eqn:Hq.
    { injection He as <- <-. simpl in *. split; simpl; rewrite ?Hq; simpl; try done; try lia; [by split; [|apply Hend']|by rewrite Hsame]. }
    injection He as <- <-. destruct (Z.eqb_spec r 0) as [->|Hr]; simpl in *.
    + split; simpl; try done; try lia; [by rewrite <-app_assoc|by split; [|apply Hend']|]. rewrite Hsame by done. rewrite List.filter_app. simpl. by rewrite app_nil_r.
    + split; simpl; try done; try lia; [by rewrite <-app_assoc|by split; [|apply Hend']|]. rewrite List.filter_app. simpl. rewrite (proj2 (Z.eqb_neq r 0)) by done. simpl.
      rewrite <-Hproc, Hin. solve_Permutation.
  - simpl in *. split; simpl; try done; try lia; [by split; [|apply Hend']|]. rewrite <-Hproc. rewrite <-app_assoc. by apply Permutation_app_head.
  - unfold append in He. destruct (Z.gtb_spec (Z.of_nat (length (m_workqueue p))) (m_max_requests p)); injection He as <- <-; simpl in *.
    + split; simpl; try done; try lia; [by split; [|apply Hend']|by rewrite Hsame].
    + split; simpl; rewrite ?length_app; simpl; try done; try lia; [by rewrite Hfifo, app_assoc|by split; [|apply Hend']|by rewrite Hsame].
  - simpl in *. split; simpl; try done; try lia; [by split; [|apply Hend']|by rewrite Hsame].
Qed.

(** ** The end of a schedule *)

Definition weight (c : pc) : Z :=
  match c with
  | Run_check => 1 | Run_wait => 0 | Run_lock => 5 | Run_process _ => 3 | Run_end => 0
  | Append_lock _ => 8 | Append_post => 7 | Append_end _ => 0
  end.
(** What is left to do. *)
Definition work (s : threadpool * list pc) : Z := foldr Z.add 0 (weight <$> s.2) + 6 * m_queuestat s.1 + 6 * Z.of_nat (interrupts s.1).

Lemma weight_insert ts i c c' :
  ts !! i = Some c → foldr Z.add 0 (weight <$> <[i := c']> ts) = foldr Z.add 0 (weight <$> ts) - weight c + weight c'.
Proof.
  revert i. induction ts as [|x ts IH]; intros [|i]; simpl; [done..| |].
  - intros [= ->]. lia.
  - intros Hi. change (weight x + foldr Z.add 0 (weight <$> <[i := c']> ts) = weight x + foldr Z.add 0 (weight <$> ts) - weight c + weight c'). rewrite (IH i Hi). lia.
Qed.

Lemma step_work s s' : step s s' → work s' < work s.
Proof.
  intros [p ts i c c' p' Hi He|p ts i n Hi He]; unfold work; cbn [fst snd]; rewrite (weight_insert _ _ _ _ Hi); [|simpl; lia].
  destruct c as [| | |r| |r| |b]; simpl in He; simplify_eq; simpl; try lia.
  - destruct (m_stop p'); simpl; lia.
  - unfold sem_wait in He. destruct (0 <? m_queuestat p); [|done]. injection He as <- <-. simpl. lia.
  - unfold run_take in He. destruct (m_workqueue p); [|destruct (_ =? 0)]; injection He as <- <-; simpl; lia.
  - unfold append in He. destruct (_ >? _); injection He as <- <-; simpl; lia.
Qed.

Lemma weights_nonneg ts : 0 ≤ foldr Z.add 0 (weight <$> ts).
Proof. induction ts as [|c ts IH]; [done|]. rewrite fmap_cons. cbn [foldr]. destruct c; cbn [weight]; lia. Qed.

Lemma nsteps_inv total n s s' :
  nsteps step n s s' → pool_inv total s.1 s.2 → pool_inv total s'.1 s'.2 ∧ Z.of_nat n ≤ work s - work s'.
Proof.
  induction 1 as [s|n s1 s2 s3 H1 _ IH]; intros Hs; [split; [done|lia]|]. pose proof (step_work _ _ H1).
  destruct IH as [? ?]; [by eapply step_inv|]. split; [done|lia].
Qed.

Lemma nsteps_max n s s' : nsteps step n s s' → m_max_requests s'.1 = m_max_requests s.1.
Proof.
  induction 1 as [|n s1 s2 s3 H1 _ IH]; [done|]. rewrite IH. destruct H1 as [p ts i c c' p' Hi He|]; [|done]. cbn [fst].
  destruct c; simpl in He; simplify_eq; try done.
  - unfold sem_wait in He. destruct (0 <? m_queuestat p); [|done]. by injection He as <- <-.
  - unfold run_take in He. by destruct (m_workqueue p); injection He as <- <-.
  - unfold append in He. by destruct (_ >? _); injection He as <- <-.
Qed.

(** The first thread stays a worker. *)
Definition a_worker (c : pc) : Prop := match c with Append_lock _ | Append_post | Append_end _ => False | _ => True end.
Lemma nsteps_workers n s s' :
  nsteps step n s s' → (∃ c, s.2 !! 0%nat = Some c ∧ a_worker c) → ∃ c, s'.2 !! 0%nat = Some c ∧ a_worker c.
Proof.
  induction 1 as [|n s1 s2 s3 H1 _ IH]; [done|]. intros (c0 & Hc0 & Hw). apply IH. destruct H1 as [p ts i c c' p' Hi He|p ts i k Hi He]; cbn [snd] in *.
  2: { destruct i as [|i]; (destruct ts; [done|]); [by exists Run_lock|by exists c0]. }
  destruct i as [|i]; [|destruct ts; [done|by exists c0]]. destruct ts as [|x ts]; [done|]. simpl in *. exists c'. split; [done|].
  assert (c = c0) as -> by congruence. destruct c0; simpl in *; simplify_eq; try done.
  - by destruct (m_stop p').
  - unfold sem_wait in He. destruct (0 <? m_queuestat p); [|done]. by injection He as <- <-.
  - unfold run_take in He. destruct (m_workqueue p); [|destruct (_ =? 0)]; by injection He as <- <-.
Qed.

(** ** Theorems *)

Section pool.
Context (thread_number max_requests : Z) (total : nat) (requests : list Z) (p : threadpool) (workers : list pc).
Context (Hnew : threadpool_new thread_number max_requests = Some (p, workers)).

(** The workers of a new pool, a client for every request, and [total] signals to
    come. *)
Definition started : threadpool * list pc := (with_interrupts total p, workers ++ (Append_lock <$> requests)).

Lemma new_pool : 0 < thread_number ∧ 0 < max_requests ∧ p = Threadpool max_requests [] 0 false 0 [] [] [] ∧ workers = replicate (Z.to_nat thread_number) Run_check.
Proof.
  unfold threadpool_new in Hnew. destruct (Z.leb_spec thread_number 0), (Z.leb_spec max_requests 0); simpl in Hnew; try done. by injection Hnew as <- <-.
Qed.

Lemma started_cases c : c ∈ started.2 → c = Run_check ∨ ∃ r, c = Append_lock r.
Proof.
  destruct new_pool as (_ & _ & _ & Hw). cbn [started snd]. intros [Hc|Hc]%elem_of_app.
  - left. rewrite Hw in Hc. by apply elem_of_replicate in Hc as [-> _].
  - right. apply list_elem_of_fmap in Hc as (r & -> & _). by exists r.
Qed.

Lemma started_inv : pool_inv total started.1 started.2.
Proof.
  assert (∀ f, (∀ r, f (Append_lock r) = false) → f Run_check = false → count f started.2 = 0) as Hzero.
  { intros f H1 H2. apply count_zero. intros i c Hi%list_elem_of_lookup_2%started_cases. by destruct Hi as [->|[r ->]]. }
  assert (concat (in_process <$> started.2) = []) as Hconcat.
  { assert (∀ l, (∀ c, c ∈ l → c = Run_check ∨ ∃ r, c = Append_lock r) → concat (in_process <$> l) = []) as Hl; [|apply Hl, started_cases].
    intros l. induction l as [|c l IH]; [done|]. intros Hl. cbn [fmap list_fmap concat]. fold (in_process <$> l). rewrite IH by (intros; apply Hl; by right).
    by destruct (Hl c) as [->|[r ->]]; [left|..]. }
  destruct new_pool as (_ & Hmax & Hp & _).
  split; rewrite ?Hzero, ?Hconcat by done; cbn [started fst]; rewrite ?Hp; cbn [with_interrupts interrupts m_workqueue m_queuestat appended taken processed m_max_requests m_stop length]; try done; try lia.
  split; [done|]. intros c Hc%started_cases. by destruct Hc as [->|[r ->]].
Qed.

Lemma new_worker : ∃ c, started.2 !! 0%nat = Some c ∧ a_worker c.
Proof.
  destruct new_pool as (Ht & _ & _ & Hw). exists Run_check. split; [|done]. cbn [started snd]. rewrite Hw.
  replace (Z.to_nat thread_number) with (S (pred (Z.to_nat thread_number))) by lia. done.
Qed.

(** In every schedule the requests leave the list in the order in which they
    were appended, and every request that was accepted is waiting, being processed
    or processed, once; at most [max_requests + 1] wait.  The semaphore counts
    more than there is only by the interrupts that there were; without them a
    worker that locks finds a request. *)
Theorem cpp_pool_invariant n p' ts' :
  nsteps step n started (p', ts') →
  appended p' = taken p' ++ m_workqueue p' ∧
  Permutation (processed p' ++ concat (in_process <$> ts')) (List.filter (λ r, negb (r =? 0)) (taken p')) ∧
  0 ≤ m_queuestat p' ≤ Z.of_nat (length (m_workqueue p')) + Z.of_nat (total - interrupts p') ∧
  Z.of_nat (length (m_workqueue p')) ≤ max_requests + 1 ∧
  (total = 0%nat → ∀ i, ts' !! i = Some Run_lock → m_workqueue p' ≠ []).
Proof.
  intros Hsteps. destruct (nsteps_inv _ _ _ _ Hsteps started_inv) as [[H1 Hx Hi0 H2 H3 H4 H5 H6 H7] _]. cbn [fst snd] in *.
  assert (m_max_requests p' = max_requests) as Hmax.
  { destruct new_pool as (_ & _ & Hp & _). apply nsteps_max in Hsteps. cbn [started fst] in Hsteps. by rewrite Hsteps, Hp. }
  pose proof (count_nonneg at_lock ts'). pose proof (count_nonneg at_post ts'). split_and!; [done|done|lia|lia|lia|].
  intros -> i Hi Hq. pose proof (count_pos at_lock ts' i _ Hi eq_refl). rewrite Hq in Hx. simpl in Hx. lia.
Qed.

(** C10: Every schedule ends, within a number of steps that the requests, the
    workers and the signals that interrupt [sem_wait] bound; when every thread
    waits or has ended, every client has its answer, every worker waits, the list
    is empty, and exactly the requests that were accepted have been processed,
    null pointers apart. *)
Theorem cpp_pool_quiesces n p' ts' :
  nsteps step n started (p', ts') →
  Z.of_nat n ≤ thread_number + 8 * Z.of_nat (length requests) + 6 * Z.of_nat total ∧
  ((∀ i c, ts' !! i = Some c → exec c p' = None) →
   (∀ c, c ∈ ts' → c = Run_wait ∨ ∃ b, c = Append_end b) ∧ m_workqueue p' = [] ∧
   count at_accepted ts' = Z.of_nat (length (appended p')) ∧
   Permutation (processed p') (List.filter (λ r, negb (r =? 0)) (appended p'))).
Proof.
  intros Hsteps. destruct (nsteps_inv _ _ _ _ Hsteps started_inv) as [[H1 Hx Hi0 H2 H3 H4 H5 [Hstop Hend] H7] Hn]. cbn [fst snd] in *. split.
  - assert (work started = thread_number + 8 * Z.of_nat (length requests) + 6 * Z.of_nat total) as E.
    { destruct new_pool as (Ht & _ & Hp & Hw). unfold work. cbn [started fst snd]. rewrite Hp, Hw. cbn [m_queuestat with_interrupts interrupts].
      rewrite fmap_app, foldr_app. assert (foldr Z.add 0 (weight <$> (Append_lock <$> requests)) = 8 * Z.of_nat (length requests)) as ->.
      { clear. induction requests as [|r l IH]; [done|]. cbn [fmap list_fmap foldr length weight]. rewrite IH. lia. }
      clear Hsteps Hn. assert (∀ m x, foldr Z.add x (weight <$> replicate m Run_check) = Z.of_nat m + x) as ->; [|lia].
      intros m x. induction m as [|m IH]; [done|]. cbn [replicate fmap list_fmap foldr weight]. rewrite IH. lia. }
    assert (0 ≤ work (p', ts')); [|lia]. unfold work. pose proof (weights_nonneg ts'). cbn [fst snd]. lia.
  - intros Hblock.
    assert (∀ i c, ts' !! i = Some c → c = Run_wait ∨ ∃ b, c = Append_end b) as Hall.
    { intros i c Hi. pose proof (Hblock i c Hi) as Hb. destruct c as [| | |r| |r| |b]; simpl in Hb; try done; eauto.
      exfalso. by eapply Hend, eq_refl; eapply list_elem_of_lookup_2. }
    assert (∀ f, f Run_wait = false → (∀ b, f (Append_end b) = false) → count f ts' = 0) as Hzero.
    { intros f F1 F2. apply count_zero. intros i c Hi. by destruct (Hall i c Hi) as [->|[b ->]]. }
    rewrite !Hzero in H1 by done. rewrite (Hzero at_post) in H5 by done.
    assert (concat (in_process <$> ts') = []) as Hc.
    { clear -Hall. induction ts' as [|c ts' IH]; [done|]. cbn [fmap list_fmap concat]. fold (in_process <$> ts'). rewrite IH; [|intros i; apply (Hall (S i))].
      by destruct (Hall 0%nat c eq_refl) as [->|[b ->]]. }
    assert (m_workqueue p' = []) as Hq.
    { destruct (Z.eq_dec (m_queuestat p') 0) as [E|E]; [apply nil_length_inv; lia|]. exfalso.
      assert (∃ i, ts' !! i = Some Run_wait) as [i Hi]; [|].
      2: { specialize (Hblock i _ Hi). simpl in Hblock. unfold sem_wait in Hblock. by rewrite (proj2 (Z.ltb_lt _ _)) in Hblock by lia. }
      destruct (nsteps_workers _ _ _ Hsteps) as (c & Hc0 & Hw); [apply new_worker|]. cbn [snd] in Hc0. exists 0%nat.
      by destruct (Hall 0%nat c Hc0) as [->|[b ->]]. }
    split; [intros c (i & Hi)%list_elem_of_lookup; by eapply Hall|]. split; [done|]. split; [lia|].
    rewrite Hc, app_nil_r in H7. by rewrite H3, Hq, app_nil_r.
Qed.

(** The destructor does not wait for the workers: whenever it is called, the
    workers use the pool that it destroys. *)
Theorem cpp_pool_delete_undefined n p' ts' : nsteps step n started (p', ts') → threadpool_delete p' ts' = None.
Proof.
  intros Hsteps. destruct (nsteps_inv _ _ _ _ Hsteps started_inv) as [[_ _ _ _ _ _ _ [_ Hend] _] _]. cbn [fst snd] in *.
  destruct (nsteps_workers _ _ _ Hsteps) as (c & Hc & Hw); [apply new_worker|]. cbn [snd] in Hc. unfold threadpool_delete.
  assert (existsb uses_pool ts' = true) as ->; [|done]. apply existsb_exists. exists c. split; [by eapply list_elem_of_In, list_elem_of_lookup_2|].
  destruct c; try done. exfalso. by eapply Hend, eq_refl; eapply list_elem_of_lookup_2.
Qed.
End pool.

(** ** Witnesses *)

Definition demo_cpp_pool : threadpool := Threadpool 1 [] 0 false 0 [] [] [].

(** A schedule: the threads that step, and [None] for an interrupt of the worker 0. *)
Fixpoint schedule (l : list (option nat)) (s : threadpool * list pc) : option (threadpool * list pc) :=
  match l with
  | [] => Some s
  | Some i :: l => c ← s.2 !! i; '(c', p) ← exec c s.1; schedule l (p, <[i := c']> s.2)
  | None :: l =>
      match s.2 !! 0%nat, interrupts s.1 with
      | Some Run_wait, S n => schedule l (with_interrupts n s.1, <[0%nat := Run_lock]> s.2)
      | _, _ => None
      end
  end.
Lemma schedule_steps l s s' : schedule l s = Some s' → nsteps step (length l) s s'.
Proof.
  revert s. induction l as [|[i|] l IH]; intros [p ts]; cbn [schedule length]; [intros [= <-]; constructor|cbn [fst snd]..].
  - destruct (ts !! i) as [c|] eqn:Hi; [|done]. cbn [mbind option_bind]. destruct (exec c p) as [[c' p2]|] eqn:He; [|done]. cbn [mbind option_bind].
    intros Hs. econstructor; [by eapply step_thread|]. by apply IH.
  - destruct (ts !! 0%nat) as [[]|] eqn:Hi; try done. destruct (interrupts p) as [|n] eqn:Hn; [done|]. intros Hs.
    econstructor; [by eapply step_interrupt|]. by apply IH.
Qed.

(** With room for one request two wait, and a third is refused. *)
Lemma cpp_pool_invariant_witness :
  ∃ p' ts', nsteps step 3 (started 0 [5; 6; 7] demo_cpp_pool [Run_check]) (p', ts') ∧ m_workqueue p' = [5; 6] ∧
    appended p' = taken p' ++ m_workqueue p' ∧ ts' !! 3%nat = Some (Append_end false).
Proof.
  assert (∃ s', schedule [Some 1; Some 2; Some 3]%nat (started 0 [5; 6; 7] demo_cpp_pool [Run_check]) = Some s' ∧ m_workqueue s'.1 = [5; 6] ∧ s'.2 !! 3%nat = Some (Append_end false))
    as ([p' ts'] & Hs & Hq & Hend) by (eexists; split; [by vm_compute|by split]).
  exists p', ts'. apply schedule_steps in Hs. split; [exact Hs|]. split; [exact Hq|].
  destruct (cpp_pool_invariant 1 1 0 [5; 6; 7] demo_cpp_pool [Run_check] eq_refl _ _ _ Hs) as (H1 & _). by split.
Defined.

(** One worker that is interrupted, one client: after ten steps nobody can move. *)
Lemma cpp_pool_quiesces_witness :
  ∃ p' ts', nsteps step 10 (started 1 [5] demo_cpp_pool [Run_check]) (p', ts') ∧ m_workqueue p' = [] ∧ Permutation (processed p') [5].
Proof.
  assert (∃ s', schedule [Some 0; None; Some 0; Some 0; Some 1; Some 1; Some 0; Some 0; Some 0; Some 0]%nat (started 1 [5] demo_cpp_pool [Run_check]) = Some s' ∧
    appended s'.1 = [5] ∧ s'.2 = [Run_wait; Append_end true] ∧ m_queuestat s'.1 = 0)
    as ([p' ts'] & Hs & Ha & Hts & Hst) by (eexists; split; [by vm_compute|by split_and!]).
  exists p', ts'. apply schedule_steps in Hs. split; [exact Hs|].
  destruct (cpp_pool_quiesces 1 1 1 [5] demo_cpp_pool [Run_check] eq_refl _ _ _ Hs) as (_ & Hend). cbn [fst snd] in *.
  destruct Hend as (_ & Hq & _ & Hp); [|rewrite Ha in Hp; by split].
  intros i c Hi. rewrite Hts in Hi. apply list_elem_of_lookup_2, list_elem_of_In in Hi as [<-|[<-|[]]]; simpl; [|done].
  unfold sem_wait. by rewrite Hst.
Defined.

(** The pool is deleted while its worker has not started. *)
Lemma cpp_pool_delete_undefined_witness :
  nsteps step 0 (started 0 [] demo_cpp_pool [Run_check]) (demo_cpp_pool, [Run_check]) ∧ threadpool_delete demo_cpp_pool [Run_check] = None.
Proof. split; [constructor|]. apply (cpp_pool_delete_undefined 1 1 0 [] demo_cpp_pool [Run_check] eq_refl 0%nat). constructor. Defined.
